(** * klik-api: the wallet-ownership claim and agent-lifecycle engine

    A shallow embedding of the claim subsystem of the KLIK API
    (src/utils/solanaSignature.js, src/services/memoSender.js,
    src/middleware/claimRateLimit.js, src/routes/claim.js,
    src/crons/orphanTransition.js, the claim notification cron and the
    adoption and watchlist routes of src/routes/userAgents.js) together
    with the properties its specification states about it and further
    properties of the code.

    Conventions.  Timestamps are milliseconds since the epoch, as [Z].
    MongoDB collections are lists of documents in natural order, except
    [Agent] and [orphan_watchlist], which are finite maps from [_id] to
    document (the primary key is unique).  Redis is a finite map from
    keys to values with an optional expiry instant.  A JavaScript
    exception is an explicit error result; the [try]/[catch] blocks of
    the source are written out. *)

From Stdlib Require Import ZArith QArith Qround Qabs Ascii.
From stdpp Require Import gmap strings list fin_maps pretty.

Close Scope Q_scope.
Local Open Scope Z_scope.

(* ===================================================================== *)
(** ** src/services/memoSender.js : cost estimation *)
(* ===================================================================== *)

Module MemoSender.

Definition ESTIMATED_LAMPORTS_PER_TX : Z := 10000.

(** [parseFloat(x.toFixed(d))] for [x >= 0]: the multiple of [10^-d]
    nearest to [x], the larger one when two are equally near.  JavaScript
    numbers are modelled by exact rationals, so that a tie, which the
    double nearest to [x] may miss on either side, is rounded up. *)
Definition toFixed (d : nat) (x : Q) : Q :=
  (inject_Z (Qfloor (x * inject_Z (10 ^ Z.of_nat d) + (1 # 2)))
     / inject_Z (10 ^ Z.of_nat d))%Q.

Record BatchCost := {
  totalLamports : Z;
  totalSol : Q;
  totalUsd : Q;
  perTxLamports : Z;
  count : N;
}.

Definition estimateBatchCost (count : N) : BatchCost :=
  let totalLamports := Z.of_N count * ESTIMATED_LAMPORTS_PER_TX in
  let totalSol := (inject_Z totalLamports / inject_Z (10 ^ 9))%Q in
  (* Rough estimate at ~$150/SOL *)
  let totalUsd := (totalSol * inject_Z 150)%Q in
  {| totalLamports := totalLamports;
     totalSol := toFixed 6 totalSol;
     totalUsd := toFixed 2 totalUsd;
     perTxLamports := ESTIMATED_LAMPORTS_PER_TX;
     count := count |}.

End MemoSender.

(* ===================================================================== *)
(** ** src/utils/solanaSignature.js *)
(* ===================================================================== *)

Module SolanaSignature.

(** The values a caller can pass where a string is expected. *)
Inductive JsValue :=
| JsUndefined
| JsNull
| JsBoolean (b : bool)
| JsNumber (n : Z)
| JsString (s : string)
| JsObject.

Global Instance JsValue_eq_dec : EqDecision JsValue.
Proof. solve_decision. Defined.

Definition BASE58_ALPHABET : string :=
  "123456789ABCDEFGHJKLMNPQRSTUVWXYZabcdefghijkmnopqrstuvwxyz".

Definition chars (s : string) : list ascii := String.list_ascii_of_string s.

Definition in_range (lo hi c : ascii) : bool :=
  (nat_of_ascii lo <=? nat_of_ascii c)%nat && (nat_of_ascii c <=? nat_of_ascii hi)%nat.

(** The character class [[1-9A-HJ-NP-Za-km-z]]. *)
Definition base58_class (c : ascii) : bool :=
  in_range "1" "9" c || in_range "A" "H" c || in_range "J" "N" c
  || in_range "P" "Z" c || in_range "a" "k" c || in_range "m" "z" c.

(** [/^[1-9A-HJ-NP-Za-km-z]{32,44}$/.test(s)] *)
Definition address_regex (s : string) : bool :=
  (32 <=? String.length s)%nat && (String.length s <=? 44)%nat
  && forallb base58_class (chars s).

(** *** bs58 and PublicKey of @solana/web3.js *)

Fixpoint index_of (c : ascii) (l : list ascii) : option N :=
  match l with
  | [] => None
  | d :: l' => if Ascii.eqb c d then Some 0%N
               else (fun i => N.succ i) <$> index_of c l'
  end.

Definition base58_digit (c : ascii) : option N := index_of c (chars BASE58_ALPHABET).

Fixpoint leading {A} (is_zero : A → bool) (l : list A) : nat :=
  match l with
  | x :: l' => if is_zero x then S (leading is_zero l') else 0%nat
  | [] => 0%nat
  end.

(** Big-endian digits of [n] in [base], none for zero. *)
Fixpoint digits_fuel (fuel : nat) (base n : N) (acc : list N) : list N :=
  match fuel with
  | O => acc
  | S fuel' =>
      if (n =? 0)%N then acc
      else digits_fuel fuel' base (n / base)%N ((n mod base)%N :: acc)
  end.

Definition digits (base n : N) : list N := digits_fuel (N.size_nat n) base n [].

Definition of_digits (base : N) (l : list N) : N :=
  foldl (fun acc d => (acc * base + d)%N) 0%N l.

(** [bs58.decode]: throws ([None]) on a character outside the alphabet;
    each leading ['1'] is one zero byte. *)
Definition bs58_decode (s : string) : option (list N) :=
  ds ← mapM base58_digit (chars s);
  Some (replicate (leading (N.eqb 0) ds) 0%N ++ digits 256 (of_digits 58 ds)).

(** [bs58.encode] *)
Definition bs58_encode (bytes : list N) : string :=
  String.string_of_list_ascii
    (replicate (leading (N.eqb 0) bytes) "1"%char
     ++ omap (fun d => chars BASE58_ALPHABET !! N.to_nat d)
             (digits 58 (of_digits 256 bytes))).

Definition PUBLIC_KEY_LENGTH : nat := 32.

(** [new PublicKey(s)] for a string: the decoded bytes, which must be
    exactly 32; throws ([None]) otherwise. *)
Definition PublicKey_of_string (s : string) : option (list N) :=
  decoded ← bs58_decode s;
  if decide (length decoded = PUBLIC_KEY_LENGTH) then Some decoded else None.

Definition PublicKey_toBase58 (key : list N) : string := bs58_encode key.

Section IsValid.
(** The validation is stated over any implementation of the key
    constructor and its printer. *)
Context {PublicKey : Type}.
Variable new_PublicKey : string → option PublicKey.
Variable toBase58 : PublicKey → string.

Definition isValidSolanaAddress (address : JsValue) : bool :=
  match address with
  | JsString s =>
      if String.eqb s "" then false          (* !address *)
      else if negb (address_regex s) then false
      else
        match new_PublicKey s with
        | Some pubkey => String.eqb (toBase58 pubkey) s
        | None => false                      (* catch (err) *)
        end
  | _ => false                               (* typeof address !== 'string' *)
  end.
End IsValid.

Section Verify.
(** [nacl.sign.detached.verify(message, signature, publicKey)] of
    tweetnacl, over the UTF-8 bytes of the message. *)
Variable nacl_sign_detached_verify : list ascii → list N → list N → bool.

Definition verifySolanaSignature (walletAddress message : string)
    (signature : JsValue) : bool :=
  match bs58_decode walletAddress with
  | Some publicKeyBytes =>
      let messageBytes := chars message in
      match signature with
      | JsString sig =>
          match bs58_decode sig with
          | Some signatureBytes =>
              if negb (length publicKeyBytes =? 32)%nat then false
              else if negb (length signatureBytes =? 64)%nat then false
              else nacl_sign_detached_verify messageBytes signatureBytes publicKeyBytes
          | None => false                    (* catch (err) *)
          end
      | _ => false                           (* catch (err) *)
      end
  | None => false                            (* catch (err) *)
  end.
End Verify.

(** The validator as the routes use it. *)
Definition isValidAddress : JsValue → bool :=
  isValidSolanaAddress PublicKey_of_string PublicKey_toBase58.

Definition LF : string := String (ascii_of_nat 10) "".

Definition join_lines (lines : list string) : string :=
  match lines with
  | [] => ""
  | l :: ls => foldl (fun acc x => acc +:+ LF +:+ x) l ls
  end.

Definition generateClaimMessage (agentId walletAddress nonce timestamp : string) : string :=
  join_lines [
    "Claim OpenClaw Agent #" +:+ agentId +:+ " for wallet " +:+ walletAddress;
    "";
    "Nonce: " +:+ nonce;
    "Timestamp: " +:+ timestamp;
    "Domain: klik.cool" ].

Definition generateOptOutMessage (walletAddress nonce timestamp : string) : string :=
  join_lines [
    "Opt out of OpenClaw for wallet " +:+ walletAddress;
    "";
    "I request permanent deletion of my OpenClaw agent and all associated data.";
    "";
    "Nonce: " +:+ nonce;
    "Timestamp: " +:+ timestamp;
    "Domain: klik.cool" ].

End SolanaSignature.

(* ===================================================================== *)
(** ** Asynchronous handlers *)
(* ===================================================================== *)

(** An [async] function is a sequence of commands sent to the stores, each
    awaited before the next is sent.  Between two [await]s the function
    runs alone; at an [await] any other pending handler may run.  A task
    is either finished, or the next awaited command with what follows. *)

Module Async.
Section Task.
Context {W : Type}.

Inductive Task (A : Type) : Type :=
| Ret (a : A)
| Await {X : Type} (op : W → X * W) (k : X → Task A).
Global Arguments Ret {A} a.
Global Arguments Await {A X} op k.

Fixpoint bind {A B} (t : Task A) (f : A → Task B) : Task B :=
  match t with
  | Ret a => f a
  | Await op k => Await op (fun x => bind (k x) f)
  end.

Global Instance Task_ret : MRet Task := fun A a => Ret a.
Global Instance Task_bind : MBind Task := fun A B f t => bind t f.

(** [await c] for one command. *)
Definition await {X} (op : W → X * W) : Task X := Await op Ret.

(** A handler running alone, to its end. *)
Fixpoint run {A} (t : Task A) (w : W) : A * W :=
  match t with
  | Ret a => (a, w)
  | Await op k => let '(x, w') := op w in run (k x) w'
  end.

(** One command of a task. *)
Definition step {A} (t : Task A) (w : W) : Task A * W :=
  match t with
  | Ret a => (Ret a, w)
  | Await op k => let '(x, w') := op w in (k x, w')
  end.

Definition finished {A} (t : Task A) : option A :=
  match t with
  | Ret a => Some a
  | Await _ _ => None
  end.

(** Pending handlers over one world; [step_pool i] lets handler [i]
    send its next command. *)
Definition step_pool {A} (i : nat) (st : W * list (Task A)) : W * list (Task A) :=
  match st.2 !! i with
  | Some t => let '(t', w') := step t st.1 in (w', <[i := t']> st.2)
  | None => st
  end.

(** An interleaving is the order in which the handlers take steps. *)
Definition exec {A} (sched : list nat) (st : W * list (Task A)) : W * list (Task A) :=
  foldl (fun st i => step_pool i st) st sched.

(** The worlds an interleaving goes through, the first one included. *)
Fixpoint history {A} (sched : list nat) (st : W * list (Task A)) : list W :=
  match sched with
  | [] => [st.1]
  | i :: sched' => st.1 :: history sched' (step_pool i st)
  end.

(** The worlds a handler running alone goes through, one after each
    command. *)
Fixpoint trace {A} (t : Task A) (w : W) : list W :=
  match t with
  | Ret _ => []
  | Await op k => let '(x, w') := op w in w' :: trace (k x) w'
  end.

(** [future R P t]: every command [t] will send takes the world to
    one related to it by [R], and the result of [t] satisfies [P]. *)
Fixpoint future {A} (R : W → W → Prop) (P : A → Prop) (t : Task A) : Prop :=
  match t with
  | Ret a => P a
  | Await op k => ∀ w, R w (op w).2 ∧ future R P (k (op w).1)
  end.
End Task.
Global Arguments Task : clear implicits.
End Async.

(* ===================================================================== *)
(** ** The data model *)
(* ===================================================================== *)

Module Store.
Import SolanaSignature.

Definition ObjectId := N.

Inductive ClaimStatus := UNCLAIMED | CLAIMED | ORPHANED | ADOPTED | OPTED_OUT.

Global Instance ClaimStatus_eq_dec : EqDecision ClaimStatus.
Proof. solve_decision. Defined.

Definition status_name (c : ClaimStatus) : string :=
  match c with
  | UNCLAIMED => "UNCLAIMED" | CLAIMED => "CLAIMED" | ORPHANED => "ORPHANED"
  | ADOPTED => "ADOPTED" | OPTED_OUT => "OPTED_OUT"
  end.

Record WalletAgentData := {
  sourceWallet : string;
  claimStatus : option ClaimStatus;
  claimDeadline : option Z;
  claimedAt : option Z;
  claimSignature : option JsValue;
  claimNonce : option JsValue;
  claimedBy : option string;
  orphanedAt : option Z;
  foundingWallet : bool;
  foundingRank : option N;
}.

Record AgentDoc := {
  name : string;
  displayName : string;
  isWalletAgent : bool;
  walletAgentData : option WalletAgentData;
  userId : option ObjectId;
  owner : option ObjectId;
  createdAt : Z;
  updatedAt : Z;
  postCount : N;
  tipsEarned : N;
}.

(** ['walletAgentData.claimStatus'] and the like in a query filter. *)
Definition wad_status (a : AgentDoc) : option ClaimStatus :=
  d ← walletAgentData a; claimStatus d.
Definition wad_wallet (a : AgentDoc) : option string :=
  sourceWallet <$> walletAgentData a.
Definition wad_deadline (a : AgentDoc) : option Z :=
  d ← walletAgentData a; claimDeadline d.

Record UserDoc := {
  user_id : ObjectId;
  user_walletAddress : string;
  user_authMethod : string;
  user_subscriptionTier : string;
  user_agentCount : N;
  user_lastLoginAt : option Z;
  user_createdAt : Z;
}.

Record OptOutDoc := {
  optout_walletAddress : string;
  optedOutAt : Z;
  optout_signature : JsValue;
  optout_agentId : option ObjectId;
  optout_agentName : option string;
}.

(** An entry of the audit log [wallet_agent_claims]. *)
Record ClaimLog := {
  log_walletAddress : option string;
  log_agentId : option ObjectId;
  log_userId : option ObjectId;
  log_action : string;
  log_result : option string;          (* [result] or [reason] *)
  log_foundingRank : option N;
  log_ip : string;
  log_timestamp : Z;
}.

Record WatcherDoc := {
  watcher_userId : ObjectId;
  watcher_agentId : ObjectId;
  notified : bool;
  notifiedAt : option Z;
}.

(** The [status] of a record of the memo cron. *)
Inductive Delivery := sent | failed.

Global Instance Delivery_eq_dec : EqDecision Delivery.
Proof. solve_decision. Defined.

Record MemoRecord := {
  memo_walletAddress : string;
  memo_agentId : ObjectId;               (* as a string *)
  memo_channel : string;
  memo_template : string;
  memo_message : option string;
  memo_status : Delivery;
  memo_txSignature : option string;
  memo_error : option string;
  memo_scheduledDay : Z;
  memo_actualDay : Z;
  memo_sentAt : Z;
}.

Record OrphanNotice := {
  notice_userId : ObjectId;
  notice_agentId : ObjectId;             (* as an ObjectId *)
  notice_agentName : string;
  notice_message : string;
  notice_read : bool;
  notice_createdAt : Z;
}.

(** [wallet_agent_notifications] holds the notices of the orphan cron,
    whose [agentId] is an ObjectId, and the records of the memo cron,
    whose [agentId] is the string [agent._id.toString()]. *)
Inductive NotificationDoc :=
| Notice (n : OrphanNotice)
| Memo (m : MemoRecord).

(** A document owned by an agent (a post, a comment, a memory, a
    personality), by the field that names the agent. *)
Record OwnedDoc := {
  owned_id : ObjectId;
  owned_by : ObjectId;
}.

Record Db := {
  Agent : gmap ObjectId AgentDoc;
  User : list UserDoc;
  wallet_opt_outs : list OptOutDoc;
  wallet_agent_claims : list ClaimLog;
  orphan_watchlist : gmap ObjectId WatcherDoc;
  wallet_agent_notifications : list NotificationDoc;
  Post : list OwnedDoc;
  Comment : list OwnedDoc;
  agent_memory : list OwnedDoc;
  agent_personality : list OwnedDoc;
  next_id : ObjectId;                    (* the next generated ObjectId *)
}.

Definition with_Agent (f : gmap ObjectId AgentDoc → gmap ObjectId AgentDoc) (d : Db) : Db :=
  {| Agent := f (Agent d); User := User d; wallet_opt_outs := wallet_opt_outs d;
     wallet_agent_claims := wallet_agent_claims d; orphan_watchlist := orphan_watchlist d;
     wallet_agent_notifications := wallet_agent_notifications d; Post := Post d;
     Comment := Comment d; agent_memory := agent_memory d;
     agent_personality := agent_personality d; next_id := next_id d |}.

Definition with_User (f : list UserDoc → list UserDoc) (d : Db) : Db :=
  {| Agent := Agent d; User := f (User d); wallet_opt_outs := wallet_opt_outs d;
     wallet_agent_claims := wallet_agent_claims d; orphan_watchlist := orphan_watchlist d;
     wallet_agent_notifications := wallet_agent_notifications d; Post := Post d;
     Comment := Comment d; agent_memory := agent_memory d;
     agent_personality := agent_personality d; next_id := next_id d |}.

Definition with_opt_outs (f : list OptOutDoc → list OptOutDoc) (d : Db) : Db :=
  {| Agent := Agent d; User := User d; wallet_opt_outs := f (wallet_opt_outs d);
     wallet_agent_claims := wallet_agent_claims d; orphan_watchlist := orphan_watchlist d;
     wallet_agent_notifications := wallet_agent_notifications d; Post := Post d;
     Comment := Comment d; agent_memory := agent_memory d;
     agent_personality := agent_personality d; next_id := next_id d |}.

Definition with_claims (f : list ClaimLog → list ClaimLog) (d : Db) : Db :=
  {| Agent := Agent d; User := User d; wallet_opt_outs := wallet_opt_outs d;
     wallet_agent_claims := f (wallet_agent_claims d); orphan_watchlist := orphan_watchlist d;
     wallet_agent_notifications := wallet_agent_notifications d; Post := Post d;
     Comment := Comment d; agent_memory := agent_memory d;
     agent_personality := agent_personality d; next_id := next_id d |}.

Definition with_watchlist
    (f : gmap ObjectId WatcherDoc → gmap ObjectId WatcherDoc) (d : Db) : Db :=
  {| Agent := Agent d; User := User d; wallet_opt_outs := wallet_opt_outs d;
     wallet_agent_claims := wallet_agent_claims d; orphan_watchlist := f (orphan_watchlist d);
     wallet_agent_notifications := wallet_agent_notifications d; Post := Post d;
     Comment := Comment d; agent_memory := agent_memory d;
     agent_personality := agent_personality d; next_id := next_id d |}.

Definition with_notifications (f : list NotificationDoc → list NotificationDoc) (d : Db) : Db :=
  {| Agent := Agent d; User := User d; wallet_opt_outs := wallet_opt_outs d;
     wallet_agent_claims := wallet_agent_claims d; orphan_watchlist := orphan_watchlist d;
     wallet_agent_notifications := f (wallet_agent_notifications d); Post := Post d;
     Comment := Comment d; agent_memory := agent_memory d;
     agent_personality := agent_personality d; next_id := next_id d |}.

Definition with_Post (f : list OwnedDoc → list OwnedDoc) (d : Db) : Db :=
  {| Agent := Agent d;
     User := User d;
     wallet_opt_outs := wallet_opt_outs d;
     wallet_agent_claims := wallet_agent_claims d;
     orphan_watchlist := orphan_watchlist d;
     wallet_agent_notifications := wallet_agent_notifications d;
     Post := f (Post d);
     Comment := Comment d;
     agent_memory := agent_memory d;
     agent_personality := agent_personality d;
     next_id := next_id d |}.

Definition with_Comment (f : list OwnedDoc → list OwnedDoc) (d : Db) : Db :=
  {| Agent := Agent d;
     User := User d;
     wallet_opt_outs := wallet_opt_outs d;
     wallet_agent_claims := wallet_agent_claims d;
     orphan_watchlist := orphan_watchlist d;
     wallet_agent_notifications := wallet_agent_notifications d;
     Post := Post d;
     Comment := f (Comment d);
     agent_memory := agent_memory d;
     agent_personality := agent_personality d;
     next_id := next_id d |}.

Definition with_agent_memory (f : list OwnedDoc → list OwnedDoc) (d : Db) : Db :=
  {| Agent := Agent d;
     User := User d;
     wallet_opt_outs := wallet_opt_outs d;
     wallet_agent_claims := wallet_agent_claims d;
     orphan_watchlist := orphan_watchlist d;
     wallet_agent_notifications := wallet_agent_notifications d;
     Post := Post d;
     Comment := Comment d;
     agent_memory := f (agent_memory d);
     agent_personality := agent_personality d;
     next_id := next_id d |}.

Definition with_agent_personality (f : list OwnedDoc → list OwnedDoc) (d : Db) : Db :=
  {| Agent := Agent d;
     User := User d;
     wallet_opt_outs := wallet_opt_outs d;
     wallet_agent_claims := wallet_agent_claims d;
     orphan_watchlist := orphan_watchlist d;
     wallet_agent_notifications := wallet_agent_notifications d;
     Post := Post d;
     Comment := Comment d;
     agent_memory := agent_memory d;
     agent_personality := f (agent_personality d);
     next_id := next_id d |}.

Definition with_next_id (n : ObjectId) (d : Db) : Db :=
  {| Agent := Agent d; User := User d; wallet_opt_outs := wallet_opt_outs d;
     wallet_agent_claims := wallet_agent_claims d; orphan_watchlist := orphan_watchlist d;
     wallet_agent_notifications := wallet_agent_notifications d; Post := Post d;
     Comment := Comment d; agent_memory := agent_memory d;
     agent_personality := agent_personality d; next_id := n |}.

(** *** Redis *)

(** What a key holds: the JSON text of a nonce record (kept parsed, as
    [JSON.parse] inverts [JSON.stringify] on a record of strings), the
    decimal text of a counter (kept as the integer), or the JSON text of
    another object (the cached statistics, the summary of a cron run),
    which has no field [nonce]. *)
Record NonceRecord := {
  nonce : string;
  timestamp : string;
  message : string;
}.

Inductive RedisValue :=
| RNonce (r : NonceRecord)
| RCounter (n : Z)
| RJson (s : string).

Record RedisEntry := {
  held : RedisValue;
  expireAt : option Z;                   (* the instant the key vanishes *)
}.

Definition live (now : Z) (e : RedisEntry) : bool :=
  match expireAt e with
  | Some t => now <? t
  | None => true
  end.

Record World := {
  db : Db;
  redis : gmap string RedisEntry;
  published : list (string * ObjectId);  (* klik:agent_activity events *)
}.

Definition with_db (f : Db → Db) (w : World) : World :=
  {| db := f (db w); redis := redis w; published := published w |}.
Definition with_redis (f : gmap string RedisEntry → gmap string RedisEntry) (w : World) : World :=
  {| db := db w; redis := f (redis w); published := published w |}.
Definition with_published (f : list (string * ObjectId) → list (string * ObjectId))
    (w : World) : World :=
  {| db := db w; redis := redis w; published := f (published w) |}.

End Store.

(* ===================================================================== *)
(** ** The stores' commands *)
(* ===================================================================== *)

Module Commands.
Import SolanaSignature Store.

(** *** Redis *)

Definition redis_get (now : Z) (key : string) (w : World) : option RedisValue * World :=
  (e ← redis w !! key; if live now e then Some (held e) else None, w).

(** [redis.set(key, value, { EX: seconds })] *)
Definition redis_set_ex (now : Z) (key : string) (v : RedisValue) (seconds : Z)
    (w : World) : unit * World :=
  ((), with_redis <[key := {| held := v; expireAt := Some (now + 1000 * seconds) |}]> w).

Definition redis_del (key : string) (w : World) : unit * World :=
  ((), with_redis (delete key) w).

(** [INCR]: a key that is absent or expired counts from zero and gets
    no expiry; a key that holds no integer is an error ([None]). *)
Definition redis_incr (now : Z) (key : string) (w : World) : option Z * World :=
  match redis w !! key with
  | Some e =>
      if live now e then
        match held e with
        | RCounter n =>
            (Some (n + 1),
             with_redis <[key := {| held := RCounter (n + 1); expireAt := expireAt e |}]> w)
        | _ => (None, w)
        end
      else (Some 1, with_redis <[key := {| held := RCounter 1; expireAt := None |}]> w)
  | None => (Some 1, with_redis <[key := {| held := RCounter 1; expireAt := None |}]> w)
  end.

Definition redis_expire (now : Z) (key : string) (seconds : Z) (w : World) : unit * World :=
  match redis w !! key with
  | Some e =>
      if live now e then
        ((), with_redis <[key := {| held := held e; expireAt := Some (now + 1000 * seconds) |}]> w)
      else ((), w)
  | None => ((), w)
  end.

Definition redis_publish (event : string) (agent : ObjectId) (w : World) : unit * World :=
  ((), with_published (fun l => l ++ [(event, agent)]) w).

(** *** MongoDB *)

Definition fresh_id (w : World) : ObjectId * World :=
  (next_id (db w), with_db (with_next_id (N.succ (next_id (db w)))) w).

(** [findOne] on [Agent] by a filter: the first match in the order of
    the collection. *)
Definition find_agent (P : ObjectId → AgentDoc → bool) (w : World)
    : option (ObjectId * AgentDoc) * World :=
  (head (filter (fun p => P p.1 p.2 = true) (map_to_list (Agent (db w)))), w).

(** [updateOne({ _id }, { $set })] *)
Definition update_agent (id : ObjectId) (f : AgentDoc → AgentDoc) (w : World) : unit * World :=
  ((), with_db (with_Agent (alter f id)) w).

(** [findOneAndUpdate(filter with _id, { $set }, { returnDocument: 'after' })]:
    the document is tested and written in one step; the result is the
    [value] of what the driver returns, the document after the update,
    or nothing when the filter matched no document. *)
Definition find_agent_and_update (id : ObjectId) (P : AgentDoc → bool)
    (f : AgentDoc → AgentDoc) (w : World) : option AgentDoc * World :=
  match Agent (db w) !! id with
  | Some a =>
      if P a then (Some (f a), with_db (with_Agent <[id := f a]>) w)
      else (None, w)
  | None => (None, w)
  end.

Definition count_agents (P : ObjectId → AgentDoc → bool) (w : World) : N * World :=
  (N.of_nat (length (filter (fun p => P p.1 p.2 = true) (map_to_list (Agent (db w))))), w).

Definition delete_agent (id : ObjectId) (w : World) : unit * World :=
  ((), with_db (with_Agent (delete id)) w).

Definition log_claim (entry : ClaimLog) (w : World) : unit * World :=
  ((), with_db (with_claims (fun l => l ++ [entry])) w).

Definition find_opt_out (wallet : string) (w : World) : option OptOutDoc * World :=
  (head (filter (fun o => optout_walletAddress o = wallet) (wallet_opt_outs (db w))), w).

(** [wallet_opt_outs] has a unique index on [walletAddress]: inserting a
    second record for a wallet is a duplicate-key error ([false]). *)
Definition insert_opt_out (o : OptOutDoc) (w : World) : bool * World :=
  if decide (optout_walletAddress o ∈ optout_walletAddress <$> wallet_opt_outs (db w))
  then (false, w)
  else (true, with_db (with_opt_outs (fun l => l ++ [o])) w).

Definition find_user (wallet : string) (w : World) : option UserDoc * World :=
  (head (filter (fun u => user_walletAddress u = wallet) (User (db w))), w).

Definition insert_user (u : ObjectId → UserDoc) (w : World) : ObjectId * World :=
  let id := next_id (db w) in
  (id, with_db (fun d => with_next_id (N.succ id) (with_User (fun l => l ++ [u id]) d)) w).

(** [deleteMany] on the collections that name an agent. *)
Definition owned_elsewhere (id : ObjectId) (l : list OwnedDoc) : list OwnedDoc :=
  filter (fun o => owned_by o ≠ id) l.

Definition delete_posts (id : ObjectId) (w : World) : unit * World :=
  ((), with_db (with_Post (owned_elsewhere id)) w).
Definition delete_comments (id : ObjectId) (w : World) : unit * World :=
  ((), with_db (with_Comment (owned_elsewhere id)) w).
Definition delete_memory (id : ObjectId) (w : World) : unit * World :=
  ((), with_db (with_agent_memory (owned_elsewhere id)) w).
Definition delete_personality (id : ObjectId) (w : World) : unit * World :=
  ((), with_db (with_agent_personality (owned_elsewhere id)) w).
Definition delete_watchers (id : ObjectId) (w : World) : unit * World :=
  ((), with_db (with_watchlist (filter (fun x => watcher_agentId x.2 ≠ id))) w).

(** [deleteMany({ agentId: agent._id })] on [wallet_agent_notifications]
    compares with an ObjectId: it matches the notices of the orphan
    cron and none of the memo records, whose [agentId] is a string. *)
Definition names_agent (id : ObjectId) (n : NotificationDoc) : Prop :=
  match n with
  | Notice o => notice_agentId o = id
  | Memo _ => False
  end.

Global Instance names_agent_dec id n : Decision (names_agent id n).
Proof. destruct n; simpl; apply _. Defined.

Definition delete_notifications (id : ObjectId) (w : World) : unit * World :=
  ((), with_db (with_notifications (filter (fun n => ¬ names_agent id n))) w).

(** [find({ authorId }, { sort, limit: 3 })] on [Post]. *)
Definition recent_posts (id : ObjectId) (w : World) : list OwnedDoc * World :=
  (take 3 (filter (fun o => owned_by o = id) (Post (db w))), w).

End Commands.

(* ===================================================================== *)
(** ** src/middleware/claimRateLimit.js *)
(* ===================================================================== *)

Module ClaimRateLimit.
Import SolanaSignature Store Commands Async.

(** What a request brings besides its body: the clock, the address of
    the client, the random bytes drawn for a nonce, and the handles
    [req.db] and [req.redis]. *)
Inductive RedisClient := NoRedis | RedisNotReady | RedisReady.

Inductive RedisCmd :=
| INCR (key : string)
| EXPIRE (key : string)
| GET (key : string).

Record Env := {
  now : Z;
  now_iso : string;                      (* [new Date().toISOString()] *)
  ip : string;                           (* [req.ip], empty when unset *)
  remoteAddress : string;                (* [req.connection?.remoteAddress] *)
  random_hex : string;                   (* [crypto.randomBytes(32).toString('hex')] *)
  db_handle : bool;                      (* [req.db] is set *)
  redis_client : RedisClient;            (* [req.redis] and its [isReady] *)
  redis_broken : RedisCmd → bool;        (* the commands that throw *)
}.

(** The responses of the routes.  An error is kept by its status and
    its [code]; the two errors the source sends with no code are named
    here: [DATABASE_UNAVAILABLE] for the 503 of a missing [req.db], and
    [OPT_OUT_FAILED] for the 500 of the [catch] of the opt-out route. *)
Inductive Reply :=
| Error (status : N) (code : string)
| CheckReply (eligible : bool) (reason : option string)
    (agent : option ObjectId) (daysRemaining : option Z)
| NonceReply (nonce message timestamp : string) (expiresIn : Z)
| ClaimReply (agent user : ObjectId) (foundingRank : option N)
| OptOutReply (wallet : string) (optedOutAt : Z).

(** *** Values of a request body *)

Definition truthy (v : JsValue) : bool :=
  match v with
  | JsUndefined | JsNull => false
  | JsBoolean b => b
  | JsNumber n => negb (n =? 0)
  | JsString s => negb (String.eqb s "")
  | JsObject => true
  end.

(** [`${v}`] *)
Definition to_string (v : JsValue) : string :=
  match v with
  | JsUndefined => "undefined"
  | JsNull => "null"
  | JsBoolean b => if b then "true" else "false"
  | JsNumber n => pretty n
  | JsString s => s
  | JsObject => "[object Object]"
  end.

(** [parseInt(text, 10)] of the text [redis.get] returns for a value,
    [None] for [NaN]. *)
Definition value_parseInt (v : RedisValue) : option Z :=
  match v with
  | RCounter n => Some n
  | RNonce _ | RJson _ => None           (* the text starts with a brace *)
  end.

(** A command that may throw: [None] is the exception, and a command
    that throws has had no effect. *)
Definition attempt {X} (env : Env) (c : RedisCmd) (op : World → X * World)
    (w : World) : option X * World :=
  if redis_broken env c then (None, w)
  else let '(x, w') := op w in (Some x, w').

Definition attempt_incr (env : Env) (key : string) (w : World) : option Z * World :=
  let '(r, w') := attempt env (INCR key) (redis_incr (now env) key) w in
  (mjoin r, w').

Definition ABUSE_IP_LIMIT : Z := 100.
Definition ABUSE_WALLET_LIMIT : Z := 5.

Definition client_ip (env : Env) : string :=
  if negb (String.eqb (ip env) "") then ip env
  else if negb (String.eqb (remoteAddress env) "") then remoteAddress env
  else "unknown".

Definition ip_key (env : Env) : string := "claim:abuse:ip:" +:+ client_ip env.
Definition wallet_fail_key (wallet : string) : string := "claim:abuse:wallet:" +:+ wallet.

(** [detectClaimAbuse]: [None] is [next()], [Some r] the response that
    ends the request.  Every [None] of a command is the [catch]. *)
Definition detectClaimAbuse (env : Env) (wallet : JsValue) : Task World (option Reply) :=
  match redis_client env with
  | RedisReady =>
      ipCount ← await (attempt_incr env (ip_key env));
      match ipCount with
      | None => mret None
      | Some ipCount =>
          expired ← (if ipCount =? 1
                     then await (attempt env (EXPIRE (ip_key env))
                                   (redis_expire (now env) (ip_key env) 3600))
                     else mret (Some ()));
          match expired with
          | None => mret None
          | Some _ =>
              if ABUSE_IP_LIMIT <? ipCount then
                mret (Some (Error 429 "ABUSE_IP_BLOCKED"))
              else if truthy wallet then
                let walletFailKey := wallet_fail_key (to_string wallet) in
                got ← await (attempt env (GET walletFailKey)
                               (redis_get (now env) walletFailKey));
                match got with
                | None => mret None
                | Some walletFailCount =>
                    match walletFailCount with
                    | Some v =>
                        if from_option (Z.leb ABUSE_WALLET_LIMIT) false (value_parseInt v)
                        then mret (Some (Error 429 "ABUSE_WALLET_BLOCKED"))
                        else mret None
                    | None => mret None
                    end
                end
              else mret None
          end
      end
  | _ => mret None
  end.

(** [recordFailedClaimAttempt(redis, wallet)] *)
Definition recordFailedClaimAttempt (env : Env) (wallet : JsValue) : Task World unit :=
  match redis_client env with
  | RedisReady =>
      if truthy wallet then
        let key := wallet_fail_key (to_string wallet) in
        count ← await (attempt_incr env key);
        match count with
        | Some 1 =>
            await (attempt env (EXPIRE key) (redis_expire (now env) key 3600));;
            mret ()
        | _ => mret ()
        end
      else mret ()
  | _ => mret ()
  end.

End ClaimRateLimit.

(* ===================================================================== *)
(** ** src/routes/claim.js *)
(* ===================================================================== *)

Module ClaimRoutes.
Import SolanaSignature Store Commands Async ClaimRateLimit.

Definition NONCE_TTL_SECONDS : Z := 300.
Definition DAY_MS : Z := 1000 * 60 * 60 * 24.

(** [ObjectId.isValid] and [new ObjectId] of the MongoDB driver, for
    the identifiers the routes hand out: a string of 24 hexadecimal
    digits.  The other forms that versions of the driver accept (a
    number, a string of 12 characters) are taken as invalid. *)
Definition hex_value (c : ascii) : option N :=
  let n := nat_of_ascii c in
  if (48 <=? n)%nat && (n <=? 57)%nat then Some (N.of_nat (n - 48))
  else if (97 <=? n)%nat && (n <=? 102)%nat then Some (N.of_nat (n - 87))
  else if (65 <=? n)%nat && (n <=? 70)%nat then Some (N.of_nat (n - 55))
  else None.

Definition parse_ObjectId (v : JsValue) : option ObjectId :=
  match v with
  | JsString s =>
      if (String.length s =? 24)%nat
      then of_digits 16 <$> mapM hex_value (chars s)
      else None
  | _ => None
  end.

Definition claim_nonce_key (agentId wallet : string) : string :=
  "claim:nonce:" +:+ agentId +:+ ":" +:+ wallet.
Definition optout_nonce_key (wallet : string) : string :=
  "claim:optout:nonce:" +:+ wallet.

(** The filter [{ 'walletAgentData.sourceWallet': wallet, isWalletAgent: true }]. *)
Definition agent_of_wallet (wallet : string) (_ : ObjectId) (a : AgentDoc) : bool :=
  bool_decide (wad_wallet a = Some wallet) && isWalletAgent a.

(** The filter of the conditional update of a claim. *)
Definition claimable_by (wallet : string) (a : AgentDoc) : bool :=
  bool_decide (wad_wallet a = Some wallet)
  && bool_decide (wad_status a = Some UNCLAIMED)
  && isWalletAgent a.

Definition set_claimed (now : Z) (wallet : string) (signature nonce : JsValue)
    (a : AgentDoc) : AgentDoc :=
  let d := walletAgentData a in
  {| name := name a; displayName := displayName a; isWalletAgent := isWalletAgent a;
     walletAgentData :=
       (fun d => {| sourceWallet := sourceWallet d;
                    claimStatus := Some CLAIMED;
                    claimDeadline := claimDeadline d;
                    claimedAt := Some now;
                    claimSignature := Some signature;
                    claimNonce := Some nonce;
                    claimedBy := Some wallet;
                    orphanedAt := orphanedAt d;
                    foundingWallet := foundingWallet d;
                    foundingRank := foundingRank d |}) <$> d;
     userId := userId a; owner := owner a; createdAt := createdAt a;
     updatedAt := now; postCount := postCount a; tipsEarned := tipsEarned a |}.

Definition set_owner (now : Z) (user : ObjectId) (a : AgentDoc) : AgentDoc :=
  {| name := name a; displayName := displayName a; isWalletAgent := isWalletAgent a;
     walletAgentData := walletAgentData a;
     userId := Some user; owner := Some user; createdAt := createdAt a;
     updatedAt := now; postCount := postCount a; tipsEarned := tipsEarned a |}.

Definition set_founding (rank : N) (a : AgentDoc) : AgentDoc :=
  {| name := name a; displayName := displayName a; isWalletAgent := isWalletAgent a;
     walletAgentData :=
       (fun d => {| sourceWallet := sourceWallet d;
                    claimStatus := claimStatus d;
                    claimDeadline := claimDeadline d;
                    claimedAt := claimedAt d;
                    claimSignature := claimSignature d;
                    claimNonce := claimNonce d;
                    claimedBy := claimedBy d;
                    orphanedAt := orphanedAt d;
                    foundingWallet := true;
                    foundingRank := Some rank |}) <$> walletAgentData a;
     userId := userId a; owner := owner a; createdAt := createdAt a;
     updatedAt := updatedAt a; postCount := postCount a; tipsEarned := tipsEarned a |}.

Definition audit (env : Env) (wallet : string) (agent user : option ObjectId)
    (action : string) (result : option string) (rank : option N) : ClaimLog :=
  {| log_walletAddress := Some wallet; log_agentId := agent; log_userId := user;
     log_action := action; log_result := result; log_foundingRank := rank;
     log_ip := ip env; log_timestamp := now env |}.

(** [Math.ceil(ms / day)] *)
Definition ceil_days (ms : Z) : Z := - ((- ms) / DAY_MS).

(** *** GET /api/v1/claim/check *)

Definition check (env : Env) (wallet : JsValue) : Task World Reply :=
  if negb (truthy wallet) then mret (Error 400 "MISSING_WALLET")
  else if negb (isValidAddress wallet) then mret (Error 400 "INVALID_WALLET")
  else if negb (db_handle env) then mret (Error 503 "DATABASE_UNAVAILABLE")
  else
    let wallet := to_string wallet in
    (* Check opt-out list *)
    optOut ← await (find_opt_out wallet);
    match optOut with
    | Some _ =>
        await (log_claim (audit env wallet None None "CHECK" (Some "OPTED_OUT") None));;
        mret (CheckReply false (Some "OPTED_OUT") None None)
    | None =>
        (* Find the wallet's agent *)
        agent ← await (find_agent (agent_of_wallet wallet));
        match agent with
        | None =>
            await (log_claim (audit env wallet None None "CHECK" (Some "NO_AGENT") None));;
            mret (CheckReply false (Some "NO_AGENT") None None)
        | Some (id, agent) =>
            let claimStatus := default UNCLAIMED (wad_status agent) in
            let claimDeadline := wad_deadline agent in
            let daysRemaining :=
              match claimDeadline with
              | Some deadline =>
                  if decide (claimStatus = UNCLAIMED)
                  then Some (Z.max 0 (ceil_days (deadline - now env)))
                  else None
              | None => None
              end in
            await (recent_posts id);;
            await (log_claim (audit env wallet (Some id) None "CHECK"
                                (Some (if decide (claimStatus = UNCLAIMED)
                                       then "ELIGIBLE" else status_name claimStatus))
                                None));;
            let eligible :=
              bool_decide (claimStatus = UNCLAIMED)
              && from_option (fun deadline => now env <? deadline) true claimDeadline in
            mret (CheckReply eligible
                    (if eligible then None else Some (status_name claimStatus))
                    (Some id) daysRemaining)
        end
    end.

(** *** POST /api/v1/claim/nonce *)

Definition issueClaimNonce (env : Env) (wallet agentId : JsValue) : Task World Reply :=
  if negb (truthy wallet) || negb (truthy agentId) then mret (Error 400 "MISSING_FIELDS")
  else if negb (isValidAddress wallet) then mret (Error 400 "INVALID_WALLET")
  else
    match parse_ObjectId agentId with
    | None => mret (Error 400 "INVALID_AGENT_ID")
    | Some id =>
        if negb (db_handle env) then mret (Error 503 "DATABASE_UNAVAILABLE")
        else
          let wallet := to_string wallet in
          (* Verify agent is claimable *)
          agent ← await (find_agent
                           (fun i a => bool_decide (i = id) && isWalletAgent a
                                       && bool_decide (wad_wallet a = Some wallet)));
          match agent with
          | None => mret (Error 404 "AGENT_NOT_FOUND")
          | Some (_, agent) =>
              let claimStatus := default UNCLAIMED (wad_status agent) in
              if negb (bool_decide (claimStatus = UNCLAIMED))
              then mret (Error 409 "NOT_CLAIMABLE")
              else if from_option (fun deadline => deadline <=? now env) false
                        (wad_deadline agent)
              then mret (Error 410 "CLAIM_EXPIRED")
              else
                let nonce := random_hex env in
                let timestamp := now_iso env in
                let message :=
                  generateClaimMessage (to_string agentId) wallet nonce timestamp in
                match redis_client env with
                | RedisReady =>
                    await (redis_set_ex (now env)
                             (claim_nonce_key (to_string agentId) wallet)
                             (RNonce {| nonce := nonce; timestamp := timestamp;
                                        message := message |})
                             NONCE_TTL_SECONDS);;
                    mret (NonceReply nonce message timestamp NONCE_TTL_SECONDS)
                | _ => mret (Error 503 "CACHE_UNAVAILABLE")
                end
          end
    end.

Section Signed.
Variable nacl_sign_detached_verify : list ascii → list N → list N → bool.

(** [JSON.parse(storedData)] and the field [nonce] and [message] of the
    result; a value that is no nonce record has neither. *)
Definition parsed_nonce (v : RedisValue) : option string :=
  match v with RNonce r => Some (nonce r) | _ => None end.
Definition parsed_message (v : RedisValue) : string :=
  match v with RNonce r => message r | _ => "undefined" end.

Definition new_user (env : Env) (wallet : string) (id : ObjectId) : UserDoc :=
  {| user_id := id; user_walletAddress := wallet; user_authMethod := "wallet_claim";
     user_subscriptionTier := "starter"; user_agentCount := 1;
     user_lastLoginAt := Some (now env); user_createdAt := now env |}.

(** What follows the conditional update that matched: the owner, the
    founding rank, the nonce, the audit log, the event. *)
Definition claim_succeeded (env : Env) (wallet nonceKey : string) (id : ObjectId)
    : Task World Reply :=
  (* Find or create user for this wallet *)
  found ← await (find_user wallet);
  user ← match found with
         | Some u => mret (user_id u)
         | None => await (insert_user (new_user env wallet))
         end;
  (* Link agent to user *)
  await (update_agent id (set_owner (now env) user));;
  (* Calculate founding rank (count of previously claimed agents + 1) *)
  previousClaims ← await (count_agents
                            (fun i a => isWalletAgent a
                                        && bool_decide (wad_status a = Some CLAIMED)
                                        && bool_decide (i ≠ id)));
  let foundingRank := (previousClaims + 1)%N in
  (if (foundingRank <=? 5000)%N
   then await (update_agent id (set_founding foundingRank))
   else mret ());;
  (* Delete nonce from Redis (single-use) *)
  await (redis_del nonceKey);;
  await (log_claim (audit env wallet (Some id) (Some user) "CLAIM_SUCCESS" None
                      (Some foundingRank)));;
  await (redis_publish "AGENT_CLAIMED" id);;
  mret (ClaimReply id user
          (if (foundingRank <=? 5000)%N then Some foundingRank else None)).

(** The ATOMIC claim and what follows it. *)
Definition claim_gate (env : Env) (wallet nonceKey : string) (id : ObjectId)
    (signature nonce : JsValue) : Task World Reply :=
  claimResult ← await (find_agent_and_update id (claimable_by wallet)
                         (set_claimed (now env) wallet signature nonce));
  match claimResult with
  | None =>
      (* Agent was already claimed or state changed *)
      await (redis_del nonceKey);;
      mret (Error 409 "ALREADY_CLAIMED")
  | Some _ => claim_succeeded env wallet nonceKey id
  end.

(** *** POST /api/v1/claim/verify *)

Definition verifyClaim (env : Env) (wallet agentId signature nonce : JsValue)
    : Task World Reply :=
  if negb (truthy wallet) || negb (truthy agentId)
     || negb (truthy signature) || negb (truthy nonce)
  then mret (Error 400 "MISSING_FIELDS")
  else if negb (isValidAddress wallet) then mret (Error 400 "INVALID_WALLET")
  else
    match parse_ObjectId agentId with
    | None => mret (Error 400 "INVALID_AGENT_ID")
    | Some id =>
        if negb (db_handle env) then mret (Error 503 "DATABASE_UNAVAILABLE")
        else
          match redis_client env with
          | RedisReady =>
              let walletAddress := to_string wallet in
              (* Retrieve and validate nonce from Redis *)
              let nonceKey := claim_nonce_key (to_string agentId) walletAddress in
              storedData ← await (redis_get (now env) nonceKey);
              match storedData with
              | None =>
                  recordFailedClaimAttempt env wallet;;
                  mret (Error 400 "NONCE_EXPIRED")
              | Some parsed =>
                  if negb (bool_decide (JsString <$> parsed_nonce parsed = Some nonce))
                  then
                    recordFailedClaimAttempt env wallet;;
                    mret (Error 400 "NONCE_MISMATCH")
                  else if negb (verifySolanaSignature nacl_sign_detached_verify
                                  walletAddress (parsed_message parsed) signature)
                  then
                    recordFailedClaimAttempt env wallet;;
                    await (log_claim (audit env walletAddress (Some id) None
                                        "CLAIM_FAILED" (Some "INVALID_SIGNATURE") None));;
                    mret (Error 403 "INVALID_SIGNATURE")
                  else claim_gate env walletAddress nonceKey id signature nonce
              end
          | _ => mret (Error 503 "CACHE_UNAVAILABLE")
          end
    end.

(** *** POST /api/v1/claim/opt-out/nonce *)

Definition optOutNonce (env : Env) (wallet : JsValue) : Task World Reply :=
  if negb (truthy wallet) then mret (Error 400 "MISSING_WALLET")
  else if negb (isValidAddress wallet) then mret (Error 400 "INVALID_WALLET")
  else if negb (db_handle env) then mret (Error 503 "DATABASE_UNAVAILABLE")
  else
    let wallet := to_string wallet in
    (* Check if already opted out *)
    existing ← await (find_opt_out wallet);
    match existing with
    | Some _ => mret (Error 409 "ALREADY_OPTED_OUT")
    | None =>
        (* Check agent exists for this wallet *)
        agent ← await (find_agent (agent_of_wallet wallet));
        match agent with
        | None => mret (Error 404 "NO_AGENT")
        | Some _ =>
            let nonce := random_hex env in
            let timestamp := now_iso env in
            let message := generateOptOutMessage wallet nonce timestamp in
            match redis_client env with
            | RedisReady =>
                await (redis_set_ex (now env) (optout_nonce_key wallet)
                         (RNonce {| nonce := nonce; timestamp := timestamp;
                                    message := message |})
                         NONCE_TTL_SECONDS);;
                mret (NonceReply nonce message timestamp NONCE_TTL_SECONDS)
            | _ => mret (Error 503 "CACHE_UNAVAILABLE")
            end
        end
    end.

(** *** POST /api/v1/claim/opt-out *)

Definition non_empty (s : string) : option string :=
  if String.eqb s "" then None else Some s.

(** The permanent deletion of an agent and of what names it.  The six
    [deleteMany] of the [Promise.all] are sent in the order of the
    array, and all have ended before the next command. *)
Definition delete_everything (id : ObjectId) : Task World unit :=
  (* Delete agent permanently *)
  await (delete_agent id);;
  (* Delete related data permanently *)
  await (delete_posts id);;
  await (delete_comments id);;
  await (delete_memory id);;
  await (delete_personality id);;
  await (delete_watchers id);;
  await (delete_notifications id).

Definition optOut (env : Env) (wallet signature nonce : JsValue) : Task World Reply :=
  if negb (truthy wallet) || negb (truthy signature) || negb (truthy nonce)
  then mret (Error 400 "MISSING_FIELDS")
  else if negb (isValidAddress wallet) then mret (Error 400 "INVALID_WALLET")
  else if negb (db_handle env) then mret (Error 503 "DATABASE_UNAVAILABLE")
  else
    match redis_client env with
    | RedisReady =>
        let walletAddress := to_string wallet in
        (* Retrieve nonce *)
        let nonceKey := optout_nonce_key walletAddress in
        storedData ← await (redis_get (now env) nonceKey);
        match storedData with
        | None => mret (Error 400 "NONCE_EXPIRED")
        | Some parsed =>
            if negb (bool_decide (JsString <$> parsed_nonce parsed = Some nonce))
            then mret (Error 400 "NONCE_MISMATCH")
            else if negb (verifySolanaSignature nacl_sign_detached_verify
                            walletAddress (parsed_message parsed) signature)
            then
              await (log_claim (audit env walletAddress None None
                                  "OPT_OUT_FAILED" (Some "INVALID_SIGNATURE") None));;
              mret (Error 403 "INVALID_SIGNATURE")
            else
              (* Find the agent to delete *)
              agent ← await (find_agent (agent_of_wallet walletAddress));
              match agent with
              | Some (id, _) => delete_everything id
              | None => mret ()
              end;;
              (* Add to permanent opt-out list *)
              inserted ← await (insert_opt_out
                {| optout_walletAddress := walletAddress;
                   optedOutAt := now env;
                   optout_signature := signature;
                   optout_agentId := fst <$> agent;
                   optout_agentName :=
                     '(_, a) ← agent;
                     match non_empty (name a) with
                     | Some n => Some n
                     | None => non_empty (displayName a)
                     end |});
              if inserted : bool then
                (* Delete nonce *)
                await (redis_del nonceKey);;
                (* Log opt-out *)
                await (log_claim (audit env walletAddress (fst <$> agent) None
                                    "OPT_OUT_SUCCESS" None None));;
                mret (OptOutReply walletAddress (now env))
              else mret (Error 500 "OPT_OUT_FAILED")     (* catch (err) *)
        end
    | _ => mret (Error 503 "CACHE_UNAVAILABLE")
    end.

(** *** The routes: the abuse detector, then the handler *)

(** The detector reads the wallet of the body, [req.body?.wallet]; the
    query string of a POST is left out. *)

Definition guarded (env : Env) (wallet : JsValue) (handler : Task World Reply)
    : Task World Reply :=
  verdict ← detectClaimAbuse env wallet;
  match verdict with
  | Some blocked => mret blocked
  | None => handler
  end.

Definition claimNonce_route env wallet agentId :=
  guarded env wallet (issueClaimNonce env wallet agentId).
Definition verifyClaim_route env wallet agentId signature nonce :=
  guarded env wallet (verifyClaim env wallet agentId signature nonce).
Definition optOutNonce_route env wallet :=
  guarded env wallet (optOutNonce env wallet).
Definition optOut_route env wallet signature nonce :=
  guarded env wallet (optOut env wallet signature nonce).

End Signed.
End ClaimRoutes.

(* ===================================================================== *)
(** ** src/crons/orphanTransition.js *)
(* ===================================================================== *)

Module OrphanTransition.
Import Store Commands.

(** The commands of a run; each may throw. *)
Inductive Cmd :=
| FindExpired
| UpdateAgent (agent : ObjectId)
| InsertAudit (agent : ObjectId)
| FindWatchers (agent : ObjectId)
| InsertNotice (watcher : ObjectId)
| UpdateWatcher (watcher : ObjectId)
| Publish (watcher : ObjectId).

Inductive RunError :=
| NOTIFICATION_FAILED (watcher agent : ObjectId)
| TRANSITION_FAILED (agent : ObjectId)
| FATAL.

Record Summary := {
  processed : nat;
  transitioned : nat;
  notified : nat;
  errors : list RunError;
}.

Definition count_transition (s : Summary) : Summary :=
  {| processed := processed s; transitioned := S (transitioned s);
     notified := notified s; errors := errors s |}.
Definition count_notified (s : Summary) : Summary :=
  {| processed := processed s; transitioned := transitioned s;
     notified := S (notified s); errors := errors s |}.
Definition push_error (e : RunError) (s : Summary) : Summary :=
  {| processed := processed s; transitioned := transitioned s;
     notified := notified s; errors := errors s ++ [e] |}.

(** The filter of the sweep; [$lte] matches only a deadline that is set. *)
Definition expired (now : Z) (a : AgentDoc) : bool :=
  isWalletAgent a
  && bool_decide (wad_status a = Some UNCLAIMED)
  && from_option (fun deadline => deadline <=? now) false (wad_deadline a).

Definition set_orphaned (now : Z) (a : AgentDoc) : AgentDoc :=
  {| name := name a; displayName := displayName a; isWalletAgent := isWalletAgent a;
     walletAgentData :=
       (fun d => {| sourceWallet := sourceWallet d;
                    claimStatus := Some ORPHANED;
                    claimDeadline := claimDeadline d;
                    claimedAt := claimedAt d;
                    claimSignature := claimSignature d;
                    claimNonce := claimNonce d;
                    claimedBy := claimedBy d;
                    orphanedAt := Some now;
                    foundingWallet := foundingWallet d;
                    foundingRank := foundingRank d |}) <$> walletAgentData a;
     userId := userId a; owner := owner a; createdAt := createdAt a;
     updatedAt := now; postCount := postCount a; tipsEarned := tipsEarned a |}.

Definition set_notified (now : Z) (x : WatcherDoc) : WatcherDoc :=
  {| watcher_userId := watcher_userId x; watcher_agentId := watcher_agentId x;
     Store.notified := true; notifiedAt := Some now |}.

(** The double-quote character of the notice's message. *)
Definition QUOTE : string := String (Ascii.ascii_of_nat 34) EmptyString.

Definition shown_name (a : AgentDoc) : string :=
  if String.eqb (displayName a) "" then name a else displayName a.

Definition orphan_notice (now : Z) (id : ObjectId) (a : AgentDoc) (x : WatcherDoc)
    : NotificationDoc :=
  Notice {| notice_userId := watcher_userId x;
            notice_agentId := id;
            notice_agentName := if String.eqb (name a) "" then displayName a else name a;
            notice_message :=
              "Agent " +:+ QUOTE +:+ shown_name a +:+ QUOTE
                +:+ " is now available for adoption.";
            notice_read := false;
            notice_createdAt := now |}.

Section Run.
Variable broken : Cmd → bool.          (* the commands that throw *)
Variable redis_ready : bool.           (* [redis && redis.isReady] *)
Variable now : Z.

(** The body of the loop over the watchers of one agent. *)
Definition notify_watcher (id : ObjectId) (a : AgentDoc)
    (st : Summary * World) (x : ObjectId * WatcherDoc) : Summary * World :=
  let '(summary, w) := st in
  let '(wid, watcher) := x in
  if broken (InsertNotice wid)
  then (push_error (NOTIFICATION_FAILED wid id) summary, w)
  else
    let w := with_db (with_notifications
                        (fun l => l ++ [orphan_notice now id a watcher])) w in
    if broken (UpdateWatcher wid)
    then (push_error (NOTIFICATION_FAILED wid id) summary, w)
    else
      let w := with_db (with_watchlist (alter (set_notified now) wid)) w in
      let summary := count_notified summary in
      (* Publish real-time notification via Redis *)
      if redis_ready then
        if broken (Publish wid)
        then (push_error (NOTIFICATION_FAILED wid id) summary, w)
        else (summary, (redis_publish "AGENT_ORPHANED" id w).2)
      else (summary, w).

(** [find({ agentId, notified: { $ne: true } })] on [orphan_watchlist]. *)
Definition watchers_to_notify (id : ObjectId) (w : World)
    : list (ObjectId * WatcherDoc) :=
  filter (fun x => watcher_agentId x.2 = id ∧ Store.notified x.2 ≠ true)
         (map_to_list (orphan_watchlist (db w))).

(** The body of the loop over the expired agents. *)
Definition orphan_agent (st : Summary * World) (x : ObjectId * AgentDoc)
    : Summary * World :=
  let '(summary, w) := st in
  let '(id, agent) := x in
  if broken (UpdateAgent id)
  then (push_error (TRANSITION_FAILED id) summary, w)
  else
    (* Transition to ORPHANED *)
    let '(result, w) :=
      find_agent_and_update id
        (fun a => bool_decide (wad_status a = Some UNCLAIMED))
        (set_orphaned now) w in
    match result with
    | Some _ =>                         (* result.modifiedCount === 1 *)
        let summary := count_transition summary in
        if broken (InsertAudit id)
        then (push_error (TRANSITION_FAILED id) summary, w)
        else
          (* Log the transition event *)
          let w := (log_claim
                      {| log_walletAddress := wad_wallet agent;
                         log_agentId := Some id; log_userId := None;
                         log_action := "ORPHANED";
                         log_result := Some "CLAIM_DEADLINE_EXPIRED";
                         log_foundingRank := None; log_ip := "";
                         log_timestamp := now |} w).2 in
          if broken (FindWatchers id)
          then (push_error (TRANSITION_FAILED id) summary, w)
          else
            (* Notify watchlist users *)
            foldl (notify_watcher id agent) (summary, w) (watchers_to_notify id w)
    | None => (summary, w)
    end.

Definition expired_agents (w : World) : list (ObjectId * AgentDoc) :=
  filter (fun x => expired now x.2 = true) (map_to_list (Agent (db w))).

Definition processOrphanTransitions (w : World) : Summary * World :=
  let summary := {| processed := 0; transitioned := 0; notified := 0; errors := [] |} in
  if broken FindExpired
  then (push_error FATAL summary, w)
  else
    let expiredAgents := expired_agents w in
    let summary := {| processed := length expiredAgents; transitioned := 0;
                      notified := 0; errors := [] |} in
    foldl orphan_agent (summary, w) expiredAgents.
End Run.
End OrphanTransition.

(* ===================================================================== *)
(** ** The claim notification cron *)
(* ===================================================================== *)

Module ClaimNotifications.
Import Store Commands.

Record Schedule := {
  daysAfterCreation : Z;
  channel : string;
  template : string;
}.

Definition NOTIFICATION_SCHEDULE : list Schedule := [
  {| daysAfterCreation := 0; channel := "onchain_memo"; template := "AGENT_CREATED" |};
  {| daysAfterCreation := 7; channel := "onchain_memo"; template := "WEEK_1_UPDATE" |};
  {| daysAfterCreation := 14; channel := "onchain_memo"; template := "HALFWAY_WARNING" |};
  {| daysAfterCreation := 21; channel := "onchain_memo"; template := "NINE_DAYS_LEFT" |};
  {| daysAfterCreation := 25; channel := "onchain_memo"; template := "FIVE_DAYS_LEFT" |};
  {| daysAfterCreation := 28; channel := "onchain_memo"; template := "TWO_DAYS_LEFT" |};
  {| daysAfterCreation := 29; channel := "onchain_memo"; template := "FINAL_DAY" |}
].

Definition MAX_SENDS_PER_HOUR : nat := 500.
Definition DAY_MS : Z := 1000 * 60 * 60 * 24.

(** What [sendClaimMemo] does: a confirmed transaction, a failure it
    reports ([success: false]), or an exception (no treasury key, a
    recipient that is no public key). *)
Inductive SendResult :=
| Confirmed (signature : string)
| Rejected (error : string)
| Thrown (error : string).

(** A call of [sendClaimMemo], by the agent and the template it was
    made for. *)
Definition Dispatch : Type := ObjectId * string.

Record Run := {
  sent_count : nat;
  failed_count : nat;
  skipped_count : nat;
  dispatched : list Dispatch;
  world : World;
}.

Definition claim_url (wallet : string) : string :=
  "https://klik.cool/claim?wallet=" +:+ wallet.

Definition source_wallet (a : AgentDoc) : string := default "undefined" (wad_wallet a).

Section Cron.
(** The delivery channel, by the number of calls made before. *)
Variable sendClaimMemo : nat → string → ObjectId → string → SendResult.
(** [toLocaleDateString('en-US', { month: 'short', day: 'numeric' })] *)
Variable short_date : Z → string.

Definition getNotificationTemplate (template : string) (agent : AgentDoc) : string :=
  let name := if String.eqb (displayName agent) "" then name agent
              else displayName agent in
  let url := claim_url (source_wallet agent) in
  let posts := pretty (postCount agent) in
  let tips := pretty (tipsEarned agent) in
  let deadline := from_option short_date "30 days" (wad_deadline agent) in
  if String.eqb template "AGENT_CREATED" then
    "Your AI agent " +:+ name +:+ " is live on KLIK! It's already posting. Claim it: " +:+ url
  else if String.eqb template "WEEK_1_UPDATE" then
    name +:+ " has posted " +:+ posts +:+ " times and earned " +:+ tips
         +:+ " KLIK tips! Claim before it's gone: " +:+ url
  else if String.eqb template "HALFWAY_WARNING" then
    "15 days left to claim " +:+ name +:+ ". After that, anyone can adopt it: " +:+ url
  else if String.eqb template "NINE_DAYS_LEFT" then
    "Only 9 days left! " +:+ name +:+ " will become an orphan on " +:+ deadline
         +:+ ": " +:+ url
  else if String.eqb template "FIVE_DAYS_LEFT" then
    "5 DAYS LEFT! Claim " +:+ name +:+ " now or lose it forever: " +:+ url
  else if String.eqb template "TWO_DAYS_LEFT" then
    "FINAL WARNING: 2 days to claim " +:+ name +:+ ". Don't lose your agent: " +:+ url
  else if String.eqb template "FINAL_DAY" then
    "LAST CHANCE: " +:+ name +:+ " becomes an orphan TOMORROW. Claim now: " +:+ url
  else "Claim your AI agent " +:+ name +:+ " on KLIK: " +:+ url.

(** The templates already sent for an agent: the records whose
    [agentId] is the agent's id as a string and whose status is
    [sent]. *)
Definition getSentNotifications (w : World) (agentId : ObjectId) : list string :=
  omap (fun n => match n with
                 | Memo m =>
                     if decide (memo_agentId m = agentId ∧ memo_status m = sent)
                     then Some (memo_template m) else None
                 | Notice _ => None
                 end)
       (wallet_agent_notifications (db w)).

Definition has (templates : list string) (t : string) : bool :=
  bool_decide (t ∈ templates).

Definition record (w : World) (m : MemoRecord) : World :=
  with_db (with_notifications (fun l => l ++ [Memo m])) w.

(** One due notification: the [try] block and its [catch]. *)
Definition send_one (now : Z) (id : ObjectId) (agent : AgentDoc)
    (daysSinceCreation : Z) (schedule : Schedule) (r : Run) : Run :=
  let messageText := getNotificationTemplate (template schedule) agent in
  let claimUrl := claim_url (source_wallet agent) in
  if String.eqb (channel schedule) "onchain_memo" then
    let result := sendClaimMemo (length (dispatched r)) (source_wallet agent) id claimUrl in
    let base status sig err message :=
      {| memo_walletAddress := source_wallet agent; memo_agentId := id;
         memo_channel := channel schedule; memo_template := template schedule;
         memo_message := message; memo_status := status;
         memo_txSignature := sig; memo_error := err;
         memo_scheduledDay := daysAfterCreation schedule;
         memo_actualDay := daysSinceCreation; memo_sentAt := now |} in
    let dispatched := dispatched r ++ [(id, template schedule)] in
    match result with
    | Confirmed sig =>
        {| sent_count := S (sent_count r); failed_count := failed_count r;
           skipped_count := skipped_count r; dispatched := dispatched;
           world := record (world r) (base sent (Some sig) None (Some messageText)) |}
    | Rejected err =>
        {| sent_count := sent_count r; failed_count := S (failed_count r);
           skipped_count := skipped_count r; dispatched := dispatched;
           world := record (world r) (base failed None (Some err) (Some messageText)) |}
    | Thrown err =>
        (* catch (err): record the failure *)
        {| sent_count := sent_count r; failed_count := S (failed_count r);
           skipped_count := skipped_count r; dispatched := dispatched;
           world := record (world r) (base failed None (Some err) None) |}
    end
  else r.

Definition skip (r : Run) : Run :=
  {| sent_count := sent_count r; failed_count := failed_count r;
     skipped_count := S (skipped_count r); dispatched := dispatched r;
     world := world r |}.

(** The loop over the schedule for one agent; [break] ends it. *)
Fixpoint due_loop (now : Z) (id : ObjectId) (agent : AgentDoc)
    (daysSinceCreation : Z) (sentTemplates : list string)
    (schedules : list Schedule) (r : Run) : Run :=
  match schedules with
  | [] => r
  | schedule :: rest =>
      if (daysAfterCreation schedule <=? daysSinceCreation)
         && negb (has sentTemplates (template schedule))
      then
        if (MAX_SENDS_PER_HOUR <=? sent_count r)%nat then r      (* break *)
        else due_loop now id agent daysSinceCreation sentTemplates rest
               (send_one now id agent daysSinceCreation schedule r)
      else if has sentTemplates (template schedule)
      then due_loop now id agent daysSinceCreation sentTemplates rest (skip r)
      else due_loop now id agent daysSinceCreation sentTemplates rest r
  end.

Definition days_since (now : Z) (agent : AgentDoc) : Z := (now - createdAt agent) / DAY_MS.

Definition notify_agent (now : Z) (x : ObjectId * AgentDoc) (r : Run) : Run :=
  let '(id, agent) := x in
  let daysSinceCreation := days_since now agent in
  (* Get already-sent notifications for this agent *)
  let sentTemplates := getSentNotifications (world r) id in
  due_loop now id agent daysSinceCreation sentTemplates NOTIFICATION_SCHEDULE r.

(** The loop over the unclaimed agents; [break] ends it. *)
Fixpoint agents_loop (now : Z) (agents : list (ObjectId * AgentDoc)) (r : Run) : Run :=
  match agents with
  | [] => r
  | x :: rest =>
      if (MAX_SENDS_PER_HOUR <=? sent_count r)%nat then r          (* break *)
      else agents_loop now rest (notify_agent now x r)
  end.

Definition unclaimed_agents (w : World) : list (ObjectId * AgentDoc) :=
  filter (fun x => isWalletAgent x.2 = true ∧ wad_status x.2 = Some UNCLAIMED)
         (map_to_list (Agent (db w))).

Record Summary := {
  processed : nat;
  sent : nat;
  failed : nat;
  skipped : nat;
}.

Definition LAST_RUN_KEY : string := "claim:notifications:lastRun".

Definition processNotifications (redis_client : bool) (now : Z) (w : World)
    : Summary * list Dispatch * World :=
  let unclaimedAgents := unclaimed_agents w in
  match unclaimedAgents with
  | [] => ({| processed := 0; sent := 0; failed := 0; skipped := 0 |}, [], w)
  | _ =>
      let r := agents_loop now unclaimedAgents
                 {| sent_count := 0; failed_count := 0; skipped_count := 0;
                    dispatched := []; world := w |} in
      let summary := {| processed := length unclaimedAgents; sent := sent_count r;
                        failed := failed_count r; skipped := skipped_count r |} in
      (* Cache the run result for the admin dashboard *)
      let w' := if redis_client
                then (redis_set_ex now LAST_RUN_KEY (RJson "summary") 7200 (world r)).2
                else world r in
      (summary, dispatched r, w')
  end.
End Cron.
End ClaimNotifications.

(* ===================================================================== *)
(** ** What the properties speak of *)
(* ===================================================================== *)

Module Notions.
Import SolanaSignature Store Commands Async ClaimRateLimit ClaimRoutes.

(** *** Batch cost *)

(** The three cost fields of the result of a doubled batch are twice
    those of the batch. *)
Definition doubles (n : N) : Prop :=
  let cost := MemoSender.estimateBatchCost in
  MemoSender.totalLamports (cost (2 * n)%N) = 2 * MemoSender.totalLamports (cost n)
  ∧ (MemoSender.totalSol (cost (2 * n)%N) == inject_Z 2 * MemoSender.totalSol (cost n))%Q
  ∧ (MemoSender.totalUsd (cost (2 * n)%N) == inject_Z 2 * MemoSender.totalUsd (cost n))%Q.

(** The rounded values, in the unit of their last digit. *)
Definition microSol (n : N) : Z := Z.of_N n * 10.
Definition cents (n : N) : Z := (3 * Z.of_N n + 10) / 20.

(** *** Abuse detection *)

(** The per-IP counter as this request leaves it, [None] when [INCR]
    threw. *)
Definition ip_counter (env : Env) (w : World) : option Z :=
  (attempt_incr env (ip_key env) w).1.

(** The failures counted against a wallet. *)
Definition failure_count (env : Env) (wallet : JsValue) (w : World) : option Z :=
  (redis_get (now env) (wallet_fail_key (to_string wallet)) w).1 ≫= value_parseInt.

(** *** Addresses *)

(** The inputs the specification lists as invalid. *)
Definition malformed (address : JsValue) : Prop :=
  match address with
  | JsString s =>
      s = ""
      ∨ (∃ c, c ∈ chars s ∧ c ∈ chars "0OIl")
      ∨ (String.length s < 32)%nat
      ∨ (44 < String.length s)%nat
  | _ => True
  end.

(** *** Claims *)

(** The answers given before the conditional update. *)
Definition rejection (r : Reply) : Prop :=
  r ∈ [ Error 400 "MISSING_FIELDS"; Error 400 "INVALID_WALLET";
        Error 400 "INVALID_AGENT_ID"; Error 503 "DATABASE_UNAVAILABLE";
        Error 503 "CACHE_UNAVAILABLE"; Error 400 "NONCE_EXPIRED";
        Error 400 "NONCE_MISMATCH"; Error 403 "INVALID_SIGNATURE" ].

(** The status of an agent in the filter of the queries. *)
Definition status_of (w : World) (id : ObjectId) : option ClaimStatus :=
  Agent (db w) !! id ≫= wad_status.

(** The agents the filter of the conditional update matches. *)
Definition claimable (w : World) (id : ObjectId) (wallet : string) : bool :=
  from_option (claimable_by wallet) false (Agent (db w) !! id).

Definition claimed_reply (r : Reply) : Prop :=
  ∃ id user rank, r = ClaimReply id user rank.

(** A command that changes the claim status of no agent. *)
Definition same_statuses (w w' : World) : Prop :=
  ∀ id, status_of w' id = status_of w id.

(** A command that takes an agent from UNCLAIMED to CLAIMED and changes
    the claim status of no other. *)
Definition claims (id : ObjectId) (w w' : World) : Prop :=
  status_of w id = Some UNCLAIMED
  ∧ status_of w' id = Some CLAIMED
  ∧ ∀ id', id' ≠ id → status_of w' id' = status_of w id'.

(** The answers of the route before the conditional update. *)
Definition turned_away (r : Reply) : Prop :=
  rejection r ∨ ∃ code, r = Error 429 code.

Definition conflict : Reply := Error 409 "ALREADY_CLAIMED".

(** A handler that has claimed agent [id]: it changes no status any
    more and answers with the claim. *)
Definition won (id : ObjectId) (t : Task World Reply) : Prop :=
  future same_statuses (fun r => ∃ user rank, r = ClaimReply id user rank) t.

(** A handler that has not claimed: each of its commands either changes
    no status, or claims agent [id], after which the handler has won;
    and its answer, if it claims nothing, is one of [refused]. *)
Fixpoint claiming (refused : Reply → Prop) (id : ObjectId) (t : Task World Reply) : Prop :=
  match t with
  | Ret r => refused r
  | Await op k =>
      ∀ w, (same_statuses w (op w).2 ∧ claiming refused id (k (op w).1))
           ∨ (claims id w (op w).2 ∧ won id (k (op w).1))
  end.

(** The refusals of the route, and the refusal of the conditional
    update. *)
Definition any_refusal (r : Reply) : Prop := turned_away r ∨ r = conflict.
Definition only_conflict (r : Reply) : Prop := r = conflict.

(** The agent a request names. *)
Definition target (agentId : JsValue) : ObjectId := default 0%N (parse_ObjectId agentId).

(** The answers the pool has given so far. *)
Definition answers (pool : list (Task World Reply)) : list Reply := omap finished pool.

Definition is_claim_of (sid : ObjectId) (r : Reply) : bool :=
  match r with
  | ClaimReply id _ _ => bool_decide (id = sid)
  | _ => false
  end.

(** The steps of an interleaving at which agent [sid] becomes CLAIMED. *)
Fixpoint transitions (sid : ObjectId) (ws : list World) : nat :=
  match ws with
  | w :: (w' :: _) as rest =>
      ((if decide (status_of w sid ≠ Some CLAIMED ∧ status_of w' sid = Some CLAIMED)
        then 1 else 0) + transitions sid rest)%nat
  | _ => 0%nat
  end.

(** For each handler of a pool, the agent it is about and whether it
    has claimed it; the handlers that have claimed [sid]. *)
Definition winners (sid : ObjectId) (ghost : list (ObjectId * bool)) : nat :=
  length (filter (fun g => g = (sid, true)) ghost).

Section Pool.
Variable refused : Reply → Prop.

Definition phase_ok (g : ObjectId * bool) (t : Task World Reply) : Prop :=
  if g.2 then won g.1 t else claiming refused g.1 t.

Definition pool_inv (sid : ObjectId) (w : World) (pool : list (Task World Reply))
    : Prop :=
  ∃ ghost, Forall2 phase_ok ghost pool
           ∧ (winners sid ghost ≤ 1)%nat
           ∧ (winners sid ghost = 1%nat → status_of w sid = Some CLAIMED).
End Pool.

(** One request of the verify route. *)
Record Call := {
  call_env : Env;
  call_wallet : JsValue;
  call_agentId : JsValue;
  call_signature : JsValue;
  call_nonce : JsValue;
}.

(** A call that has found its nonce and verified its signature, at the
    conditional update on agent [sid]. *)
Definition at_gate (sid : ObjectId) (c : Call) : Task World Reply :=
  claim_gate (call_env c) (to_string (call_wallet c))
    (claim_nonce_key (to_string (call_agentId c)) (to_string (call_wallet c)))
    sid (call_signature c) (call_nonce c).

(** Every call but the one that claims is answered [ALREADY_CLAIMED]. *)
Definition others_conflict (pool : list (Task World Reply)) : Prop :=
  ∀ r, r ∈ answers pool → claimed_reply r ∨ r = conflict.

(** *** Opt-outs *)

(** The wallets of the permanent opt-out list. *)
Definition opted_out (w : World) (wallet : string) : Prop :=
  wallet ∈ optout_walletAddress <$> wallet_opt_outs (db w).

Global Instance opted_out_dec w wallet : Decision (opted_out w wallet).
Proof. unfold opted_out. apply _. Defined.

(** The opt-out list is never shortened. *)
Definition opt_outs_kept (w w' : World) : Prop :=
  ∀ wallet, opted_out w wallet → opted_out w' wallet.

(** Nothing names the agent any more, in the collections the opt-out
    clears. *)
Record erased (id : ObjectId) (w : World) : Prop := {
  erased_agent : Agent (db w) !! id = None;
  erased_posts : ∀ o, o ∈ Post (db w) → owned_by o ≠ id;
  erased_comments : ∀ o, o ∈ Comment (db w) → owned_by o ≠ id;
  erased_memory : ∀ o, o ∈ agent_memory (db w) → owned_by o ≠ id;
  erased_personality : ∀ o, o ∈ agent_personality (db w) → owned_by o ≠ id;
  erased_watchers : ∀ i x, orphan_watchlist (db w) !! i = Some x → watcher_agentId x ≠ id;
  erased_notices : ∀ n, Notice n ∈ wallet_agent_notifications (db w) →
                        notice_agentId n ≠ id;
}.

(** What can happen to the world: the requests of the claim routes, the
    runs of the two crons, and any other writer of the [Agent]
    collection (one that creates a subject for a wallet, an adoption)
    or of Redis. *)
Inductive Event :=
| Checked (env : Env) (wallet : JsValue)
| NonceAsked (env : Env) (wallet agentId : JsValue)
| ClaimSent (env : Env) (wallet agentId signature nonce : JsValue)
| OptOutNonceAsked (env : Env) (wallet : JsValue)
| OptOutSent (env : Env) (wallet signature nonce : JsValue)
| OrphanSweep (broken : OrphanTransition.Cmd → bool) (redis_ready : bool) (now : Z)
| NotificationSweep (send : nat → string → ObjectId → string → ClaimNotifications.SendResult)
    (short_date : Z → string) (redis_client : bool) (now : Z)
| AgentsWritten (f : gmap ObjectId AgentDoc → gmap ObjectId AgentDoc)
| RedisWritten (f : gmap string RedisEntry → gmap string RedisEntry).

(** *** Notions that depend on the signature check *)

Section Signed.
Variable nacl : list ascii → list N → list N → bool.

(** The requests that reach the conditional update. *)
Record reaches_gate (env : Env) (wallet agentId signature nonce : JsValue)
    (w : World) (id : ObjectId) : Prop := {
  gate_fields : truthy wallet = true ∧ truthy agentId = true
                ∧ truthy signature = true ∧ truthy nonce = true;
  gate_wallet : isValidAddress wallet = true;
  gate_agent : parse_ObjectId agentId = Some id;
  gate_db : db_handle env = true;
  gate_redis : redis_client env = RedisReady;
  gate_nonce : ∃ r, (redis_get (now env)
                       (claim_nonce_key (to_string agentId) (to_string wallet)) w).1
                    = Some (RNonce r)
                    ∧ nonce = JsString (Store.nonce r)
                    ∧ verifySolanaSignature nacl (to_string wallet) (message r) signature
                      = true;
}.

(** A call from its first command. *)
Definition handle (c : Call) : Task World Reply :=
  verifyClaim_route nacl (call_env c) (call_wallet c) (call_agentId c)
    (call_signature c) (call_nonce c).

Definition happen (w : World) (e : Event) : World :=
  match e with
  | Checked env wallet => (run (check env wallet) w).2
  | NonceAsked env wallet agentId => (run (claimNonce_route env wallet agentId) w).2
  | ClaimSent env wallet agentId signature nonce =>
      (run (verifyClaim_route nacl env wallet agentId signature nonce) w).2
  | OptOutNonceAsked env wallet => (run (optOutNonce_route env wallet) w).2
  | OptOutSent env wallet signature nonce =>
      (run (optOut_route nacl env wallet signature nonce) w).2
  | OrphanSweep broken redis_ready now =>
      (OrphanTransition.processOrphanTransitions broken redis_ready now w).2
  | NotificationSweep send short_date redis_client now =>
      (ClaimNotifications.processNotifications send short_date redis_client now w).2
  | AgentsWritten f => with_db (with_Agent f) w
  | RedisWritten f => with_redis f w
  end.

(** The requests the opt-out handler accepts. *)
Record opt_out_accepted (env : Env) (wallet signature nonce : JsValue) (w : World)
    : Prop := {
  accepted_fields : truthy wallet = true ∧ truthy signature = true ∧ truthy nonce = true;
  accepted_wallet : isValidAddress wallet = true;
  accepted_db : db_handle env = true;
  accepted_redis : redis_client env = RedisReady;
  accepted_nonce :
    ∃ r, (redis_get (now env) (optout_nonce_key (to_string wallet)) w).1 = Some (RNonce r)
         ∧ nonce = JsString (Store.nonce r)
         ∧ verifySolanaSignature nacl (to_string wallet) (message r) signature = true;
}.

(** A wallet with no subject completing an opt-out: it asks for the
    nonce, and its opt-out is then accepted for some signature and
    nonce. *)
Definition opts_out_preemptively (env : Env) (wallet : JsValue) (w : World) : Prop :=
  ∃ signature nonce at_ w',
    run (optOut nacl env wallet signature nonce) (run (optOutNonce env wallet) w).2
    = (OptOutReply (to_string wallet) at_, w').
End Signed.

(** *** The crons *)

Definition agent_status (w : World) (id : ObjectId) : option ClaimStatus :=
  Agent (db w) !! id ≫= wad_status.

(** A step of a run adds to the errors of its summary, and one that
    adds none has met no command that throws. *)
Definition grows (s s' : OrphanTransition.Summary) : Prop :=
  ∃ l, OrphanTransition.errors s' = OrphanTransition.errors s ++ l.

(** The calls of [sendClaimMemo] made for an agent. *)
Definition dispatched_for (id : ObjectId) (l : list ClaimNotifications.Dispatch)
    : list ClaimNotifications.Dispatch :=
  filter (fun d => d.1 = id) l.

(** The templates of the days before the last one. *)
Definition EARLIER_TEMPLATES : list string :=
  [ "AGENT_CREATED"; "WEEK_1_UPDATE"; "HALFWAY_WARNING";
    "NINE_DAYS_LEFT"; "FIVE_DAYS_LEFT"; "TWO_DAYS_LEFT" ].
End Notions.

(* ===================================================================== *)
(** ** Sample data *)
(* ===================================================================== *)

Module Sample.
Import SolanaSignature Store Commands Async ClaimRateLimit ClaimRoutes Notions.

(** A stand-in for ed25519: the signatures it accepts are the all-zero
    ones. *)
Definition zero_signatures (message : list ascii) (signature publicKey : list N) : bool :=
  forallb (N.eqb 0) signature.

(** The treasury wallet and the agent id of the repository's tests. *)
Definition wallet : JsValue := JsString "GaTjJs756Urcsjs7ia8HYm3eiBNbBAHFAS7fLsSNVxus".
Definition agentId : JsValue := JsString "6612f1a2b3c4d5e6f7890abc".
Definition agent_id : ObjectId := Eval vm_compute in default 0%N (parse_ObjectId agentId).

Definition good_signature : JsValue :=
  JsString "1111111111111111111111111111111111111111111111111111111111111111".
Definition bad_signature : JsValue :=
  JsString "1111111111111111111111111111111111111111111111111111111111111112".
Definition the_nonce : string := "5f2a".

Definition env (now : Z) : Env :=
  {| ClaimRateLimit.now := now; now_iso := "2026-02-06T12:00:00.000Z";
     ip := "203.0.113.7"; remoteAddress := ""; random_hex := the_nonce;
     db_handle := true; redis_client := RedisReady;
     redis_broken := fun _ => false |}.

Definition empty_db : Db :=
  {| Agent := ∅; User := []; wallet_opt_outs := []; wallet_agent_claims := [];
     orphan_watchlist := ∅; wallet_agent_notifications := []; Post := [];
     Comment := []; agent_memory := []; agent_personality := []; next_id := 1000%N |}.

Definition empty_world : World := {| db := empty_db; redis := ∅; published := [] |}.

(** An agent created at instant 0 for the wallet, to be claimed within
    30 days. *)
Definition agent (status : ClaimStatus) : AgentDoc :=
  {| name := "gatj"; displayName := "Gatj"; isWalletAgent := true;
     walletAgentData :=
       Some {| sourceWallet := to_string wallet; claimStatus := Some status;
               claimDeadline := Some (30 * DAY_MS); claimedAt := None;
               claimSignature := None; claimNonce := None; claimedBy := None;
               orphanedAt := None; foundingWallet := false; foundingRank := None |};
     userId := None; owner := None; createdAt := 0; updatedAt := 0;
     postCount := 12; tipsEarned := 3 |}.

Definition world_with (status : ClaimStatus) : World :=
  with_db (with_Agent <[agent_id := agent status]>) empty_world.

(** The world after the wallet has asked for a claim nonce at instant
    1000. *)
Definition world_with_nonce : World :=
  (run (issueClaimNonce (env 1000) wallet agentId) (world_with UNCLAIMED)).2.

(** A world in which an opt-out nonce is stored for the wallet, which
    has no agent. *)
Definition optout_record : NonceRecord :=
  {| nonce := the_nonce; timestamp := "2026-02-06T12:00:00.000Z";
     message := generateOptOutMessage (to_string wallet) the_nonce
                  "2026-02-06T12:00:00.000Z" |}.

Definition world_with_optout_nonce : World :=
  with_redis
    <[optout_nonce_key (to_string wallet) :=
        {| held := RNonce optout_record; expireAt := Some 301000 |}]>
    empty_world.

(** A claim of the agent, sent at instant 2000 with the nonce issued at
    instant 1000 and a signature that verifies. *)
Definition claim_call : Call :=
  {| call_env := env 2000; call_wallet := wallet; call_agentId := agentId;
     call_signature := good_signature; call_nonce := JsString the_nonce |}.

(** Two calls in flight: the second sends its first command, the first
    one runs to its answer, and the second one goes on. *)
Definition late_schedule : list nat :=
  1%nat :: replicate 40 0%nat ++ replicate 40 1%nat.

(** The world after the claim of the agent at instant 2000. *)
Definition claimed_world : World :=
  (run (verifyClaim zero_signatures (env 2000) wallet agentId good_signature
          (JsString the_nonce)) world_with_nonce).2.

(** The wallet asks for a nonce again at instant 1500, and is given
    another one. *)
Definition other_nonce : string := "9c1d".

Definition second_env : Env :=
  {| ClaimRateLimit.now := 1500; now_iso := "2026-02-06T12:00:01.500Z";
     ip := "203.0.113.7"; remoteAddress := ""; random_hex := other_nonce;
     db_handle := true; redis_client := RedisReady;
     redis_broken := fun _ => false |}.

Definition other_record : NonceRecord :=
  {| nonce := other_nonce; timestamp := "2026-02-06T12:00:01.500Z";
     message := generateClaimMessage (to_string agentId) (to_string wallet) other_nonce
                  "2026-02-06T12:00:01.500Z" |}.

Definition reissued_world : World :=
  (run (issueClaimNonce second_env wallet agentId) world_with_nonce).2.

(** The world after a claim with a signature that does not verify. *)
Definition world_after_bad_signature : World :=
  (run (verifyClaim zero_signatures (env 2000) wallet agentId bad_signature
          (JsString the_nonce)) world_with_nonce).2.

(** The agent's wallet asks for an opt-out nonce at instant 1000, opts
    out at instant 2000, and a subject is created for it again. *)
Definition world_with_agent_optout_nonce : World :=
  (run (optOutNonce (env 1000) wallet) (world_with UNCLAIMED)).2.

Definition opted_out_world : World :=
  (run (optOut_route zero_signatures (env 2000) wallet good_signature
          (JsString the_nonce)) world_with_agent_optout_nonce).2.

Definition subject_created_again : list Event :=
  [ AgentsWritten <[agent_id := agent UNCLAIMED]>;
    NonceAsked (env 3000) wallet agentId;
    Checked (env 3000) wallet ].

(** Redis down, Redis throwing at every command, and a wallet with five
    failed attempts counted against it. *)
Definition env_redis_down : Env :=
  {| ClaimRateLimit.now := 1000; now_iso := "2026-02-06T12:00:00.000Z";
     ip := "203.0.113.7"; remoteAddress := ""; random_hex := the_nonce;
     db_handle := true; redis_client := RedisNotReady;
     redis_broken := fun _ => false |}.

Definition env_redis_throwing : Env :=
  {| ClaimRateLimit.now := 1000; now_iso := "2026-02-06T12:00:00.000Z";
     ip := "203.0.113.7"; remoteAddress := ""; random_hex := the_nonce;
     db_handle := true; redis_client := RedisReady;
     redis_broken := fun _ => true |}.

Definition world_with_failures : World :=
  with_redis
    <[wallet_fail_key (to_string wallet) :=
        {| held := RCounter 5; expireAt := Some 3600000 |}]>
    empty_world.

(** The agent, created at instant 0, on its 29th day, with the six
    earlier templates recorded as sent. *)
Definition sent_memo (day : Z) (template : string) : NotificationDoc :=
  Memo {| memo_walletAddress := to_string wallet; memo_agentId := agent_id;
          memo_channel := "onchain_memo"; memo_template := template;
          memo_message := None; memo_status := sent;
          memo_txSignature := Some "5XzSig"; memo_error := None;
          memo_scheduledDay := day; memo_actualDay := day;
          memo_sentAt := day * DAY_MS |}.

Definition world_day_29 : World :=
  with_db
    (with_notifications
       (fun _ => [ sent_memo 0 "AGENT_CREATED"; sent_memo 7 "WEEK_1_UPDATE";
                   sent_memo 14 "HALFWAY_WARNING"; sent_memo 21 "NINE_DAYS_LEFT";
                   sent_memo 25 "FIVE_DAYS_LEFT"; sent_memo 28 "TWO_DAYS_LEFT" ]))
    (world_with UNCLAIMED).

Definition day_29 : Z := 29 * DAY_MS + 3600000.

(** Another agent of day 0, for a wallet of its own, with nothing sent
    for it yet. *)
Definition bystander (i : N) : AgentDoc :=
  {| name := "agent-" +:+ pretty i; displayName := ""; isWalletAgent := true;
     walletAgentData :=
       Some {| sourceWallet := "wallet-" +:+ pretty i; claimStatus := Some UNCLAIMED;
               claimDeadline := Some (30 * DAY_MS); claimedAt := None;
               claimSignature := None; claimNonce := None; claimedBy := None;
               orphanedAt := None; foundingWallet := false; foundingRank := None |};
     userId := None; owner := None; createdAt := 0; updatedAt := 0;
     postCount := 0; tipsEarned := 0 |}.

(** The world of day 29 with 72 such agents, of ids 6, 10, ... 290,
    which the cursor over the agents yields before the sample agent. *)
Definition crowded_world_day_29 : World :=
  with_db
    (with_Agent (fun agents => foldr (fun i => <[i := bystander i]>) agents
                                 ((fun k => N.of_nat (4 * k + 2)) <$> seq 1 72)))
    world_day_29.

Definition always_confirmed (calls : nat) (wallet : string) (id : ObjectId) (url : string)
    : ClaimNotifications.SendResult :=
  ClaimNotifications.Confirmed "5XzSig".

Definition short_date (at_ : Z) : string := "Mar 8".

(** The agent past its deadline, with one watcher waiting for it. *)
Definition world_with_watcher : World :=
  with_db
    (with_watchlist
       <[7%N := {| watcher_userId := 42%N; watcher_agentId := agent_id;
                   Store.notified := false; notifiedAt := None |}]>)
    (world_with UNCLAIMED).

Definition never_broken (c : OrphanTransition.Cmd) : bool := false.

(** A database whose updates of the agents throw. *)
Definition update_throws (c : OrphanTransition.Cmd) : bool :=
  match c with
  | OrphanTransition.UpdateAgent _ => true
  | _ => false
  end.
Definition day_31 : Z := 31 * DAY_MS.
Definition day_32 : Z := 32 * DAY_MS.
End Sample.

(* ===================================================================== *)
(** ** src/services/memoSender.js : sending a memo *)
(* ===================================================================== *)

Module MemoSending.
Import SolanaSignature Store ClaimNotifications.

Definition DUST_LAMPORTS : Z := 1000.
Definition MAX_MEMO_LENGTH : nat := 200.

(** The text of the memo: [memo.slice(0, MAX_MEMO_LENGTH - 3) + '...']
    when it is too long.  A string is its sequence of one-byte
    characters, as everywhere here; [length] and [slice] count them. *)
Definition claim_memo (claimUrl : string) : string :=
  let memo := "Your AI agent is live on KLIK! Claim it: " +:+ claimUrl in
  if (MAX_MEMO_LENGTH <? String.length memo)%nat
  then String.substring 0 (MAX_MEMO_LENGTH - 3) memo +:+ "..."
  else memo.

(** The transaction: the dust transfer from the treasury to the
    recipient, and the memo instruction signed by the treasury. *)
Record MemoTransaction := {
  fromPubkey : list N;
  toPubkey : list N;
  lamports : Z;
  memo_signer : list N;
  memo_data : string;
}.

Section Sender.
(** [process.env.TREASURY_PRIVATE_KEY] *)
Variable TREASURY_PRIVATE_KEY : option string.
(** [Keypair.fromSecretKey]: the public key of the pair, or the message
    of the error it throws. *)
Variable Keypair_fromSecretKey : list N → string + list N.
(** The messages of the errors that [bs58.decode] and [new PublicKey]
    throw. *)
Variable bs58_error PublicKey_error : string.
(** [sendAndConfirmTransaction], by the number of calls made before:
    the signature, or the message of the error it throws. *)
Variable sendAndConfirmTransaction : nat → MemoTransaction → string + string.

Definition loadTreasuryKeypair : string + list N :=
  match TREASURY_PRIVATE_KEY with
  | Some pk =>
      if String.eqb pk "" then inl "TREASURY_PRIVATE_KEY environment variable not set"
      else
        match bs58_decode pk with
        | Some decoded =>
            match Keypair_fromSecretKey decoded with
            | inr treasury => inr treasury
            | inl err => inl ("Failed to decode TREASURY_PRIVATE_KEY: " +:+ err)
            end
        | None => inl ("Failed to decode TREASURY_PRIVATE_KEY: " +:+ bs58_error)
        end
  | None => inl "TREASURY_PRIVATE_KEY environment variable not set"
  end.

(** [sendClaimMemo]; the agent's id is only logged.  An error of the
    treasury key or of the recipient's key is thrown before anything is
    sent; an error of the transaction is caught and reported. *)
Definition sendClaimMemo (calls : nat) (walletAddress : string) (agentId : ObjectId)
    (claimUrl : string) : SendResult :=
  match loadTreasuryKeypair with
  | inl err => Thrown err
  | inr treasury =>
      let memo := claim_memo claimUrl in
      match PublicKey_of_string walletAddress with
      | None => Thrown PublicKey_error
      | Some recipientPubkey =>
          let tx := {| fromPubkey := treasury; toPubkey := recipientPubkey;
                       lamports := DUST_LAMPORTS; memo_signer := treasury;
                       memo_data := memo |} in
          match sendAndConfirmTransaction calls tx with
          | inr signature => Confirmed signature
          | inl err => Rejected err
          end
      end
  end.
End Sender.

(** *** sendBatchMemos *)

Record BatchAgent := {
  batch_walletAddress : string;
  batch_agentId : ObjectId;
  batch_agentName : string;
}.

(** What [sendClaimMemo] returns. *)
Record MemoResult := {
  success : bool;
  signature : option string;
  error : option string;
}.

(** The document stored for a memo of a batch. *)
Record BatchRecord := {
  record_walletAddress : string;
  record_agentId : ObjectId;
  record_channel : string;
  record_template : string;
  record_status : Delivery;
  record_txSignature : option string;
  record_error : option string;
  record_sentAt : Z;
}.

Record BatchSummary := {
  total : nat;
  succeeded : nat;
  failed : nat;
  results : list MemoResult;
}.

Section Batch.
(** [sendClaimMemo], [insertOne] (the message of the error it throws,
    if it does) and the clock, each by the position of the agent in
    the list: the memos of a batch are in flight together, and what
    one of them gives does not depend on when the others end. *)
Variable sendClaimMemo : nat → string → ObjectId → string → SendResult.
Variable insertOne_error : nat → option string.
Variable clock : nat → Z.

(** [result.error || null] *)
Definition or_null (s : string) : option string :=
  if String.eqb s "" then None else Some s.

(** One memo of a batch: how its promise settles (the value, or the
    message of the reason), and the document it has stored. *)
Definition batch_task (position : nat) (agent : BatchAgent)
    : (MemoResult + string) * option BatchRecord :=
  let claimUrl := "https://klik.cool/claim?wallet=" +:+ batch_walletAddress agent in
  let settle (result : MemoResult) :=
    (* Store notification record *)
    match insertOne_error position with
    | Some err => (inr err, None)
    | None =>
        (inl result,
         Some {| record_walletAddress := batch_walletAddress agent;
                 record_agentId := batch_agentId agent;
                 record_channel := "onchain_memo";
                 record_template := "AGENT_CREATED";
                 record_status := if success result then Store.sent else Store.failed;
                 record_txSignature := signature result;
                 record_error := error result ≫= or_null;
                 record_sentAt := clock position |})
    end in
  match sendClaimMemo position (batch_walletAddress agent) (batch_agentId agent) claimUrl with
  | Confirmed sig => settle {| success := true; signature := Some sig; error := None |}
  | Rejected err => settle {| success := false; signature := None; error := Some err |}
  | Thrown err => (inr err, None)
  end.

(** The state of the loop: the counters, the results, and the document
    stored for each agent so far, if any. *)
Definition Progress : Type := BatchSummary * list (option BatchRecord).

(** The loop over the settled promises of a batch, one at a time. *)
Definition count_result (st : Progress) (settled : (MemoResult + string) * option BatchRecord)
    : Progress :=
  let '(summary, records) := st in
  let '(outcome, record) := settled in
  let summary :=
    match outcome with
    | inl value =>
        if success value
        then {| total := total summary; succeeded := S (succeeded summary);
                failed := failed summary; results := results summary ++ [value] |}
        else {| total := total summary; succeeded := succeeded summary;
                failed := S (failed summary); results := results summary ++ [value] |}
    | inr reason =>
        {| total := total summary; succeeded := succeeded summary;
           failed := S (failed summary);
           results := results summary
                        ++ [{| success := false; signature := None;
                               error := Some reason |}] |}
    end in
  (summary, records ++ [record]).

Fixpoint run_batch (position : nat) (batch : list BatchAgent) (st : Progress) : Progress :=
  match batch with
  | [] => st
  | agent :: rest => run_batch (S position) rest (count_result st (batch_task position agent))
  end.

(** [for (let i = 0; i < agents.length; i += concurrency)], with fuel:
    [None] when the fuel runs out before the loop ends. *)
Fixpoint batches (fuel : nat) (agents : list BatchAgent) (concurrency : nat)
    (i : nat) (st : Progress) : option Progress :=
  if (i <? length agents)%nat then
    match fuel with
    | O => None
    | S fuel' =>
        (* agents.slice(i, i + concurrency) *)
        let batch := take concurrency (drop i agents) in
        batches fuel' agents concurrency (i + concurrency) (run_batch i batch st)
    end
  else Some st.

(** [sendBatchMemos(agents, db, concurrency)], for a concurrency that
    is a natural number. *)
Definition sendBatchMemos (fuel : nat) (agents : list BatchAgent) (concurrency : nat)
    : option Progress :=
  batches fuel agents concurrency 0
    ({| total := length agents; succeeded := 0; failed := 0; results := [] |}, []).
End Batch.
End MemoSending.

(* ===================================================================== *)
(** ** src/routes/userAgents.js : adoption and the watchlist *)
(* ===================================================================== *)

Module OrphanRoutes.
Import SolanaSignature Store Commands Async ClaimRateLimit ClaimRoutes.

(** The responses of the routes, by status and [code] ([None] for the
    503 of a missing [req.db], which has no code).  The commands of the
    database are taken to answer, as in the claim routes: the 500 of
    the [catch] is not among the responses. *)
Inductive OrphanReply :=
| Refused (status : N) (code : option string)
| LimitReached (current limit : N) (tier : string)
| AdoptedReply (agent : ObjectId) (adoptedAt : Z)
| WatchReply (alreadyWatching : bool)
| UnwatchReply.

(** [TIER_LIMITS[tier]], for a tier that is one of its four keys or
    names no property of an object. *)
Definition TIER_LIMITS (tier : string) : option N :=
  if String.eqb tier "free" then Some 0%N
  else if String.eqb tier "starter" then Some 1%N
  else if String.eqb tier "pro" then Some 3%N
  else if String.eqb tier "unlimited" then Some 10%N
  else None.

(** The filter of the conditional update of an adoption. *)
Definition adoptable (a : AgentDoc) : bool :=
  isWalletAgent a && bool_decide (wad_status a = Some ORPHANED).

(** The [$set] of an adoption; [adoptedBy] and [adoptedAt], which
    nothing reads, are not fields of the documents here. *)
Definition set_adopted (now : Z) (user : ObjectId) (a : AgentDoc) : AgentDoc :=
  {| name := name a; displayName := displayName a; isWalletAgent := isWalletAgent a;
     walletAgentData :=
       (fun d => {| sourceWallet := sourceWallet d;
                    claimStatus := Some ADOPTED;
                    claimDeadline := claimDeadline d;
                    claimedAt := claimedAt d;
                    claimSignature := claimSignature d;
                    claimNonce := claimNonce d;
                    claimedBy := claimedBy d;
                    orphanedAt := orphanedAt d;
                    foundingWallet := foundingWallet d;
                    foundingRank := foundingRank d |}) <$> walletAgentData a;
     userId := Some user; owner := Some user; createdAt := createdAt a;
     updatedAt := now; postCount := postCount a; tipsEarned := tipsEarned a |}.

(** [updateOne] on a list collection: the first match. *)
Fixpoint update_first {A} (P : A → bool) (f : A → A) (l : list A) : list A :=
  match l with
  | [] => []
  | x :: l' => if P x then f x :: l' else x :: update_first P f l'
  end.

(** [updateOne({ _id }, { $inc: { agentCount: 1 } })] on [User]; the
    users here have no [updatedAt]. *)
Definition inc_agentCount (user : ObjectId) (w : World) : unit * World :=
  ((), with_db
         (with_User
            (update_first (fun u => bool_decide (user_id u = user))
               (fun u => {| user_id := user_id u;
                            user_walletAddress := user_walletAddress u;
                            user_authMethod := user_authMethod u;
                            user_subscriptionTier := user_subscriptionTier u;
                            user_agentCount := (user_agentCount u + 1)%N;
                            user_lastLoginAt := user_lastLoginAt u;
                            user_createdAt := user_createdAt u |})))
         w).

(** [findOne({ userId, agentId })] on [orphan_watchlist]. *)
Definition find_watcher (user agent : ObjectId) (w : World)
    : option (ObjectId * WatcherDoc) :=
  head (filter (fun x => watcher_userId x.2 = user ∧ watcher_agentId x.2 = agent)
          (map_to_list (orphan_watchlist (db w)))).

(** [updateOne(filter, { $setOnInsert }, { upsert: true })]: whether a
    document was inserted ([upsertedCount]). *)
Definition upsert_watcher (user agent : ObjectId) (w : World) : bool * World :=
  match find_watcher user agent w with
  | Some _ => (false, w)
  | None =>
      let id := next_id (db w) in
      (true,
       with_db (fun d =>
                  with_next_id (N.succ id)
                    (with_watchlist
                       <[id := {| watcher_userId := user; watcher_agentId := agent;
                                  Store.notified := false; notifiedAt := None |}]> d))
         w)
  end.

(** [deleteOne({ userId, agentId })]: whether a document was deleted. *)
Definition delete_watcher (user agent : ObjectId) (w : World) : bool * World :=
  match find_watcher user agent w with
  | Some (wid, _) => (true, with_db (with_watchlist (delete wid)) w)
  | None => (false, w)
  end.

Section Routes.
(** The agents whose [status] is ['DELETED']: the field is not part of
    the documents here, and nothing here writes it. *)
Variable status_DELETED : ObjectId → bool.

(** *** POST /api/v1/orphans/:agentId/adopt, for the user the
    authentication has attached to the request *)

Definition adopt (env : Env) (user : UserDoc) (agentId : string)
    : Task World OrphanReply :=
  if negb (db_handle env) then mret (Refused 503 None)
  else
    match parse_ObjectId (JsString agentId) with
    | None => mret (Refused 400 (Some "INVALID_AGENT_ID"))
    | Some id =>
        (* Check user has available agent slot *)
        let tier := if String.eqb (user_subscriptionTier user) "" then "free"
                    else user_subscriptionTier user in
        let maxAgents := default 0%N (TIER_LIMITS tier) in
        (* Wallet claim users get at least 1 slot (starter tier) *)
        let effectiveMax :=
          N.max maxAgents
                (if String.eqb (user_authMethod user) "wallet_claim" then 1 else 0)%N in
        currentAgentCount ← await (count_agents
                                     (fun i a => bool_decide (userId a = Some (user_id user))
                                                 && negb (status_DELETED i)));
        if (effectiveMax <=? currentAgentCount)%N
        then mret (LimitReached currentAgentCount effectiveMax tier)
        else
          (* Verify agent is ORPHANED and atomically adopt *)
          adoptResult ← await (find_agent_and_update id adoptable
                                 (set_adopted (now env) (user_id user)));
          match adoptResult with
          | None => mret (Refused 409 (Some "NOT_ADOPTABLE"))
          | Some _ =>
              (* Log adoption *)
              await (log_claim
                       {| log_walletAddress := non_empty (user_walletAddress user);
                          log_agentId := Some id; log_userId := Some (user_id user);
                          log_action := "ADOPTED"; log_result := None;
                          log_foundingRank := None; log_ip := ip env;
                          log_timestamp := now env |});;
              (* Update user agent count *)
              await (inc_agentCount (user_id user));;
              (* Publish adoption event *)
              match redis_client env with
              | RedisReady => await (redis_publish "AGENT_ADOPTED" id)
              | _ => mret ()
              end;;
              mret (AdoptedReply id (now env))
          end
    end.

(** *** POST /api/v1/orphans/:agentId/watch *)

Definition watch (env : Env) (user : UserDoc) (agentId : string)
    : Task World OrphanReply :=
  if negb (db_handle env) then mret (Refused 503 None)
  else
    match parse_ObjectId (JsString agentId) with
    | None => mret (Refused 400 (Some "INVALID_AGENT_ID"))
    | Some id =>
        (* Verify agent exists and is a wallet agent *)
        agent ← await (find_agent (fun i a => bool_decide (i = id) && isWalletAgent a));
        match agent with
        | None => mret (Refused 404 (Some "AGENT_NOT_FOUND"))
        | Some (_, agent) =>
            let claimStatus := default UNCLAIMED (wad_status agent) in
            (* If already orphaned, no need to watch *)
            if bool_decide (claimStatus = ORPHANED)
            then mret (Refused 409 (Some "ALREADY_ORPHANED"))
            else if bool_decide (claimStatus = CLAIMED) || bool_decide (claimStatus = ADOPTED)
            then mret (Refused 409 (Some "ALREADY_CLAIMED"))
            else
              (* Add to watchlist (upsert to prevent duplicates) *)
              upserted ← await (upsert_watcher (user_id user) id);
              mret (WatchReply (negb upserted))
        end
    end.

(** *** DELETE /api/v1/orphans/:agentId/watch *)

Definition unwatch (env : Env) (user : UserDoc) (agentId : string)
    : Task World OrphanReply :=
  if negb (db_handle env) then mret (Refused 503 None)
  else
    match parse_ObjectId (JsString agentId) with
    | None => mret (Refused 400 (Some "INVALID_AGENT_ID"))
    | Some id =>
        deleted ← await (delete_watcher (user_id user) id);
        if deleted : bool then mret UnwatchReply
        else mret (Refused 404 (Some "NOT_WATCHING"))
    end.
End Routes.
End OrphanRoutes.

(* ===================================================================== *)
(** ** Notions for the properties of the routes and the crons *)
(* ===================================================================== *)

Module Behaviour.
Import SolanaSignature Store Commands Async ClaimRateLimit ClaimRoutes OrphanRoutes Notions.

(** *** Base-58 *)

(** A list of digits in base [b] with no leading zero. *)
Definition canonical_digits (b : N) (l : list N) : Prop :=
  Forall (fun d => (d < b)%N) l ∧ head l ≠ Some 0%N.

(** A key or a signature: bytes, of a given number. *)
Definition bytes_of_length (n : nat) (l : list N) : Prop :=
  length l = n ∧ Forall (fun x => (x < 256)%N) l.

(** *** Counters of the abuse detector *)

(** A key that is absent from Redis, or has expired. *)
Definition fresh_key (now : Z) (key : string) (w : World) : Prop :=
  match redis w !! key with
  | Some e => live now e = false
  | None => True
  end.

(** The answers of the verify route that are counted against the
    wallet. *)
Definition counted_failure (r : Reply) : Prop :=
  r ∈ [ Error 400 "NONCE_EXPIRED"; Error 400 "NONCE_MISMATCH";
        Error 403 "INVALID_SIGNATURE" ].

(** The number of wallet agents that are claimed. *)
Definition claimed_count (w : World) : N :=
  N.of_nat (size (filter (λ p : ObjectId * AgentDoc,
                            isWalletAgent p.2 = true ∧ wad_status p.2 = Some CLAIMED)
                    (Agent (db w)))).

(** An agent that was due for the orphan sweep of instant [now] in
    the world [w] and is, in the world [w'], what the sweep makes of
    it. *)
Definition turned (now : Z) (w w' : World) (id : ObjectId) : Prop :=
  ∃ a, Agent (db w) !! id = Some a
       ∧ OrphanTransition.expired now a = true
       ∧ Agent (db w') !! id = Some (OrphanTransition.set_orphaned now a).

(** A run of the sweep in which no command throws. *)
Definition none_throws (c : OrphanTransition.Cmd) : bool := false.

(** What the loop over the watchers of one agent changes: it marks
    watchers of its list, and adds notices for the agent. *)
Definition watchers_marked (now : Z) (ids : list ObjectId) (w w' : World) : Prop :=
  ∀ wid, orphan_watchlist (db w') !! wid = orphan_watchlist (db w) !! wid
         ∨ ∃ x, orphan_watchlist (db w) !! wid = Some x
                ∧ orphan_watchlist (db w') !! wid
                  = Some (OrphanTransition.set_notified now x)
                ∧ wid ∈ ids.

Definition notices_added (now : Z) (id : ObjectId) (w w' : World) : Prop :=
  ∃ added,
    wallet_agent_notifications (db w') = wallet_agent_notifications (db w) ++ added
    ∧ Forall (λ n, ∃ o, n = Notice o ∧ notice_agentId o = id ∧ notice_createdAt o = now)
        added.

(** What a sweep has done to the world [w] it started from: an agent
    is as it was or was turned; a watcher is as it was, or was not
    notified, is marked now, and watches an agent that was turned; the
    notices added are of this instant, for agents that were turned. *)
Definition agents_swept (now : Z) (w w' : World) : Prop :=
  ∀ id, Agent (db w') !! id = Agent (db w) !! id ∨ turned now w w' id.

Definition watchers_swept (now : Z) (w w' : World) : Prop :=
  ∀ wid, orphan_watchlist (db w') !! wid = orphan_watchlist (db w) !! wid
         ∨ ∃ x, orphan_watchlist (db w) !! wid = Some x
                ∧ Store.notified x ≠ true
                ∧ orphan_watchlist (db w') !! wid
                  = Some (OrphanTransition.set_notified now x)
                ∧ turned now w w' (watcher_agentId x).

Definition notices_swept (now : Z) (w w' : World) : Prop :=
  ∃ added,
    wallet_agent_notifications (db w') = wallet_agent_notifications (db w) ++ added
    ∧ Forall (λ n, ∃ o, n = Notice o ∧ notice_createdAt o = now
                        ∧ turned now w w' (notice_agentId o)) added.

(** The templates of the schedule that are due [days] days after the
    creation of an agent and are not among those already sent, in the
    order of the schedule. *)
Definition due_templates (days : Z) (sentTemplates : list string) : list string :=
  ClaimNotifications.template
    <$> filter (λ s, ClaimNotifications.daysAfterCreation s ≤ days
                     ∧ ClaimNotifications.template s ∉ sentTemplates)
          ClaimNotifications.NOTIFICATION_SCHEDULE.

(** A stretch of a run of the notification cron, by the records it
    has added: one for each call of the delivery channel, counted as
    sent or as failed. *)
Definition memo_key (m : MemoRecord) : ClaimNotifications.Dispatch :=
  (memo_agentId m, memo_template m).

Record extends (r r' : ClaimNotifications.Run) (records : list MemoRecord) : Prop := {
  extends_world :
    ClaimNotifications.world r'
    = foldl ClaimNotifications.record (ClaimNotifications.world r) records;
  extends_dispatched :
    ClaimNotifications.dispatched r'
    = ClaimNotifications.dispatched r ++ (memo_key <$> records);
  extends_sent :
    ClaimNotifications.sent_count r'
    = (ClaimNotifications.sent_count r
       + length (filter (λ m, memo_status m = sent) records))%nat;
  extends_failed :
    ClaimNotifications.failed_count r'
    = (ClaimNotifications.failed_count r
       + length (filter (λ m, memo_status m = failed) records))%nat;
}.

(** The moves of a claim status: a claim, the orphan sweep, an
    adoption. *)
Definition status_moves (s s' : option ClaimStatus) : Prop :=
  s' = s
  ∨ (s = Some UNCLAIMED ∧ s' ∈ [Some CLAIMED; Some ORPHANED; Some ADOPTED])
  ∨ (s = Some ORPHANED ∧ s' = Some ADOPTED).

(** The agents of two worlds, the second one later: no agent has
    appeared, none has disappeared unless [deleting], and the claim
    status of each has moved as above. *)
Definition lifecycle (deleting : bool) (w w' : World) : Prop :=
  ∀ id, match Agent (db w) !! id, Agent (db w') !! id with
        | Some a, Some a' => status_moves (wad_status a) (wad_status a')
        | Some _, None => deleting = true
        | None, Some _ => False
        | None, None => True
        end.

(** What the code can do to a world: the events of the claim routes
    and of the crons, and the requests of the adoption routes. *)
Inductive Operation :=
| ClaimEvent (e : Event)
| AdoptSent (status_DELETED : ObjectId → bool) (env : Env) (user : UserDoc)
    (agentId : string)
| WatchSent (env : Env) (user : UserDoc) (agentId : string)
| UnwatchSent (env : Env) (user : UserDoc) (agentId : string).

Section Performed.
Variable nacl : list ascii → list N → list N → bool.

Definition perform (w : World) (op : Operation) : World :=
  match op with
  | ClaimEvent e => happen nacl w e
  | AdoptSent status_DELETED env user agentId =>
      (run (adopt status_DELETED env user agentId) w).2
  | WatchSent env user agentId => (run (watch env user agentId) w).2
  | UnwatchSent env user agentId => (run (unwatch env user agentId) w).2
  end.
End Performed.

(** The operations that are the code's own, and those that delete. *)
Definition of_the_code (op : Operation) : Prop :=
  match op with
  | ClaimEvent (AgentsWritten _) => False
  | _ => True
  end.

Definition opt_out_sent (op : Operation) : Prop :=
  match op with
  | ClaimEvent (OptOutSent _ _ _ _) => True
  | _ => False
  end.

(** What a batch reports for a memo: the value of its promise, or a
    failure with the message of the reason. *)
Definition reported (outcome : MemoSending.MemoResult + string) : MemoSending.MemoResult :=
  match outcome with
  | inl value => value
  | inr reason => {| MemoSending.success := false; MemoSending.signature := None;
                     MemoSending.error := Some reason |}
  end.

(** The documents a batch has stored with status [sent]. *)
Definition stored_as_sent (records : list (option MemoSending.BatchRecord))
    : list MemoSending.BatchRecord :=
  filter (λ d, MemoSending.record_status d = sent) (omap id records).

End Behaviour.

(* ===================================================================== *)
(** ** More sample data *)
(* ===================================================================== *)

Module BehaviourSample.
Import SolanaSignature Store Commands Async ClaimRateLimit ClaimRoutes OrphanRoutes
  MemoSending Notions Behaviour Sample.

(** The world of the wallet with five failures, the address of the
    client having made a hundred requests in the hour. *)
Definition world_with_busy_address : World :=
  with_redis
    <[ip_key (env 1000) := {| held := RCounter 100; expireAt := None |}]>
    world_with_failures.

(** The agent on its 29th day, its wallet having asked for an opt-out
    nonce at instant 1000. *)
Definition world_day_29_optout_nonce : World :=
  (run (optOutNonce (env 1000) wallet) world_day_29).2.

(** The user the claim of the sample creates, and a user on the pro
    tier. *)
Definition claimant : UserDoc := new_user (env 2000) (to_string wallet) 1000%N.

Definition adopter : UserDoc :=
  {| user_id := 42%N; user_walletAddress := ""; user_authMethod := "web3auth";
     user_subscriptionTier := "pro"; user_agentCount := 0;
     user_lastLoginAt := None; user_createdAt := 0 |}.

Definition none_deleted (id : ObjectId) : bool := false.

(** The world after the sweep of day 31 has orphaned the agent. *)
Definition orphaned_world : World :=
  (OrphanTransition.processOrphanTransitions never_broken true day_31 world_with_watcher).2.

Definition the_watcher : WatcherDoc :=
  {| watcher_userId := 42%N; watcher_agentId := agent_id;
     Store.notified := false; notifiedAt := None |}.

(** What the claim routes and the sweep do to the agent, and an
    adoption asked for it afterwards. *)
Definition claimed_then_swept : list Operation :=
  [ ClaimEvent (NonceAsked (env 1000) wallet agentId);
    ClaimEvent (ClaimSent (env 2000) wallet agentId good_signature (JsString the_nonce));
    ClaimEvent (OrphanSweep never_broken true day_31);
    AdoptSent none_deleted (env 3000) adopter "6612f1a2b3c4d5e6f7890abc" ].

(** A treasury whose key is the wallet of the sample, and a network
    that confirms every transaction. *)
Definition treasury_key : option string :=
  Some "GaTjJs756Urcsjs7ia8HYm3eiBNbBAHFAS7fLsSNVxus".
Definition keypair_of (secretKey : list N) : string + list N := inr secretKey.
Definition always_lands (calls : nat) (tx : MemoTransaction) : string + string :=
  inr "5XzSig".

(** A batch of three agents; the memo of the second is rejected by the
    network, and the insert of the third one fails. *)
Definition batch_of_three : list BatchAgent :=
  [ {| batch_walletAddress := to_string wallet; batch_agentId := 1%N;
       batch_agentName := "one" |};
    {| batch_walletAddress := to_string wallet; batch_agentId := 2%N;
       batch_agentName := "two" |};
    {| batch_walletAddress := to_string wallet; batch_agentId := 3%N;
       batch_agentName := "three" |} ].

Definition second_rejected (position : nat) (wallet : string) (id : ObjectId) (url : string)
    : ClaimNotifications.SendResult :=
  if (position =? 1)%nat then ClaimNotifications.Rejected "blockhash not found"
  else ClaimNotifications.Confirmed "5XzSig".

Definition third_insert_fails (position : nat) : option string :=
  if (position =? 2)%nat then Some "connection closed" else None.

Definition at_noon (position : nat) : Z := 1000.

End BehaviourSample.

(* ===================================================================== *)
(** * Properties *)
(* ===================================================================== *)

(** ** Handlers running alone *)

Section AsyncFacts.
Import Async.
Context {W : Type}.

Lemma run_bind {A B} (t : Task W A) (f : A → Task W B) (w : W) :
  run (t ≫= f) w = run (f (run t w).1) (run t w).2.
Proof.
  revert w. induction t as [a|X op k IH]; intros w; [reflexivity|].
  change (Await op k ≫= f) with (Await op (fun x => k x ≫= f)).
  cbn [run]. destruct (op w) as [x w']. apply IH.
Qed.

Lemma run_await {X} (op : W → X * W) (w : W) : run (await op) w = op w.
Proof. unfold await. cbn. by destruct (op w). Qed.

Lemma run_ret {A} (a : A) (w : W) : run (mret a : Task W A) w = (a, w).
Proof. reflexivity. Qed.

Lemma future_ret {A} (R : W → W → Prop) (P : A → Prop) (a : A) :
  P a → future R P (mret a : Task W A).
Proof. done. Qed.

Lemma future_await {X} (R : W → W → Prop) (P : X → Prop) (op : W → X * W) :
  (∀ w, R w (op w).2 ∧ P (op w).1) → future R P (await op).
Proof. done. Qed.

Lemma future_bind {A B} (R : W → W → Prop) (Q : A → Prop) (P : B → Prop)
    (t : Task W A) (f : A → Task W B) :
  future R Q t → (∀ a, Q a → future R P (f a)) → future R P (t ≫= f).
Proof.
  intros Ht Hf. induction t as [a|X op k IH]; [by apply Hf|].
  change (Await op k ≫= f) with (Await op (fun x => k x ≫= f)).
  intros w. destruct (Ht w) as [HR Hk]. split; [done|]. by apply IH.
Qed.

Lemma future_weaken {A} (R R' : W → W → Prop) (P P' : A → Prop) (t : Task W A) :
  (∀ w w', R w w' → R' w w') → (∀ a, P a → P' a) → future R P t → future R' P' t.
Proof.
  intros HR HP. induction t as [a|X op k IH]; [apply HP|].
  intros Ht w. destruct (Ht w) as [? ?]. split; [by apply HR|by apply IH].
Qed.

Lemma trace_bind {A B} (t : Task W A) (f : A → Task W B) (w : W) :
  trace (t ≫= f) w = trace t w ++ trace (f (run t w).1) (run t w).2.
Proof.
  revert w. induction t as [a|X op k IH]; intros w; [reflexivity|].
  change (Await op k ≫= f) with (Await op (fun x => k x ≫= f)).
  cbn [trace run]. destruct (op w) as [x w']. by rewrite IH.
Qed.

Lemma trace_await {X} (op : W → X * W) (w : W) : trace (await op) w = [(op w).2].
Proof. unfold await. cbn. by destruct (op w). Qed.

Lemma trace_ret {A} (a : A) (w : W) : trace (mret a : Task W A) w = [].
Proof. reflexivity. Qed.

Lemma future_trace {A} (R : W → W → Prop) `{!PreOrder R} (P : A → Prop)
    (t : Task W A) (w w' : W) :
  future R P t → w' ∈ trace t w → R w w'.
Proof.
  revert w. induction t as [a|X op k IH]; intros w Ht; cbn [trace].
  { intros Hin. by apply elem_of_nil in Hin. }
  destruct (Ht w) as [HR Hk]. destruct (op w) as [x w1]. cbn [fst snd] in *.
  intros [->|Hin]%elem_of_cons; [done|]. etrans; [done|]. by apply (IH x).
Qed.

Lemma future_run {A} (R : W → W → Prop) `{!PreOrder R} (P : A → Prop)
    (t : Task W A) (w : W) :
  future R P t → R w (run t w).2 ∧ P (run t w).1.
Proof.
  revert w. induction t as [a|X op k IH]; intros w Ht; [done|].
  cbn [run]. destruct (Ht w) as [HR Hk]. destruct (op w) as [x w'].
  cbn [fst snd] in *. destruct (IH x w' Hk) as [? ?]. split; [|done].
  by etrans.
Qed.
End AsyncFacts.

(** ** The abuse detector *)

Section ClaimRateLimitFacts.
Import SolanaSignature Store Commands Async ClaimRateLimit Notions.

Lemma ip_key_not_wallet_key (env : Env) (wallet : string) :
  ip_key env ≠ wallet_fail_key wallet.
Proof. unfold ip_key, wallet_fail_key, String.app. cbn. congruence. Qed.

Lemma redis_get_with_redis_ne now key key' e (w : World) :
  key ≠ key' →
  (redis_get now key (with_redis <[key' := e]> w)).1 = (redis_get now key w).1.
Proof. intros Hne. unfold redis_get. cbn. by rewrite lookup_insert_ne. Qed.

Lemma redis_get_after_incr now key key' (w : World) :
  key ≠ key' →
  (redis_get now key (redis_incr now key' w).2).1 = (redis_get now key w).1.
Proof.
  intros Hne. unfold redis_incr.
  destruct (redis w !! key') as [e|]; [destruct (live now e); [destruct (held e)|]|];
    cbn [snd]; try reflexivity; by apply redis_get_with_redis_ne.
Qed.

Lemma redis_get_after_expire now key key' secs (w : World) :
  key ≠ key' →
  (redis_get now key (redis_expire now key' secs w).2).1 = (redis_get now key w).1.
Proof.
  intros Hne. unfold redis_expire.
  destruct (redis w !! key') as [e|]; [destruct (live now e)|];
    cbn [snd]; try reflexivity; by apply redis_get_with_redis_ne.
Qed.

(** C8: [detectClaimAbuse] lets the request through, leaving the store
    as it is, when Redis is absent or not ready, and lets it through
    whenever a command it sends throws; it ends the request only when
    Redis is ready, no command it sent threw, and either the per-IP
    counter it has just incremented exceeds 100 or the failures counted
    against the wallet are at least 5. *)
Theorem detectClaimAbuse_fails_open (env : Env) (wallet : JsValue) (w : World) :
  let verdict := (run (detectClaimAbuse env wallet) w).1 in
  (redis_client env ≠ RedisReady → run (detectClaimAbuse env wallet) w = (None, w))
  ∧ (redis_broken env (INCR (ip_key env)) = true → verdict = None)
  ∧ (ip_counter env w = Some 1 →
     redis_broken env (EXPIRE (ip_key env)) = true → verdict = None)
  ∧ (redis_broken env (GET (wallet_fail_key (to_string wallet))) = true →
     verdict ≠ Some (Error 429 "ABUSE_WALLET_BLOCKED"))
  ∧ (∀ blocked, verdict = Some blocked →
     redis_client env = RedisReady
     ∧ ((blocked = Error 429 "ABUSE_IP_BLOCKED"
         ∧ ∃ ipCount, ip_counter env w = Some ipCount ∧ 100 < ipCount)
        ∨ (blocked = Error 429 "ABUSE_WALLET_BLOCKED"
           ∧ truthy wallet = true
           ∧ ∃ failures, failure_count env wallet w = Some failures ∧ 5 ≤ failures))).
Proof.
  cbn zeta. unfold detectClaimAbuse.
  destruct (redis_client env) eqn:Hclient;
    try (split; [reflexivity|]; repeat split; try done; congruence).
  split; [done|].
  rewrite run_bind, run_await.
  unfold ip_counter.
  destruct (attempt_incr env (ip_key env) w) as [ipCount w1] eqn:Hincr.
  assert (Hbroken : redis_broken env (INCR (ip_key env)) = true → ipCount = None).
  { intros Hb. unfold attempt_incr, attempt in Hincr. rewrite Hb in Hincr. by simplify_eq. }
  assert (Hw1 : ∀ key, key ≠ ip_key env →
            (redis_get (now env) key w1).1 = (redis_get (now env) key w).1).
  { intros key Hne. unfold attempt_incr, attempt in Hincr.
    destruct (redis_broken env (INCR (ip_key env))); [by simplify_eq|].
    destruct (redis_incr (now env) (ip_key env) w) as [r w'] eqn:Hr.
    simplify_eq. replace w1 with (redis_incr (now env) (ip_key env) w).2 by by rewrite Hr.
    by apply redis_get_after_incr. }
  cbn [fst snd].
  destruct ipCount as [ipCount|]; rewrite ?run_ret; cbn [fst snd].
  2:{ repeat split; try done. }
  split; [intros Hb; by specialize (Hbroken Hb)|].
  rewrite run_bind.
  set (e := run (if ipCount =? 1 then _ else _) w1).
  assert (He : (e.1 = None ∧ ipCount = 1
                ∧ redis_broken env (EXPIRE (ip_key env)) = true)
               ∨ (e.1 = Some ()
                  ∧ (ipCount = 1 → redis_broken env (EXPIRE (ip_key env)) = false)
                  ∧ ∀ key, key ≠ ip_key env →
                      (redis_get (now env) key e.2).1 = (redis_get (now env) key w).1)).
  { subst e. destruct (Z.eqb_spec ipCount 1) as [->|Hne1].
    - rewrite run_await. unfold attempt.
      destruct (redis_broken env (EXPIRE (ip_key env))) eqn:Hb; [left; done|].
      right. destruct (redis_expire (now env) (ip_key env) 3600 w1) as [[] w2] eqn:Hx.
      cbn [fst snd]. repeat split; try done.
      intros key Hne. rewrite <-Hw1 by done.
      replace w2 with (redis_expire (now env) (ip_key env) 3600 w1).2 by by rewrite Hx.
      by apply redis_get_after_expire.
    - right. rewrite run_ret. cbn [fst snd]. repeat split; try done. }
  destruct He as [(He & -> & Hb)|(He & Hb & Hw2)].
  { rewrite He. rewrite ?run_ret; cbn [fst snd]. repeat split; try done. }
  rewrite He.
  split.
  { intros Hone Hbe. simplify_eq. rewrite Hb in Hbe; done. }
  destruct (Z.ltb_spec ABUSE_IP_LIMIT ipCount) as [Hip|Hip]; unfold ABUSE_IP_LIMIT in Hip.
  { rewrite ?run_ret; cbn [fst snd]. split; [done|]. intros blocked Hv. simplify_eq.
    split; [done|]. left. split; [done|]. by exists ipCount. }
  destruct (truthy wallet) eqn:Htruthy; rewrite ?run_ret; cbn [fst snd].
  2:{ split; done. }
  rewrite run_bind, run_await. unfold attempt.
  destruct (redis_broken env (GET (wallet_fail_key (to_string wallet)))) eqn:Hget;
    rewrite ?run_ret; cbn [fst snd].
  { split; done. }
  destruct (redis_get (now env) (wallet_fail_key (to_string wallet)) e.2)
    as [got w3] eqn:Hgot.
  assert (Hgot' : (redis_get (now env) (wallet_fail_key (to_string wallet)) w).1 = got).
  { rewrite <-Hw2; [by rewrite Hgot|]. intros Heq. by eapply ip_key_not_wallet_key. }
  cbn [fst snd]. split; [done|].
  intros blocked. unfold failure_count. rewrite Hgot'.
  destruct got as [v|]; [|done]. cbn [mbind option_bind].
  destruct (value_parseInt v) as [n|]; cbn [from_option]; [|done].
  destruct (Z.leb_spec ABUSE_WALLET_LIMIT n) as [Hn|Hn]; unfold ABUSE_WALLET_LIMIT in Hn;
    rewrite ?run_ret; cbn [fst snd]; [|done].
  intros Hv. simplify_eq. split; [done|]. right. repeat split; try done. by exists n.
Qed.

End ClaimRateLimitFacts.

(** ** Cost estimation *)

Section MemoSenderFacts.
Import MemoSender Notions.

Ltac q_arith :=
  unfold Qeq, Qle, Qdiv, Qminus, Qopp, Qmult, Qplus, inject_Z;
  cbn [Qinv Qnum Qden Qmult Qplus Qopp]; lia.

Lemma Qfloor_frac (a : Z) (b : positive) : Qfloor (a # b) = a / Z.pos b.
Proof. reflexivity. Qed.

Lemma totalSol_closed (n : N) :
  (totalSol (estimateBatchCost n) == inject_Z (microSol n) / inject_Z 1000000)%Q.
Proof.
  cbn [estimateBatchCost totalSol]. unfold toFixed, microSol.
  assert (E : (inject_Z (Z.of_N n * ESTIMATED_LAMPORTS_PER_TX) / inject_Z (10 ^ 9)
               * inject_Z (10 ^ Z.of_nat 6) + (1 # 2)
               == (20 * Z.of_N n + 1) # 2)%Q).
  { unfold ESTIMATED_LAMPORTS_PER_TX.
    change (10 ^ 9) with 1000000000. change (10 ^ Z.of_nat 6) with 1000000.
    q_arith. }
  rewrite E, Qfloor_frac.
  replace ((20 * Z.of_N n + 1) / 2) with (Z.of_N n * 10)
    by (Z.div_mod_to_equations; lia).
  reflexivity.
Qed.

Lemma totalUsd_closed (n : N) :
  (totalUsd (estimateBatchCost n) == inject_Z (cents n) / inject_Z 100)%Q.
Proof.
  cbn [estimateBatchCost totalUsd]. unfold toFixed, cents.
  assert (E : (inject_Z (Z.of_N n * ESTIMATED_LAMPORTS_PER_TX) / inject_Z (10 ^ 9)
               * inject_Z 150 * inject_Z (10 ^ Z.of_nat 2) + (1 # 2)
               == (3 * Z.of_N n + 10) # 20)%Q).
  { unfold ESTIMATED_LAMPORTS_PER_TX.
    change (10 ^ 9) with 1000000000. change (10 ^ Z.of_nat 2) with 100.
    q_arith. }
  rewrite E, Qfloor_frac. reflexivity.
Qed.

Lemma cents_double_bound (n : N) : -1 <= cents (2 * n) - 2 * cents n <= 1.
Proof.
  unfold cents. rewrite N2Z.inj_mul. change (Z.of_N 2) with 2.
  Z.div_mod_to_equations; lia.
Qed.

Lemma cents_multiple_of_20 (k : N) : cents (20 * k) = 3 * Z.of_N k.
Proof.
  unfold cents. rewrite N2Z.inj_mul. change (Z.of_N 20) with 20.
  Z.div_mod_to_equations; lia.
Qed.

Example estimateBatchCost_10000 :
  totalLamports (estimateBatchCost 10000) = 100000000
  ∧ (totalSol (estimateBatchCost 10000) == 1 # 10)%Q
  ∧ (totalUsd (estimateBatchCost 10000) == 15 # 1)%Q.
Proof. vm_compute. done. Qed.

Example estimateBatchCost_1 :
  totalLamports (estimateBatchCost 1) = 10000
  ∧ (totalSol (estimateBatchCost 1) == 1 # 100000)%Q
  ∧ (totalUsd (estimateBatchCost 1) == 0)%Q.
Proof. vm_compute. done. Qed.



End MemoSenderFacts.

(** ** Address validation *)

Section SolanaSignatureFacts.
Import SolanaSignature Notions.

Lemma base58_class_excludes (c : ascii) :
  c ∈ chars "0OIl" → base58_class c = false.
Proof.
  cbn. rewrite !elem_of_cons, elem_of_nil.
  intros [->|[->|[->|[->|[]]]]]; reflexivity.
Qed.

Lemma address_regex_sound (s : string) :
  address_regex s = true →
  (32 ≤ String.length s ≤ 44)%nat ∧ ∀ c, c ∈ chars s → base58_class c = true.
Proof.
  unfold address_regex. rewrite !andb_true_iff, !Nat.leb_le, forallb_forall.
  intros [[Hlo Hhi] Hall]. split; [lia|].
  intros c Hc. apply Hall. by apply list_elem_of_In.
Qed.

Context {PublicKey : Type}.
Variable new_PublicKey : string → option PublicKey.
Variable toBase58 : PublicKey → string.

(** C4: [isValidSolanaAddress] is a total function to [bool] (a throwing
    key constructor is caught and gives [false]); it is [false] on a
    non-string, on the empty string, on a string that contains one of
    [0], [O], [I], [l] and on a string shorter than 32 or longer than 44
    characters; and it is [true] only on a string of 32 to 44 characters
    of the base-58 alphabet that the key constructor accepts and whose
    key prints back to exactly that string. *)
Theorem isValidSolanaAddress_spec (address : JsValue) :
  (malformed address → isValidSolanaAddress new_PublicKey toBase58 address = false)
  ∧ (isValidSolanaAddress new_PublicKey toBase58 address = true →
     ∃ s pubkey,
       address = JsString s
       ∧ s ≠ ""
       ∧ (32 ≤ String.length s ≤ 44)%nat
       ∧ (∀ c, c ∈ chars s → base58_class c = true ∧ c ∉ chars "0OIl")
       ∧ new_PublicKey s = Some pubkey
       ∧ toBase58 pubkey = s).
Proof.
  split.
  - destruct address as [| | | |s|]; try reflexivity.
    cbn [malformed isValidSolanaAddress].
    destruct (String.eqb_spec s ""); [reflexivity|].
    destruct (address_regex s) eqn:R; [|reflexivity].
    apply address_regex_sound in R as [L C].
    intros [?|[(c & Hc & Hbad)|[?|?]]]; [done| |lia|lia].
    apply C in Hc. apply base58_class_excludes in Hbad. congruence.
  - destruct address as [| | | |s|]; try discriminate.
    cbn [isValidSolanaAddress].
    destruct (String.eqb_spec s ""); [discriminate|].
    destruct (address_regex s) eqn:R; [|discriminate].
    apply address_regex_sound in R as [L C]. cbn [negb].
    destruct (new_PublicKey s) as [pubkey|] eqn:K; [|discriminate].
    intros E%String.eqb_eq.
    exists s, pubkey. repeat split; try done; try lia.
    + by apply C.
    + intros Hbad%base58_class_excludes.
      match goal with Hc : _ ∈ chars s |- _ => apply C in Hc end. congruence.
Qed.

End SolanaSignatureFacts.

Section SolanaSignatureExamples.
Import SolanaSignature.

(** The addresses of tests/claim/test_solanaSignature.test.js. *)
Example system_program_valid :
  isValidAddress (JsString "11111111111111111111111111111112") = true.
Proof. vm_compute. reflexivity. Qed.

Example treasury_valid :
  isValidAddress (JsString "GaTjJs756Urcsjs7ia8HYm3eiBNbBAHFAS7fLsSNVxus") = true.
Proof. vm_compute. reflexivity. Qed.

Example bad_character_invalid :
  isValidAddress (JsString "0aTjJs756Urcsjs7ia8HYm3eiBNbBAHFAS7fLsSNVxus") = false.
Proof. vm_compute. reflexivity. Qed.

Example system_program_key :
  bs58_decode "11111111111111111111111111111112" = Some (replicate 31 0%N ++ [1%N]).
Proof. vm_compute. reflexivity. Qed.

(** C4 at the empty string, and at the treasury address of the tests. *)
Lemma isValidSolanaAddress_spec_witness :
  isValidAddress (JsString "") = false
  ∧ ∃ s pubkey,
      JsString "GaTjJs756Urcsjs7ia8HYm3eiBNbBAHFAS7fLsSNVxus" = JsString s
      ∧ s ≠ ""
      ∧ (32 ≤ String.length s ≤ 44)%nat
      ∧ (∀ c, c ∈ chars s → base58_class c = true ∧ c ∉ chars "0OIl")
      ∧ PublicKey_of_string s = Some pubkey
      ∧ PublicKey_toBase58 pubkey = s.
Proof.
  split.
  - apply (isValidSolanaAddress_spec PublicKey_of_string PublicKey_toBase58 (JsString "")).
    cbn. by left.
  - apply (isValidSolanaAddress_spec PublicKey_of_string PublicKey_toBase58
             (JsString "GaTjJs756Urcsjs7ia8HYm3eiBNbBAHFAS7fLsSNVxus")).
    vm_compute. reflexivity.
Defined.

End SolanaSignatureExamples.

(** ** The claim handler running alone *)

Section VerifyClaimFacts.
Import SolanaSignature Store Commands Async ClaimRateLimit ClaimRoutes Notions.
Variable nacl : list ascii → list N → list N → bool.
Local Abbreviation reaches_gate := (Notions.reaches_gate nacl).

Ltac run_step := rewrite ?run_bind, ?run_await, ?run_ret; cbn [fst snd].
Ltac elem := rewrite !elem_of_cons; auto 12.

Lemma wallet_fail_key_not_nonce_key (wallet agentId wallet' : string) :
  claim_nonce_key agentId wallet' ≠ wallet_fail_key wallet.
Proof. unfold claim_nonce_key, wallet_fail_key, String.app. cbn. congruence. Qed.

Lemma attempt_incr_frame (env : Env) (key : string) (w : World) :
  let w' := (attempt_incr env key w).2 in
  db w' = db w ∧ published w' = published w
  ∧ ∀ key', key' ≠ key → redis w' !! key' = redis w !! key'.
Proof.
  unfold attempt_incr, attempt, redis_incr.
  destruct (redis_broken env (INCR key)); [done|].
  destruct (redis w !! key) as [e|]; [destruct (live (now env) e); [destruct (held e)|]|];
    cbn; repeat split; try done; intros; by rewrite lookup_insert_ne.
Qed.

Lemma attempt_expire_frame (env : Env) (key : string) (secs : Z) (w : World) :
  let w' := (attempt env (EXPIRE key) (redis_expire (now env) key secs) w).2 in
  db w' = db w ∧ published w' = published w
  ∧ ∀ key', key' ≠ key → redis w' !! key' = redis w !! key'.
Proof.
  unfold attempt, redis_expire.
  destruct (redis_broken env (EXPIRE key)); [done|].
  destruct (redis w !! key) as [e|]; [destruct (live (now env) e)|];
    cbn; repeat split; try done; intros; by rewrite lookup_insert_ne.
Qed.

(** Counting a failure touches the failure counter of the wallet and
    nothing else. *)
Lemma recordFailedClaimAttempt_frame (env : Env) (wallet : JsValue) (w : World) :
  let w' := (run (recordFailedClaimAttempt env wallet) w).2 in
  db w' = db w ∧ published w' = published w
  ∧ ∀ key, key ≠ wallet_fail_key (to_string wallet) → redis w' !! key = redis w !! key.
Proof.
  unfold recordFailedClaimAttempt.
  destruct (redis_client env); try done.
  destruct (truthy wallet); [|done].
  run_step.
  pose proof (attempt_incr_frame env (wallet_fail_key (to_string wallet)) w) as Hincr.
  destruct (attempt_incr env (wallet_fail_key (to_string wallet)) w) as [count w1].
  cbn [fst snd] in *. destruct Hincr as (Hdb & Hpub & Hredis).
  destruct count as [[|[| |]|]|]; run_step; try done.
  pose proof (attempt_expire_frame env (wallet_fail_key (to_string wallet)) 3600 w1) as Hexp.
  destruct (attempt env _ _ w1) as [x w2]. cbn [fst snd] in *.
  destruct Hexp as (Hdb' & Hpub' & Hredis').
  repeat split; [congruence|congruence|].
  intros key Hne. rewrite Hredis', Hredis; done.
Qed.

Lemma verifyClaim_cases (env : Env) (wallet agentId signature nonce : JsValue) (w : World) :
  let nonceKey := claim_nonce_key (to_string agentId) (to_string wallet) in
  (∃ id, reaches_gate env wallet agentId signature nonce w id
         ∧ run (verifyClaim nacl env wallet agentId signature nonce) w
           = run (claim_gate env (to_string wallet) nonceKey id signature nonce) w)
  ∨ (let '(reply, w') := run (verifyClaim nacl env wallet agentId signature nonce) w in
     rejection reply
     ∧ (∀ id, ¬ reaches_gate env wallet agentId signature nonce w id)
     ∧ Agent (db w') = Agent (db w)
     ∧ redis w' !! nonceKey = redis w !! nonceKey).
Proof.
  cbn zeta. unfold verifyClaim, rejection.
  set (key := claim_nonce_key (to_string agentId) (to_string wallet)).
  assert (Hfail : ∀ code,
            code = "NONCE_EXPIRED" ∨ code = "NONCE_MISMATCH" →
            (∀ id, ¬ reaches_gate env wallet agentId signature nonce w id) →
            let '(reply, w') :=
              run (recordFailedClaimAttempt env wallet;; mret (Error 400 code)) w in
            reply ∈ [ Error 400 "MISSING_FIELDS"; Error 400 "INVALID_WALLET";
                      Error 400 "INVALID_AGENT_ID"; Error 503 "DATABASE_UNAVAILABLE";
                      Error 503 "CACHE_UNAVAILABLE"; Error 400 "NONCE_EXPIRED";
                      Error 400 "NONCE_MISMATCH"; Error 403 "INVALID_SIGNATURE" ]
            ∧ (∀ id, ¬ reaches_gate env wallet agentId signature nonce w id)
            ∧ Agent (db w') = Agent (db w)
            ∧ redis w' !! key = redis w !! key).
  { intros code Hcode Hno. run_step.
    pose proof (recordFailedClaimAttempt_frame env wallet w) as (Hf1 & Hf2 & Hf3).
    destruct (run (recordFailedClaimAttempt env wallet) w) as [[] w'].
    cbn [fst snd] in *. repeat split; [|done|by rewrite Hf1|].
    - destruct Hcode as [->| ->]; elem.
    - apply Hf3, wallet_fail_key_not_nonce_key. }
  destruct (truthy wallet) eqn:Hw; cbn [negb orb].
  2:{ right. cbn. repeat split; [elem|]. intros id [(?&?&?&?) _ _ _ _ _]. congruence. }
  destruct (truthy agentId) eqn:Ha; cbn [negb orb].
  2:{ right. cbn. repeat split; [elem|]. intros id [(?&?&?&?) _ _ _ _ _]. congruence. }
  destruct (truthy signature) eqn:Hs; cbn [negb orb].
  2:{ right. cbn. repeat split; [elem|]. intros id [(?&?&?&?) _ _ _ _ _]. congruence. }
  destruct (truthy nonce) eqn:Hn; cbn [negb orb].
  2:{ right. cbn. repeat split; [elem|]. intros id [(?&?&?&?) _ _ _ _ _]. congruence. }
  destruct (isValidAddress wallet) eqn:Hvalid; cbn [negb].
  2:{ right. cbn. repeat split; [elem|]. intros id [_ ? _ _ _ _]. congruence. }
  destruct (parse_ObjectId agentId) as [id|] eqn:Hid.
  2:{ right. cbn. repeat split; [elem|]. intros id [_ _ ? _ _ _]. congruence. }
  destruct (db_handle env) eqn:Hdb; cbn [negb].
  2:{ right. cbn. repeat split; [elem|]. intros id' [_ _ _ ? _ _]. congruence. }
  destruct (redis_client env) eqn:Hredis.
  1,2: right; cbn; repeat split; [elem|]; intros id' [_ _ _ _ ? _]; congruence.
  run_step.
  assert (Hw0 : (redis_get (now env) key w).2 = w) by reflexivity.
  destruct (redis_get (now env) key w) as [storedData w0] eqn:Hget.
  cbn [fst snd] in *. subst w0.
  assert (Hgate : ∀ id', reaches_gate env wallet agentId signature nonce w id' →
            ∃ r, storedData = Some (RNonce r) ∧ nonce = JsString (Store.nonce r)
                 ∧ verifySolanaSignature nacl (to_string wallet) (message r) signature
                   = true).
  { intros id' [_ _ _ _ _ (r & Hr & ? & ?)]. fold key in Hr. rewrite Hget in Hr.
    by exists r. }
  destruct storedData as [parsed|].
  2:{ right. apply Hfail; [auto|]. intros id' (r & ? & _)%Hgate. done. }
  case_bool_decide as Hnonce; cbn [negb].
  2:{ right. apply Hfail; [auto|]. intros id' (r & ? & -> & _)%Hgate.
      by simplify_eq. }
  destruct parsed as [r| |]; try done. cbn in Hnonce. simplify_eq.
  cbn [parsed_message].
  destruct (verifySolanaSignature nacl (to_string wallet) (message r) signature) eqn:Hsig;
    cbn [negb].
  - left. exists id. split; [|done].
    split; try done. exists r. fold key. by rewrite Hget.
  - right. run_step.
    pose proof (recordFailedClaimAttempt_frame env wallet w) as (Hf1 & Hf2 & Hf3).
    destruct (run (recordFailedClaimAttempt env wallet) w) as [[] w'].
    cbn [fst snd] in *. unfold log_claim. cbn [fst snd].
    repeat split.
    + elem.
    + intros id' (r' & ? & ? & ?)%Hgate. simplify_eq. congruence.
    + cbn. by rewrite Hf1.
    + cbn. apply Hf3, wallet_fail_key_not_nonce_key.
Qed.

Lemma status_alter (f : AgentDoc → AgentDoc) (id id' : ObjectId)
    (m : gmap ObjectId AgentDoc) :
  (∀ a, wad_status (f a) = wad_status a) →
  alter f id m !! id' ≫= wad_status = m !! id' ≫= wad_status.
Proof.
  intros Hf. rewrite lookup_alter. case_decide; [|done]. subst.
  destruct (m !! id'); cbn; [apply Hf|done].
Qed.

Lemma set_owner_status now user a : wad_status (set_owner now user a) = wad_status a.
Proof. reflexivity. Qed.

Lemma set_founding_status rank a : wad_status (set_founding rank a) = wad_status a.
Proof. unfold wad_status. cbn. by destruct (walletAgentData a). Qed.

Lemma claim_succeeded_run (env : Env) (wallet key : string) (id : ObjectId) (w : World) :
  ∃ user rank w',
    run (claim_succeeded env wallet key id) w = (ClaimReply id user rank, w')
    ∧ redis w' = delete key (redis w)
    ∧ wallet_opt_outs (db w') = wallet_opt_outs (db w)
    ∧ ∀ id', status_of w' id' = status_of w id'.
Proof.
  unfold claim_succeeded, status_of. run_step.
  unfold find_user, update_agent, count_agents, redis_del, log_claim, redis_publish.
  cbn [fst snd].
  destruct (head _) as [u|]; run_step; unfold insert_user; cbn [fst snd];
    match goal with |- context [(?r <=? 5000)%N] => destruct (r <=? 5000)%N end;
    run_step; cbn [fst snd];
    (eexists _, _, _; split; [reflexivity|]; cbn; repeat split; try done);
    intros id'; rewrite ?status_alter; auto using set_owner_status, set_founding_status.
Qed.

(** The conditional update: it matches an agent that the wallet can
    claim and no other. *)
Lemma claim_gate_run (env : Env) (wallet key : string) (id : ObjectId)
    (signature nonce : JsValue) (w : World) :
  if claimable w id wallet then
    ∃ user rank w',
      run (claim_gate env wallet key id signature nonce) w = (ClaimReply id user rank, w')
      ∧ redis w' = delete key (redis w)
      ∧ wallet_opt_outs (db w') = wallet_opt_outs (db w)
      ∧ status_of w id = Some UNCLAIMED
      ∧ status_of w' id = Some CLAIMED
      ∧ ∀ id', id' ≠ id → status_of w' id' = status_of w id'
  else
    run (claim_gate env wallet key id signature nonce) w
    = (Error 409 "ALREADY_CLAIMED", with_redis (delete key) w).
Proof.
  unfold claim_gate, claimable. run_step. unfold find_agent_and_update.
  destruct (Agent (db w) !! id) as [a|] eqn:Ha; cbn [from_option]; [|by run_step].
  destruct (claimable_by wallet a) eqn:Hc; cbn [fst snd]; [|by run_step].
  set (w1 := with_db _ w).
  destruct (claim_succeeded_run env wallet key id w1) as (user & rank & w' & Hrun & Hr & Ho & Hs).
  exists user, rank, w'. split; [done|]. split; [done|]. split; [done|].
  unfold claimable_by in Hc. rewrite !andb_true_iff, !bool_decide_eq_true in Hc.
  destruct Hc as [[Hwallet Hstatus] Hwa].
  repeat split.
  - unfold status_of. by rewrite Ha.
  - rewrite Hs. unfold status_of, w1. cbn. rewrite lookup_insert_eq. cbn.
    unfold wad_status in *. cbn. by destruct (walletAgentData a).
  - intros id' Hne. rewrite Hs. unfold status_of, w1. cbn. by rewrite lookup_insert_ne.
Qed.

Lemma rejection_is_error r :
  rejection r →
  ∃ status code, r = Error status code ∧ (status, code) ≠ (409%N, "ALREADY_CLAIMED").
Proof.
  unfold rejection. rewrite !elem_of_cons, elem_of_nil. intros H.
  repeat (destruct H as [->|H]; [eexists _, _; split; [reflexivity|discriminate]|]).
  done.
Qed.

Lemma rejection_not_claimed r : rejection r → ¬ claimed_reply r.
Proof.
  intros (status & code & -> & _)%rejection_is_error (id & user & rank & ?). done.
Qed.

Lemma rejection_not_conflict r : rejection r → r ≠ Error 409 "ALREADY_CLAIMED".
Proof. intros (status & code & -> & Hne)%rejection_is_error. congruence. Qed.

Lemma run_then_ret {A B} (t : Task World A) (b : B) (w : World) :
  (run (t;; mret b) w).1 = b.
Proof. by run_step. Qed.

(** The one way to the answer [INVALID_SIGNATURE]. *)
Lemma verifyClaim_invalid_signature
    (env : Env) (wallet agentId signature nonce : JsValue) (w : World) :
  (run (verifyClaim nacl env wallet agentId signature nonce) w).1
    = Error 403 "INVALID_SIGNATURE" →
  truthy wallet = true ∧ truthy agentId = true ∧ truthy nonce = true
  ∧ isValidAddress wallet = true
  ∧ ∃ stored,
      (redis_get (now env) (claim_nonce_key (to_string agentId) (to_string wallet)) w).1
        = Some (RNonce stored)
      ∧ nonce = JsString (Store.nonce stored)
      ∧ verifySolanaSignature nacl (to_string wallet) (message stored) signature = false.
Proof.
  unfold verifyClaim.
  destruct (truthy wallet); [|done]. destruct (truthy agentId); [|done].
  destruct (truthy signature); [|done]. destruct (truthy nonce); [|done].
  destruct (isValidAddress wallet); [|done].
  destruct (parse_ObjectId agentId) as [id|]; [|done].
  destruct (db_handle env); [|done].
  destruct (redis_client env); try done.
  cbn [negb orb]. rewrite run_bind, run_await.
  change (redis_get (now env) ?k w).2 with w.
  destruct (redis_get _ _ w).1 as [parsed|]; [|by rewrite run_then_ret].
  case_bool_decide as Hnonce; cbn [negb]; [|by rewrite run_then_ret].
  destruct parsed as [stored| |]; try done. cbn in Hnonce. simplify_eq.
  cbn [parsed_message].
  destruct (verifySolanaSignature _ _ _ _) eqn:Hsig; cbn [negb].
  - intros Hrun. exfalso.
    pose proof (claim_gate_run env (to_string wallet)
                  (claim_nonce_key (to_string agentId) (to_string wallet))
                  id signature (JsString (Store.nonce stored)) w) as Hg.
    destruct (claimable w id (to_string wallet)).
    + destruct Hg as (? & ? & ? & Hg & _). rewrite Hg in Hrun. done.
    + rewrite Hg in Hrun. done.
  - intros _. repeat split; try done. by exists stored.
Qed.

(** What a call to the handler does to the nonce it names. *)
Lemma verifyClaim_nonce (env : Env) (wallet agentId signature nonce : JsValue) (w : World) :
  let nonceKey := claim_nonce_key (to_string agentId) (to_string wallet) in
  let '(reply, w') := run (verifyClaim nacl env wallet agentId signature nonce) w in
  (rejection reply
   ∧ redis w' !! nonceKey = redis w !! nonceKey
   ∧ Agent (db w') = Agent (db w))
  ∨ ((claimed_reply reply ∨ reply = Error 409 "ALREADY_CLAIMED")
     ∧ redis w' !! nonceKey = None
     ∧ ∃ id, reaches_gate env wallet agentId signature nonce w id
             ∧ (claimed_reply reply → reply = ClaimReply id
                  match reply with ClaimReply _ u _ => u | _ => 0%N end
                  match reply with ClaimReply _ _ r => r | _ => None end
                ∧ claimable w id (to_string wallet) = true)).
Proof.
  cbn zeta.
  destruct (verifyClaim_cases env wallet agentId signature nonce w)
    as [(id & Hgate & Hrun)|Hrej].
  - rewrite Hrun.
    pose proof (claim_gate_run env (to_string wallet)
                  (claim_nonce_key (to_string agentId) (to_string wallet))
                  id signature nonce w) as Hg.
    destruct (claimable w id (to_string wallet)) eqn:Hcl.
    + destruct Hg as (user & rank & w' & -> & Hr & _).
      right. split; [left; by exists id, user, rank|].
      split; [by rewrite Hr, lookup_delete_eq|]. by exists id.
    + rewrite Hg. right. split; [by right|].
      split; [cbn; by rewrite lookup_delete_eq|]. exists id. split; [done|].
      intros (? & ? & ? & ?). done.
  - destruct (run (verifyClaim nacl env wallet agentId signature nonce) w) as [reply w'].
    left. destruct Hrej as (? & _ & ? & ?). done.
Qed.

(** C2: when a call to [verifyClaim] has claimed the agent, the nonce
    stored for the agent and the wallet is gone, and the same call made
    again (at any later instant, with the stores up) is answered
    [NONCE_EXPIRED]; made when another nonce has since been stored under
    the key, it is answered [NONCE_MISMATCH]. *)
Theorem verifyClaim_nonce_single_use
    (env : Env) (wallet agentId signature nonce : JsValue) (w w' : World)
    (id user : ObjectId) (rank : option N) :
  let nonceKey := claim_nonce_key (to_string agentId) (to_string wallet) in
  run (verifyClaim nacl env wallet agentId signature nonce) w
    = (ClaimReply id user rank, w') →
  redis w' !! nonceKey = None
  ∧ (∀ env', db_handle env' = true → redis_client env' = RedisReady →
       (run (verifyClaim nacl env' wallet agentId signature nonce) w').1
       = Error 400 "NONCE_EXPIRED")
  ∧ (∀ env' w'' other,
       db_handle env' = true → redis_client env' = RedisReady →
       (redis_get (now env') nonceKey w'').1 = Some (RNonce other) →
       nonce ≠ JsString (Store.nonce other) →
       (run (verifyClaim nacl env' wallet agentId signature nonce) w'').1
       = Error 400 "NONCE_MISMATCH").
Proof.
  cbn zeta. intros Hrun.
  pose proof (verifyClaim_nonce env wallet agentId signature nonce w) as Hn.
  cbn zeta in Hn. rewrite Hrun in Hn.
  destruct Hn as [(Hrej & _)|(_ & Hgone & id' & Hgate & _)].
  { exfalso. eapply rejection_not_claimed; [done|]. by exists id, user, rank. }
  destruct Hgate as [(Hw & Ha & Hs & Hn) Hvalid Hid _ _ _].
  split; [done|]. split.
  - intros env' Hdb Hredis. unfold verifyClaim.
    rewrite Hw, Ha, Hs, Hn, Hvalid, Hid, Hdb, Hredis. cbn [negb orb].
    run_step. unfold redis_get. cbn [fst snd]. rewrite Hgone. cbn [mbind option_bind].
    by run_step.
  - intros env' w'' other Hdb Hredis Hget Hne. unfold verifyClaim.
    rewrite Hw, Ha, Hs, Hn, Hvalid, Hid, Hdb, Hredis. cbn [negb orb].
    run_step. rewrite Hget. cbn [parsed_nonce fmap option_fmap option_map].
    case_bool_decide; [by simplify_eq|]. cbn [negb]. by run_step.
Qed.

(** C10: a call to [verifyClaim] that finds the nonce it was given and
    rejects the signature leaves the stored nonce and the agent as they
    were, so that the call made again with a signature that verifies,
    while the stored nonce has not expired and the agent is still to be
    claimed by the wallet, claims the agent; a call changes the stored
    nonce only when it answers with a claim or with [ALREADY_CLAIMED],
    and then the nonce is gone. *)
Theorem verifyClaim_bad_signature_keeps_nonce
    (env : Env) (wallet agentId signature nonce : JsValue) (w : World) :
  let nonceKey := claim_nonce_key (to_string agentId) (to_string wallet) in
  let '(reply, w') := run (verifyClaim nacl env wallet agentId signature nonce) w in
  (reply = Error 403 "INVALID_SIGNATURE" →
     redis w' !! nonceKey = redis w !! nonceKey
     ∧ Agent (db w') = Agent (db w)
     ∧ ∀ env' signature' id stored,
         db_handle env' = true → redis_client env' = RedisReady →
         parse_ObjectId agentId = Some id →
         (redis_get (now env') nonceKey w).1 = Some (RNonce stored) →
         nonce = JsString (Store.nonce stored) →
         truthy signature' = true →
         verifySolanaSignature nacl (to_string wallet) (message stored) signature' = true →
         claimable w id (to_string wallet) = true →
         claimed_reply (run (verifyClaim nacl env' wallet agentId signature' nonce) w').1)
  ∧ (redis w' !! nonceKey ≠ redis w !! nonceKey →
     claimed_reply reply ∨ reply = Error 409 "ALREADY_CLAIMED")
  ∧ (claimed_reply reply ∨ reply = Error 409 "ALREADY_CLAIMED" →
     redis w' !! nonceKey = None).
Proof.
  cbn zeta.
  pose proof (verifyClaim_nonce env wallet agentId signature nonce w) as Hn.
  pose proof (verifyClaim_invalid_signature env wallet agentId signature nonce w) as Hinv.
  cbn zeta in Hn.
  destruct (run (verifyClaim nacl env wallet agentId signature nonce) w) as [reply w'].
  cbn [fst] in Hinv.
  split; [|split].
  - intros ->.
    destruct Hn as [(_ & Hkey & Hagents)|([(? & ? & ? & ?)|?] & _)]; try done.
    split; [done|]. split; [done|].
    intros env' signature' id stored Hdb Hredis Hid Hget -> Hsig' Hverify Hclaimable.
    destruct (Hinv eq_refl) as (Hw & Ha & Hnc & Hvalid & _).
    pose proof (verifyClaim_cases env' wallet agentId signature'
                  (JsString (Store.nonce stored)) w') as Hc.
    cbn zeta in Hc.
    assert (Hget' : (redis_get (now env')
                       (claim_nonce_key (to_string agentId) (to_string wallet)) w').1
                    = Some (RNonce stored)).
    { revert Hget. unfold redis_get. cbn [fst]. by rewrite Hkey. }
    destruct Hc as [(id' & Hgate & Hrun)|Hrej].
    + rewrite Hrun.
      assert (id' = id) as -> by (destruct Hgate; congruence).
      pose proof (claim_gate_run env' (to_string wallet)
                    (claim_nonce_key (to_string agentId) (to_string wallet))
                    id signature' (JsString (Store.nonce stored)) w') as Hg.
      replace (claimable w' id (to_string wallet)) with true in Hg
        by (unfold claimable in *; by rewrite Hagents).
      destruct Hg as (user & rank & w'' & -> & _). by exists id, user, rank.
    + destruct (run _ w') as [reply' w''] in Hrej |- *.
      destruct Hrej as (_ & Hno & _). exfalso. apply (Hno id).
      split; try done. by exists stored.
  - intros Hchanged. destruct Hn as [(_ & Hkey & _)|(Hr & _)]; [congruence|done].
  - intros Hr. destruct Hn as [(Hrej & _)|(_ & Hgone & _)]; [|done].
    destruct Hr as [Hr| ->].
    + by apply rejection_not_claimed in Hrej.
    + by apply rejection_not_conflict in Hrej.
Qed.

End VerifyClaimFacts.

(** ** The opt-out list *)

Section OptOutFacts.
Import SolanaSignature Store Commands Async ClaimRateLimit ClaimRoutes Notions.
Variable nacl : list ascii → list N → list N → bool.
Local Abbreviation happen := (Notions.happen nacl).
Local Abbreviation opt_out_accepted := (Notions.opt_out_accepted nacl).
Local Abbreviation opts_out_preemptively := (Notions.opts_out_preemptively nacl).

Ltac run_step := rewrite ?run_bind, ?run_await, ?run_ret; cbn [fst snd].

Lemma opt_outs_kept_preorder : PreOrder opt_outs_kept.
Proof. split; [by intros w wallet|]. intros w1 w2 w3 H12 H23 wallet ?. by apply H23, H12. Qed.
#[local] Existing Instance opt_outs_kept_preorder.

Ltac walk :=
  cbn zeta;
  repeat match goal with
  | |- future _ _ (if ?b then _ else _) => destruct b
  | |- future _ _ (match ?x with _ => _ end) => destruct x
  | |- future _ _ (_ ≫= _) => eapply (future_bind _ (fun _ => True)); [|intros ? _]
  | |- future _ _ (await _) => apply future_await; intros ?; split; [|exact I]
  | |- future _ _ (mret _) => exact I
  | |- future _ _ (Ret _) => exact I
  end.

Ltac same_opt_outs :=
  lazymatch goal with
  | |- opt_outs_kept ?w ?w' =>
      assert (wallet_opt_outs (db w') = wallet_opt_outs (db w)) as Hsame;
      [|by (intros ?; unfold opted_out; rewrite Hsame)]
  end.

Lemma detectClaimAbuse_keeps_opt_outs env wallet :
  future opt_outs_kept (fun _ => True) (detectClaimAbuse env wallet).
Proof.
  unfold detectClaimAbuse. walk; same_opt_outs.
  - by rewrite (proj1 (attempt_incr_frame env _ _)).
  - by rewrite (proj1 (attempt_expire_frame env _ _ _)).
  - unfold attempt. by destruct (redis_broken _ _).
Qed.

Lemma recordFailedClaimAttempt_keeps_opt_outs env wallet :
  future opt_outs_kept (fun _ => True) (recordFailedClaimAttempt env wallet).
Proof.
  unfold recordFailedClaimAttempt. walk; same_opt_outs.
  - by rewrite (proj1 (attempt_incr_frame env _ _)).
  - by rewrite (proj1 (attempt_expire_frame env _ _ _)).
Qed.

Ltac walk_routes :=
  unfold guarded, claim_gate, claim_succeeded, delete_everything;
  repeat (walk;
          try match goal with
            | |- future _ _ (recordFailedClaimAttempt _ _) =>
                apply recordFailedClaimAttempt_keeps_opt_outs
            | |- future _ _ (detectClaimAbuse _ _) =>
                apply detectClaimAbuse_keeps_opt_outs
            end).

Lemma check_keeps_opt_outs env wallet :
  future opt_outs_kept (fun _ => True) (check env wallet).
Proof. unfold check. walk_routes; by same_opt_outs. Qed.

Lemma claimNonce_keeps_opt_outs env wallet agentId :
  future opt_outs_kept (fun _ => True) (claimNonce_route env wallet agentId).
Proof. unfold claimNonce_route, issueClaimNonce. walk_routes; by same_opt_outs. Qed.

Lemma verifyClaim_keeps_opt_outs env wallet agentId signature nonce :
  future opt_outs_kept (fun _ => True)
    (verifyClaim_route nacl env wallet agentId signature nonce).
Proof.
  unfold verifyClaim_route, verifyClaim. walk_routes; same_opt_outs; try done.
  unfold find_agent_and_update. by repeat case_match.
Qed.

Lemma optOutNonce_keeps_opt_outs env wallet :
  future opt_outs_kept (fun _ => True) (optOutNonce_route env wallet).
Proof. unfold optOutNonce_route, optOutNonce. walk_routes; by same_opt_outs. Qed.

Lemma insert_opt_out_grows o w : opt_outs_kept w (insert_opt_out o w).2.
Proof.
  unfold insert_opt_out. case_decide; [done|].
  intros wallet. unfold opted_out. cbn. rewrite fmap_app, elem_of_app. by left.
Qed.

Lemma optOut_keeps_opt_outs env wallet signature nonce :
  future opt_outs_kept (fun _ => True) (optOut_route nacl env wallet signature nonce).
Proof.
  unfold optOut_route, optOut. walk_routes;
    try apply insert_opt_out_grows; by same_opt_outs.
Qed.

Lemma foldl_invariant {A B} (P : A → Prop) (f : A → B → A) (l : list B) (a : A) :
  P a → (∀ a b, P a → P (f a b)) → P (foldl f a l).
Proof. intros Ha Hf. revert a Ha. induction l; cbn; auto. Qed.

Lemma processOrphanTransitions_opt_outs broken redis_ready now w :
  wallet_opt_outs (db (OrphanTransition.processOrphanTransitions
                         broken redis_ready now w).2)
  = wallet_opt_outs (db w).
Proof.
  unfold OrphanTransition.processOrphanTransitions.
  destruct (broken _); [done|].
  apply (foldl_invariant (fun st => wallet_opt_outs (db st.2) = wallet_opt_outs (db w)));
    [done|].
  intros [summary w1] [id agent] Hw1. unfold OrphanTransition.orphan_agent.
  destruct (broken _); [done|].
  unfold find_agent_and_update.
  destruct (Agent (db w1) !! id) as [a|]; [|done].
  destruct (bool_decide _); [|done].
  destruct (broken _); [done|]. destruct (broken _); [done|].
  apply (foldl_invariant (fun st => wallet_opt_outs (db st.2) = wallet_opt_outs (db w)));
    [done|].
  intros [summary' w2] [wid watcher] Hw2. unfold OrphanTransition.notify_watcher.
  destruct (broken (OrphanTransition.InsertNotice wid)); [done|].
  destruct (broken (OrphanTransition.UpdateWatcher wid)); [done|].
  destruct redis_ready; [destruct (broken _)|]; done.
Qed.

Lemma processNotifications_opt_outs send short_date redis_client now w :
  wallet_opt_outs (db (ClaimNotifications.processNotifications
                         send short_date redis_client now w).2)
  = wallet_opt_outs (db w).
Proof.
  unfold ClaimNotifications.processNotifications.
  destruct (ClaimNotifications.unclaimed_agents w) as [|x agents]; [done|].
  assert (Hloop : ∀ agents r,
            wallet_opt_outs (db (ClaimNotifications.world
                                   (ClaimNotifications.agents_loop send short_date
                                      now agents r)))
            = wallet_opt_outs (db (ClaimNotifications.world r))).
  { clear. intros agents. induction agents as [|[id agent] agents IH]; intros r; [done|].
    cbn [ClaimNotifications.agents_loop]. destruct (_ <=? _)%nat; [done|].
    rewrite IH. unfold ClaimNotifications.notify_agent.
    generalize (ClaimNotifications.getSentNotifications (ClaimNotifications.world r) id).
    intros sentTemplates. generalize ClaimNotifications.NOTIFICATION_SCHEDULE.
    intros schedules. revert r.
    induction schedules as [|schedule schedules IHs]; intros r; [done|].
    cbn [ClaimNotifications.due_loop].
    destruct (_ && _).
    - destruct (_ <=? _)%nat; [done|]. rewrite IHs.
      unfold ClaimNotifications.send_one. destruct (String.eqb _ _); [|done].
      by destruct (send _ _ _ _).
    - destruct (ClaimNotifications.has _ _); by rewrite IHs. }
  cbn [snd]. destruct redis_client; unfold redis_set_ex;
    cbn [snd with_redis db]; by rewrite Hloop.
Qed.

Lemma happen_keeps_opt_outs w e : opt_outs_kept w (happen w e).
Proof.
  destruct e; cbn [happen].
  - apply (future_run _ _ _ _ (check_keeps_opt_outs _ _)).
  - apply (future_run _ _ _ _ (claimNonce_keeps_opt_outs _ _ _)).
  - apply (future_run _ _ _ _ (verifyClaim_keeps_opt_outs _ _ _ _ _)).
  - apply (future_run _ _ _ _ (optOutNonce_keeps_opt_outs _ _)).
  - apply (future_run _ _ _ _ (optOut_keeps_opt_outs _ _ _ _)).
  - intros wallet. unfold opted_out. by rewrite processOrphanTransitions_opt_outs.
  - intros wallet. unfold opted_out. by rewrite processNotifications_opt_outs.
  - by intros wallet.
  - by intros wallet.
Qed.

Lemma check_opted_out env wallet w :
  truthy wallet = true → isValidAddress wallet = true → db_handle env = true →
  opted_out w (to_string wallet) →
  (run (check env wallet) w).1 = CheckReply false (Some "OPTED_OUT") None None.
Proof.
  intros Ht Hv Hdb Hout. unfold check. rewrite Ht, Hv, Hdb. cbn [negb].
  run_step. unfold find_opt_out. cbn [fst snd].
  destruct (head _) as [o|] eqn:Hhead; [by run_step|].
  exfalso. apply head_None in Hhead.
  unfold opted_out in Hout. apply list_elem_of_fmap in Hout as (o & Heq & Ho).
  assert (o ∈ filter (λ o, optout_walletAddress o = to_string wallet)
                (wallet_opt_outs (db w))) as Hin
    by (by apply list_elem_of_filter).
  rewrite Hhead in Hin. by apply elem_of_nil in Hin.
Qed.

Lemma erased_ext id w w' :
  Agent (db w') = Agent (db w) → Post (db w') = Post (db w) →
  Comment (db w') = Comment (db w) → agent_memory (db w') = agent_memory (db w) →
  agent_personality (db w') = agent_personality (db w) →
  orphan_watchlist (db w') = orphan_watchlist (db w) →
  wallet_agent_notifications (db w') = wallet_agent_notifications (db w) →
  erased id w → erased id w'.
Proof.
  intros E1 E2 E3 E4 E5 E6 E7 [H1 H2 H3 H4 H5 H6 H7].
  split; rewrite ?E1, ?E2, ?E3, ?E4, ?E5, ?E6, ?E7; assumption.
Qed.

Lemma delete_everything_erases id w : erased id (run (delete_everything id) w).2.
Proof.
  unfold delete_everything. run_step. cbn. split; cbn.
  - apply lookup_delete_eq.
  - intros o Ho. unfold owned_elsewhere in Ho. by apply list_elem_of_filter in Ho as [? _].
  - intros o Ho. unfold owned_elsewhere in Ho. by apply list_elem_of_filter in Ho as [? _].
  - intros o Ho. unfold owned_elsewhere in Ho. by apply list_elem_of_filter in Ho as [? _].
  - intros o Ho. unfold owned_elsewhere in Ho. by apply list_elem_of_filter in Ho as [? _].
  - intros i x Hx. by apply map_lookup_filter_Some in Hx as [_ ?].
  - intros n Hn. apply list_elem_of_filter in Hn as [Hn _]. intros <-. by apply Hn.
Qed.

Lemma delete_everything_opt_outs id w w' :
  w' ∈ trace (delete_everything id) w ∨ w' = (run (delete_everything id) w).2 →
  wallet_opt_outs (db w') = wallet_opt_outs (db w).
Proof.
  unfold delete_everything. cbn. rewrite !elem_of_cons, elem_of_nil.
  intros [H|H]; [|by subst].
  repeat (destruct H as [->|H]; [done|]). done.
Qed.

(** The handler running alone: a world in which the wallet is newly
    listed comes after the deletions. *)
Lemma optOut_deletes_first env wallet signature nonce w w' id a :
  w' ∈ trace (optOut nacl env wallet signature nonce) w →
  ¬ opted_out w (to_string wallet) → opted_out w' (to_string wallet) →
  (find_agent (agent_of_wallet (to_string wallet)) w).1 = Some (id, a) →
  erased id w'.
Proof.
  unfold optOut.
  destruct (truthy wallet), (truthy signature), (truthy nonce); cbn [negb orb];
    try (intros Hin; by apply elem_of_nil in Hin).
  destruct (isValidAddress wallet); cbn [negb];
    [|intros Hin; by apply elem_of_nil in Hin].
  destruct (db_handle env); cbn [negb]; [|intros Hin; by apply elem_of_nil in Hin].
  destruct (redis_client env); try (intros Hin; by apply elem_of_nil in Hin).
  rewrite trace_bind, trace_await, run_await.
  change (redis_get (now env) ?k w).2 with w.
  destruct (redis_get _ _ w).1 as [parsed|]; cbn [trace app].
  2:{ intros ->%list_elem_of_singleton. done. }
  destruct (bool_decide _); cbn [negb trace].
  2:{ intros ->%list_elem_of_singleton. done. }
  destruct (verifySolanaSignature _ _ _ _); cbn [negb].
  2:{ rewrite trace_bind, trace_await. cbn. rewrite !elem_of_cons, elem_of_nil.
      intros [->|[->|[]]]; done. }
  intros Hin Hnot Hlisted Hfound. revert Hin.
  rewrite trace_bind, trace_await, run_await.
  change (find_agent ?P w).2 with w. rewrite Hfound.
  rewrite trace_bind.
  pose proof (delete_everything_erases id w) as Herased.
  pose proof (delete_everything_opt_outs id w) as Hsame.
  set (w1 := (run (delete_everything id) w).2) in *.
  rewrite trace_bind, trace_await, run_await.
  assert (Hsame1 : wallet_opt_outs (db w1) = wallet_opt_outs (db w)) by (apply Hsame; by right).
  clearbody w1.
  unfold insert_opt_out. cbn [optout_walletAddress].
  case_decide as Hdup; [exfalso; apply Hnot; unfold opted_out; by rewrite <-Hsame1|].
  cbn [fst snd].
  set (w2 := with_db _ w1).
  assert (Herased2 : erased id w2) by (by apply (erased_ext id w1)).
  clearbody w2.
  repeat first [rewrite trace_bind | rewrite trace_await | rewrite trace_ret
               | rewrite run_await | progress cbn beta].
  cbn [app]. rewrite !elem_of_cons, elem_of_app, !elem_of_cons, elem_of_nil.
  intros [->|[->|[Hin|[->|[->|[->|[]]]]]]]; try done.
  - exfalso. apply Hnot. unfold opted_out in *. rewrite <-(Hsame w'); [done|by left].
  - by apply (erased_ext id w2).
  - by apply (erased_ext id w2).
Qed.

(** What the opt-out handler does, running alone. *)
Lemma optOut_run env wallet signature nonce w :
  let address := to_string wallet in
  let found := (find_agent (agent_of_wallet address) w).1 in
  let w1 := match found with
            | Some (id, _) => (run (delete_everything id) w).2
            | None => w
            end in
  (opt_out_accepted env wallet signature nonce w
   ∧ if decide (opted_out w address)
     then run (optOut nacl env wallet signature nonce) w = (Error 500 "OPT_OUT_FAILED", w1)
     else ∃ w', run (optOut nacl env wallet signature nonce) w
                  = (OptOutReply address (now env), w')
                ∧ opted_out w' address
                ∧ Agent (db w') = Agent (db w1)
                ∧ redis w' = delete (optout_nonce_key address) (redis w))
  ∨ (¬ opt_out_accepted env wallet signature nonce w
     ∧ ∃ status code w',
         run (optOut nacl env wallet signature nonce) w = (Error status code, w')
         ∧ wallet_opt_outs (db w') = wallet_opt_outs (db w)
         ∧ Agent (db w') = Agent (db w)
         ∧ redis w' = redis w).
Proof.
  cbn zeta. unfold optOut.
  destruct (truthy wallet) eqn:Hw; cbn [negb orb].
  2:{ right. split; [intros [(?&?&?) _ _ _ _]; congruence|]. by eexists _, _, _. }
  destruct (truthy signature) eqn:Hs; cbn [negb orb].
  2:{ right. split; [intros [(?&?&?) _ _ _ _]; congruence|]. by eexists _, _, _. }
  destruct (truthy nonce) eqn:Hn; cbn [negb orb].
  2:{ right. split; [intros [(?&?&?) _ _ _ _]; congruence|]. by eexists _, _, _. }
  destruct (isValidAddress wallet) eqn:Hvalid; cbn [negb].
  2:{ right. split; [intros [_ ? _ _ _]; congruence|]. by eexists _, _, _. }
  destruct (db_handle env) eqn:Hdb; cbn [negb].
  2:{ right. split; [intros [_ _ ? _ _]; congruence|]. by eexists _, _, _. }
  destruct (redis_client env) eqn:Hredis.
  1,2: right; (split; [intros [_ _ _ ? _]; congruence|]); by eexists _, _, _.
  rewrite run_bind, run_await.
  change (redis_get (now env) ?k w).2 with w.
  destruct (redis_get _ _ w).1 as [parsed|] eqn:Hget.
  2:{ right. split; [intros [_ _ _ _ (r & ? & _)]; congruence|]. by eexists _, _, _. }
  case_bool_decide as Hnonce; cbn [negb].
  2:{ right. split; [|by eexists _, _, _].
      intros [_ _ _ _ (r & ? & -> & _)]. by simplify_eq. }
  destruct parsed as [r| |]; try done. cbn in Hnonce. simplify_eq.
  cbn [parsed_message].
  destruct (verifySolanaSignature _ _ _ _) eqn:Hsig; cbn [negb].
  2:{ right. split.
      - intros [_ _ _ _ (r' & ? & ? & ?)]. simplify_eq. congruence.
      - run_step. by eexists _, _, _. }
  left. split; [split; try done; by exists r|].
  run_step. change (find_agent ?P w).2 with w.
  set (found := (find_agent _ w).1).
  set (w1 := (run match found with Some (id, _) => _ | None => _ end w).2).
  assert (Hw1 : w1 = match found with
                     | Some (id, _) => (run (delete_everything id) w).2
                     | None => w
                     end) by (subst w1; by destruct found as [[]|]).
  assert (Hsame : wallet_opt_outs (db w1) = wallet_opt_outs (db w)
                  ∧ redis w1 = redis w).
  { rewrite Hw1. destruct found as [[id a]|]; [|done].
    split; [apply (delete_everything_opt_outs id); by right|].
    unfold delete_everything. by run_step. }
  destruct Hsame as [Hsame Hredis1]. rewrite <-Hw1.
  unfold insert_opt_out. cbn [optout_walletAddress]. unfold opted_out. rewrite Hsame.
  destruct (decide _) as [Hdup|Hdup]; cbn [fst snd]; [by run_step|].
  run_step. eexists. split; [reflexivity|]. cbn. rewrite Hredis1. repeat split.
  rewrite fmap_app, elem_of_app. right. cbn. by apply list_elem_of_singleton.
Qed.

Lemma guarded_run env wallet (handler : Task World Reply) w :
  run (guarded env wallet handler) w
  = match (run (detectClaimAbuse env wallet) w).1 with
    | Some blocked => (blocked, (run (detectClaimAbuse env wallet) w).2)
    | None => run handler (run (detectClaimAbuse env wallet) w).2
    end.
Proof. unfold guarded. rewrite run_bind. by destruct (run _ w).1. Qed.

(** The detector writes to its own counters in Redis, and nowhere else. *)
Lemma detectClaimAbuse_frame env wallet w :
  let w' := (run (detectClaimAbuse env wallet) w).2 in
  db w' = db w
  ∧ published w' = published w
  ∧ ∀ key, key ≠ ip_key env → redis w' !! key = redis w !! key.
Proof.
  cbn zeta.
  set (R := λ w w' : World,
         db w' = db w ∧ published w' = published w
         ∧ ∀ key, key ≠ ip_key env → redis w' !! key = redis w !! key).
  assert (PreOrder R) as HR.
  { split; [done|]. intros w1 w2 w3 (? & ? & H12) (? & ? & H23).
    repeat split; [congruence|congruence|]. intros key Hne. by rewrite H23, H12. }
  apply (proj1 (future_run R (fun _ => True) (detectClaimAbuse env wallet) w
                  ltac:(unfold detectClaimAbuse; walk; subst R; cbn beta;
                        [apply (attempt_incr_frame env)
                        |apply (attempt_expire_frame env)
                        |unfold attempt; by destruct (redis_broken _ _)]))).
Qed.


Lemma detectClaimAbuse_blocks_with_error env wallet w blocked :
  (run (detectClaimAbuse env wallet) w).1 = Some blocked →
  ∃ code, blocked = Error 429 code.
Proof.
  set (R := λ _ _ : World, True).
  set (P := λ verdict : option Reply,
         ∀ b, verdict = Some b → ∃ code, b = Error 429 code).
  assert (PreOrder R) as HR by (by split).
  assert (Hf : future R P (detectClaimAbuse env wallet)).
  { unfold detectClaimAbuse.
    repeat match goal with
    | |- future _ _ (if ?b then _ else _) => destruct b
    | |- future _ _ (match ?x with _ => _ end) => destruct x
    | |- future _ (fun _ => True) (await _) => apply future_await; intros ?; by split
    | |- future _ (fun _ => True) (mret _) => exact I
    | |- future _ P (_ ≫= _) => eapply (future_bind _ (fun _ => True)); [|intros ? _]
    | |- future _ P (mret None) => intros b [=]
    | |- future _ P (mret (Some _)) => intros b [= <-]; by eexists
    end. }
  intros Hv. by apply (proj2 (future_run R P _ w Hf)).
Qed.

(** An opt-out that is answered with success has listed the wallet. *)
Lemma optOut_lists_wallet env wallet signature nonce w w' address at_ :
  run (optOut_route nacl env wallet signature nonce) w = (OptOutReply address at_, w') →
  truthy wallet = true ∧ isValidAddress wallet = true
  ∧ address = to_string wallet ∧ opted_out w' address.
Proof.
  unfold optOut_route. rewrite guarded_run.
  destruct (run (detectClaimAbuse env wallet) w).1 as [blocked|] eqn:Hv.
  { apply detectClaimAbuse_blocks_with_error in Hv as [code ->]. done. }
  set (w1 := (run (detectClaimAbuse env wallet) w).2).
  destruct (optOut_run env wallet signature nonce w1) as [[Hacc Hrun]|(_ & ? & ? & ? & -> & _)];
    [|done].
  destruct Hacc as [(? & _) ? _ _ _].
  destruct (decide _); [by rewrite Hrun|].
  destruct Hrun as (w2 & -> & Hout & _). intros ?. by simplify_eq.
Qed.

(** C3: once an opt-out has been answered with success for a wallet,
    whatever happens next (claim requests, cron runs, a new subject
    created for the wallet), an eligibility check of the wallet that
    reaches the database is answered ineligible with reason
    [OPTED_OUT], from the opt-out list and before any agent is looked
    up. *)
Theorem opt_out_is_permanent env wallet signature nonce w w' address at_
    (events : list Event) (env' : Env) :
  run (optOut_route nacl env wallet signature nonce) w = (OptOutReply address at_, w') →
  db_handle env' = true →
  (run (check env' wallet) (foldl happen w' events)).1
  = CheckReply false (Some "OPTED_OUT") None None.
Proof.
  intros (Ht & Hv & -> & Hout)%optOut_lists_wallet Hdb.
  apply check_opted_out; try done.
  revert w' Hout. induction events as [|e events IH]; intros w' Hout; [done|].
  cbn [foldl]. apply IH. by apply happen_keeps_opt_outs.
Qed.

Lemma optOutNonce_without_agent env wallet w :
  (find_agent (agent_of_wallet (to_string wallet)) w).1 = None →
  ∃ status code,
    run (optOutNonce env wallet) w = (Error status code, w)
    ∧ (truthy wallet = true → isValidAddress wallet = true → db_handle env = true →
       ¬ opted_out w (to_string wallet) → (status, code) = (404%N, "NO_AGENT")).
Proof.
  intros Hnone. unfold optOutNonce.
  destruct (truthy wallet); cbn [negb]; [|by eexists _, _].
  destruct (isValidAddress wallet); cbn [negb]; [|by eexists _, _].
  destruct (db_handle env); cbn [negb]; [|by eexists _, _].
  run_step. unfold find_opt_out. cbn [fst snd].
  destruct (head _) as [o|] eqn:Hhead.
  - eexists _, _. split; [reflexivity|]. intros _ _ _ Hnot. exfalso. apply Hnot.
    apply head_Some_elem_of, list_elem_of_filter in Hhead as [<- Ho].
    unfold opted_out. by apply list_elem_of_fmap_2.
  - run_step. change (find_agent ?P w).2 with w. rewrite Hnone. by eexists _, _.
Qed.


End OptOutFacts.

Section OptOutExamples.
Import SolanaSignature Store Commands Async ClaimRateLimit ClaimRoutes Sample Notions.

Example claim_nonce_issued :
  (run (issueClaimNonce (env 1000) wallet agentId) (world_with UNCLAIMED)).1
  = NonceReply the_nonce
      (generateClaimMessage "6612f1a2b3c4d5e6f7890abc"
         "GaTjJs756Urcsjs7ia8HYm3eiBNbBAHFAS7fLsSNVxus" the_nonce
         "2026-02-06T12:00:00.000Z")
      "2026-02-06T12:00:00.000Z" 300.
Proof. vm_compute. reflexivity. Qed.



End OptOutExamples.

(** ** The orphan cron *)

Section OrphanTransitionFacts.
Import Store Commands OrphanTransition Notions.

Section OneRun.
Variable broken : Cmd → bool.
Variable redis_ready : bool.
Variable now : Z.

Lemma grows_refl s : grows s s.
Proof. exists []. by rewrite app_nil_r. Qed.

Lemma grows_trans s1 s2 s3 : grows s1 s2 → grows s2 s3 → grows s1 s3.
Proof. intros [l1 H1] [l2 H2]. exists (l1 ++ l2). by rewrite H2, H1, app_assoc. Qed.

Lemma grows_nil s s' : grows s s' → errors s' = [] → errors s = [].
Proof. intros [l H] H'. rewrite H' in H. symmetry in H. by apply app_eq_nil in H as [? _]. Qed.

Lemma grows_push e s : grows s (push_error e s).
Proof. by exists [e]. Qed.

Lemma push_error_not_nil e s : errors (push_error e s) ≠ [].
Proof. cbn. by destruct (errors s). Qed.

Lemma notify_watcher_spec id a st x :
  let st' := notify_watcher broken redis_ready now id a st x in
  Agent (db st'.2) = Agent (db st.2)
  ∧ transitioned st'.1 = transitioned st.1
  ∧ grows st.1 st'.1.
Proof.
  destruct st as [s w], x as [wid watcher]. unfold notify_watcher. cbn [fst snd].
  destruct (broken (InsertNotice wid)); [repeat split; try done; apply grows_push|].
  destruct (broken (UpdateWatcher wid)); [repeat split; try done; apply grows_push|].
  destruct redis_ready; [destruct (broken (Publish wid))|];
    (repeat split; try done; unfold grows; cbn;
     first [by eexists [_] | by (exists []; rewrite app_nil_r)]).
Qed.

Lemma notify_watchers_spec id a st l :
  let st' := foldl (notify_watcher broken redis_ready now id a) st l in
  Agent (db st'.2) = Agent (db st.2)
  ∧ transitioned st'.1 = transitioned st.1
  ∧ grows st.1 st'.1.
Proof.
  cbn zeta. revert st. induction l as [|x l IH]; intros st; cbn [foldl].
  { auto using grows_refl. }
  destruct (IH (notify_watcher broken redis_ready now id a st x)) as (E1 & E2 & E3).
  destruct (notify_watcher_spec id a st x) as (F1 & F2 & F3).
  repeat split; [congruence|congruence|by eapply grows_trans].
Qed.

(** One expired agent: the others are left alone; when no command
    throws, an agent that is still UNCLAIMED becomes ORPHANED and is
    counted, and any other is left as it is. *)
Lemma orphan_agent_spec st id agent :
  let st' := orphan_agent broken redis_ready now st (id, agent) in
  grows st.1 st'.1
  ∧ (∀ id', id' ≠ id → Agent (db st'.2) !! id' = Agent (db st.2) !! id')
  ∧ (errors st'.1 = [] →
     if decide (agent_status st.2 id = Some UNCLAIMED)
     then transitioned st'.1 = S (transitioned st.1)
          ∧ agent_status st'.2 id = Some ORPHANED
     else transitioned st'.1 = transitioned st.1
          ∧ Agent (db st'.2) !! id = Agent (db st.2) !! id).
Proof.
  destruct st as [s w]. unfold orphan_agent. cbn [fst snd].
  destruct (broken (UpdateAgent id)).
  { split; [apply grows_push|]. split; [done|]. intros H. by apply push_error_not_nil in H. }
  unfold find_agent_and_update, agent_status.
  destruct (Agent (db w) !! id) as [a|] eqn:Ha; cbn [mbind option_bind].
  2:{ split; [apply grows_refl|]. split; [done|]. intros _. by rewrite decide_False. }
  case_bool_decide as Hst.
  2:{ split; [apply grows_refl|]. split; [done|]. intros _. by rewrite decide_False. }
  rewrite decide_True by done.
  set (w1 := with_db (with_Agent <[id := set_orphaned now a]>) w).
  assert (Hw1 : (∀ id', id' ≠ id → Agent (db w1) !! id' = Agent (db w) !! id')
                ∧ Agent (db w1) !! id ≫= wad_status = Some ORPHANED).
  { split; [intros id' Hne; cbn; by rewrite lookup_insert_ne|].
    cbn. rewrite lookup_insert_eq. cbn. unfold wad_status in *. cbn.
    by destruct (walletAgentData a). }
  destruct Hw1 as [Hother Hself]. clearbody w1.
  destruct (broken (InsertAudit id)).
  { split; [exists [TRANSITION_FAILED id]; done|]. split; [done|].
    intros H. by apply push_error_not_nil in H. }
  destruct (broken (FindWatchers id)).
  { split; [exists [TRANSITION_FAILED id]; done|]. split; [by cbn|].
    intros H. by apply push_error_not_nil in H. }
  match goal with
  | |- context [foldl ?f ?st0 ?l] =>
      destruct (notify_watchers_spec id agent st0 l) as (E1 & E2 & E3)
  end.
  cbn [fst snd] in *. split; [|split].
  - eapply grows_trans; [|exact E3]. exists []. cbn. by rewrite app_nil_r.
  - intros id' Hne. rewrite E1. cbn. by apply Hother.
  - intros _. split; [by rewrite E2|]. by rewrite E1.
Qed.

(** A whole run over a list of agents with distinct ids, each still
    UNCLAIMED in the collection. *)
Lemma orphan_agents_spec (l : list (ObjectId * AgentDoc)) st :
  let st' := foldl (orphan_agent broken redis_ready now) st l in
  NoDup l.*1 →
  (∀ id a, (id, a) ∈ l → agent_status st.2 id = Some UNCLAIMED) →
  grows st.1 st'.1
  ∧ (∀ id, id ∉ l.*1 → Agent (db st'.2) !! id = Agent (db st.2) !! id)
  ∧ (errors st'.1 = [] →
     transitioned st'.1 = (transitioned st.1 + length l)%nat
     ∧ ∀ id a, (id, a) ∈ l → agent_status st'.2 id = Some ORPHANED).
Proof.
  cbn zeta. revert st. induction l as [|[id a] l IH]; intros st Hnodup Hall; cbn [foldl].
  { split; [apply grows_refl|]. split; [done|]. intros _. split; [cbn [length]; lia|].
    intros ?? Hin. by apply elem_of_nil in Hin. }
  apply NoDup_cons in Hnodup as [Hfresh Hnodup]. cbn [fmap list_fmap fst] in *.
  destruct (orphan_agent_spec st id a) as (G1 & O1 & T1).
  set (st1 := orphan_agent broken redis_ready now st (id, a)) in *. clearbody st1.
  destruct (IH st1 Hnodup) as (G2 & O2 & T2).
  { intros id' a' Hin. unfold agent_status. rewrite O1.
    - apply (Hall id' a'). by right.
    - intros ->. apply Hfresh. apply list_elem_of_fmap. by exists (id, a'). }
  split; [by eapply grows_trans|]. split.
  { intros id' Hnot. apply not_elem_of_cons in Hnot as [Hne Hnot].
    by rewrite O2, O1. }
  intros Hnil. destruct (T2 Hnil) as [Hcount Horph].
  pose proof (grows_nil _ _ G2 Hnil) as Hnil1. specialize (T1 Hnil1).
  rewrite decide_True in T1 by (apply (Hall id a); by left).
  destruct T1 as [Hcount1 Horph1]. split; [cbn [length]; lia|].
  intros id' a' [Heq|Hin]%elem_of_cons; [|by eapply Horph].
  simplify_eq. unfold agent_status. by rewrite O2.
Qed.
End OneRun.

Lemma NoDup_filter_map_to_list {A} (P : ObjectId * A → Prop)
    `{!∀ x, Decision (P x)} (m : gmap ObjectId A) :
  NoDup (filter P (map_to_list m)).*1.
Proof.
  eapply sublist_NoDup; [apply (NoDup_fst_map_to_list m)|].
  apply fmap_sublist, sublist_filter.
Qed.

Lemma filter_none {A} (P : A → Prop) `{!∀ x, Decision (P x)} (l : list A) :
  (∀ x, x ∈ l → ¬ P x) → filter P l = [].
Proof.
  induction l as [|x l IH]; intros Hnot; [done|].
  rewrite filter_cons, decide_False by (apply Hnot; by left).
  apply IH. intros y Hy. apply Hnot. by right.
Qed.

Lemma expired_is_unclaimed now a : expired now a = true → wad_status a = Some UNCLAIMED.
Proof.
  unfold expired. rewrite !andb_true_iff, bool_decide_eq_true. by intros [[_ ?] _].
Qed.

Lemma processOrphanTransitions_clean broken redis_ready now w :
  let run := processOrphanTransitions broken redis_ready now w in
  errors run.1 = [] →
  transitioned run.1 = length (expired_agents now w)
  ∧ (∀ id a, (id, a) ∈ expired_agents now w → agent_status run.2 id = Some ORPHANED)
  ∧ (∀ id, id ∉ (expired_agents now w).*1 → Agent (db run.2) !! id = Agent (db w) !! id).
Proof.
  cbn zeta. unfold processOrphanTransitions.
  destruct (broken FindExpired); [intros H; by apply push_error_not_nil in H|].
  set (summary0 := {| processed := length (expired_agents now w) |}).
  intros Hnil.
  destruct (orphan_agents_spec broken redis_ready now (expired_agents now w) (summary0, w))
    as (_ & Hother & Hdone).
  { apply NoDup_filter_map_to_list. }
  { intros id a [Hexp Hin]%list_elem_of_filter. cbn in Hexp.
    apply elem_of_map_to_list in Hin. unfold agent_status. cbn [snd]. rewrite Hin.
    by apply expired_is_unclaimed in Hexp. }
  destruct (Hdone Hnil) as [Hcount Horph]. by rewrite Hcount.
Qed.

Lemma processOrphanTransitions_idle broken redis_ready now w :
  expired_agents now w = [] →
  let run := processOrphanTransitions broken redis_ready now w in
  transitioned run.1 = 0%nat ∧ notified run.1 = 0%nat ∧ run.2 = w.
Proof.
  intros Hnone. cbn zeta. unfold processOrphanTransitions. rewrite Hnone.
  by destruct (broken FindExpired).
Qed.

End OrphanTransitionFacts.

(** ** The claim notification cron *)

Section ClaimNotificationsFacts.
Import Store Commands ClaimNotifications Notions.
Variable sendClaimMemo : nat → string → ObjectId → string → SendResult.
Variable short_date : Z → string.

Local Abbreviation due_loop := (due_loop sendClaimMemo short_date).
Local Abbreviation send_one := (send_one sendClaimMemo short_date).
Local Abbreviation notify_agent := (notify_agent sendClaimMemo short_date).
Local Abbreviation agents_loop := (agents_loop sendClaimMemo short_date).
Local Abbreviation processNotifications := (processNotifications sendClaimMemo short_date).

Lemma getSentNotifications_record w m id :
  memo_agentId m ≠ id →
  getSentNotifications (record w m) id = getSentNotifications w id.
Proof.
  intros Hne. unfold getSentNotifications, record. cbn.
  rewrite omap_app. cbn. rewrite decide_False by (intros [? _]; done).
  by rewrite app_nil_r.
Qed.

(** Sending for one agent leaves what concerns another as it is. *)
Lemma send_one_other now id' a' days schedule r id :
  id' ≠ id →
  let r' := send_one now id' a' days schedule r in
  dispatched_for id (dispatched r') = dispatched_for id (dispatched r)
  ∧ getSentNotifications (world r') id = getSentNotifications (world r) id.
Proof.
  intros Hne. cbn zeta. unfold send_one, dispatched_for.
  destruct (String.eqb _ _); [|done].
  destruct (sendClaimMemo _ _ _ _); cbn [dispatched world];
    rewrite filter_app, filter_cons, decide_False, filter_nil, app_nil_r by done;
    (split; [done|]); by apply getSentNotifications_record.
Qed.

Lemma due_loop_other now id' a' days sentTemplates schedules r id :
  id' ≠ id →
  let r' := due_loop now id' a' days sentTemplates schedules r in
  dispatched_for id (dispatched r') = dispatched_for id (dispatched r)
  ∧ getSentNotifications (world r') id = getSentNotifications (world r) id.
Proof.
  intros Hne. cbn zeta. revert r.
  induction schedules as [|schedule schedules IH]; intros r; [done|].
  cbn [ClaimNotifications.due_loop].
  destruct (_ && _).
  - destruct (_ <=? _)%nat; [done|].
    destruct (IH (send_one now id' a' days schedule r)) as [-> ->].
    by apply send_one_other.
  - destruct (has _ _); [|apply IH]. by destruct (IH (skip r)) as [-> ->].
Qed.

Lemma agents_loop_other now agents r id :
  id ∉ agents.*1 →
  let r' := agents_loop now agents r in
  dispatched_for id (dispatched r') = dispatched_for id (dispatched r)
  ∧ getSentNotifications (world r') id = getSentNotifications (world r) id.
Proof.
  cbn zeta. revert r. induction agents as [|[id' a'] agents IH]; intros r Hnot; [done|].
  apply not_elem_of_cons in Hnot as [Hne Hnot]. cbn in Hne.
  cbn [ClaimNotifications.agents_loop]. destruct (_ <=? _)%nat; [done|].
  destruct (IH (notify_agent now (id', a') r) Hnot) as [-> ->].
  unfold ClaimNotifications.notify_agent. by apply due_loop_other.
Qed.

Lemma send_one_sent now id a days schedule r :
  (sent_count r ≤ sent_count (send_one now id a days schedule r))%nat.
Proof.
  unfold send_one. destruct (String.eqb _ _); [|done].
  destruct (sendClaimMemo _ _ _ _); cbn; lia.
Qed.

Lemma due_loop_sent now id a days sentTemplates schedules r :
  (sent_count r ≤ sent_count (due_loop now id a days sentTemplates schedules r))%nat.
Proof.
  revert r. induction schedules as [|schedule schedules IH]; intros r; [done|].
  cbn [ClaimNotifications.due_loop].
  destruct (_ && _).
  - destruct (_ <=? _)%nat; [done|]. etrans; [|apply IH]. apply send_one_sent.
  - destruct (has _ _); [|apply IH]. etrans; [|apply IH]. done.
Qed.

Lemma agents_loop_sent now agents r :
  (sent_count r ≤ sent_count (agents_loop now agents r))%nat.
Proof.
  revert r. induction agents as [|[id a] agents IH]; intros r; [done|].
  cbn [ClaimNotifications.agents_loop]. destruct (_ <=? _)%nat; [done|].
  etrans; [|apply IH]. apply due_loop_sent.
Qed.

(** The agent of the claim, when its turn comes below the ceiling. *)
Lemma notify_agent_final_day now id a r :
  days_since now a = 29 →
  (∀ t, t ∈ EARLIER_TEMPLATES → t ∈ getSentNotifications (world r) id) →
  "FINAL_DAY" ∉ getSentNotifications (world r) id →
  (sent_count r < MAX_SENDS_PER_HOUR)%nat →
  dispatched (notify_agent now (id, a) r) = dispatched r ++ [(id, "FINAL_DAY")].
Proof.
  intros Hdays Hearlier Hfinal Hsent.
  unfold ClaimNotifications.notify_agent. rewrite Hdays.
  set (sentTemplates := getSentNotifications (world r) id) in *.
  assert (Hhas : ∀ t, t ∈ EARLIER_TEMPLATES → has sentTemplates t = true).
  { intros t Ht. unfold has. apply bool_decide_eq_true. by apply Hearlier. }
  assert (Hnot : has sentTemplates "FINAL_DAY" = false).
  { unfold has. by apply bool_decide_eq_false. }
  clearbody sentTemplates.
  unfold NOTIFICATION_SCHEDULE. cbn [ClaimNotifications.due_loop daysAfterCreation template].
  rewrite !Hhas by (unfold EARLIER_TEMPLATES; rewrite !elem_of_cons; auto 12).
  rewrite Hnot. cbn [Z.leb Z.compare Pos.compare Pos.compare_cont andb negb skip sent_count].
  destruct (Nat.leb_spec MAX_SENDS_PER_HOUR (sent_count r)) as [Hge|_]; [lia|].
  unfold send_one. cbn [channel template String.eqb Ascii.eqb Bool.eqb dispatched].
  by destruct (sendClaimMemo _ _ _ _).
Qed.

Lemma agents_loop_final_day now agents r id a :
  NoDup agents.*1 → (id, a) ∈ agents →
  days_since now a = 29 →
  (∀ t, t ∈ EARLIER_TEMPLATES → t ∈ getSentNotifications (world r) id) →
  "FINAL_DAY" ∉ getSentNotifications (world r) id →
  (sent_count (agents_loop now agents r) < MAX_SENDS_PER_HOUR)%nat →
  dispatched_for id (dispatched (agents_loop now agents r))
  = dispatched_for id (dispatched r) ++ [(id, "FINAL_DAY")].
Proof.
  intros Hnodup Hin Hdays. revert r Hnodup Hin.
  induction agents as [|[id' a'] agents IH]; intros r Hnodup Hin Hearlier Hfinal Hsent.
  { by apply elem_of_nil in Hin. }
  apply NoDup_cons in Hnodup as [Hfresh Hnodup]. cbn [fmap list_fmap fst] in Hfresh.
  revert Hsent. cbn [ClaimNotifications.agents_loop].
  destruct (Nat.leb_spec MAX_SENDS_PER_HOUR (sent_count r)) as [Hge|Hlt]; [lia|].
  intros Hsent.
  apply elem_of_cons in Hin as [Heq|Hin].
  - simplify_eq.
    destruct (agents_loop_other now agents (notify_agent now (id', a') r) id' Hfresh)
      as [-> _].
    rewrite notify_agent_final_day by done.
    unfold dispatched_for. rewrite filter_app, filter_cons, decide_True by done. done.
  - assert (Hne : id' ≠ id).
    { intros ->. apply Hfresh, list_elem_of_fmap. by exists (id, a). }
    destruct (due_loop_other now id' a' (days_since now a')
                (getSentNotifications (world r) id') NOTIFICATION_SCHEDULE r id Hne)
      as [Hd Hs].
    fold (notify_agent now (id', a') r) in Hd, Hs.
    rewrite <-Hd. apply IH; try done; by rewrite Hs.
Qed.


End ClaimNotificationsFacts.

(** ** Concurrent claims *)

Section ConcurrentClaims.
Import SolanaSignature Store Commands Async ClaimRateLimit ClaimRoutes Notions.
Variable nacl : list ascii → list N → list N → bool.
Local Abbreviation handle := (Notions.handle nacl).

Lemma same_statuses_preorder : PreOrder same_statuses.
Proof.
  split; [done|]. intros w1 w2 w3 H12 H23 id. by rewrite H23, H12.
Qed.
#[local] Existing Instance same_statuses_preorder.

Lemma claiming_bind {A} refused id (Q : A → Prop) (t : Task World A)
    (f : A → Task World Reply) :
  future same_statuses Q t → (∀ a, Q a → claiming refused id (f a)) →
  claiming refused id (t ≫= f).
Proof.
  intros Ht Hf. induction t as [a|X op k IH]; [by apply Hf|].
  change (Await op k ≫= f) with (Await op (fun x => k x ≫= f)).
  intros w. destruct (Ht w) as [HR Hk]. left. split; [done|]. by apply IH.
Qed.

Lemma claiming_ret refused id r : refused r → claiming refused id (mret r).
Proof. done. Qed.

Lemma claiming_await_bind {X} refused id (op : World → X * World)
    (f : X → Task World Reply) :
  (∀ w, (same_statuses w (op w).2 ∧ claiming refused id (f (op w).1))
        ∨ (claims id w (op w).2 ∧ won id (f (op w).1))) →
  claiming refused id (await op ≫= f).
Proof. intros H w. apply H. Qed.

Lemma claiming_weaken (refused refused' : Reply → Prop) id t :
  (∀ r, refused r → refused' r) → claiming refused id t → claiming refused' id t.
Proof.
  intros Hr. induction t as [r|X op k IH]; [apply Hr|].
  intros Ht w. destruct (Ht w) as [[? ?]|?]; [left|by right]. split; [done|]. by apply IH.
Qed.

Ltac quiet :=
  cbn zeta;
  repeat match goal with
  | |- future _ _ (if ?b then _ else _) => destruct b
  | |- future _ _ (match ?x with _ => _ end) => destruct x
  | |- future _ _ (_ ≫= _) => eapply (future_bind _ (fun _ => True)); [|intros ? _]
  | |- future _ _ (await _) => apply future_await; intros ?; split; [|exact I]
  | |- future _ (fun _ => True) (mret _) => exact I
  end.

Lemma same_db_statuses w w' : Agent (db w') = Agent (db w) → same_statuses w w'.
Proof. intros H id. unfold status_of. by rewrite H. Qed.

Lemma attempt_incr_quiet env key w : same_statuses w (attempt_incr env key w).2.
Proof. apply same_db_statuses. by rewrite (proj1 (attempt_incr_frame env key w)). Qed.

Lemma attempt_expire_quiet env key secs w :
  same_statuses w (attempt env (EXPIRE key) (redis_expire (now env) key secs) w).2.
Proof. apply same_db_statuses. by rewrite (proj1 (attempt_expire_frame env key secs w)). Qed.

Lemma recordFailedClaimAttempt_quiet env wallet :
  future same_statuses (fun _ => True) (recordFailedClaimAttempt env wallet).
Proof.
  unfold recordFailedClaimAttempt. quiet.
  - apply attempt_incr_quiet.
  - apply attempt_expire_quiet.
Qed.

Lemma detectClaimAbuse_quiet env wallet :
  future same_statuses (fun verdict => ∀ blocked, verdict = Some blocked → turned_away blocked)
    (detectClaimAbuse env wallet).
Proof.
  assert (Hnone : ∀ w : World, ∀ blocked : Reply, None = Some blocked → turned_away blocked)
    by done.
  assert (Hsome : ∀ code blocked, Some (Error 429 code) = Some blocked → turned_away blocked).
  { intros code blocked [= <-]. right. by exists code. }
  unfold detectClaimAbuse.
  destruct (redis_client env); try done.
  eapply (future_bind _ (fun _ => True)).
  { apply future_await. intros w. split; [apply attempt_incr_quiet|done]. }
  intros [ipCount|] _; [|done].
  eapply (future_bind _ (fun _ => True)).
  { destruct (ipCount =? 1); [|done].
    apply future_await. intros w. split; [apply attempt_expire_quiet|done]. }
  intros [[]|] _; [|done].
  destruct (ABUSE_IP_LIMIT <? ipCount); [apply future_ret, Hsome|].
  destruct (truthy wallet); [|done].
  eapply (future_bind _ (fun _ => True)).
  { apply future_await. intros w. split; [|done].
    unfold attempt. by destruct (redis_broken _ _). }
  intros [[v|]|] _; try done.
  destruct (from_option _ _ _); [apply future_ret, Hsome|done].
Qed.

Lemma claim_succeeded_won env wallet key id : won id (claim_succeeded env wallet key id).
Proof.
  unfold won, claim_succeeded.
  eapply (future_bind _ (fun _ => True)); [by apply future_await|]. intros found _.
  eapply (future_bind _ (fun _ => True)).
  { destruct found; [done|]. by apply future_await. }
  intros user _.
  eapply (future_bind _ (fun _ => True)).
  { apply future_await. intros w. split; [|done]. intros id'. unfold status_of. cbn.
    apply status_alter, set_owner_status. }
  intros _ _.
  eapply (future_bind _ (fun _ => True)); [by apply future_await|]. intros previous _.
  eapply (future_bind _ (fun _ => True)).
  { destruct (_ <=? _)%N; [|done].
    apply future_await. intros w. split; [|done]. intros id'. unfold status_of. cbn.
    apply status_alter, set_founding_status. }
  intros _ _.
  eapply (future_bind _ (fun _ => True)); [by apply future_await|]. intros _ _.
  eapply (future_bind _ (fun _ => True)); [by apply future_await|]. intros _ _.
  eapply (future_bind _ (fun _ => True)); [by apply future_await|]. intros _ _.
  cbn. by eexists _, _.
Qed.

Lemma claim_gate_claiming env wallet key id signature nonce :
  claiming only_conflict id (claim_gate env wallet key id signature nonce).
Proof.
  unfold claim_gate. apply claiming_await_bind.
  intros w. unfold find_agent_and_update.
  destruct (Agent (db w) !! id) as [a|] eqn:Ha.
  2:{ left. split; [done|]. cbn [fst].
      by eapply (claiming_bind _ _ (fun _ => True)); [by apply future_await|]. }
  destruct (claimable_by wallet a) eqn:Hc.
  2:{ left. split; [done|]. cbn [fst].
      by eapply (claiming_bind _ _ (fun _ => True)); [by apply future_await|]. }
  right. cbn [fst snd]. split; [|apply claim_succeeded_won].
  unfold claimable_by in Hc. rewrite !andb_true_iff, !bool_decide_eq_true in Hc.
  destruct Hc as [[Hwallet Hstatus] Hwa].
  unfold claims, status_of. cbn. rewrite Ha, lookup_insert_eq. cbn.
  split; [done|]. split.
  - unfold wad_status in *. cbn. by destruct (walletAgentData a).
  - intros id' Hne. by rewrite lookup_insert_ne.
Qed.

Lemma verifyClaim_claiming env wallet agentId signature nonce :
  claiming any_refusal (target agentId)
    (verifyClaim nacl env wallet agentId signature nonce).
Proof.
  assert (Hrej : ∀ r, r ∈ [ Error 400 "MISSING_FIELDS"; Error 400 "INVALID_WALLET";
                            Error 400 "INVALID_AGENT_ID"; Error 503 "DATABASE_UNAVAILABLE";
                            Error 503 "CACHE_UNAVAILABLE"; Error 400 "NONCE_EXPIRED";
                            Error 400 "NONCE_MISMATCH"; Error 403 "INVALID_SIGNATURE" ] →
                       claiming any_refusal (target agentId) (mret r)).
  { intros r Hr. apply claiming_ret. left. by left. }
  unfold verifyClaim, target.
  destruct (_ || _); [apply Hrej; rewrite !elem_of_cons; auto 12|].
  destruct (negb _); [apply Hrej; rewrite !elem_of_cons; auto 12|].
  destruct (parse_ObjectId agentId) as [id|]; [|apply Hrej; rewrite !elem_of_cons; auto 12].
  destruct (negb _); [apply Hrej; rewrite !elem_of_cons; auto 12|].
  destruct (redis_client env); try (apply Hrej; rewrite !elem_of_cons; auto 12).
  cbn [default]. eapply (claiming_bind _ _ (fun _ => True)); [by apply future_await|].
  intros [parsed|] _.
  2:{ eapply claiming_bind; [apply recordFailedClaimAttempt_quiet|].
      intros _ _. apply Hrej; rewrite !elem_of_cons; auto 12. }
  destruct (negb _).
  { eapply claiming_bind; [apply recordFailedClaimAttempt_quiet|].
    intros _ _. apply Hrej; rewrite !elem_of_cons; auto 12. }
  destruct (negb _).
  2:{ eapply claiming_weaken; [|apply claim_gate_claiming]. intros r ->. by right. }
  eapply claiming_bind; [apply recordFailedClaimAttempt_quiet|]. intros _ _.
  eapply (claiming_bind _ _ (fun _ => True)); [by apply future_await|]. intros _ _.
  apply Hrej; rewrite !elem_of_cons; auto 12.
Qed.

Lemma verifyClaim_route_claiming env wallet agentId signature nonce :
  claiming any_refusal (target agentId)
    (verifyClaim_route nacl env wallet agentId signature nonce).
Proof.
  unfold verifyClaim_route, guarded.
  eapply claiming_bind; [apply detectClaimAbuse_quiet|].
  intros [blocked|] Hv; [|apply verifyClaim_claiming].
  apply claiming_ret. left. by apply Hv.
Qed.

Lemma any_refusal_is_error r : any_refusal r → ∃ status code, r = Error status code.
Proof.
  intros [[(status & code & -> & _)%rejection_is_error|[code ->]]| ->]; by eexists _, _.
Qed.

(** *** A pool of handlers *)

Lemma winners_insert sid ghost i g g' :
  ghost !! i = Some g → g ≠ (sid, true) →
  winners sid (<[i := g']> ghost)
  = (winners sid ghost + if decide (g' = (sid, true)) then 1 else 0)%nat.
Proof.
  unfold winners. revert i. induction ghost as [|h ghost IH]; intros i Hi Hg; [done|].
  destruct i as [|i]; cbn in Hi.
  - simplify_eq. change (<[0%nat:=g']> (g :: ghost)) with (g' :: ghost).
    rewrite !filter_cons, (decide_False (P := g = _)) by done.
    destruct (decide (g' = _)); cbn [length]; lia.
  - change (<[Datatypes.S i:=g']> (h :: ghost)) with (h :: <[i:=g']> ghost).
    rewrite !filter_cons. specialize (IH i Hi Hg).
    destruct (decide (h = _)); cbn [length]; lia.
Qed.

Lemma transitions_history sid w sched (st : World * list (Task World Reply)) :
  transitions sid (w :: history sched st)
  = ((if decide (status_of w sid ≠ Some CLAIMED ∧ status_of st.1 sid = Some CLAIMED)
      then 1 else 0) + transitions sid (history sched st))%nat.
Proof. by destruct sched. Qed.

Section Pool.
Variable refused : Reply → Prop.
Hypothesis refused_is_error : ∀ r, refused r → ∃ status code, r = Error status code.
Local Abbreviation phase_ok := (Notions.phase_ok refused).
Local Abbreviation pool_inv := (Notions.pool_inv refused).

(** One command of one handler of the pool. *)
Lemma step_pool_inv sid i w pool :
  pool_inv sid w pool →
  let st' := step_pool i (w, pool) in
  pool_inv sid st'.1 st'.2
  ∧ (same_statuses w st'.1 ∨ ∃ id, claims id w st'.1).
Proof.
  intros (ghost & Hall & Hle & Hone). unfold step_pool. cbn [fst snd].
  destruct (pool !! i) as [t|] eqn:Hi.
  2:{ split; [by exists ghost|by left]. }
  destruct (Forall2_lookup_r _ _ _ _ _ Hall Hi) as (g & Hg & Hok).
  destruct t as [r|X op k]; cbn [step].
  { rewrite list_insert_id by done. split; [by exists ghost|by left]. }
  destruct (op w) as [x w'] eqn:Hop. cbn [fst snd].
  destruct g as [id [|]]; unfold Notions.phase_ok in Hok; cbn [fst snd] in Hok.
  - destruct (Hok w) as [Hsame Hk]. rewrite Hop in Hsame, Hk. cbn [fst snd] in *.
    split; [|by left]. exists ghost. split; [|split; [done|]].
    + rewrite <-(list_insert_id ghost i (id, true)) by done.
      by apply Forall2_insert.
    + intros H1. rewrite Hsame. by apply Hone.
  - destruct (Hok w) as [[Hsame Hk]|[Hclaims Hk]]; rewrite Hop in *; cbn [fst snd] in *.
    + split; [|by left]. exists ghost. split; [|split; [done|]].
      * rewrite <-(list_insert_id ghost i (id, false)) by done.
        by apply Forall2_insert.
      * intros H1. rewrite Hsame. by apply Hone.
    + split; [|right; by exists id].
      exists (<[i := (id, true)]> ghost). split; [by apply Forall2_insert|].
      rewrite (winners_insert sid ghost i (id, false)) by done.
      destruct Hclaims as (Hbefore & Hafter & Hothers).
      destruct (decide ((id, true) = (sid, true))) as [Heq|Hne].
      * simplify_eq.
        assert (winners sid ghost = 0%nat) as ->.
        { destruct (decide (winners sid ghost = 1%nat)) as [H1|]; [|lia].
          apply Hone in H1. congruence. }
        split; [lia|done].
      * rewrite Nat.add_0_r. split; [done|]. intros H1.
        rewrite Hothers; [by apply Hone|]. intros ->. done.
Qed.

Lemma exec_pool_inv sid sched w pool :
  pool_inv sid w pool →
  pool_inv sid (exec sched (w, pool)).1 (exec sched (w, pool)).2.
Proof.
  revert w pool. induction sched as [|i sched IH]; intros w pool Hinv; [done|].
  unfold exec. cbn [foldl].
  destruct (step_pool_inv sid i w pool Hinv) as [Hinv' _].
  destruct (step_pool i (w, pool)) as [w' pool']. by apply IH.
Qed.

Lemma history_transitions sid sched w pool :
  pool_inv sid w pool →
  (transitions sid (history sched (w, pool)) ≤ 1)%nat
  ∧ (status_of w sid = Some CLAIMED →
     transitions sid (history sched (w, pool)) = 0%nat).
Proof.
  revert w pool. induction sched as [|i sched IH]; intros w pool Hinv.
  { cbn. split; [lia|done]. }
  cbn [history fst]. rewrite (transitions_history sid w).
  destruct (step_pool_inv sid i w pool Hinv) as [Hinv' Hstep].
  destruct (step_pool i (w, pool)) as [w' pool']. cbn [fst snd] in *.
  destruct (IH w' pool' Hinv') as [Hle Hzero].
  destruct Hstep as [Hsame|(id & Hbefore & Hafter & Hothers)].
  - rewrite decide_False by (intros [H1 H2]; rewrite Hsame in H2; done).
    split; [lia|]. intros Hc. rewrite Hzero; [done|]. by rewrite Hsame.
  - destruct (decide (id = sid)) as [->|Hne].
    + rewrite decide_True by (split; congruence). rewrite Hzero by done.
      split; [lia|congruence].
    + rewrite decide_False by (intros [H1 H2]; rewrite Hothers in H2; done).
      split; [lia|]. intros Hc. rewrite Hzero; [done|]. by rewrite Hothers.
Qed.

Lemma pool_inv_initial sid w (ids : list ObjectId) pool :
  Forall2 (claiming refused) ids pool → pool_inv sid w pool.
Proof.
  intros Hall. exists ((fun id => (id, false)) <$> ids).
  assert (Hzero : winners sid ((fun id => (id, false)) <$> ids) = 0%nat).
  { unfold winners. clear. induction ids as [|id ids IH]; [done|].
    cbn [fmap list_fmap]. rewrite filter_cons.
    destruct (decide _) as [Heq|_]; [done|apply IH]. }
  rewrite Hzero. split; [|split; [lia|done]]. clear Hzero.
  induction Hall as [|id t ids pool Hc Hall IH]; cbn [fmap list_fmap];
    [by apply Forall2_nil|by apply Forall2_cons].
Qed.

Lemma phase_ok_answer g r :
  phase_ok g (Ret r) →
  if g.2 then ∃ user rank, r = ClaimReply g.1 user rank else refused r.
Proof. unfold Notions.phase_ok. by destruct g as [id [|]]. Qed.

Lemma claims_answered_le_winners sid ghost pool :
  Forall2 phase_ok ghost pool →
  (length (filter (fun r => is_claim_of sid r = true) (answers pool))
   ≤ winners sid ghost)%nat.
Proof.
  unfold winners, answers. induction 1 as [|g t ghost pool Hok Hall IH]; [done|].
  cbn [omap list_omap]. destruct t as [r|X op k]; cbn [finished].
  2:{ rewrite (filter_cons _ g). destruct (decide _); cbn [length]; lia. }
  apply phase_ok_answer in Hok. rewrite !filter_cons.
  destruct (decide (is_claim_of sid r = true)) as [Hr|Hr];
    [|destruct (decide _); cbn; lia].
  destruct g as [id [|]]; cbn [fst snd] in Hok.
  - destruct Hok as (user & rank & ->). cbn in Hr. apply bool_decide_eq_true in Hr as ->.
    rewrite decide_True by done. cbn [length]. lia.
  - apply refused_is_error in Hok as (status & code & ->). done.
Qed.

Lemma answers_classified ghost pool r :
  Forall2 phase_ok ghost pool → r ∈ answers pool → claimed_reply r ∨ refused r.
Proof.
  unfold answers. induction 1 as [|g t ghost pool Hok Hall IH]; cbn [omap list_omap].
  { intros Hin. by apply elem_of_nil in Hin. }
  destruct t as [r'|X op k]; cbn [finished]; [|done].
  intros [->|Hin]%elem_of_cons; [|by apply IH].
  apply phase_ok_answer in Hok. destruct g as [id [|]]; cbn [fst snd] in Hok.
  - left. destruct Hok as (user & rank & ->). by exists id, user, rank.
  - by right.
Qed.

(** Any interleaving of a pool of handlers none of which has claimed
    yet. *)
Lemma pool_one_winner sid sched w (ids : list ObjectId) pool :
  Forall2 (claiming refused) ids pool →
  (transitions sid (history sched (w, pool)) ≤ 1)%nat
  ∧ (length (filter (fun r => is_claim_of sid r = true)
               (answers (exec sched (w, pool)).2)) ≤ 1)%nat
  ∧ (∀ r, r ∈ answers (exec sched (w, pool)).2 → claimed_reply r ∨ refused r).
Proof.
  intros Hinv%(pool_inv_initial sid w).
  split; [by apply history_transitions|].
  apply (exec_pool_inv sid sched) in Hinv as (ghost & Hall & Hle & _).
  split; [|intros r; by apply (answers_classified ghost)].
  etrans; [by apply claims_answered_le_winners|done].
Qed.
End Pool.

(** *** Concurrent calls of the verify route *)

(** C1 (amended): a call that reaches the conditional update claims the
    agent exactly when the agent is a wallet agent, UNCLAIMED, whose
    source wallet is the caller's, and is answered [ALREADY_CLAIMED], no
    status being changed, otherwise; a call changes the status of an
    agent to CLAIMED in no other way; in every interleaving of any
    number of calls of the verify route, an agent becomes CLAIMED at
    most once, at most one call is answered with the claim of the
    agent, and every other answer is [ALREADY_CLAIMED] or a refusal
    made before the conditional update; and in every interleaving of
    calls that have all reached the conditional update on the agent,
    every call but the one that claims it is answered
    [ALREADY_CLAIMED]. *)
Theorem concurrent_claims_one_winner
    (calls : list Call) (sched : list nat) (w : World) (sid : ObjectId) :
  (∀ env wallet agentId signature nonce w0 id,
     reaches_gate nacl env wallet agentId signature nonce w0 id →
     let '(reply, w') := run (verifyClaim nacl env wallet agentId signature nonce) w0 in
     if claimable w0 id (to_string wallet)
     then (∃ user rank, reply = ClaimReply id user rank)
          ∧ status_of w0 id = Some UNCLAIMED ∧ status_of w' id = Some CLAIMED
     else reply = conflict ∧ same_statuses w0 w')
  ∧ (∀ env wallet agentId signature nonce w0,
       let '(reply, w') := run (verifyClaim nacl env wallet agentId signature nonce) w0 in
       status_of w0 sid ≠ Some CLAIMED → status_of w' sid = Some CLAIMED →
       reaches_gate nacl env wallet agentId signature nonce w0 sid
       ∧ claimable w0 sid (to_string wallet) = true
       ∧ ∃ user rank, reply = ClaimReply sid user rank)
  ∧ ((transitions sid (history sched (w, handle <$> calls)) ≤ 1)%nat
     ∧ (length (filter (fun r => is_claim_of sid r = true)
                  (answers (exec sched (w, handle <$> calls)).2)) ≤ 1)%nat
     ∧ (∀ r, r ∈ answers (exec sched (w, handle <$> calls)).2 →
          claimed_reply r ∨ r = conflict ∨ turned_away r))
  ∧ ((transitions sid (history sched (w, at_gate sid <$> calls)) ≤ 1)%nat
     ∧ (length (filter (fun r => is_claim_of sid r = true)
                  (answers (exec sched (w, at_gate sid <$> calls)).2)) ≤ 1)%nat
     ∧ others_conflict (exec sched (w, at_gate sid <$> calls)).2).
Proof.
  assert (Hgate : ∀ env wallet agentId signature nonce w0 id,
            reaches_gate nacl env wallet agentId signature nonce w0 id →
            let '(reply, w') := run (verifyClaim nacl env wallet agentId signature nonce) w0 in
            if claimable w0 id (to_string wallet)
            then (∃ user rank, reply = ClaimReply id user rank)
                 ∧ status_of w0 id = Some UNCLAIMED ∧ status_of w' id = Some CLAIMED
                 ∧ ∀ id', id' ≠ id → status_of w' id' = status_of w0 id'
            else reply = conflict ∧ same_statuses w0 w').
  { intros env wallet agentId signature nonce w0 id Hreach.
    destruct (verifyClaim_cases nacl env wallet agentId signature nonce w0)
      as [(id' & Hreach' & ->)|Hrej].
    - assert (id' = id) as -> by (destruct Hreach, Hreach'; congruence).
      pose proof (claim_gate_run env (to_string wallet)
                    (claim_nonce_key (to_string agentId) (to_string wallet))
                    id signature nonce w0) as Hg.
      destruct (claimable w0 id (to_string wallet)).
      + destruct Hg as (user & rank & w' & -> & _ & _ & ? & ? & ?).
        split; [by exists user, rank|done].
      + rewrite Hg. split; [done|]. by apply same_db_statuses.
    - destruct (run _ w0) as [reply w']. destruct Hrej as (_ & Hno & _).
      by destruct (Hno id). }
  split; [|split; [|split]].
  - intros env wallet agentId signature nonce w0 id Hreach.
    specialize (Hgate env wallet agentId signature nonce w0 id Hreach).
    destruct (run _ w0) as [reply w'].
    destruct (claimable w0 id (to_string wallet)); [|done].
    by destruct Hgate as (? & ? & ? & _).
  - intros env wallet agentId signature nonce w0.
    destruct (verifyClaim_cases nacl env wallet agentId signature nonce w0)
      as [(id & Hreach & Hrun)|Hrej].
    + specialize (Hgate env wallet agentId signature nonce w0 id Hreach).
      destruct (run (verifyClaim nacl env wallet agentId signature nonce) w0)
        as [reply w'].
      intros Hbefore Hafter.
      destruct (claimable w0 id (to_string wallet)) eqn:Hc.
      * destruct Hgate as (Hreply & _ & _ & Hothers).
        destruct (decide (sid = id)) as [->|Hne]; [done|].
        rewrite Hothers in Hafter by done. done.
      * destruct Hgate as [_ Hsame]. rewrite Hsame in Hafter. done.
    + destruct (run (verifyClaim nacl env wallet agentId signature nonce) w0)
        as [reply w'].
      destruct Hrej as (_ & _ & Hagents & _). intros Hbefore Hafter.
      unfold status_of in *. rewrite Hagents in Hafter. done.
  - destruct (pool_one_winner any_refusal any_refusal_is_error sid sched w
                ((fun c => target (call_agentId c)) <$> calls) (handle <$> calls))
      as (Ht & Hc & Ha).
    { clear. induction calls as [|c calls IH]; cbn [fmap list_fmap]; constructor; [|done].
      apply verifyClaim_route_claiming. }
    split; [done|]. split; [done|]. intros r Hr.
    destruct (Ha r Hr) as [?|[?|?]]; auto.
  - apply (pool_one_winner only_conflict) with (ids := (fun _ => sid) <$> calls).
    { intros r ->. by eexists _, _. }
    clear. induction calls as [|c calls IH]; cbn [fmap list_fmap]; constructor; [|done].
    apply claim_gate_claiming.
Qed.

End ConcurrentClaims.

(* ===================================================================== *)
(** ** The properties at the sample data *)
(* ===================================================================== *)

Section ClaimExamples.
Import SolanaSignature Store Commands Async ClaimRateLimit ClaimRoutes Notions Sample.

(** The claim of the sample agent, sent at instant 2000, reaches the
    conditional update. *)
Lemma sample_reaches_gate :
  reaches_gate zero_signatures (env 2000) wallet agentId good_signature
    (JsString the_nonce) world_with_nonce agent_id.
Proof.
  split;
    [ repeat split; reflexivity
    | vm_compute; reflexivity
    | vm_compute; reflexivity
    | reflexivity
    | reflexivity
    | eexists; split; [vm_compute; reflexivity|]; split; [reflexivity|];
      vm_compute; reflexivity ].
Defined.

(** Alone, it claims the agent, as the first claim of the database. *)
Lemma sample_claim_run :
  run (verifyClaim zero_signatures (env 2000) wallet agentId good_signature
         (JsString the_nonce)) world_with_nonce
  = (ClaimReply agent_id 1000%N (Some 1%N), claimed_world).
Proof. vm_compute. reflexivity. Defined.

(** C1, as stated, fails: of two calls in flight for the agent, with
    its outstanding nonce and a signature that verifies, the one that
    looks the nonce up after the other has claimed the agent and
    deleted the nonce is answered [NONCE_EXPIRED], not
    [ALREADY_CLAIMED]. *)
Lemma concurrent_claim_answered_nonce_expired :
  answers (exec late_schedule
             (world_with_nonce, handle zero_signatures <$> [claim_call; claim_call])).2
  = [ClaimReply agent_id 1000%N (Some 1%N); Error 400 "NONCE_EXPIRED"]
  ∧ ¬ others_conflict
        (exec late_schedule
           (world_with_nonce, handle zero_signatures <$> [claim_call; claim_call])).2.
Proof.
  assert (Hanswers :
    answers (exec late_schedule
               (world_with_nonce, handle zero_signatures <$> [claim_call; claim_call])).2
    = [ClaimReply agent_id 1000%N (Some 1%N); Error 400 "NONCE_EXPIRED"])
    by (vm_compute; reflexivity).
  split; [exact Hanswers|]. intros Hall.
  destruct (Hall (Error 400 "NONCE_EXPIRED")) as [(id & user & rank & Hr)|Hr];
    [|discriminate Hr|discriminate Hr].
  rewrite Hanswers. apply list_elem_of_further, list_elem_of_here.
Qed.

(** C1 at the sample data: the claim reaches the conditional update on
    an agent it can claim, and claims it; with two such calls in flight
    the agent becomes CLAIMED at most once. *)
Lemma concurrent_claims_one_winner_witness :
  reaches_gate zero_signatures (env 2000) wallet agentId good_signature
    (JsString the_nonce) world_with_nonce agent_id
  ∧ claimable world_with_nonce agent_id (to_string wallet) = true
  ∧ ((∃ user rank,
        (run (verifyClaim zero_signatures (env 2000) wallet agentId good_signature
                (JsString the_nonce)) world_with_nonce).1
        = ClaimReply agent_id user rank)
     ∧ status_of world_with_nonce agent_id = Some UNCLAIMED
     ∧ status_of claimed_world agent_id = Some CLAIMED)
  ∧ (transitions agent_id
       (history late_schedule
          (world_with_nonce, handle zero_signatures <$> [claim_call; claim_call]))
     ≤ 1)%nat
  ∧ others_conflict
      (exec late_schedule
         (world_with_nonce, at_gate agent_id <$> [claim_call; claim_call])).2.
Proof.
  destruct (concurrent_claims_one_winner zero_signatures [claim_call; claim_call]
              late_schedule world_with_nonce agent_id)
    as (Hgate & _ & (Hone & _) & (_ & _ & Hothers)).
  specialize (Hgate (env 2000) wallet agentId good_signature (JsString the_nonce)
                world_with_nonce agent_id sample_reaches_gate).
  assert (Hclaimable : claimable world_with_nonce agent_id (to_string wallet) = true)
    by (vm_compute; reflexivity).
  rewrite sample_claim_run, Hclaimable in Hgate.
  split; [exact sample_reaches_gate|]. split; [exact Hclaimable|].
  split; [|split; [exact Hone|exact Hothers]].
  rewrite sample_claim_run. exact Hgate.
Defined.

(** C2 at the sample data: the claim made again at instant 3000 is
    answered [NONCE_EXPIRED], and [NONCE_MISMATCH] where the wallet has
    been given another nonce. *)
Lemma verifyClaim_nonce_single_use_witness :
  run (verifyClaim zero_signatures (env 2000) wallet agentId good_signature
         (JsString the_nonce)) world_with_nonce
  = (ClaimReply agent_id 1000%N (Some 1%N), claimed_world)
  ∧ redis claimed_world !! claim_nonce_key (to_string agentId) (to_string wallet) = None
  ∧ (run (verifyClaim zero_signatures (env 3000) wallet agentId good_signature
            (JsString the_nonce)) claimed_world).1
    = Error 400 "NONCE_EXPIRED"
  ∧ (run (verifyClaim zero_signatures (env 3000) wallet agentId good_signature
            (JsString the_nonce)) reissued_world).1
    = Error 400 "NONCE_MISMATCH".
Proof.
  destruct (verifyClaim_nonce_single_use zero_signatures (env 2000) wallet agentId
              good_signature (JsString the_nonce) world_with_nonce claimed_world
              agent_id 1000%N (Some 1%N) sample_claim_run)
    as (Hgone & Hexpired & Hmismatch).
  split; [exact sample_claim_run|]. split; [exact Hgone|]. split.
  - apply Hexpired; reflexivity.
  - apply (Hmismatch (env 3000) reissued_world other_record);
      [reflexivity|reflexivity|vm_compute; reflexivity|discriminate].
Defined.

(** C10 at the sample data: a signature that does not verify leaves the
    nonce where it is, and the claim made again at instant 3000 with a
    signature that verifies claims the agent. *)
Lemma verifyClaim_bad_signature_keeps_nonce_witness :
  run (verifyClaim zero_signatures (env 2000) wallet agentId bad_signature
         (JsString the_nonce)) world_with_nonce
  = (Error 403 "INVALID_SIGNATURE", world_after_bad_signature)
  ∧ redis world_after_bad_signature !! claim_nonce_key (to_string agentId) (to_string wallet)
    = redis world_with_nonce !! claim_nonce_key (to_string agentId) (to_string wallet)
  ∧ claimed_reply
      (run (verifyClaim zero_signatures (env 3000) wallet agentId good_signature
              (JsString the_nonce)) world_after_bad_signature).1.
Proof.
  assert (Hrun :
    run (verifyClaim zero_signatures (env 2000) wallet agentId bad_signature
           (JsString the_nonce)) world_with_nonce
    = (Error 403 "INVALID_SIGNATURE", world_after_bad_signature))
    by (vm_compute; reflexivity).
  pose proof (verifyClaim_bad_signature_keeps_nonce zero_signatures (env 2000) wallet
                agentId bad_signature (JsString the_nonce) world_with_nonce) as Hkeep.
  cbv zeta in Hkeep. rewrite Hrun in Hkeep.
  destruct Hkeep as (Hkeep & _ & _).
  destruct (Hkeep eq_refl) as (Hnonce & _ & Hretry).
  split; [exact Hrun|]. split; [exact Hnonce|].
  destruct sample_reaches_gate as [_ _ Hid _ _ (stored & Hstored & Hsame & Hverified)].
  apply (Hretry (env 3000) good_signature agent_id stored);
    [reflexivity|reflexivity|exact Hid|exact Hstored|exact Hsame|reflexivity
    |exact Hverified|vm_compute; reflexivity].
Defined.

(** C3 at the sample data: the wallet opts out, an agent is created for
    it again, and the wallet is still answered [OPTED_OUT]. *)
Lemma opt_out_is_permanent_witness :
  run (optOut_route zero_signatures (env 2000) wallet good_signature (JsString the_nonce))
    world_with_agent_optout_nonce
  = (OptOutReply (to_string wallet) 2000, opted_out_world)
  ∧ is_Some (Agent (db (foldl (happen zero_signatures) opted_out_world
                          subject_created_again))
             !! agent_id)
  ∧ (run (check (env 4000) wallet)
       (foldl (happen zero_signatures) opted_out_world subject_created_again)).1
    = CheckReply false (Some "OPTED_OUT") None None.
Proof.
  assert (Hrun :
    run (optOut_route zero_signatures (env 2000) wallet good_signature
           (JsString the_nonce)) world_with_agent_optout_nonce
    = (OptOutReply (to_string wallet) 2000, opted_out_world))
    by (vm_compute; reflexivity).
  split; [exact Hrun|]. split.
  - exists (agent UNCLAIMED). vm_compute. reflexivity.
  - apply (opt_out_is_permanent zero_signatures (env 2000) wallet good_signature
             (JsString the_nonce) world_with_agent_optout_nonce opted_out_world
             (to_string wallet) 2000 subject_created_again (env 4000) Hrun).
    reflexivity.
Defined.

(** C8 at the sample data: Redis down, Redis throwing, and a wallet
    with five failures. *)
Lemma detectClaimAbuse_fails_open_witness :
  run (detectClaimAbuse env_redis_down wallet) empty_world = (None, empty_world)
  ∧ (run (detectClaimAbuse env_redis_throwing wallet) empty_world).1 = None
  ∧ (run (detectClaimAbuse (env 1000) wallet) world_with_failures).1
    = Some (Error 429 "ABUSE_WALLET_BLOCKED")
  ∧ ∃ failures, failure_count (env 1000) wallet world_with_failures = Some failures
                ∧ 5 ≤ failures.
Proof.
  split; [|split; [|split]].
  - destruct (detectClaimAbuse_fails_open env_redis_down wallet empty_world)
      as (Hdown & _).
    apply Hdown. discriminate.
  - destruct (detectClaimAbuse_fails_open env_redis_throwing wallet empty_world)
      as (_ & Hincr & _).
    apply Hincr. reflexivity.
  - vm_compute. reflexivity.
  - destruct (detectClaimAbuse_fails_open (env 1000) wallet world_with_failures)
      as (_ & _ & _ & _ & Hblocked).
    destruct (Hblocked (Error 429 "ABUSE_WALLET_BLOCKED"))
      as (_ & [(Hip & _)|(_ & _ & Hfailures)]);
      [vm_compute; reflexivity|discriminate Hip|exact Hfailures].
Defined.

End ClaimExamples.

Section ClaimNotificationsExamples.
Import Store Commands ClaimNotifications Notions Sample.

(** C6, as stated, fails: when 72 other agents, each owed its seven
    notifications, come before it, the run has made its 500 sends
    before it reaches the agent of day 29, and sends nothing for it. *)
Lemma processNotifications_final_day_not_reached :
  Agent (db crowded_world_day_29) !! Sample.agent_id = Some (Sample.agent UNCLAIMED)
  ∧ days_since day_29 (Sample.agent UNCLAIMED) = 29
  ∧ getSentNotifications crowded_world_day_29 Sample.agent_id = EARLIER_TEMPLATES
  ∧ sent (processNotifications always_confirmed Sample.short_date false day_29
            crowded_world_day_29).1.1 = MAX_SENDS_PER_HOUR
  ∧ dispatched_for Sample.agent_id
      (processNotifications always_confirmed Sample.short_date false day_29
         crowded_world_day_29).1.2
    = [].
Proof. vm_compute. repeat split. Qed.


End ClaimNotificationsExamples.

(* ===================================================================== *)
(** * Further properties of the code *)
(* ===================================================================== *)

Section Base58Facts.
Import SolanaSignature Notions Behaviour.
Local Open Scope N_scope.

Lemma size_nat_bound (n : N) : n < 2 ^ N.of_nat (N.size_nat n).
Proof.
  destruct n as [|p]; [reflexivity|]. cbn [N.size_nat].
  induction p as [p IH|p IH|]; cbn [Pos.size_nat];
    rewrite ?Nat2N.inj_succ, ?N.pow_succ_r'; lia.
Qed.

Lemma digits_fuel_acc (fuel : nat) (b n : N) (acc : list N) :
  digits_fuel fuel b n acc = digits_fuel fuel b n [] ++ acc.
Proof.
  revert n acc. induction fuel as [|fuel IH]; intros n acc; [reflexivity|].
  cbn [digits_fuel]. destruct (n =? 0); [reflexivity|].
  rewrite (IH _ (_ :: acc)), (IH _ [_]), <-app_assoc. reflexivity.
Qed.

Lemma digits_fuel_enough (b : N) (fuel fuel' : nat) (n : N) :
  2 ≤ b → n < 2 ^ N.of_nat fuel → n < 2 ^ N.of_nat fuel' →
  digits_fuel fuel b n [] = digits_fuel fuel' b n [].
Proof.
  intros Hb. revert fuel' n.
  induction fuel as [|fuel IH]; intros fuel' n Hn Hn'.
  - cbn in Hn. assert (n = 0) as -> by lia. by destruct fuel'.
  - cbn [digits_fuel]. destruct (N.eqb_spec n 0) as [->|Hne]; [by destruct fuel'|].
    destruct fuel' as [|fuel']; [cbn in Hn'; lia|].
    cbn [digits_fuel]. destruct (N.eqb_spec n 0) as [|_]; [done|].
    rewrite (digits_fuel_acc fuel), (digits_fuel_acc fuel'). f_equal.
    rewrite Nat2N.inj_succ, N.pow_succ_r' in Hn, Hn'.
    assert (n / b ≤ n / 2) by (apply N.div_le_compat_l; lia).
    assert (n / 2 < 2 ^ N.of_nat fuel) by (apply N.Div0.div_lt_upper_bound; lia).
    assert (n / 2 < 2 ^ N.of_nat fuel') by (apply N.Div0.div_lt_upper_bound; lia).
    apply IH; lia.
Qed.

Lemma digits_0 (b : N) : digits b 0 = [].
Proof. reflexivity. Qed.

(** The digits of a number: those of its quotient, then its remainder. *)
Lemma digits_step (b n : N) :
  2 ≤ b → n ≠ 0 → digits b n = digits b (n / b) ++ [n mod b].
Proof.
  intros Hb Hn. unfold digits.
  pose proof (size_nat_bound n) as Hsize.
  destruct (N.size_nat n) as [|fuel] eqn:Hfuel; [cbn in Hsize; lia|].
  cbn [digits_fuel]. destruct (N.eqb_spec n 0) as [|_]; [done|].
  rewrite digits_fuel_acc. f_equal.
  rewrite Nat2N.inj_succ, N.pow_succ_r' in Hsize by lia.
  assert (n / b ≤ n / 2) by (apply N.div_le_compat_l; lia).
  assert (n / 2 < 2 ^ N.of_nat fuel) by (apply N.Div0.div_lt_upper_bound; lia).
  apply digits_fuel_enough; [done|lia|apply size_nat_bound].
Qed.

Lemma of_digits_snoc (b : N) (l : list N) (d : N) :
  of_digits b (l ++ [d]) = of_digits b l * b + d.
Proof. unfold of_digits. by rewrite foldl_snoc. Qed.

Lemma of_digits_foldl (b a : N) (l : list N) :
  foldl (fun acc d => acc * b + d) a l = a * b ^ N.of_nat (length l) + of_digits b l.
Proof.
  revert a. induction l as [|d l IH] using rev_ind; intros a.
  - cbn. lia.
  - rewrite foldl_snoc, IH, of_digits_snoc, length_app. cbn [length].
    rewrite Nat.add_1_r, Nat2N.inj_succ, N.pow_succ_r'. lia.
Qed.

Lemma of_digits_cons (b d : N) (l : list N) :
  of_digits b (d :: l) = d * b ^ N.of_nat (length l) + of_digits b l.
Proof. unfold of_digits at 1. cbn [foldl]. rewrite of_digits_foldl. lia. Qed.

Lemma of_digits_zeros (b : N) (k : nat) (l : list N) :
  of_digits b (replicate k 0 ++ l) = of_digits b l.
Proof.
  induction k as [|k IH]; [reflexivity|].
  cbn [replicate app]. rewrite of_digits_cons, IH. lia.
Qed.

Lemma of_digits_digits (b n : N) : 2 ≤ b → of_digits b (digits b n) = n.
Proof.
  intros Hb. induction n as [n IH] using (well_founded_induction N.lt_wf_0).
  destruct (N.eq_dec n 0) as [->|Hn]; [reflexivity|].
  rewrite digits_step by done. rewrite of_digits_snoc, IH.
  - rewrite N.mul_comm. symmetry. apply N.Div0.div_mod.
  - apply N.div_lt; lia.
Qed.

Lemma digits_canonical (b n : N) : 2 ≤ b → canonical_digits b (digits b n).
Proof.
  intros Hb. induction n as [n IH] using (well_founded_induction N.lt_wf_0).
  destruct (N.eq_dec n 0) as [->|Hn]; [split; [constructor|done]|].
  rewrite digits_step by done.
  destruct (IH (n / b)) as [Hall Hhead]; [apply N.div_lt; lia|].
  split.
  - apply Forall_app. split; [done|]. apply Forall_singleton, N.mod_lt. lia.
  - destruct (digits b (n / b)) as [|d l] eqn:Hd; [|done].
    cbn. intros [= Hmod].
    assert (n / b = 0) as Hq by (rewrite <-(of_digits_digits b (n / b)), Hd by done; done).
    pose proof (N.Div0.div_mod n b). lia.
Qed.

Lemma of_digits_nonzero (b : N) (l : list N) :
  2 ≤ b → canonical_digits b l → l ≠ [] → of_digits b l ≠ 0.
Proof.
  intros Hb [_ Hhead] Hl. destruct l as [|d l]; [done|].
  rewrite of_digits_cons. cbn in Hhead.
  assert (d ≠ 0) by congruence.
  assert (0 < b ^ N.of_nat (length l)) by (apply N.neq_0_lt_0, N.pow_nonzero; lia).
  nia.
Qed.

Lemma digits_of_digits (b : N) (l : list N) :
  2 ≤ b → canonical_digits b l → digits b (of_digits b l) = l.
Proof.
  intros Hb. induction l as [|d l IH] using rev_ind; intros Hcan; [reflexivity|].
  assert (canonical_digits b l ∧ d < b) as [Hl Hd].
  { destruct Hcan as [Hall Hhead]. apply Forall_app in Hall as [Hall Hd].
    rewrite Forall_singleton in Hd. split; [split; [done|destruct l; [done|exact Hhead]]|].
    exact Hd. }
  pose proof (of_digits_nonzero b (l ++ [d]) Hb Hcan) as Hnz.
  rewrite digits_step by (done || apply Hnz; by destruct l).
  rewrite of_digits_snoc.
  replace ((of_digits b l * b + d) / b) with (of_digits b l)
    by (apply N.div_unique with d; lia).
  replace ((of_digits b l * b + d) mod b) with d
    by (apply N.mod_unique with (of_digits b l); lia).
  by rewrite IH.
Qed.

(** The number of digits of a number. *)
Lemma digits_length_le (b : N) (m : nat) (n : N) :
  2 ≤ b → n < b ^ N.of_nat m → (length (digits b n) ≤ m)%nat.
Proof.
  intros Hb. revert n. induction m as [|m IH]; intros n Hn.
  - cbn in Hn. assert (n = 0) as -> by lia. cbn. lia.
  - destruct (N.eq_dec n 0) as [->|Hnz]; [cbn; lia|].
    rewrite digits_step, length_app by done. cbn [length].
    rewrite Nat2N.inj_succ, N.pow_succ_r' in Hn.
    assert (n / b < b ^ N.of_nat m) by (apply N.Div0.div_lt_upper_bound; lia).
    specialize (IH _ H). lia.
Qed.

Lemma digits_length_gt (b : N) (m : nat) (n : N) :
  2 ≤ b → b ^ N.of_nat m ≤ n → (m < length (digits b n))%nat.
Proof.
  intros Hb. revert n. induction m as [|m IH]; intros n Hn.
  - cbn in Hn. rewrite digits_step, length_app by lia. cbn. lia.
  - assert (0 < b ^ N.of_nat (S m)) by (apply N.neq_0_lt_0, N.pow_nonzero; lia).
    rewrite digits_step, length_app by lia. cbn [length].
    rewrite Nat2N.inj_succ, N.pow_succ_r' in Hn.
    assert (b ^ N.of_nat m ≤ n / b) by (apply N.div_le_lower_bound; lia).
    specialize (IH _ H0). lia.
Qed.

Lemma index_of_lookup (c : ascii) (l : list ascii) (i : N) :
  index_of c l = Some i → l !! N.to_nat i = Some c.
Proof.
  revert i. induction l as [|d l IH]; intros i; [done|].
  cbn [index_of]. destruct (Ascii.eqb_spec c d) as [->|Hne].
  - by intros [= <-].
  - destruct (index_of c l) as [j|]; [|done]. cbn. intros [= <-].
    rewrite N2Nat.inj_succ. cbn. by apply IH.
Qed.

Lemma lookup_index_of (l : list ascii) (i : nat) (c : ascii) :
  NoDup l → l !! i = Some c → index_of c l = Some (N.of_nat i).
Proof.
  revert i. induction l as [|d l IH]; intros i Hnd Hi; [done|].
  apply NoDup_cons in Hnd as [Hd Hnd]. cbn [index_of].
  destruct i as [|i]; cbn in Hi.
  - injection Hi as ->. by rewrite Ascii.eqb_refl.
  - destruct (Ascii.eqb_spec c d) as [->|Hne].
    + exfalso. apply Hd. by eapply list_elem_of_lookup_2.
    + rewrite (IH i) by done. cbn. by rewrite Nat2N.inj_succ.
Qed.

Lemma alphabet_NoDup : NoDup (chars BASE58_ALPHABET).
Proof. apply (bool_decide_unpack _). vm_compute. exact I. Qed.

Lemma base58_digit_lt (c : ascii) (d : N) : base58_digit c = Some d → d < 58.
Proof.
  intros Hd%index_of_lookup%lookup_lt_Some.
  change (length (chars BASE58_ALPHABET)) with 58%nat in Hd. lia.
Qed.

(** The character class of the regular expression is the alphabet. *)
Lemma base58_class_alphabet (c : ascii) :
  base58_class c = true ↔ is_Some (base58_digit c).
Proof.
  destruct c as [[] [] [] [] [] [] [] []]; vm_compute;
    (split; [intros _; eexists; reflexivity|reflexivity])
    || (split; [discriminate|intros [? [=]]]).
Qed.

Lemma leading_split (l : list N) :
  ∃ l', l = replicate (leading (N.eqb 0) l) 0 ++ l' ∧ head l' ≠ Some 0.
Proof.
  induction l as [|x l (l' & Hl & Hhead)]; [by exists []|].
  cbn [leading]. destruct (N.eqb_spec 0 x) as [<-|Hx].
  - exists l'. split; [|done]. cbn. by rewrite <-Hl.
  - exists (x :: l). split; [done|]. cbn. congruence.
Qed.

Lemma leading_replicate (k : nat) (l : list N) :
  head l ≠ Some 0 → leading (N.eqb 0) (replicate k 0 ++ l) = k.
Proof.
  intros Hhead. induction k as [|k IH]; cbn; [|by rewrite IH].
  destruct l as [|x l]; [done|]. cbn in *.
  by destruct x.
Qed.

(** The characters of the digits of an encoding. *)
Lemma encode_digits (ds : list N) :
  Forall (fun d => d < 58) ds →
  ∃ cs, omap (fun d => chars BASE58_ALPHABET !! N.to_nat d) ds = cs
        ∧ mapM base58_digit cs = Some ds.
Proof.
  induction ds as [|d ds IH]; intros Hall; [by exists []|].
  apply Forall_cons in Hall as [Hd Hall]. destruct (IH Hall) as (cs & Hcs & Hback).
  destruct (lookup_lt_is_Some_2 (chars BASE58_ALPHABET) (N.to_nat d)) as [c Hc].
  { change (length (chars BASE58_ALPHABET)) with 58%nat. lia. }
  exists (c :: cs). split.
  { pose (f := fun d => chars BASE58_ALPHABET !! N.to_nat d).
    change (f d = Some c) in Hc. change (omap f ds = cs) in Hcs.
    change (omap f (d :: ds) = c :: cs). clearbody f. cbn. by rewrite Hc, Hcs. }
  rewrite mapM_Some. apply mapM_Some in Hback. constructor; [|done].
  unfold base58_digit. rewrite (lookup_index_of _ _ _ alphabet_NoDup Hc).
  by rewrite N2Nat.id.
Qed.

Lemma decode_digits (cs : list ascii) (ds : list N) :
  mapM base58_digit cs = Some ds →
  Forall (fun d => d < 58) ds
  ∧ omap (fun d => chars BASE58_ALPHABET !! N.to_nat d) ds = cs.
Proof.
  rewrite mapM_Some. induction 1 as [|c d cs ds Hd _ [IH1 IH2]]; [done|].
  split; [constructor; [by eapply base58_digit_lt|done]|].
  apply index_of_lookup in Hd.
  pose (f := fun d => chars BASE58_ALPHABET !! N.to_nat d).
  change (f d = Some c) in Hd. change (omap f ds = cs) in IH2.
  change (omap f (d :: ds) = c :: cs). clearbody f. cbn. by rewrite Hd, IH2.
Qed.

Lemma mapM_ones (k : nat) (cs : list ascii) (ds : list N) :
  mapM base58_digit cs = Some ds →
  mapM base58_digit (replicate k "1"%char ++ cs) = Some (replicate k 0 ++ ds).
Proof.
  rewrite !mapM_Some. intros Hcs.
  apply Forall2_app; [|done]. apply Forall2_replicate. reflexivity.
Qed.

Lemma omap_zeros (k : nat) (ds : list N) :
  omap (fun d => chars BASE58_ALPHABET !! N.to_nat d) (replicate k 0 ++ ds)
  = replicate k "1"%char
    ++ omap (fun d => chars BASE58_ALPHABET !! N.to_nat d) ds.
Proof.
  pose (f := fun d => chars BASE58_ALPHABET !! N.to_nat d).
  assert (f 0 = Some "1"%char) as Hone by reflexivity.
  change (omap f (replicate k 0 ++ ds) = replicate k "1"%char ++ omap f ds).
  clearbody f. induction k as [|k IH]; [done|]. cbn. by rewrite Hone, IH.
Qed.

(** [bs58.decode] inverts [bs58.encode]. *)
Lemma bs58_decode_encode (bytes : list N) :
  Forall (fun x => x < 256) bytes → bs58_decode (bs58_encode bytes) = Some bytes.
Proof.
  intros Hbytes. unfold bs58_decode, bs58_encode, chars at 1.
  rewrite String.list_ascii_of_string_of_list_ascii.
  destruct (leading_split bytes) as (rest & Hsplit & Hhead).
  set (k := leading (N.eqb 0) bytes) in *.
  assert (canonical_digits 256 rest) as Hrest.
  { split; [|done]. rewrite Hsplit in Hbytes. by apply Forall_app in Hbytes as [_ ?]. }
  assert (of_digits 256 bytes = of_digits 256 rest) as ->
    by (rewrite Hsplit at 1; apply of_digits_zeros).
  destruct (digits_canonical 58 (of_digits 256 rest)) as [Hall Hcan]; [lia|].
  destruct (encode_digits _ Hall) as (cs & Hchars & Hback). rewrite Hchars.
  rewrite (mapM_ones k _ _ Hback). cbn.
  rewrite leading_replicate, of_digits_zeros, of_digits_digits by (done || lia).
  rewrite digits_of_digits by (done || lia). by rewrite <-Hsplit.
Qed.

(** [bs58.encode] inverts [bs58.decode], which gives bytes. *)
Lemma bs58_encode_decode (s : string) (bytes : list N) :
  bs58_decode s = Some bytes →
  bs58_encode bytes = s ∧ Forall (fun x => x < 256) bytes.
Proof.
  unfold bs58_decode, bs58_encode. intros Hdec.
  destruct (mapM base58_digit (chars s)) as [ds|] eqn:Hds; [|done].
  cbn in Hdec. injection Hdec as <-.
  destruct (decode_digits _ _ Hds) as [Hall Hcs].
  destruct (leading_split ds) as (rest & Hsplit & Hhead).
  set (k := leading (N.eqb 0) ds) in *.
  assert (canonical_digits 58 rest) as Hrest.
  { split; [|done]. rewrite Hsplit in Hall. by apply Forall_app in Hall as [_ ?]. }
  assert (of_digits 58 ds = of_digits 58 rest) as ->
    by (rewrite Hsplit at 1; apply of_digits_zeros).
  destruct (digits_canonical 256 (of_digits 58 rest)) as [Hbytes Hcan]; [lia|].
  split.
  - rewrite leading_replicate, of_digits_zeros, of_digits_digits by (done || lia).
    rewrite digits_of_digits by (done || lia).
    rewrite <-omap_zeros, <-Hsplit, Hcs.
    apply String.string_of_list_ascii_of_string.
  - apply Forall_app. split; [|done]. apply Forall_replicate. lia.
Qed.

End Base58Facts.

Section AddressFacts.
Import SolanaSignature Notions Behaviour.

Lemma length_chars (s : string) : String.length s = length (chars s).
Proof. induction s as [|c s IH]; [done|]. cbn. by rewrite IH. Qed.

Lemma chars_bs58_encode (bytes : list N) :
  chars (bs58_encode bytes)
  = replicate (leading (N.eqb 0) bytes) "1"%char
    ++ omap (fun d => chars BASE58_ALPHABET !! N.to_nat d)
            (digits 58 (of_digits 256 bytes)).
Proof. apply String.list_ascii_of_string_of_list_ascii. Qed.

Lemma of_digits_lt (b : N) (l : list N) :
  Forall (fun d => d < b)%N l → (of_digits b l < b ^ N.of_nat (length l))%N.
Proof.
  induction l as [|d l IH] using rev_ind; intros Hall; [cbn; lia|].
  apply Forall_app in Hall as [Hall Hd]. rewrite Forall_singleton in Hd.
  rewrite of_digits_snoc, length_app. cbn [length].
  rewrite Nat.add_1_r, Nat2N.inj_succ, N.pow_succ_r'. specialize (IH Hall). nia.
Qed.

Lemma of_digits_ge (b d : N) (l : list N) :
  (d ≠ 0 → b ^ N.of_nat (length l) ≤ of_digits b (d :: l))%N.
Proof. intros Hd. rewrite of_digits_cons. nia. Qed.

Lemma key_room (m : nat) : (m ≤ 32)%nat → (256 ^ N.of_nat m ≤ 58 ^ N.of_nat (m + 12))%N.
Proof.
  intros Hm.
  assert (Forall (fun m => 256 ^ N.of_nat m ≤ 58 ^ N.of_nat (m + 12))%N (seq 0 33)) as Hall.
  { apply (bool_decide_unpack _). vm_compute. exact I. }
  rewrite Forall_forall in Hall. apply Hall, elem_of_seq. lia.
Qed.

(** The base-58 form of a key of 32 bytes has 32 to 44 characters of the
    alphabet. *)
Lemma bs58_encode_key (key : list N) :
  bytes_of_length 32 key →
  address_regex (bs58_encode key) = true.
Proof.
  intros [Hlen Hbytes]. unfold address_regex.
  rewrite length_chars, chars_bs58_encode.
  destruct (leading_split key) as (rest & Hsplit & Hhead).
  set (k := leading (N.eqb 0) key) in *.
  assert (Forall (fun x => x < 256)%N rest) as Hrest
    by (rewrite Hsplit in Hbytes; by apply Forall_app in Hbytes as [_ ?]).
  assert (length rest = (32 - k)%nat ∧ (k ≤ 32)%nat) as [Hrlen Hk].
  { rewrite Hsplit, length_app, length_replicate in Hlen. lia. }
  assert (of_digits 256 key = of_digits 256 rest) as ->
    by (rewrite Hsplit at 1; apply of_digits_zeros).
  set (n := of_digits 256 rest).
  destruct (digits_canonical 58 n) as [Hall _]; [lia|].
  destruct (encode_digits _ Hall) as (cs & Hchars & Hback). rewrite Hchars.
  assert (length cs = length (digits 58 n)) as Hcs
    by (apply mapM_Some in Hback; by eapply Forall2_length).
  rewrite length_app, length_replicate, Hcs.
  assert (length (digits 58 n) ≤ 44 - k)%nat as Hup.
  { apply digits_length_le; [lia|].
    pose proof (of_digits_lt 256 rest Hrest) as Hn. rewrite Hrlen in Hn.
    pose proof (key_room (32 - k) ltac:(lia)) as Hroom.
    replace (32 - k + 12)%nat with (44 - k)%nat in Hroom by lia. fold n in Hn. lia. }
  assert (32 - k ≤ length (digits 58 n))%nat as Hlo.
  { destruct rest as [|d rest]; [cbn in Hrlen; lia|].
    cbn [length] in Hrlen. cbn in Hhead.
    assert (d ≠ 0)%N as Hd by congruence.
    pose proof (of_digits_ge 256 d rest Hd) as Hn. fold n in Hn.
    assert (58 ^ N.of_nat (length rest) ≤ 256 ^ N.of_nat (length rest))%N
      by (apply N.pow_le_mono_l; lia).
    assert (length rest < length (digits 58 n))%nat
      by (apply digits_length_gt; lia).
    lia. }
  rewrite !andb_true_iff, !Nat.leb_le. split; [lia|].
  apply forallb_forall. intros c Hc%list_elem_of_In.
  apply base58_class_alphabet.
  apply elem_of_app in Hc as [Hc|Hc].
  - apply elem_of_replicate in Hc as [-> _]. by eexists.
  - apply mapM_Some in Hback.
    apply list_elem_of_lookup in Hc as [i Hi].
    destruct (Forall2_lookup_l _ _ _ i c Hback Hi) as (d & _ & Hd).
    by eexists.
Qed.

Lemma bs58_decode_bytes (s : string) (n : nat) (bytes : list N) :
  bs58_decode s = Some bytes → length bytes = n →
  bytes_of_length n bytes ∧ s = bs58_encode bytes.
Proof.
  intros Hdec Hlen. destruct (bs58_encode_decode s bytes Hdec) as [Henc Hbytes].
  by repeat split.
Qed.

(** X1: the addresses [isValidSolanaAddress] accepts, with the key
    constructor of @solana/web3.js over bs58, are exactly the base-58
    forms of the keys of 32 bytes: every key has a valid address, and
    the comparison of the address with the key printed back rejects
    nothing that the length test of the constructor lets through. *)
Theorem isValidAddress_keys (address : JsValue) :
  isValidAddress address = true
  ↔ ∃ key, bytes_of_length 32 key ∧ address = JsString (bs58_encode key).
Proof.
  unfold isValidAddress, isValidSolanaAddress, PublicKey_of_string, PublicKey_toBase58.
  split.
  - destruct address as [| | | |s|]; try discriminate.
    destruct (String.eqb s ""); [discriminate|].
    destruct (address_regex s); [|discriminate]. cbn [negb].
    destruct (bs58_decode s) as [key|] eqn:Hdec; [|discriminate]. cbn.
    case_decide as Hlen; [|discriminate]. intros _.
    destruct (bs58_decode_bytes s 32 key Hdec Hlen) as [Hkey ->]. by exists key.
  - intros (key & Hkey & ->).
    pose proof (bs58_encode_key key Hkey) as Hregex. rewrite Hregex. cbn [negb].
    destruct Hkey as [Hlen Hbytes].
    rewrite (bs58_decode_encode key Hbytes). cbn.
    rewrite decide_True by done. rewrite String.eqb_refl.
    destruct (String.eqb_spec (bs58_encode key) "") as [Hempty|]; [|done].
    apply address_regex_sound in Hregex as [Hlo _]. rewrite Hempty in Hlo. cbn in Hlo. lia.
Qed.

(** X2: [verifySolanaSignature] accepts exactly a wallet that is the
    base-58 form of a key of 32 bytes and a signature that is a string,
    the base-58 form of 64 bytes, which tweetnacl accepts for the bytes
    of the message under the key; anything else is [false], with no
    exception. *)
Theorem verifySolanaSignature_accepts
    (nacl : list ascii → list N → list N → bool)
    (walletAddress message : string) (signature : JsValue) :
  verifySolanaSignature nacl walletAddress message signature = true
  ↔ ∃ key sig,
      bytes_of_length 32 key ∧ bytes_of_length 64 sig
      ∧ walletAddress = bs58_encode key
      ∧ signature = JsString (bs58_encode sig)
      ∧ nacl (chars message) sig key = true.
Proof.
  unfold verifySolanaSignature. split.
  - destruct (bs58_decode walletAddress) as [key|] eqn:Hkey; [|discriminate].
    destruct signature as [| | | |s|]; try discriminate.
    destruct (bs58_decode s) as [sig|] eqn:Hsig; [|discriminate].
    destruct (Nat.eqb_spec (length key) 32) as [Hklen|]; [|discriminate].
    destruct (Nat.eqb_spec (length sig) 64) as [Hslen|]; [|discriminate].
    cbn [negb]. intros Hnacl.
    destruct (bs58_decode_bytes _ _ _ Hkey Hklen) as [? ->].
    destruct (bs58_decode_bytes _ _ _ Hsig Hslen) as [? ->].
    by exists key, sig.
  - intros (key & sig & [Hklen Hkey] & [Hslen Hsig] & -> & -> & Hnacl).
    rewrite (bs58_decode_encode key Hkey), (bs58_decode_encode sig Hsig).
    by rewrite Hklen, Hslen.
Qed.

End AddressFacts.

Section MessageFacts.
Import SolanaSignature Notions Behaviour.

Lemma chars_app (s t : string) : chars (s +:+ t) = chars s ++ chars t.
Proof.
  unfold chars. induction s as [|c s IH]; [done|].
  change (String c s +:+ t) with (String c (s +:+ t)). cbn. by rewrite IH.
Qed.

Lemma chars_inj (s t : string) : chars s = chars t → s = t.
Proof.
  intros H. rewrite <-(String.string_of_list_ascii_of_string s),
    <-(String.string_of_list_ascii_of_string t). unfold chars in H. by rewrite H.
Qed.

(** Two texts cut at the first occurrence of a character. *)
Lemma app_cut {A} (x : A) (l1 l2 r1 r2 : list A) :
  x ∉ l1 → x ∉ l2 → l1 ++ x :: r1 = l2 ++ x :: r2 → l1 = l2 ∧ r1 = r2.
Proof.
  revert l2. induction l1 as [|a l1 IH]; intros [|b l2] H1 H2 Heq; cbn in Heq.
  - by injection Heq.
  - injection Heq as <- _. exfalso. apply H2. left.
  - injection Heq as -> _. exfalso. apply H1. left.
  - injection Heq as <- Heq. apply not_elem_of_cons in H1 as [_ H1].
    apply not_elem_of_cons in H2 as [_ H2].
    destruct (IH l2 H1 H2 Heq) as [-> ->]. done.
Qed.

Lemma claim_message_chars (agentId walletAddress nonce timestamp : string) :
  chars (generateClaimMessage agentId walletAddress nonce timestamp)
  = chars "Claim OpenClaw Agent #" ++ chars agentId
    ++ " "%char :: chars "for wallet " ++ chars walletAddress
    ++ ascii_of_nat 10 :: ascii_of_nat 10 :: chars "Nonce: " ++ chars nonce
    ++ ascii_of_nat 10 :: chars "Timestamp: " ++ chars timestamp
    ++ ascii_of_nat 10 :: chars "Domain: klik.cool".
Proof.
  unfold generateClaimMessage, join_lines. cbn [foldl].
  rewrite !chars_app. unfold LF. cbn [chars String.list_ascii_of_string].
  rewrite <-!app_assoc. reflexivity.
Qed.

(** X3: the message a wallet signs to claim an agent names one claim
    only: two claim messages are equal only when they are made from the
    same agent id, wallet, nonce and timestamp, for agent ids that hold
    no space and wallets and nonces that hold no line feed (as the
    hexadecimal ids and nonces and the base-58 addresses of the routes);
    and no claim message is an opt-out message. *)
Theorem generateClaimMessage_binds
    (agentId walletAddress nonce timestamp agentId' walletAddress' nonce' timestamp' : string) :
  " "%char ∉ chars agentId → " "%char ∉ chars agentId' →
  ascii_of_nat 10 ∉ chars walletAddress → ascii_of_nat 10 ∉ chars walletAddress' →
  ascii_of_nat 10 ∉ chars nonce → ascii_of_nat 10 ∉ chars nonce' →
  (generateClaimMessage agentId walletAddress nonce timestamp
   = generateClaimMessage agentId' walletAddress' nonce' timestamp' →
   agentId = agentId' ∧ walletAddress = walletAddress'
   ∧ nonce = nonce' ∧ timestamp = timestamp')
  ∧ generateClaimMessage agentId walletAddress nonce timestamp
    ≠ generateOptOutMessage walletAddress' nonce' timestamp'.
Proof.
  intros Ha Ha' Hw Hw' Hn Hn'. split.
  - intros Heq%(f_equal chars). rewrite !claim_message_chars in Heq.
    apply app_inv_head in Heq.
    apply app_cut in Heq as [Hagent Heq]; [|done|done].
    apply app_inv_head in Heq.
    apply app_cut in Heq as [Hwallet Heq]; [|done|done].
    injection Heq as Heq.
    apply app_cut in Heq as [Hnonce Heq]; [|done|done].
    injection Heq as Heq.
    apply (app_inv_tail (ascii_of_nat 10 :: chars "Domain: klik.cool")) in Heq.
    by rewrite (chars_inj _ _ Hagent), (chars_inj _ _ Hwallet),
      (chars_inj _ _ Hnonce), (chars_inj _ _ Heq).
  - intros Heq%(f_equal chars). rewrite claim_message_chars in Heq.
    unfold generateOptOutMessage, join_lines in Heq. cbn [foldl] in Heq.
    rewrite !chars_app in Heq. cbn in Heq. discriminate Heq.
Qed.

(** X3 at the sample data: the messages of two nonces differ. *)
Lemma generateClaimMessage_binds_witness :
  generateClaimMessage "6612f1a2b3c4d5e6f7890abc"
    "GaTjJs756Urcsjs7ia8HYm3eiBNbBAHFAS7fLsSNVxus" "5f2a" "2026-02-06T12:00:00.000Z"
  ≠ generateClaimMessage "6612f1a2b3c4d5e6f7890abc"
      "GaTjJs756Urcsjs7ia8HYm3eiBNbBAHFAS7fLsSNVxus" "9c1d" "2026-02-06T12:00:00.000Z"
  ∧ generateClaimMessage "6612f1a2b3c4d5e6f7890abc"
      "GaTjJs756Urcsjs7ia8HYm3eiBNbBAHFAS7fLsSNVxus" "5f2a" "2026-02-06T12:00:00.000Z"
    ≠ generateOptOutMessage "GaTjJs756Urcsjs7ia8HYm3eiBNbBAHFAS7fLsSNVxus" "9c1d"
        "2026-02-06T12:00:00.000Z".
Proof.
  destruct (generateClaimMessage_binds
              "6612f1a2b3c4d5e6f7890abc" "GaTjJs756Urcsjs7ia8HYm3eiBNbBAHFAS7fLsSNVxus"
              "5f2a" "2026-02-06T12:00:00.000Z"
              "6612f1a2b3c4d5e6f7890abc" "GaTjJs756Urcsjs7ia8HYm3eiBNbBAHFAS7fLsSNVxus"
              "9c1d" "2026-02-06T12:00:00.000Z") as [Hsame Hother];
    [apply (bool_decide_unpack _); vm_compute; exact I ..|].
  split; [|exact Hother].
  intros Heq. destruct (Hsame Heq) as (_ & _ & Hnonce & _). discriminate Hnonce.
Defined.

End MessageFacts.

Section AbuseFacts.
Import SolanaSignature Store Commands Async ClaimRateLimit ClaimRoutes Notions Behaviour.

Ltac run_step := rewrite ?run_bind, ?run_await, ?run_ret; cbn [fst snd].
Ltac refute_counted H :=
  repeat (apply elem_of_cons in H as [H|H]; [discriminate H|]);
  by apply elem_of_nil in H.
Ltac early Hrun H :=
  rewrite run_ret in Hrun; injection Hrun as <- <-; refute_counted H.

Lemma failure_count_after_incr env wallet w :
  failure_count env wallet (attempt_incr env (ip_key env) w).2 = failure_count env wallet w.
Proof.
  unfold failure_count, attempt_incr, attempt.
  destruct (redis_broken env _); [done|].
  pose proof (redis_get_after_incr (now env) (wallet_fail_key (to_string wallet))
                (ip_key env) w) as H.
  destruct (redis_incr _ _ w) as [x w']. cbn [snd] in *.
  rewrite H; [done|]. intros Heq. by eapply ip_key_not_wallet_key.
Qed.

Lemma failure_count_after_expire env wallet secs w :
  failure_count env wallet
    (attempt env (EXPIRE (ip_key env)) (redis_expire (now env) (ip_key env) secs) w).2
  = failure_count env wallet w.
Proof.
  unfold failure_count, attempt.
  destruct (redis_broken env _); [done|].
  pose proof (redis_get_after_expire (now env) (wallet_fail_key (to_string wallet))
                (ip_key env) secs w) as H.
  destruct (redis_expire _ _ _ w) as [x w']. cbn [snd] in *.
  rewrite H; [done|]. intros Heq. by eapply ip_key_not_wallet_key.
Qed.

Lemma detectClaimAbuse_decides (env : Env) (wallet : JsValue) (w : World) (ipCount : Z) :
  redis_client env = RedisReady →
  redis_broken env (EXPIRE (ip_key env)) = false →
  redis_broken env (GET (wallet_fail_key (to_string wallet))) = false →
  ip_counter env w = Some ipCount →
  (run (detectClaimAbuse env wallet) w).1
  = if decide (100 < ipCount) then Some (Error 429 "ABUSE_IP_BLOCKED")
    else if truthy wallet
         then match failure_count env wallet w with
              | Some failures =>
                  if decide (5 ≤ failures) then Some (Error 429 "ABUSE_WALLET_BLOCKED")
                  else None
              | None => None
              end
         else None.
Proof.
  intros Hready Hexpire Hget Hip. unfold detectClaimAbuse. rewrite Hready.
  unfold ip_counter in Hip. run_step. rewrite Hip.
  assert ((run (if ipCount =? 1
                then await (attempt env (EXPIRE (ip_key env))
                              (redis_expire (now env) (ip_key env) 3600))
                else mret (Some ())) (attempt_incr env (ip_key env) w).2).1 = Some ()
          ∧ failure_count env wallet
              (run (if ipCount =? 1
                    then await (attempt env (EXPIRE (ip_key env))
                                  (redis_expire (now env) (ip_key env) 3600))
                    else mret (Some ())) (attempt_incr env (ip_key env) w).2).2
            = failure_count env wallet w) as [Hexp Hcount].
  { destruct (ipCount =? 1); run_step.
    - rewrite failure_count_after_expire, failure_count_after_incr.
      unfold attempt. rewrite Hexpire. by destruct (redis_expire _ _ _ _) as [[] ?].
    - by rewrite failure_count_after_incr. }
  run_step. rewrite Hexp. unfold ABUSE_IP_LIMIT.
  destruct (Z.ltb_spec 100 ipCount) as [Hgt|Hle].
  { rewrite decide_True by done. by run_step. }
  rewrite decide_False by lia.
  destruct (truthy wallet); [|by run_step].
  rewrite <-Hcount. clear Hexp Hcount.
  match goal with |- context [failure_count env wallet ?w0] => generalize w0 end.
  intros w1. unfold failure_count. run_step.
  unfold attempt. rewrite Hget.
  destruct (redis_get _ _ _) as [got w']. cbn [fst snd].
  destruct got as [v|]; cbn [mbind option_bind]; [|by run_step].
  unfold ABUSE_WALLET_LIMIT.
  destruct (value_parseInt v) as [failures|]; cbn [from_option]; [|by run_step].
  destruct (Z.leb_spec 5 failures).
  - rewrite decide_True by done. by run_step.
  - rewrite decide_False by lia. by run_step.
Qed.

(** X4: with Redis up and its commands answering, the verdict of
    [detectClaimAbuse] is a function of two counters: the request is
    ended with [ABUSE_IP_BLOCKED] whenever the per-IP counter, this
    request counted, exceeds 100, whatever the wallet; below that, with
    [ABUSE_WALLET_BLOCKED] whenever the request names a wallet with 5
    failures or more; and it goes through otherwise. *)
Theorem detectClaimAbuse_verdict (env : Env) (wallet : JsValue) (w : World) (ipCount : Z) :
  redis_client env = RedisReady →
  redis_broken env (EXPIRE (ip_key env)) = false →
  redis_broken env (GET (wallet_fail_key (to_string wallet))) = false →
  ip_counter env w = Some ipCount →
  (run (detectClaimAbuse env wallet) w).1
  = if decide (100 < ipCount) then Some (Error 429 "ABUSE_IP_BLOCKED")
    else if truthy wallet
         then match failure_count env wallet w with
              | Some failures =>
                  if decide (5 ≤ failures) then Some (Error 429 "ABUSE_WALLET_BLOCKED")
                  else None
              | None => None
              end
         else None.
Proof. apply detectClaimAbuse_decides. Qed.

Lemma redis_incr_live now key e n w :
  redis w !! key = Some e → live now e = true → held e = RCounter n →
  redis_incr now key w
  = (Some (n + 1),
     with_redis <[key := {| held := RCounter (n + 1); expireAt := expireAt e |}]> w).
Proof. intros He Hlive Hheld. unfold redis_incr. by rewrite He, Hlive, Hheld. Qed.

Lemma redis_incr_fresh now key w :
  fresh_key now key w →
  redis_incr now key w
  = (Some 1, with_redis <[key := {| held := RCounter 1; expireAt := None |}]> w).
Proof.
  unfold fresh_key, redis_incr. destruct (redis w !! key) as [e|]; [|done].
  intros Hdead. by rewrite Hdead.
Qed.

Lemma redis_expire_after_set now key v secs w :
  redis_expire now key secs (with_redis <[key := {| held := v; expireAt := None |}]> w)
  = ((), with_redis <[key := {| held := v; expireAt := Some (now + 1000 * secs) |}]> w).
Proof.
  unfold redis_expire. cbn. rewrite lookup_insert_eq. cbn. unfold with_redis. cbn.
  by rewrite insert_insert_eq.
Qed.

Lemma attempt_incr_ok env key w :
  redis_broken env (INCR key) = false →
  attempt_incr env key w = redis_incr (now env) key w.
Proof.
  intros Hok. unfold attempt_incr, attempt. rewrite Hok.
  by destruct (redis_incr _ _ _).
Qed.

(** The world the detector leaves: the counter incremented, and given
    an expiry when it is 1. *)
Lemma detectClaimAbuse_world (env : Env) (wallet : JsValue) (w : World) :
  redis_client env = RedisReady →
  (run (detectClaimAbuse env wallet) w).2
  = match attempt_incr env (ip_key env) w with
    | (Some 1, w1) =>
        (attempt env (EXPIRE (ip_key env)) (redis_expire (now env) (ip_key env) 3600) w1).2
    | (_, w1) => w1
    end.
Proof.
  intros Hready. unfold detectClaimAbuse. rewrite Hready. run_step.
  destruct (attempt_incr env (ip_key env) w) as [[ipCount|] w1]; cbn [fst snd];
    [|by run_step].
  run_step.
  assert (∀ w2, (run (if ABUSE_IP_LIMIT <? ipCount
                      then mret (Some (Error 429 "ABUSE_IP_BLOCKED"))
                      else if truthy wallet
                           then got ← await (attempt env (GET (wallet_fail_key (to_string wallet)))
                                               (redis_get (now env)
                                                  (wallet_fail_key (to_string wallet))));
                                match got with
                                | Some (Some v) =>
                                    if from_option (Z.leb ABUSE_WALLET_LIMIT) false
                                         (value_parseInt v)
                                    then mret (Some (Error 429 "ABUSE_WALLET_BLOCKED"))
                                    else mret None
                                | _ => mret None
                                end
                           else mret None) w2).2 = w2) as Hrest.
  { intros w2. destruct (_ <? _); [by run_step|]. destruct (truthy wallet); [|by run_step].
    run_step. unfold attempt, redis_get.
    destruct (redis_broken env _); cbn [fst snd]; [by run_step|].
    destruct (redis w2 !! _ ≫= _) as [v|]; [|by run_step].
    destruct (from_option _ _ _); by run_step. }
  destruct (Z.eqb_spec ipCount 1) as [->|Hne].
  - run_step. destruct (attempt env _ _ w1) as [[[]|] w2]; cbn [fst snd]; [|by run_step].
    apply Hrest.
  - run_step. rewrite Hrest. destruct ipCount as [|[]|]; try done.
Qed.

(** X5: the window of the per-IP counter.  The first request of an
    address (no counter, or an expired one) starts a counter at 1 that
    expires an hour later; each later request adds one and leaves the
    expiry where it is, so that the window is not extended by the
    requests it counts, those it blocks included.  When the [EXPIRE]
    of the first request throws, the counter is left with no expiry,
    and no later request gives it one: from 100 on, every request of
    the address is blocked, at any later instant. *)
Theorem detectClaimAbuse_window (env : Env) (wallet : JsValue) (w : World) :
  redis_client env = RedisReady →
  redis_broken env (INCR (ip_key env)) = false →
  let w' := (run (detectClaimAbuse env wallet) w).2 in
  (fresh_key (now env) (ip_key env) w →
   redis w' !! ip_key env
   = Some {| held := RCounter 1;
             expireAt := if redis_broken env (EXPIRE (ip_key env)) then None
                         else Some (now env + 3600000) |})
  ∧ (∀ e n, redis w !! ip_key env = Some e → live (now env) e = true →
            held e = RCounter n → 1 ≤ n →
            redis w' !! ip_key env
            = Some {| held := RCounter (n + 1); expireAt := expireAt e |})
  ∧ (∀ n, redis w !! ip_key env = Some {| held := RCounter n; expireAt := None |} →
          100 ≤ n →
          (run (detectClaimAbuse env wallet) w).1 = Some (Error 429 "ABUSE_IP_BLOCKED")
          ∧ redis w' !! ip_key env
            = Some {| held := RCounter (n + 1); expireAt := None |}).
Proof.
  intros Hready Hincr. cbn zeta. rewrite detectClaimAbuse_world by done.
  rewrite attempt_incr_ok by done.
  split; [|split].
  - intros Hfresh. rewrite (redis_incr_fresh _ _ _ Hfresh).
    unfold attempt. destruct (redis_broken env (EXPIRE (ip_key env))); cbn [snd].
    + cbn. by rewrite lookup_insert_eq.
    + rewrite redis_expire_after_set. cbn. by rewrite lookup_insert_eq.
  - intros e n He Hlive Hheld Hn.
    rewrite (redis_incr_live _ _ _ _ _ He Hlive Hheld).
    destruct (n + 1) as [|[]|] eqn:Hn1; try lia; cbn; by rewrite lookup_insert_eq.
  - intros n He Hn.
    split.
    + unfold detectClaimAbuse. rewrite Hready. run_step.
      rewrite attempt_incr_ok by done.
      rewrite (redis_incr_live _ _ _ n _ He) by done. cbn [fst snd].
      run_step. destruct (Z.eqb_spec (n + 1) 1) as [|_]; [lia|]. run_step.
      unfold ABUSE_IP_LIMIT. destruct (Z.ltb_spec 100 (n + 1)); [by run_step|lia].
    + rewrite (redis_incr_live _ _ _ n _ He) by done.
      destruct (n + 1) as [|[]|] eqn:Hn1; try lia; cbn; by rewrite lookup_insert_eq.
Qed.

Section GuardedRoutes.
Variable nacl : list ascii → list N → list N → bool.

(** The world [recordFailedClaimAttempt] leaves. *)
Lemma recordFailedClaimAttempt_world (env : Env) (wallet : JsValue) (w : World) :
  redis_client env = RedisReady → truthy wallet = true →
  (run (recordFailedClaimAttempt env wallet) w).2
  = match attempt_incr env (wallet_fail_key (to_string wallet)) w with
    | (Some 1, w1) =>
        (attempt env (EXPIRE (wallet_fail_key (to_string wallet)))
           (redis_expire (now env) (wallet_fail_key (to_string wallet)) 3600) w1).2
    | (_, w1) => w1
    end.
Proof.
  intros Hready Hwallet. unfold recordFailedClaimAttempt. rewrite Hready, Hwallet.
  run_step. destruct (attempt_incr env _ w) as [[count|] w1]; cbn [fst snd]; [|by run_step].
  destruct count as [|[]|]; by run_step.
Qed.

(** The answers of [verifyClaim] that count as a failure of the
    wallet. *)
Lemma verifyClaim_failure_world env wallet agentId signature nonce w reply w' :
  run (verifyClaim nacl env wallet agentId signature nonce) w = (reply, w') →
  counted_failure reply →
  redis_client env = RedisReady ∧ truthy wallet = true
  ∧ redis w' = redis (run (recordFailedClaimAttempt env wallet) w).2.
Proof.
  unfold verifyClaim, counted_failure. intros Hrun Hreply.
  destruct (truthy wallet) eqn:Hwallet; cbn [negb orb] in Hrun;
    [|early Hrun Hreply].
  destruct (negb (truthy agentId) || negb (truthy signature) || negb (truthy nonce));
    [early Hrun Hreply|].
  destruct (negb (isValidAddress wallet));
    [early Hrun Hreply|].
  destruct (parse_ObjectId agentId) as [id|];
    [|early Hrun Hreply].
  destruct (negb (db_handle env));
    [early Hrun Hreply|].
  destruct (redis_client env) eqn:Hready;
    try (early Hrun Hreply).
  split; [done|]. split; [done|].
  revert Hrun. rewrite run_bind, run_await. unfold redis_get at 1 2. cbn [fst snd].
  destruct (redis w !! _ ≫= _) as [parsed|].
  2:{ rewrite run_bind, run_ret. by intros [= <- <-]. }
  destruct (negb (bool_decide _)).
  { rewrite run_bind, run_ret. by intros [= <- <-]. }
  destruct (negb (verifySolanaSignature _ _ _ _)).
  { rewrite !run_bind, run_await, run_ret. by intros [= <- <-]. }
  intros Hrun.
  pose proof (claim_gate_run env (to_string wallet)
                (claim_nonce_key (to_string agentId) (to_string wallet))
                id signature nonce w) as Hgate.
  destruct (claimable w id (to_string wallet)).
  - destruct Hgate as (user & rank & w'' & Hgate & _). rewrite Hgate in Hrun.
    injection Hrun as <- <-. refute_counted Hreply.
  - rewrite Hgate in Hrun. injection Hrun as <- <-. refute_counted Hreply.
Qed.

Lemma verifyClaim_uncounted_world env wallet agentId signature nonce w reply w' :
  run (verifyClaim nacl env wallet agentId signature nonce) w = (reply, w') →
  ¬ counted_failure reply →
  redis w' !! wallet_fail_key (to_string wallet)
  = redis w !! wallet_fail_key (to_string wallet).
Proof.
  unfold verifyClaim, counted_failure. intros Hrun Hreply.
  destruct (negb (truthy wallet) || negb (truthy agentId)
            || negb (truthy signature) || negb (truthy nonce));
    [rewrite run_ret in Hrun; by injection Hrun as <- <-|].
  destruct (negb (isValidAddress wallet));
    [rewrite run_ret in Hrun; by injection Hrun as <- <-|].
  destruct (parse_ObjectId agentId) as [id|];
    [|rewrite run_ret in Hrun; by injection Hrun as <- <-].
  destruct (negb (db_handle env));
    [rewrite run_ret in Hrun; by injection Hrun as <- <-|].
  destruct (redis_client env) eqn:Hready;
    try (rewrite run_ret in Hrun; by injection Hrun as <- <-).
  revert Hrun. rewrite run_bind, run_await. unfold redis_get at 1 2. cbn [fst snd].
  destruct (redis w !! _ ≫= _) as [parsed|].
  2:{ rewrite run_bind, run_ret. intros [= <- <-]. exfalso. apply Hreply.
      rewrite !elem_of_cons. auto. }
  destruct (negb (bool_decide _)).
  { rewrite run_bind, run_ret. intros [= <- <-]. exfalso. apply Hreply.
    rewrite !elem_of_cons. auto. }
  destruct (negb (verifySolanaSignature _ _ _ _)).
  { rewrite !run_bind, run_await, run_ret. intros [= <- <-]. exfalso. apply Hreply.
    rewrite !elem_of_cons. auto. }
  intros Hrun.
  pose proof (claim_gate_run env (to_string wallet)
                (claim_nonce_key (to_string agentId) (to_string wallet))
                id signature nonce w) as Hgate.
  assert (redis w' = delete (claim_nonce_key (to_string agentId) (to_string wallet))
                       (redis w)) as ->.
  { destruct (claimable w id (to_string wallet)).
    - destruct Hgate as (user & rank & w'' & Hgate & Hredis & _).
      rewrite Hgate in Hrun. by injection Hrun as <- <-.
    - rewrite Hgate in Hrun. by injection Hrun as <- <-. }
  apply lookup_delete_ne. apply wallet_fail_key_not_nonce_key.
Qed.


(** X7: a wallet with 5 failures counted is locked out of the routes
    that the detector guards: with Redis up and the address of the
    client below its own limit, the request is answered
    [ABUSE_WALLET_BLOCKED] before its handler runs, whatever it asks
    and whatever signature it brings, and nothing is written but the
    counter of the address. *)
Theorem wallet_locked_out
    (env : Env) (wallet : JsValue) (handler : Task World Reply) (w : World)
    (ipCount failures : Z) :
  redis_client env = RedisReady →
  redis_broken env (EXPIRE (ip_key env)) = false →
  redis_broken env (GET (wallet_fail_key (to_string wallet))) = false →
  ip_counter env w = Some ipCount → ipCount ≤ 100 →
  truthy wallet = true →
  failure_count env wallet w = Some failures → 5 ≤ failures →
  let '(reply, w') := run (guarded env wallet handler) w in
  reply = Error 429 "ABUSE_WALLET_BLOCKED"
  ∧ db w' = db w
  ∧ ∀ key, key ≠ ip_key env → redis w' !! key = redis w !! key.
Proof.
  intros Hready Hexpire Hget Hip Hle Hwallet Hfail Hfive.
  rewrite guarded_run.
  rewrite (detectClaimAbuse_decides env wallet w ipCount) by done.
  rewrite decide_False by lia. rewrite Hwallet, Hfail, decide_True by done.
  destruct (detectClaimAbuse_frame env wallet w) as (Hdb & _ & Hredis). done.
Qed.

End GuardedRoutes.

End AbuseFacts.

Section CheckFacts.
Import SolanaSignature Store Commands Async ClaimRateLimit ClaimRoutes Notions Behaviour.

Ltac run_step := rewrite ?run_bind, ?run_await, ?run_ret; cbn [fst snd].

Lemma find_opt_out_opted_out wallet w :
  is_Some (find_opt_out wallet w).1 ↔ opted_out w wallet.
Proof.
  unfold find_opt_out, opted_out. cbn [fst]. split.
  - intros [o Ho]. apply head_Some_elem_of, list_elem_of_filter in Ho as [<- Ho].
    by apply list_elem_of_fmap_2.
  - intros (o & -> & Ho)%list_elem_of_fmap.
    destruct (filter _ _) as [|o' l] eqn:Hfilter; [|by eexists].
    assert (o ∈ filter (fun o' => optout_walletAddress o' = optout_walletAddress o)
                  (wallet_opt_outs (db w))) as Hin by (by apply list_elem_of_filter).
    rewrite Hfilter in Hin. by apply elem_of_nil in Hin.
Qed.

Lemma ceil_days_spec (ms : Z) :
  (ceil_days ms - 1) * DAY_MS < ms ≤ ceil_days ms * DAY_MS.
Proof.
  unfold ceil_days, DAY_MS. change (1000 * 60 * 60 * 24) with 86400000.
  pose proof (Z.div_mod (- ms) 86400000 ltac:(lia)).
  pose proof (Z.mod_pos_bound (- ms) 86400000 ltac:(lia)). lia.
Qed.

(** X8: an eligibility check writes nothing but its line of the audit
    log: the agents, the users, the opt-out list, the notifications and
    Redis are as they were, and the log has at most one entry more, of
    action [CHECK]. *)
Theorem check_reads_only (env : Env) (wallet : JsValue) (w : World) :
  let w' := (run (check env wallet) w).2 in
  redis w' = redis w ∧ published w' = published w
  ∧ Agent (db w') = Agent (db w) ∧ User (db w') = User (db w)
  ∧ wallet_opt_outs (db w') = wallet_opt_outs (db w)
  ∧ orphan_watchlist (db w') = orphan_watchlist (db w)
  ∧ wallet_agent_notifications (db w') = wallet_agent_notifications (db w)
  ∧ Post (db w') = Post (db w)
  ∧ (wallet_agent_claims (db w') = wallet_agent_claims (db w)
     ∨ ∃ entry, wallet_agent_claims (db w') = wallet_agent_claims (db w) ++ [entry]
                ∧ log_action entry = "CHECK"
                ∧ log_walletAddress entry = Some (to_string wallet)).
Proof.
  cbn zeta. unfold check.
  destruct (negb (truthy wallet)); [run_step; repeat split; first [done|by left]|].
  destruct (negb (isValidAddress wallet)); [run_step; repeat split; first [done|by left]|].
  destruct (negb (db_handle env)); [run_step; repeat split; first [done|by left]|].
  run_step. change (find_opt_out (to_string wallet) w).2 with w.
  destruct (find_opt_out (to_string wallet) w).1 as [o|].
  { run_step. repeat split; first [done|right; by eexists]. }
  run_step. change (find_agent ?P w).2 with w.
  destruct (find_agent (agent_of_wallet (to_string wallet)) w).1 as [[id a]|].
  - run_step. repeat split; first [done|right; by eexists].
  - run_step. repeat split; first [done|right; by eexists].
Qed.

(** X9: the answer of an eligibility check that reaches the database.
    The wallet is eligible exactly when it has not opted out and the
    agent found for it is UNCLAIMED, or has no claim status, with no
    deadline or a deadline still to come; the days remaining, given for
    an UNCLAIMED agent with a deadline, are the time to the deadline in
    days rounded up, and 0 once it has passed. *)
Theorem check_eligibility (env : Env) (wallet : JsValue) (w : World)
    (eligible : bool) (reason : option string) (agent : option ObjectId)
    (daysRemaining : option Z) :
  (run (check env wallet) w).1 = CheckReply eligible reason agent daysRemaining →
  let address := to_string wallet in
  let found := (find_agent (agent_of_wallet address) w).1 in
  (eligible = true
   ↔ ¬ opted_out w address
     ∧ ∃ id a, found = Some (id, a)
               ∧ default UNCLAIMED (wad_status a) = UNCLAIMED
               ∧ ∀ deadline, wad_deadline a = Some deadline → now env < deadline)
  ∧ (eligible = true → reason = None ∧ agent = fst <$> found)
  ∧ (opted_out w address → reason = Some "OPTED_OUT" ∧ agent = None)
  ∧ (∀ days, daysRemaining = Some days →
       ∃ id a deadline,
         found = Some (id, a) ∧ wad_deadline a = Some deadline
         ∧ default UNCLAIMED (wad_status a) = UNCLAIMED
         ∧ 0 ≤ days
         ∧ (now env < deadline →
            (days - 1) * DAY_MS < deadline - now env ≤ days * DAY_MS)
         ∧ (deadline ≤ now env → days = 0)).
Proof.
  unfold check.
  destruct (negb (truthy wallet)); [by rewrite run_ret|].
  destruct (negb (isValidAddress wallet)); [by rewrite run_ret|].
  destruct (negb (db_handle env)); [by rewrite run_ret|].
  cbn zeta. run_step.
  pose proof (find_opt_out_opted_out (to_string wallet) w) as Hopt.
  change (find_opt_out (to_string wallet) w).2 with w.
  destruct (find_opt_out (to_string wallet) w).1 as [o|].
  { run_step. intros [= <- <- <- <-].
    assert (opted_out w (to_string wallet)) by (apply Hopt; by eexists).
    repeat split; try done. by intros [? _]. }
  assert (¬ opted_out w (to_string wallet)) as Hnot.
  { intros H%Hopt. by destruct H. }
  run_step. change (find_agent ?P w).2 with w.
  destruct (find_agent (agent_of_wallet (to_string wallet)) w).1 as [[id a]|].
  2:{ run_step. intros [= <- <- <- <-]. repeat split; try done.
      by intros (_ & ? & ? & ? & _). }
  run_step. intros [= <- <- <- <-].
  split; [|split; [|split]].
  - rewrite andb_true_iff, bool_decide_eq_true. split.
    + intros [Hst Hdl]. split; [done|]. exists id, a. repeat split; [done|].
      intros deadline Hd. rewrite Hd in Hdl. cbn in Hdl. lia.
    + intros (_ & id' & a' & [= <- <-] & Hst & Hdl). split; [done|].
      destruct (wad_deadline a) as [deadline|]; [|done]. cbn.
      apply Z.ltb_lt. by apply Hdl.
  - intros ->. done.
  - done.
  - intros days Hdays.
    destruct (wad_deadline a) as [deadline|] eqn:Hdeadline; [|done].
    destruct (decide (default UNCLAIMED (wad_status a) = UNCLAIMED)) as [Hst|]; [|done].
    injection Hdays as <-.
    exists id, a, deadline. repeat split; try done.
    all: pose proof (ceil_days_spec (deadline - now env)) as Hceil;
      unfold DAY_MS in *; change (1000 * 60 * 60 * 24) with 86400000 in *;
      intros; lia.
Qed.

End CheckFacts.

Section NonceFacts.
Import SolanaSignature Store Commands Async ClaimRateLimit ClaimRoutes Notions Behaviour.
Variable nacl : list ascii → list N → list N → bool.

Ltac run_step := rewrite ?run_bind, ?run_await, ?run_ret; cbn [fst snd].

(** What a nonce given by [issueClaimNonce] tells. *)
Lemma issueClaimNonce_issued env wallet agentId w nonce message timestamp expiresIn w1 :
  run (issueClaimNonce env wallet agentId) w
  = (NonceReply nonce message timestamp expiresIn, w1) →
  truthy wallet = true ∧ truthy agentId = true ∧ isValidAddress wallet = true
  ∧ db_handle env = true
  ∧ nonce = random_hex env ∧ timestamp = now_iso env ∧ expiresIn = 300
  ∧ message = generateClaimMessage (to_string agentId) (to_string wallet) nonce timestamp
  ∧ w1 = with_redis
           <[claim_nonce_key (to_string agentId) (to_string wallet) :=
               {| held := RNonce {| Store.nonce := nonce; Store.timestamp := timestamp;
                                    Store.message := message |};
                  expireAt := Some (now env + 300000) |}]> w
  ∧ ∃ id a,
      parse_ObjectId agentId = Some id ∧ Agent (db w) !! id = Some a
      ∧ isWalletAgent a = true ∧ wad_wallet a = Some (to_string wallet)
      ∧ default UNCLAIMED (wad_status a) = UNCLAIMED
      ∧ ∀ deadline, wad_deadline a = Some deadline → now env < deadline.
Proof.
  unfold issueClaimNonce.
  destruct (truthy wallet); cbn [negb orb]; [|by rewrite run_ret].
  destruct (truthy agentId); cbn [negb orb]; [|by rewrite run_ret].
  destruct (isValidAddress wallet); cbn [negb]; [|by rewrite run_ret].
  destruct (parse_ObjectId agentId) as [id|]; [|by rewrite run_ret].
  destruct (db_handle env); cbn [negb]; [|by rewrite run_ret].
  run_step. change (find_agent ?P w).2 with w.
  destruct (find_agent _ w).1 as [[i a]|] eqn:Hfind; [|by rewrite run_ret].
  unfold find_agent in Hfind. cbn [fst] in Hfind.
  apply head_Some_elem_of, list_elem_of_filter in Hfind as [Hfilter Hin].
  cbn [fst snd] in Hfilter. apply elem_of_map_to_list in Hin.
  apply andb_true_iff in Hfilter as [[Hi Hw]%andb_true_iff Ha].
  apply bool_decide_eq_true in Hi as ->. apply bool_decide_eq_true in Ha.
  case_bool_decide as Hst; cbn [negb]; [|by rewrite run_ret].
  destruct (from_option (λ deadline, deadline <=? now env) false (wad_deadline a)) eqn:Hdl;
    [by rewrite run_ret|].
  destruct (redis_client env); try by rewrite run_ret.
  run_step. unfold redis_set_ex. cbn [fst snd]. intros [= <- <- <- <- <-].
  repeat split; try done. exists id, a. repeat split; try done.
  intros deadline Hd. rewrite Hd in Hdl. cbn in Hdl. lia.
Qed.

Lemma truthy_nonce (nonce : string) : nonce ≠ "" → truthy (JsString nonce) = true.
Proof. intros Hne. cbn. by destruct (String.eqb_spec nonce ""). Qed.

(** X10: a claim nonce lives for 300 seconds.  Once [issueClaimNonce]
    has answered with a nonce and the message to sign, a verify call
    with that nonce and a signature of the message that verifies
    claims the agent when it is made less than 300 seconds after the
    nonce was given, and is answered [NONCE_EXPIRED] from then on.  An
    agent that has no claim status is given a nonce as an UNCLAIMED one
    is, and the verify call is then answered [ALREADY_CLAIMED]. *)
Theorem claim_nonce_lifetime
    (env env' : Env) (wallet agentId signature : JsValue) (w w1 : World)
    (nonce message timestamp : string) (expiresIn : Z) (id : ObjectId) :
  run (issueClaimNonce env wallet agentId) w
  = (NonceReply nonce message timestamp expiresIn, w1) →
  parse_ObjectId agentId = Some id →
  nonce ≠ "" → truthy signature = true →
  verifySolanaSignature nacl (to_string wallet) message signature = true →
  db_handle env' = true → redis_client env' = RedisReady →
  let reply := (run (verifyClaim nacl env' wallet agentId signature (JsString nonce)) w1).1 in
  expiresIn = 300
  ∧ (now env' < now env + 300000 →
     (status_of w id = Some UNCLAIMED → claimed_reply reply)
     ∧ (status_of w id = None → reply = conflict))
  ∧ (now env + 300000 ≤ now env' → reply = Error 400 "NONCE_EXPIRED").
Proof.
  intros Hissue Hid Hnonce Hsig Hverify Hdb Hredis. cbn zeta.
  destruct (issueClaimNonce_issued _ _ _ _ _ _ _ _ _ Hissue)
    as (Hw & Ha & Hvalid & _ & _ & _ & -> & _ & -> & id' & a & Hid' & Hagent
        & Hwallet & Hsource & Hstatus & _).
  assert (id' = id) as -> by congruence.
  split; [done|].
  set (key := claim_nonce_key (to_string agentId) (to_string wallet)).
  set (record := {| Store.nonce := nonce; Store.timestamp := timestamp;
                    Store.message := message |}).
  set (w1 := with_redis <[key := {| held := RNonce record;
                                    expireAt := Some (now env + 300000) |}]> w).
  assert (Hget : (redis_get (now env') key w1).1
                 = if now env' <? now env + 300000 then Some (RNonce record) else None).
  { unfold redis_get, w1. cbn. rewrite lookup_insert_eq. cbn. unfold live. cbn.
    by destruct (_ <? _). }
  split.
  - intros Hlive. apply Z.ltb_lt in Hlive. rewrite Hlive in Hget.
    assert (Hreach : reaches_gate nacl env' wallet agentId signature (JsString nonce) w1 id).
    { split; try done.
      - repeat split; try done. by apply truthy_nonce.
      - exists record. by repeat split. }
    destruct (verifyClaim_cases nacl env' wallet agentId signature (JsString nonce) w1)
      as [(id' & [_ _ Hid2 _ _ _] & Hrun)|Hrej].
    2:{ destruct (run _ w1) as [r w2]. destruct Hrej as (_ & Hno & _). by destruct (Hno id). }
    assert (id' = id) as -> by congruence.
    fold key in Hrun. rewrite Hrun. clear Hrun.
    pose proof (claim_gate_run env' (to_string wallet) key id signature (JsString nonce) w1)
      as Hgate.
    assert (Hc : claimable w1 id (to_string wallet)
                 = bool_decide (wad_status a = Some UNCLAIMED)).
    { unfold claimable. change (Agent (db w1)) with (Agent (db w)). rewrite Hagent.
      cbn [from_option]. unfold claimable_by. rewrite Hwallet, Hsource.
      rewrite bool_decide_true by done. by rewrite andb_true_r. }
    assert (Hs : status_of w id = wad_status a) by (unfold status_of; by rewrite Hagent).
    rewrite Hc in Hgate. rewrite Hs.
    split; intros Hst; rewrite Hst in Hgate.
    + rewrite bool_decide_true in Hgate by done.
      destruct Hgate as (user & rank & w2 & -> & _). by exists id, user, rank.
    + rewrite bool_decide_false in Hgate by done. by rewrite Hgate.
  - intros Hdead. apply Z.ltb_ge in Hdead. rewrite Hdead in Hget.
    unfold verifyClaim. rewrite Hw, Ha, Hsig, truthy_nonce, Hvalid, Hid, Hdb, Hredis by done.
    cbn [negb orb]. run_step. fold key. rewrite Hget. by run_step.
Qed.

(** X11: asking for a nonce again replaces the one given before.  When
    [issueClaimNonce] has answered twice for the same wallet and agent
    with different nonces, a verify call that brings the first nonce,
    made while the second one lives, is answered [NONCE_MISMATCH]
    whatever its signature; it changes no document and leaves the
    second nonce in place. *)
Theorem claim_nonce_reissued
    (env1 env2 env' : Env) (wallet agentId signature : JsValue) (w w1 w2 : World)
    (nonce1 message1 timestamp1 nonce2 message2 timestamp2 : string)
    (expiresIn1 expiresIn2 : Z) :
  run (issueClaimNonce env1 wallet agentId) w
  = (NonceReply nonce1 message1 timestamp1 expiresIn1, w1) →
  run (issueClaimNonce env2 wallet agentId) w1
  = (NonceReply nonce2 message2 timestamp2 expiresIn2, w2) →
  nonce1 ≠ nonce2 → nonce1 ≠ "" → truthy signature = true →
  db_handle env' = true → redis_client env' = RedisReady →
  now env' < now env2 + 300000 →
  let key := claim_nonce_key (to_string agentId) (to_string wallet) in
  let '(reply, w') := run (verifyClaim nacl env' wallet agentId signature (JsString nonce1)) w2 in
  reply = Error 400 "NONCE_MISMATCH"
  ∧ db w' = db w2
  ∧ redis w' !! key = redis w2 !! key
  ∧ (redis_get (now env') key w').1
    = Some (RNonce {| Store.nonce := nonce2; Store.timestamp := timestamp2;
                      Store.message := message2 |}).
Proof.
  intros _ Hissue Hne Hnonce Hsig Hdb Hredis Hlive. cbn zeta.
  destruct (issueClaimNonce_issued _ _ _ _ _ _ _ _ _ Hissue)
    as (Hw & Ha & Hvalid & _ & _ & _ & _ & _ & -> & id & _ & Hid & _).
  set (key := claim_nonce_key (to_string agentId) (to_string wallet)).
  set (record := {| Store.nonce := nonce2; Store.timestamp := timestamp2;
                    Store.message := message2 |}).
  set (w2 := with_redis <[key := {| held := RNonce record;
                                    expireAt := Some (now env2 + 300000) |}]> w1).
  assert (Hget : ∀ w', redis w' !! key = redis w2 !! key →
                       (redis_get (now env') key w').1 = Some (RNonce record)).
  { intros w' Hsame. unfold redis_get. cbn [fst]. rewrite Hsame. unfold w2. cbn.
    rewrite lookup_insert_eq. cbn. unfold live. cbn.
    apply Z.ltb_lt in Hlive. by rewrite Hlive. }
  unfold verifyClaim. rewrite Hw, Ha, Hsig, truthy_nonce, Hvalid, Hid, Hdb, Hredis by done.
  cbn [negb orb]. run_step. fold key. rewrite (Hget w2) by done.
  change (redis_get (now env') key w2).2 with w2. cbn [parsed_nonce fmap option_fmap option_map].
  rewrite bool_decide_false by (unfold record; cbn; congruence). cbn [negb]. run_step.
  destruct (recordFailedClaimAttempt_frame env' wallet w2) as (Hd & _ & Hr).
  cbn zeta in Hd, Hr.
  assert (Hkey : redis (run (recordFailedClaimAttempt env' wallet) w2).2 !! key
                 = redis w2 !! key) by apply Hr, wallet_fail_key_not_nonce_key.
  repeat split; try done. by apply Hget.
Qed.

End NonceFacts.

Section ClaimEffects.
Import SolanaSignature Store Commands Async ClaimRateLimit ClaimRoutes Notions Behaviour.
Variable nacl : list ascii → list N → list N → bool.

Ltac run_step := rewrite ?run_bind, ?run_await, ?run_ret; cbn [fst snd].

Lemma length_filter_map_to_list {A} (P : ObjectId * A → Prop) `{!∀ p, Decision (P p)}
    (m : gmap ObjectId A) :
  length (filter P (map_to_list m)) = size (filter P m).
Proof.
  rewrite <- length_map_to_list, map_filter_alt. symmetry.
  apply Permutation_length, map_to_list_to_map.
  apply (sublist_NoDup _ ((map_to_list m).*1)); [apply NoDup_fst_map_to_list|].
  apply fmap_sublist, sublist_filter.
Qed.

(** The count query of the founding rank, run after the agent [id] has
    been claimed, counts the agents that were claimed before. *)
Lemma count_other_claimed (id : ObjectId) (a : AgentDoc) (w w' : World) :
  Agent (db w) !! id = Some a → wad_status a = Some UNCLAIMED →
  (∀ i, i ≠ id → Agent (db w') !! i = Agent (db w) !! i) →
  (count_agents (fun i a => isWalletAgent a && bool_decide (wad_status a = Some CLAIMED)
                            && bool_decide (i ≠ id)) w').1
  = claimed_count w.
Proof.
  intros Ha Hstatus Hsame. unfold count_agents, claimed_count. cbn [fst]. f_equal.
  rewrite length_filter_map_to_list. f_equal.
  apply map_filter_strong_ext_1. intros i x. cbn [fst snd].
  rewrite !andb_true_iff, !bool_decide_eq_true.
  destruct (decide (i = id)) as [->|Hne].
  - split; [by intros [[_ ?] _]|]. intros [[_ Hx] Hi]. congruence.
  - rewrite Hsame by done.
    split; [intros [[[? ?] _] ?]|intros [[? ?] ?]]; repeat split; done.
Qed.

Lemma claimed_count_claim (id : ObjectId) (a a' : AgentDoc) (w w' : World) :
  Agent (db w) !! id = Some a → wad_status a = Some UNCLAIMED →
  isWalletAgent a' = true → wad_status a' = Some CLAIMED →
  Agent (db w') = <[id := a']> (Agent (db w)) →
  claimed_count w' = (claimed_count w + 1)%N.
Proof.
  intros Ha Hstatus Hwa Hclaimed Hagents. unfold claimed_count. rewrite Hagents.
  rewrite map_filter_insert_True by done.
  rewrite map_size_insert_None; [lia|].
  apply map_lookup_filter_None. right. intros x Hx [_ Hc]. cbn in Hc. congruence.
Qed.

Lemma verifyClaim_world
    (env : Env) (wallet agentId signature nonce : JsValue) (w : World)
    (id : ObjectId) (a : AgentDoc) :
  reaches_gate nacl env wallet agentId signature nonce w id →
  Agent (db w) !! id = Some a →
  claimable_by (to_string wallet) a = true →
  let address := to_string wallet in
  let found := (find_user address w).1 in
  let user := from_option user_id (next_id (db w)) found in
  let rank := (claimed_count w + 1)%N in
  let founding := if (rank <=? 5000)%N then Some rank else None in
  let linked := set_owner (now env) user
                  (set_claimed (now env) address signature nonce a) in
  let '(reply, w') := run (verifyClaim nacl env wallet agentId signature nonce) w in
  reply = ClaimReply id user founding
  ∧ Agent (db w')
    = <[id := if (rank <=? 5000)%N then set_founding rank linked else linked]> (Agent (db w))
  ∧ User (db w')
    = User (db w) ++ match found with
                     | Some _ => []
                     | None => [new_user env address (next_id (db w))]
                     end
  ∧ wallet_agent_claims (db w')
    = wallet_agent_claims (db w)
      ++ [audit env address (Some id) (Some user) "CLAIM_SUCCESS" None (Some rank)]
  ∧ published w' = published w ++ [("AGENT_CLAIMED", id)]
  ∧ redis w' = delete (claim_nonce_key (to_string agentId) address) (redis w)
  ∧ claimed_count w' = rank.
Proof.
  intros Hreach Ha Hc. cbn zeta.
  destruct (verifyClaim_cases nacl env wallet agentId signature nonce w)
    as [(id' & [_ _ Hid' _ _ _] & ->)|Hrej].
  2:{ destruct (run _ w) as [r w2]. destruct Hrej as (_ & Hno & _). by destruct (Hno id). }
  assert (id' = id) as -> by (destruct Hreach; congruence).
  set (key := claim_nonce_key _ _). set (address := to_string wallet) in *.
  pose proof Hc as Hc'. unfold claimable_by in Hc'.
  rewrite !andb_true_iff, !bool_decide_eq_true in Hc'. destruct Hc' as [[Hwallet Hstatus] Hwa].
  unfold claim_gate. run_step. unfold find_agent_and_update. rewrite Ha, Hc. cbn [fst snd].
  set (w1 := with_db _ w).
  unfold claim_succeeded. run_step. unfold find_user. cbn [fst snd].
  change (User (db w1)) with (User (db w)).
  assert (Hagents : ∀ rank (w' : World) a',
            isWalletAgent a' = true → wad_status a' = Some CLAIMED →
            Agent (db w') = <[id := a']> (Agent (db w)) →
            rank = (claimed_count w + 1)%N → claimed_count w' = rank).
  { intros rank w' a' ? ? ? ->. by eapply claimed_count_claim. }
  destruct (head _) as [u|]; cbn [from_option]; run_step;
    match goal with
    | |- context [count_agents ?P ?w2] =>
        change (count_agents P w2).2 with w2;
        rewrite (count_other_claimed id a w w2) by
          (try done; intros i Hne; unfold update_agent, insert_user, w1; cbn;
           by rewrite lookup_alter_ne, lookup_insert_ne)
    end;
    destruct (claimed_count w + 1 <=? 5000)%N; run_step;
    unfold update_agent, insert_user, redis_del, log_claim, redis_publish, w1; cbn;
    rewrite ?alter_insert_eq, ?app_nil_r;
    (repeat split; try done);
    (eapply Hagents; [| |cbn; rewrite ?alter_insert_eq; reflexivity|reflexivity];
     cbn; try done;
     unfold wad_status in *; cbn; by destruct (walletAgentData a)).
Qed.

(** X12: what a successful claim does.  A verify call that reaches the
    conditional update for an agent the update matches answers with the
    agent, the user of the wallet (the one found, or a new one with the
    next generated id) and the founding rank, which is one more than
    the number of wallet agents claimed before and is given only up to
    5000.  Afterwards the agent is CLAIMED by the wallet and owned by
    that user, a user document was added only if none was found, the
    audit log has one more entry [CLAIM_SUCCESS] carrying the rank (also
    above 5000), one event [AGENT_CLAIMED] was published, the nonce is
    deleted, and the number of claimed wallet agents equals the rank. *)
Theorem verifyClaim_effects
    (env : Env) (wallet agentId signature nonce : JsValue) (w : World)
    (id : ObjectId) (a : AgentDoc) :
  reaches_gate nacl env wallet agentId signature nonce w id →
  Agent (db w) !! id = Some a →
  claimable_by (to_string wallet) a = true →
  let address := to_string wallet in
  let found := (find_user address w).1 in
  let user := from_option user_id (next_id (db w)) found in
  let rank := (claimed_count w + 1)%N in
  let founding := if (rank <=? 5000)%N then Some rank else None in
  let linked := set_owner (now env) user
                  (set_claimed (now env) address signature nonce a) in
  let '(reply, w') := run (verifyClaim nacl env wallet agentId signature nonce) w in
  reply = ClaimReply id user founding
  ∧ Agent (db w')
    = <[id := if (rank <=? 5000)%N then set_founding rank linked else linked]> (Agent (db w))
  ∧ User (db w')
    = User (db w) ++ match found with
                     | Some _ => []
                     | None => [new_user env address (next_id (db w))]
                     end
  ∧ wallet_agent_claims (db w')
    = wallet_agent_claims (db w)
      ++ [audit env address (Some id) (Some user) "CLAIM_SUCCESS" None (Some rank)]
  ∧ published w' = published w ++ [("AGENT_CLAIMED", id)]
  ∧ redis w' = delete (claim_nonce_key (to_string agentId) address) (redis w)
  ∧ claimed_count w' = rank.
Proof. apply verifyClaim_world. Qed.

(** A claim that was answered with success had reached the conditional
    update, for an agent the update matched. *)
Lemma verifyClaim_claimed env wallet agentId signature nonce w id user rank w' :
  run (verifyClaim nacl env wallet agentId signature nonce) w = (ClaimReply id user rank, w') →
  reaches_gate nacl env wallet agentId signature nonce w id
  ∧ ∃ a, Agent (db w) !! id = Some a ∧ claimable_by (to_string wallet) a = true.
Proof.
  intros Hrun.
  destruct (verifyClaim_cases nacl env wallet agentId signature nonce w)
    as [(id' & Hreach & Hgate)|Hrej].
  2:{ rewrite Hrun in Hrej. destruct Hrej as (Hrej & _).
      apply rejection_is_error in Hrej as (? & ? & ? & _). done. }
  rewrite Hrun in Hgate. symmetry in Hgate.
  pose proof (claim_gate_run env (to_string wallet)
                (claim_nonce_key (to_string agentId) (to_string wallet)) id' signature nonce w)
    as Hcase.
  unfold claimable in Hcase.
  destruct (Agent (db w) !! id') as [a|] eqn:Ha; cbn [from_option] in Hcase.
  2:{ rewrite Hgate in Hcase. done. }
  destruct (claimable_by (to_string wallet) a) eqn:Hc.
  2:{ rewrite Hgate in Hcase. done. }
  destruct Hcase as (user' & rank' & w2 & Hrun' & _). rewrite Hgate in Hrun'.
  injection Hrun' as <- <- <- <-. split; [done|]. by exists a.
Qed.


End ClaimEffects.

Section OptOutRecords.
Import SolanaSignature Store Commands Async ClaimRateLimit ClaimRoutes Notions Behaviour.
Variable nacl : list ascii → list N → list N → bool.

Ltac run_step := rewrite ?run_bind, ?run_await, ?run_ret; cbn [fst snd].

(** What the deletions of an opt-out leave in place. *)
Lemma delete_everything_keeps id w :
  let w' := (run (delete_everything id) w).2 in
  (∀ m, Memo m ∈ wallet_agent_notifications (db w) →
        Memo m ∈ wallet_agent_notifications (db w'))
  ∧ wallet_agent_claims (db w') = wallet_agent_claims (db w)
  ∧ User (db w') = User (db w)
  ∧ wallet_opt_outs (db w') = wallet_opt_outs (db w)
  ∧ redis w' = redis w ∧ published w' = published w
  ∧ ∀ id', id' ≠ id → Agent (db w') !! id' = Agent (db w) !! id'.
Proof.
  unfold delete_everything. run_step. cbn. repeat split; try done.
  - intros m Hm. apply list_elem_of_filter. split; [|done]. by intros [].
  - intros id' Hne. by apply lookup_delete_ne.
Qed.

(** The world an opt-out leaves when it answers with success. *)
Lemma optOut_success_world env wallet signature nonce w w' address at_ :
  run (optOut nacl env wallet signature nonce) w = (OptOutReply address at_, w') →
  let found := (find_agent (agent_of_wallet (to_string wallet)) w).1 in
  let w1 := match found with
            | Some (id, _) => (run (delete_everything id) w).2
            | None => w
            end in
  address = to_string wallet ∧ at_ = now env
  ∧ ¬ opted_out w address
  ∧ Agent (db w') = Agent (db w1) ∧ User (db w') = User (db w1)
  ∧ wallet_agent_notifications (db w') = wallet_agent_notifications (db w1)
  ∧ wallet_agent_claims (db w')
    = wallet_agent_claims (db w1)
      ++ [audit env address (fst <$> found) None "OPT_OUT_SUCCESS" None None]
  ∧ ∃ o, wallet_opt_outs (db w') = wallet_opt_outs (db w) ++ [o]
         ∧ optout_walletAddress o = address ∧ optedOutAt o = now env
         ∧ optout_agentId o = fst <$> found.
Proof.
  unfold optOut.
  destruct (truthy wallet), (truthy signature), (truthy nonce); cbn [negb orb];
    try by rewrite run_ret.
  destruct (isValidAddress wallet); cbn [negb]; [|by rewrite run_ret].
  destruct (db_handle env); cbn [negb]; [|by rewrite run_ret].
  destruct (redis_client env); try by rewrite run_ret.
  rewrite run_bind, run_await. change (redis_get (now env) ?k w).2 with w.
  destruct (redis_get _ _ w).1 as [parsed|]; [|by rewrite run_ret].
  destruct (bool_decide _); cbn [negb]; [|by rewrite run_ret].
  destruct (verifySolanaSignature _ _ _ _); cbn [negb]; [|by run_step].
  run_step. change (find_agent ?P w).2 with w.
  set (found := (find_agent _ w).1).
  set (w1 := (run match found with Some (id, _) => _ | None => _ end w).2).
  assert (Hw1 : w1 = match found with
                     | Some (id, _) => (run (delete_everything id) w).2
                     | None => w
                     end) by (subst w1; by destruct found as [[]|]).
  assert (Hsame : wallet_opt_outs (db w1) = wallet_opt_outs (db w)).
  { rewrite Hw1. destruct found as [[id a]|]; [|done].
    by destruct (delete_everything_keeps id w) as (_ & _ & _ & ? & _). }
  cbn zeta. rewrite <-Hw1. clearbody w1.
  unfold insert_opt_out. cbn [optout_walletAddress]. unfold opted_out. rewrite Hsame.
  destruct (decide _) as [Hdup|Hdup]; cbn [fst snd]; [by run_step|].
  run_step. intros [= <- <- <-]. cbn. rewrite Hsame. repeat split; try done.
  by eexists.
Qed.

(** X13: what an opt-out keeps.  When the opt-out handler answers with
    success, the memo records of [wallet_agent_notifications] are all
    still there, those of the deleted agent included (their [agentId]
    is a string, which the deletion by ObjectId does not match); the
    audit log has lost nothing and has one more entry,
    [OPT_OUT_SUCCESS], with the wallet and the id of the deleted agent;
    and no user document was touched. *)
Theorem optOut_keeps_records
    (env : Env) (wallet signature nonce : JsValue) (w w' : World)
    (address : string) (at_ : Z) :
  run (optOut nacl env wallet signature nonce) w = (OptOutReply address at_, w') →
  (∀ m, Memo m ∈ wallet_agent_notifications (db w) →
        Memo m ∈ wallet_agent_notifications (db w'))
  ∧ wallet_agent_claims (db w')
    = wallet_agent_claims (db w)
      ++ [audit env address (fst <$> (find_agent (agent_of_wallet address) w).1) None
            "OPT_OUT_SUCCESS" None None]
  ∧ User (db w') = User (db w).
Proof.
  intros Hrun. apply optOut_success_world in Hrun as Hw. cbn zeta in Hw.
  destruct Hw as (-> & _ & _ & _ & Hu & Hn & Hc & _). rewrite Hu, Hn, Hc.
  destruct (find_agent _ w).1 as [[id a]|]; [|done].
  destruct (delete_everything_keeps id w) as (Hm & -> & -> & _). by repeat split.
Qed.

(** X14: an opt-out succeeds at most once for a wallet.  Once the
    opt-out route has answered with success, and whatever happens next,
    a request for an opt-out nonce that reaches the database is
    answered [ALREADY_OPTED_OUT] and stores nothing, and no opt-out
    request is answered with success again: it is answered with an
    error, which is [OPT_OUT_FAILED] (status 500) when the request
    comes with a stored nonce and a signature that verifies. *)
Theorem opt_out_only_once
    (env env' : Env) (wallet signature nonce signature' nonce' : JsValue)
    (w w' : World) (address : string) (at_ : Z) (events : list Event) :
  run (optOut_route nacl env wallet signature nonce) w = (OptOutReply address at_, w') →
  let later := foldl (happen nacl) w' events in
  (db_handle env' = true →
   run (optOutNonce env' wallet) later = (Error 409 "ALREADY_OPTED_OUT", later))
  ∧ (∃ status code,
       (run (optOut nacl env' wallet signature' nonce') later).1 = Error status code)
  ∧ (opt_out_accepted nacl env' wallet signature' nonce' later →
     (run (optOut nacl env' wallet signature' nonce') later).1 = Error 500 "OPT_OUT_FAILED").
Proof.
  intros (Ht & Hv & -> & Hout)%optOut_lists_wallet. cbn zeta.
  assert (Hlater : opted_out (foldl (happen nacl) w' events) (to_string wallet)).
  { revert w' Hout. induction events as [|e events IH]; intros w' Hout; [done|].
    cbn [foldl]. apply IH. by apply happen_keeps_opt_outs. }
  set (later := foldl (happen nacl) w' events) in *. clearbody later.
  split; [|split].
  - intros Hdb. unfold optOutNonce. rewrite Ht, Hv, Hdb. cbn [negb]. run_step.
    unfold find_opt_out. cbn [fst snd].
    destruct (head _) as [o|] eqn:Hhead; [done|]. exfalso.
    apply head_None in Hhead. unfold opted_out in Hlater.
    apply list_elem_of_fmap in Hlater as (o & Ho & Hin).
    assert (o ∈ filter (λ o, optout_walletAddress o = to_string wallet)
                  (wallet_opt_outs (db later))) as Hf by by apply list_elem_of_filter.
    rewrite Hhead in Hf. by apply elem_of_nil in Hf.
  - destruct (optOut_run nacl env' wallet signature' nonce' later)
      as [[_ Hrun]|(_ & status & code & w2 & -> & _)]; [|by eexists _, _].
    rewrite decide_True in Hrun by done. rewrite Hrun. by eexists _, _.
  - intros Hacc.
    destruct (optOut_run nacl env' wallet signature' nonce' later) as [[_ Hrun]|[Hno _]];
      [|done].
    rewrite decide_True in Hrun by done. by rewrite Hrun.
Qed.

End OptOutRecords.

Section OrphanSweepFacts.
Import Store Commands OrphanTransition Notions Behaviour.
Variable broken : Cmd → bool.
Variable redis_ready : bool.
Variable now : Z.

Local Abbreviation notify_watcher := (notify_watcher broken redis_ready now).
Local Abbreviation orphan_agent := (orphan_agent broken redis_ready now).

Local Abbreviation watchers_marked := (watchers_marked now).
Local Abbreviation notices_added := (notices_added now).

Lemma set_notified_twice x : set_notified now (set_notified now x) = set_notified now x.
Proof. done. Qed.

Lemma notify_watcher_marks id a s w wid x :
  let st' := notify_watcher id a (s, w) (wid, x) in
  watchers_marked [wid] w st'.2 ∧ notices_added id w st'.2
  ∧ processed st'.1 = processed s.
Proof.
  cbn zeta. unfold OrphanTransition.notify_watcher.
  assert (Hsame : watchers_marked [wid] w w) by (intros ?; by left).
  assert (Hnone : notices_added id w w) by (exists []; by rewrite app_nil_r).
  destruct (broken (InsertNotice wid)); [done|].
  assert (Hone : ∀ w', wallet_agent_notifications (db w')
                       = wallet_agent_notifications (db w) ++ [orphan_notice now id a x] →
                       notices_added id w w').
  { intros w' Hw'. eexists. split; [done|]. apply Forall_singleton. by eexists. }
  destruct (broken (UpdateWatcher wid)).
  { split; [intros ?; by left|]. split; [by apply Hone|done]. }
  assert (Hmark : ∀ w', orphan_watchlist (db w')
                        = alter (set_notified now) wid (orphan_watchlist (db w)) →
                        watchers_marked [wid] w w').
  { intros w' Hw' wid'. rewrite Hw'. destruct (decide (wid' = wid)) as [->|Hne].
    - rewrite lookup_alter_eq. destruct (orphan_watchlist (db w) !! wid) as [x0|]; [|by left].
      right. exists x0. repeat split; try done. by left.
    - left. by apply lookup_alter_ne. }
  destruct redis_ready; [destruct (broken (Publish wid))|];
    (split; [by apply Hmark|]; split; [by apply Hone|done]).
Qed.

Lemma watchers_marked_trans ids1 ids2 w w1 w2 :
  watchers_marked ids1 w w1 → watchers_marked ids2 w1 w2 →
  watchers_marked (ids1 ++ ids2) w w2.
Proof.
  intros H1 H2 wid.
  destruct (H2 wid) as [E2|(x1 & Hx1 & E2 & Hin2)], (H1 wid) as [E1|(x0 & Hx0 & E1 & Hin1)].
  - left. congruence.
  - right. exists x0. repeat split; [done|congruence|]. apply elem_of_app. by left.
  - right. exists x1. repeat split; [congruence|done|]. apply elem_of_app. by right.
  - right. exists x0. repeat split; [done| |apply elem_of_app; by left].
    rewrite E2. by simplify_eq.
Qed.

Lemma notices_added_trans id w w1 w2 :
  notices_added id w w1 → notices_added id w1 w2 → notices_added id w w2.
Proof.
  intros (l1 & E1 & F1) (l2 & E2 & F2). exists (l1 ++ l2). split.
  - by rewrite E2, E1, app_assoc.
  - by apply Forall_app.
Qed.

Lemma notify_watchers_mark id a l s w :
  let st' := foldl (notify_watcher id a) (s, w) l in
  watchers_marked l.*1 w st'.2 ∧ notices_added id w st'.2
  ∧ processed st'.1 = processed s.
Proof.
  cbn zeta. revert s w. induction l as [|[wid x] l IH]; intros s w; cbn [foldl].
  { split; [intros ?; by left|]. split; [|done]. exists []. by rewrite app_nil_r. }
  destruct (notify_watcher_marks id a s w wid x) as (M1 & N1 & P1).
  destruct (notify_watcher id a (s, w) (wid, x)) as [s1 w1]. cbn [fst snd] in *.
  destruct (IH s1 w1) as (M2 & N2 & P2).
  split; [|split].
  - by apply (watchers_marked_trans [wid] _ w w1).
  - by eapply notices_added_trans.
  - congruence.
Qed.

(** One agent of the sweep: either nothing changes, or the agent was
    UNCLAIMED and is made ORPHANED, watchers of it that were not
    notified are marked, and notices for it are added. *)
Lemma orphan_agent_effects s w id agent :
  let st' := orphan_agent (s, w) (id, agent) in
  processed st'.1 = processed s
  ∧ ((Agent (db st'.2) = Agent (db w)
      ∧ orphan_watchlist (db st'.2) = orphan_watchlist (db w)
      ∧ wallet_agent_notifications (db st'.2) = wallet_agent_notifications (db w)
      ∧ transitioned st'.1 = transitioned s)
     ∨ (∃ a, Agent (db w) !! id = Some a ∧ wad_status a = Some UNCLAIMED
             ∧ Agent (db st'.2) = <[id := set_orphaned now a]> (Agent (db w))
             ∧ transitioned st'.1 = S (transitioned s)
             ∧ (∀ wid, orphan_watchlist (db st'.2) !! wid = orphan_watchlist (db w) !! wid
                       ∨ ∃ x, orphan_watchlist (db w) !! wid = Some x
                              ∧ watcher_agentId x = id ∧ Store.notified x ≠ true
                              ∧ orphan_watchlist (db st'.2) !! wid
                                = Some (set_notified now x))
             ∧ notices_added id w st'.2)).
Proof.
  cbn zeta. unfold OrphanTransition.orphan_agent.
  destruct (broken (UpdateAgent id)); [split; [done|]; by left|].
  unfold find_agent_and_update.
  destruct (Agent (db w) !! id) as [a|] eqn:Ha; [|split; [done|]; by left].
  case_bool_decide as Hst; [|split; [done|]; by left].
  set (w1 := with_db (with_Agent <[id := set_orphaned now a]>) w).
  assert (Hnone : notices_added id w w) by (exists []; by rewrite app_nil_r).
  destruct (broken (InsertAudit id)).
  { split; [done|]. right. exists a. repeat split; try done. intros ?; by left. }
  destruct (broken (FindWatchers id)).
  { split; [done|]. right. exists a. repeat split; try done. intros ?; by left. }
  match goal with
  | |- context [foldl ?f (?s0, ?w0) ?l] =>
      destruct (notify_watchers_spec broken redis_ready now id agent (s0, w0) l)
        as (E1 & E2 & _);
      destruct (notify_watchers_mark id agent l s0 w0) as (M & N & P);
      set (st' := foldl f (s0, w0) l) in *
  end.
  cbn [fst snd] in *. split; [done|]. right. exists a.
  split; [done|]. split; [done|]. split; [by rewrite E1|]. split; [by rewrite E2|].
  split; [|done].
  intros wid. destruct (M wid) as [E|(x & Hx & E & Hin)]; [by left|].
  right. exists x. cbn in Hx.
  apply list_elem_of_fmap in Hin as ([wid' x'] & -> & Hin). cbn [fst].
  apply list_elem_of_filter in Hin as [[Hagent Hnot] Hin]. cbn [fst snd] in *.
  apply elem_of_map_to_list in Hin. cbn in Hin. by simplify_eq.
Qed.

Lemma set_orphaned_not_unclaimed a : wad_status (set_orphaned now a) ≠ Some UNCLAIMED.
Proof. unfold wad_status. cbn. by destruct (walletAgentData a). Qed.

Lemma orphan_agent_swept w0 s w id agent :
  Agent (db w0) !! id = Some agent → expired now agent = true →
  agents_swept now w0 w → watchers_swept now w0 w → notices_swept now w0 w →
  let st' := orphan_agent (s, w) (id, agent) in
  agents_swept now w0 st'.2 ∧ watchers_swept now w0 st'.2 ∧ notices_swept now w0 st'.2
  ∧ processed st'.1 = processed s
  ∧ (transitioned s ≤ transitioned st'.1 ≤ S (transitioned s))%nat.
Proof.
  intros H0 Hexp HA HW HN. cbn zeta.
  destruct (orphan_agent_effects s w id agent)
    as [HP [(EA & EW & EN & ET)|(a & Ha & Hst & EA & ET & MW & MN)]].
  { set (w' := (orphan_agent (s, w) (id, agent)).2) in *.
    assert (Hturned : ∀ i, turned now w0 w i → turned now w0 w' i).
    { intros i (a & ? & ? & ?). exists a. by rewrite EA. }
    split; [|split; [|split; [|split; [done|lia]]]].
    - intros i. rewrite EA. destruct (HA i); auto.
    - intros wid. rewrite EW. destruct (HW wid) as [|(x & ? & ? & ? & ?)]; [by left|].
      right. exists x. auto.
    - destruct HN as (added & E & F). exists added. rewrite EN. split; [done|].
      eapply Forall_impl; [exact F|]. intros n (o & ? & ? & ?). exists o. auto. }
  set (w' := (orphan_agent (s, w) (id, agent)).2) in *.
  assert (a = agent) as ->.
  { destruct (HA id) as [E|(a0 & _ & _ & E)]; [congruence|].
    rewrite Ha in E. injection E as ->. by apply set_orphaned_not_unclaimed in Hst. }
  assert (Hnow : turned now w0 w' id).
  { exists agent. rewrite EA, lookup_insert_eq. done. }
  assert (Hturned : ∀ i, turned now w0 w i → turned now w0 w' i).
  { intros i (a & Hi & ? & E). destruct (decide (i = id)) as [->|Hne].
    - rewrite Ha in E. injection E as ->. by apply set_orphaned_not_unclaimed in Hst.
    - exists a. rewrite EA, lookup_insert_ne by done. done. }
  split; [|split; [|split; [|split; [done|lia]]]].
  - intros i. destruct (decide (i = id)) as [->|Hne]; [by right|].
    rewrite EA, lookup_insert_ne by done. destruct (HA i); auto.
  - intros wid. destruct (MW wid) as [E|(x & Hx & Hid & Hnot & E)].
    + rewrite E. destruct (HW wid) as [|(x & ? & ? & ? & ?)]; [by left|].
      right. exists x. auto.
    + right. exists x. destruct (HW wid) as [E0|(x0 & _ & _ & E0 & _)].
      * rewrite <-E0. by rewrite Hid.
      * rewrite Hx in E0. injection E0 as ->. done.
  - destruct HN as (added & E & F), MN as (added' & E' & F').
    exists (added ++ added'). split; [by rewrite E', E, app_assoc|].
    apply Forall_app. split.
    + eapply Forall_impl; [exact F|]. intros n (o & ? & ? & ?). exists o. auto.
    + eapply Forall_impl; [exact F'|]. intros n (o & ? & Hid & ?). exists o.
      by rewrite Hid.
Qed.

Lemma orphan_agents_swept w0 (l : list (ObjectId * AgentDoc)) s w :
  (∀ id a, (id, a) ∈ l → Agent (db w0) !! id = Some a ∧ expired now a = true) →
  agents_swept now w0 w → watchers_swept now w0 w → notices_swept now w0 w →
  let st' := foldl orphan_agent (s, w) l in
  agents_swept now w0 st'.2 ∧ watchers_swept now w0 st'.2 ∧ notices_swept now w0 st'.2
  ∧ processed st'.1 = processed s
  ∧ (transitioned s ≤ transitioned st'.1 ≤ transitioned s + length l)%nat.
Proof.
  cbn zeta. revert s w. induction l as [|[id a] l IH]; intros s w Hl HA HW HN; cbn [foldl].
  { repeat split; try done; cbn; lia. }
  destruct (Hl id a) as [H0 Hexp]; [by left|].
  destruct (orphan_agent_swept w0 s w id a H0 Hexp HA HW HN) as (HA1 & HW1 & HN1 & HP1 & HT1).
  destruct (orphan_agent (s, w) (id, a)) as [s1 w1]. cbn [fst snd] in *.
  destruct (IH s1 w1) as (HA2 & HW2 & HN2 & HP2 & HT2); try done.
  { intros id' a' Hin. apply Hl. by right. }
  repeat split; try done; cbn [length]; lia.
Qed.

Lemma processOrphanTransitions_swept (w : World) :
  let run := processOrphanTransitions broken redis_ready now w in
  agents_swept now w run.2 ∧ watchers_swept now w run.2 ∧ notices_swept now w run.2
  ∧ (transitioned run.1 ≤ processed run.1 ≤ length (expired_agents now w))%nat.
Proof.
  cbn zeta. unfold processOrphanTransitions.
  assert (HA : agents_swept now w w) by (intros ?; by left).
  assert (HW : watchers_swept now w w) by (intros ?; by left).
  assert (HN : notices_swept now w w) by (exists []; by rewrite app_nil_r).
  destruct (broken FindExpired); [repeat split; try done; cbn; lia|].
  match goal with
  | |- context [foldl _ (?s0, w) ?l] =>
      destruct (orphan_agents_swept w l s0 w) as (HA' & HW' & HN' & HP & HT); try done
  end.
  { intros id a [Hexp Hin]%list_elem_of_filter. by apply elem_of_map_to_list in Hin. }
  cbn [processed transitioned] in *. repeat split; try done; lia.
Qed.

(** X15: whatever commands of a run of the orphan sweep throw, each
    agent is afterwards as it was, or it was a wallet agent that was
    UNCLAIMED with its deadline passed and is now that agent made
    ORPHANED at the instant of the run: no agent is added or deleted,
    and no CLAIMED, ORPHANED or ADOPTED agent, and none whose deadline
    lies ahead, is touched.  The run counts no more transitions than
    agents it processed. *)
Theorem processOrphanTransitions_only_expired (w : World) :
  let run := processOrphanTransitions broken redis_ready now w in
  (∀ id, Agent (db run.2) !! id = Agent (db w) !! id
         ∨ ∃ a, Agent (db w) !! id = Some a
                ∧ isWalletAgent a = true ∧ wad_status a = Some UNCLAIMED
                ∧ (∃ deadline, wad_deadline a = Some deadline ∧ deadline ≤ now)
                ∧ Agent (db run.2) !! id = Some (set_orphaned now a)
                ∧ agent_status run.2 id = Some ORPHANED)
  ∧ (transitioned run.1 ≤ processed run.1 ≤ length (expired_agents now w))%nat.
Proof.
  cbn zeta. destruct (processOrphanTransitions_swept w) as (HA & _ & _ & HT).
  split; [|done]. intros id. destruct (HA id) as [|(a & Ha & Hexp & Ha')]; [by left|].
  right. exists a. unfold expired in Hexp.
  rewrite !andb_true_iff, bool_decide_eq_true in Hexp. destruct Hexp as [[Hwa Hst] Hd].
  repeat split; try done.
  - destruct (wad_deadline a) as [deadline|]; [|done]. exists deadline.
    split; [done|]. cbn in Hd. lia.
  - unfold agent_status. rewrite Ha'. cbn. unfold wad_status in *. cbn.
    by destruct (walletAgentData a).
Qed.

(** X16: whatever commands of a run of the orphan sweep throw, the run
    marks as notified only watchers that were not, and only watchers of
    an agent that this very run has turned from UNCLAIMED to ORPHANED;
    and the notifications it adds are orphan notices of the instant of
    the run for such agents.  The watchers of an agent that was
    ORPHANED before the run are therefore never notified by it. *)
Theorem processOrphanTransitions_notifies_turned (w : World) :
  let run := processOrphanTransitions broken redis_ready now w in
  (∀ wid, orphan_watchlist (db run.2) !! wid = orphan_watchlist (db w) !! wid
          ∨ ∃ x, orphan_watchlist (db w) !! wid = Some x
                 ∧ Store.notified x ≠ true
                 ∧ orphan_watchlist (db run.2) !! wid = Some (set_notified now x)
                 ∧ turned now w run.2 (watcher_agentId x))
  ∧ (∃ added,
       wallet_agent_notifications (db run.2) = wallet_agent_notifications (db w) ++ added
       ∧ Forall (λ n, ∃ o, n = Notice o ∧ notice_createdAt o = now
                           ∧ turned now w run.2 (notice_agentId o)) added)
  ∧ (∀ wid x, orphan_watchlist (db w) !! wid = Some x →
              agent_status w (watcher_agentId x) ≠ Some UNCLAIMED →
              orphan_watchlist (db run.2) !! wid = Some x).
Proof.
  cbn zeta. destruct (processOrphanTransitions_swept w) as (_ & HW & HN & _).
  split; [exact HW|]. split; [exact HN|].
  intros wid x Hx Hnot. destruct (HW wid) as [E|(x' & Hx' & _ & _ & (a & Ha & Hexp & _))].
  - congruence.
  - exfalso. apply Hnot. simplify_eq. unfold agent_status. rewrite Ha. cbn.
    by apply expired_is_unclaimed in Hexp.
Qed.

End OrphanSweepFacts.

Section OrphanWatcherFacts.
Import Store Commands OrphanTransition Notions Behaviour.
Variable broken : Cmd → bool.
Variable redis_ready : bool.
Variable now : Z.

Local Abbreviation notify_watcher := (notify_watcher broken redis_ready now).
Local Abbreviation orphan_agent := (orphan_agent broken redis_ready now).

(** The loop over the watchers of an agent reaches each of them: a
    watcher of the list whose two writes do not throw is marked, and
    has its notice. *)
Lemma notify_watchers_reach id a l s w wid x :
  NoDup l.*1 → (wid, x) ∈ l →
  orphan_watchlist (db w) !! wid = Some x →
  broken (InsertNotice wid) = false → broken (UpdateWatcher wid) = false →
  let st' := foldl (notify_watcher id a) (s, w) l in
  orphan_watchlist (db st'.2) !! wid = Some (set_notified now x)
  ∧ orphan_notice now id a x ∈ wallet_agent_notifications (db st'.2).
Proof.
  intros Hnodup Hin Hx Hnotice Hupdate. cbn zeta. revert s w Hnodup Hin Hx.
  induction l as [|[wid' x'] l IH]; intros s w Hnodup Hin Hx; [by apply elem_of_nil in Hin|].
  apply NoDup_cons in Hnodup as [Hfresh Hnodup]. cbn [fmap list_fmap fst] in Hfresh.
  cbn [foldl].
  apply elem_of_cons in Hin as [Heq|Hin].
  - simplify_eq.
    assert (Hstep : ∃ s1 w1,
              notify_watcher id a (s, w) (wid', x') = (s1, w1)
              ∧ orphan_watchlist (db w1) !! wid' = Some (set_notified now x')
              ∧ orphan_notice now id a x' ∈ wallet_agent_notifications (db w1)).
    { unfold OrphanTransition.notify_watcher. rewrite Hnotice, Hupdate.
      destruct redis_ready; [destruct (broken (Publish wid'))|];
        (eexists _, _; split; [reflexivity|]; cbn; rewrite lookup_alter_eq, Hx;
         split; [done|]; apply elem_of_app; right; by left). }
    destruct Hstep as (s1 & w1 & -> & Hw1 & Hn1).
    destruct (notify_watchers_mark broken redis_ready now id a l s1 w1) as (M & (added & E & _) & _).
    split.
    + destruct (M wid') as [->|(x0 & Hx0 & -> & _)]; [done|]. by simplify_eq.
    + rewrite E. apply elem_of_app. by left.
  - assert (Hne : wid' ≠ wid).
    { intros ->. apply Hfresh, list_elem_of_fmap. by exists (wid, x). }
    destruct (notify_watcher_marks broken redis_ready now id a s w wid' x') as (M & _ & _).
    destruct (notify_watcher id a (s, w) (wid', x')) as [s1 w1]. cbn [fst snd] in *.
    apply IH; try done.
    destruct (M wid) as [->|(_ & _ & _ & Hin')]; [done|].
    apply list_elem_of_singleton in Hin'. congruence.
Qed.

(** The turn of an agent that is still UNCLAIMED, when its update does
    not throw. *)
Lemma orphan_agent_own s w id a wid x :
  Agent (db w) !! id = Some a → wad_status a = Some UNCLAIMED →
  orphan_watchlist (db w) !! wid = Some x →
  watcher_agentId x = id → Store.notified x ≠ true →
  broken (UpdateAgent id) = false →
  let st' := orphan_agent (s, w) (id, a) in
  Agent (db st'.2) !! id = Some (set_orphaned now a)
  ∧ (broken (InsertAudit id) = false → broken (FindWatchers id) = false →
     broken (InsertNotice wid) = false → broken (UpdateWatcher wid) = false →
     orphan_watchlist (db st'.2) !! wid = Some (set_notified now x)
     ∧ orphan_notice now id a x ∈ wallet_agent_notifications (db st'.2))
  ∧ (broken (InsertAudit id) = true ∨ broken (FindWatchers id) = true →
     orphan_watchlist (db st'.2) !! wid = Some x).
Proof.
  intros Ha Hst Hx Hagent Hnot Hupdate. cbn zeta.
  unfold OrphanTransition.orphan_agent. rewrite Hupdate.
  unfold find_agent_and_update. rewrite Ha, bool_decide_true by done.
  destruct (broken (InsertAudit id)) eqn:Haudit.
  { cbn. rewrite lookup_insert_eq. repeat split; try done. }
  destruct (broken (FindWatchers id)) eqn:Hfind.
  { cbn. rewrite lookup_insert_eq. repeat split; try done. }
  match goal with
  | |- context [foldl ?f (?s0, ?w0) ?l] =>
      destruct (notify_watchers_spec broken redis_ready now id a (s0, w0) l) as (E1 & _);
      pose proof (notify_watchers_reach id a l s0 w0 wid x) as Hreach;
      set (st' := foldl f (s0, w0) l) in *
  end.
  cbn [fst snd] in *. split; [|split].
  - rewrite E1. cbn. by rewrite lookup_insert_eq.
  - intros _ _ Hn Hu. apply Hreach; try done.
    + apply NoDup_filter_map_to_list.
    + apply list_elem_of_filter. split; [done|]. by apply elem_of_map_to_list.
  - intros [?|?]; done.
Qed.

(** The turns of the other agents leave the agent and its watchers as
    they are, and take no notification away. *)
Lemma orphan_agents_frame (l : list (ObjectId * AgentDoc)) s w id :
  id ∉ l.*1 →
  let st' := foldl orphan_agent (s, w) l in
  Agent (db st'.2) !! id = Agent (db w) !! id
  ∧ (∀ wid y, orphan_watchlist (db w) !! wid = Some y → watcher_agentId y = id →
              orphan_watchlist (db st'.2) !! wid = Some y)
  ∧ ∀ n, n ∈ wallet_agent_notifications (db w) →
         n ∈ wallet_agent_notifications (db st'.2).
Proof.
  cbn zeta. revert s w. induction l as [|[id' a'] l IH]; intros s w Hnot; [done|].
  apply not_elem_of_cons in Hnot as [Hne Hnot]. cbn [fst] in Hne. cbn [foldl].
  destruct (orphan_agent_effects broken redis_ready now s w id' a')
    as [_ [(EA & EW & EN & _)|(a0 & Ha0 & _ & EA & _ & MW & (added & EN & _))]];
    destruct (orphan_agent (s, w) (id', a')) as [s1 w1]; cbn [fst snd] in *;
    destruct (IH s1 w1 Hnot) as (IA & IW & IN).
  - rewrite IA, EA. split; [done|]. split.
    + intros wid y Hy Hagent. apply IW; [|done]. by rewrite EW.
    + intros n Hn. apply IN. by rewrite EN.
  - rewrite IA, EA, lookup_insert_ne by done. split; [done|]. split.
    + intros wid y Hy Hagent. apply IW; [|done].
      destruct (MW wid) as [->|(x' & Hx' & Hid' & _)]; [done|]. congruence.
    + intros n Hn. apply IN. rewrite EN. apply elem_of_app. by left.
Qed.

Lemma orphan_agents_watcher (l : list (ObjectId * AgentDoc)) s w id a wid x :
  NoDup l.*1 → (id, a) ∈ l →
  Agent (db w) !! id = Some a → wad_status a = Some UNCLAIMED →
  orphan_watchlist (db w) !! wid = Some x →
  watcher_agentId x = id → Store.notified x ≠ true →
  broken (UpdateAgent id) = false →
  let st' := foldl orphan_agent (s, w) l in
  Agent (db st'.2) !! id = Some (set_orphaned now a)
  ∧ (broken (InsertAudit id) = false → broken (FindWatchers id) = false →
     broken (InsertNotice wid) = false → broken (UpdateWatcher wid) = false →
     orphan_watchlist (db st'.2) !! wid = Some (set_notified now x)
     ∧ orphan_notice now id a x ∈ wallet_agent_notifications (db st'.2))
  ∧ (broken (InsertAudit id) = true ∨ broken (FindWatchers id) = true →
     orphan_watchlist (db st'.2) !! wid = Some x).
Proof.
  cbn zeta. revert s w. induction l as [|[id' a'] l IH];
    intros s w Hnodup Hin Ha Hst Hx Hagent Hnot Hupdate; [by apply elem_of_nil in Hin|].
  apply NoDup_cons in Hnodup as [Hfresh Hnodup]. cbn [fmap list_fmap fst] in Hfresh.
  cbn [foldl]. apply elem_of_cons in Hin as [Heq|Hin].
  - injection Heq as <- <-.
    destruct (orphan_agent_own s w id a wid x Ha Hst Hx Hagent Hnot Hupdate)
      as (HA & Hclean & Hfault).
    destruct (orphan_agent (s, w) (id, a)) as [s1 w1]. cbn [fst snd] in *.
    destruct (orphan_agents_frame l s1 w1 id Hfresh) as (FA & FW & FN).
    split; [by rewrite FA|]. split.
    + intros H1 H2 H3 H4. destruct (Hclean H1 H2 H3 H4) as [Hw Hn].
      split; [by apply FW|by apply FN].
    + intros Hbroken. apply FW; [by apply Hfault|done].
  - assert (Hne : id ≠ id').
    { intros ->. apply Hfresh, list_elem_of_fmap. by exists (id', a). }
    destruct (orphan_agents_frame [(id', a')] s w id) as (FA & FW & _).
    { apply not_elem_of_cons. split; [done|apply not_elem_of_nil]. }
    cbn [foldl] in FA, FW.
    destruct (orphan_agent (s, w) (id', a')) as [s1 w1]. cbn [fst snd] in *.
    apply IH; try done; [by rewrite FA|by apply FW].
Qed.

End OrphanWatcherFacts.

Section OrphanWatcherNotified.
Import Store Commands OrphanTransition Notions Behaviour.

(** X24: when a watcher is notified, and when never.  In a run of the
    orphan sweep that reaches an agent that is UNCLAIMED with its
    deadline passed, and whose update of the agent does not throw, the
    agent is made ORPHANED.  A watcher of the agent that was not
    notified is then marked and gets its notice, provided the audit
    entry, the search of the watchers and the two writes for that
    watcher do not throw.  But when the audit entry or the search of
    the watchers throws, the agent stays ORPHANED, the watcher is left
    unmarked, and no later run marks it, whatever throws then: that
    notification is lost. *)
Theorem processOrphanTransitions_notifies_watcher
    (broken : Cmd → bool) (redis_ready : bool) (now : Z) (w : World)
    (id : ObjectId) (a : AgentDoc) (wid : ObjectId) (x : WatcherDoc) :
  Agent (db w) !! id = Some a → expired now a = true →
  orphan_watchlist (db w) !! wid = Some x →
  watcher_agentId x = id → Store.notified x ≠ true →
  broken FindExpired = false → broken (UpdateAgent id) = false →
  let run := processOrphanTransitions broken redis_ready now w in
  Agent (db run.2) !! id = Some (set_orphaned now a)
  ∧ agent_status run.2 id = Some ORPHANED
  ∧ (broken (InsertAudit id) = false → broken (FindWatchers id) = false →
     broken (InsertNotice wid) = false → broken (UpdateWatcher wid) = false →
     orphan_watchlist (db run.2) !! wid = Some (set_notified now x)
     ∧ orphan_notice now id a x ∈ wallet_agent_notifications (db run.2))
  ∧ (broken (InsertAudit id) = true ∨ broken (FindWatchers id) = true →
     orphan_watchlist (db run.2) !! wid = Some x
     ∧ ∀ broken' redis_ready' now',
         orphan_watchlist
           (db (processOrphanTransitions broken' redis_ready' now' run.2).2) !! wid
         = Some x).
Proof.
  intros Ha Hexp Hx Hagent Hnot Hfind Hupdate. cbn zeta.
  pose proof (expired_is_unclaimed _ _ Hexp) as Hst.
  destruct (orphan_agents_watcher broken redis_ready now (expired_agents now w)
              {| processed := length (expired_agents now w); transitioned := 0;
                 notified := 0; errors := [] |} w id a wid x)
    as (HA & Hclean & Hfault); try done.
  { apply NoDup_filter_map_to_list. }
  { apply list_elem_of_filter. split; [done|]. by apply elem_of_map_to_list. }
  assert (Hrun : processOrphanTransitions broken redis_ready now w
                 = foldl (orphan_agent broken redis_ready now)
                     ({| processed := length (expired_agents now w); transitioned := 0;
                         notified := 0; errors := [] |}, w) (expired_agents now w)).
  { unfold processOrphanTransitions. by rewrite Hfind. }
  rewrite <-Hrun in HA, Hclean, Hfault. clear Hrun.
  set (run := processOrphanTransitions broken redis_ready now w) in *.
  assert (Horphaned : wad_status (set_orphaned now a) = Some ORPHANED).
  { unfold wad_status in *. cbn. by destruct (walletAgentData a). }
  split; [done|]. split; [unfold agent_status; by rewrite HA|]. split; [done|].
  intros Hbroken. specialize (Hfault Hbroken). split; [done|].
  intros broken' redis_ready' now'.
  destruct (processOrphanTransitions_swept broken' redis_ready' now' run.2) as (_ & HW & _).
  destruct (HW wid) as [->|(x' & Hx' & _ & _ & (a' & Ha' & Hexp' & _))]; [done|].
  exfalso. rewrite Hfault in Hx'. injection Hx' as <-. rewrite Hagent, HA in Ha'.
  injection Ha' as <-. apply expired_is_unclaimed in Hexp'. congruence.
Qed.

End OrphanWatcherNotified.

Section OrphanTwiceFacts.
Import Store Commands OrphanTransition Notions Behaviour.

Section CleanRun.
Variable broken : Cmd → bool.
Variable redis_ready : bool.
Variable now : Z.

(** A step that records no error has met no command that throws: it
    is the step of a run in which nothing throws. *)
Lemma notify_watcher_clean id a st x :
  errors (notify_watcher broken redis_ready now id a st x).1 = [] →
  notify_watcher broken redis_ready now id a st x
  = notify_watcher none_throws redis_ready now id a st x.
Proof.
  destruct st as [s w], x as [wid watcher]. unfold notify_watcher, none_throws.
  destruct (broken (InsertNotice wid)); [intros H; by apply push_error_not_nil in H|].
  destruct (broken (UpdateWatcher wid)); [intros H; by apply push_error_not_nil in H|].
  destruct redis_ready; [|done].
  destruct (broken (Publish wid)); [intros H; by apply push_error_not_nil in H|done].
Qed.

Lemma notify_watchers_clean id a l st :
  errors (foldl (notify_watcher broken redis_ready now id a) st l).1 = [] →
  foldl (notify_watcher broken redis_ready now id a) st l
  = foldl (notify_watcher none_throws redis_ready now id a) st l.
Proof.
  revert st. induction l as [|x l IH]; intros st Hnil; [done|]. cbn [foldl] in *.
  destruct (notify_watchers_spec broken redis_ready now id a
              (notify_watcher broken redis_ready now id a st x) l) as (_ & _ & G).
  rewrite IH by done. f_equal. apply notify_watcher_clean. by eapply grows_nil.
Qed.

Lemma orphan_agent_clean st x :
  errors (orphan_agent broken redis_ready now st x).1 = [] →
  orphan_agent broken redis_ready now st x = orphan_agent none_throws redis_ready now st x.
Proof.
  destruct st as [s w], x as [id agent]. unfold orphan_agent, none_throws.
  destruct (broken (UpdateAgent id)); [intros H; by apply push_error_not_nil in H|].
  destruct (find_agent_and_update _ _ _ w) as [[r|] w1]; [|done].
  destruct (broken (InsertAudit id)); [intros H; by apply push_error_not_nil in H|].
  destruct (broken (FindWatchers id)); [intros H; by apply push_error_not_nil in H|].
  apply notify_watchers_clean.
Qed.

Lemma orphan_agents_grow l st :
  grows st.1 (foldl (orphan_agent broken redis_ready now) st l).1.
Proof.
  revert st. induction l as [|[id a] l IH]; intros st; [apply grows_refl|]. cbn [foldl].
  eapply grows_trans; [|apply IH].
  apply (orphan_agent_spec broken redis_ready now st id a).
Qed.

Lemma orphan_agents_clean l st :
  errors (foldl (orphan_agent broken redis_ready now) st l).1 = [] →
  foldl (orphan_agent broken redis_ready now) st l
  = foldl (orphan_agent none_throws redis_ready now) st l.
Proof.
  revert st. induction l as [|[id a] l IH]; intros st Hnil; [done|]. cbn [foldl] in *.
  rewrite IH by done. f_equal. apply orphan_agent_clean.
  eapply grows_nil; [apply orphan_agents_grow|done].
Qed.

Lemma processOrphanTransitions_clean_run w :
  errors (processOrphanTransitions broken redis_ready now w).1 = [] →
  processOrphanTransitions broken redis_ready now w
  = processOrphanTransitions none_throws redis_ready now w.
Proof.
  unfold processOrphanTransitions, none_throws.
  destruct (broken FindExpired); [intros H; by apply push_error_not_nil in H|].
  apply orphan_agents_clean.
Qed.
End CleanRun.

Lemma set_orphaned_status now a :
  expired now a = true → wad_status (set_orphaned now a) = Some ORPHANED.
Proof.
  intros Hexp. apply expired_is_unclaimed in Hexp.
  unfold wad_status in *. cbn. by destruct (walletAgentData a).
Qed.

(** An agent that one run has turned is not due in another. *)
Lemma turned_once now1 now2 w w1 w2 id :
  turned now1 w w1 id → ¬ turned now2 w1 w2 id.
Proof.
  intros (a & _ & Hexp & Ha1) (a1 & Ha1' & Hexp' & _).
  rewrite Ha1 in Ha1'. injection Ha1' as <-.
  apply expired_is_unclaimed in Hexp'. rewrite set_orphaned_status in Hexp' by done.
  discriminate Hexp'.
Qed.

End OrphanTwiceFacts.

Section OrphanTwiceExamples.
Import Store Commands OrphanTransition Notions Behaviour Sample BehaviourSample.

(** C7, as stated, fails: when the update of the agent throws in the
    first run, the agent is still UNCLAIMED after it, and it is the
    second run that transitions it and notifies its watcher. *)
Lemma processOrphanTransitions_second_run_transitions :
  let run1 := processOrphanTransitions update_throws true day_31 world_with_watcher in
  let run2 := processOrphanTransitions never_broken true day_31 run1.2 in
  transitioned run1.1 = 0%nat
  ∧ errors run1.1 = [TRANSITION_FAILED Sample.agent_id]
  ∧ agent_status run1.2 Sample.agent_id = Some UNCLAIMED
  ∧ transitioned run2.1 = 1%nat
  ∧ notified run2.1 = 1%nat
  ∧ agent_status run2.2 Sample.agent_id = Some ORPHANED.
Proof. vm_compute. repeat split. Qed.


End OrphanTwiceExamples.

Section MemoCronFacts.
Import Store Commands ClaimNotifications Notions Behaviour.
Variable sendClaimMemo : nat → string → ObjectId → string → SendResult.
Variable short_date : Z → string.

Local Abbreviation due_loop := (due_loop sendClaimMemo short_date).
Local Abbreviation send_one := (send_one sendClaimMemo short_date).
Local Abbreviation notify_agent := (notify_agent sendClaimMemo short_date).
Local Abbreviation agents_loop := (agents_loop sendClaimMemo short_date).
Local Abbreviation processNotifications := (processNotifications sendClaimMemo short_date).

Lemma send_one_dispatched now id a days schedule r :
  channel schedule = "onchain_memo" →
  dispatched (send_one now id a days schedule r)
  = dispatched r ++ [(id, template schedule)].
Proof.
  intros Hc. unfold ClaimNotifications.send_one. rewrite Hc. cbn [String.eqb Ascii.eqb Bool.eqb].
  by destruct (sendClaimMemo _ _ _ _).
Qed.

(** The loop over the schedule, when it ends below the ceiling: it has
    called the channel for each entry that is due and not yet sent. *)
Lemma due_loop_dispatched now id a days sentTemplates schedules r :
  Forall (λ s, channel s = "onchain_memo") schedules →
  (sent_count (due_loop now id a days sentTemplates schedules r) < MAX_SENDS_PER_HOUR)%nat →
  dispatched (due_loop now id a days sentTemplates schedules r)
  = dispatched r
    ++ ((λ t, (id, t)) ∘ template
          <$> filter (λ s, daysAfterCreation s ≤ days ∧ template s ∉ sentTemplates)
                schedules).
Proof.
  intros Hall. revert r. induction Hall as [|schedule schedules Hc Hall IH]; intros r Hsent.
  { by rewrite app_nil_r. }
  revert Hsent. cbn [ClaimNotifications.due_loop]. unfold has.
  rewrite filter_cons.
  destruct (Z.leb_spec (daysAfterCreation schedule) days) as [Hdue|Hdue];
    case_bool_decide as Hin; cbn [negb andb].
  - rewrite decide_False by (intros [_ ?]; done). intros Hsent. by rewrite IH.
  - rewrite decide_True by done.
    destruct (Nat.leb_spec MAX_SENDS_PER_HOUR (sent_count r)) as [Hge|Hlt]; [lia|].
    intros Hsent. rewrite IH by done. rewrite send_one_dispatched by done.
    by rewrite <-app_assoc.
  - rewrite decide_False by (intros [_ ?]; done). intros Hsent. by rewrite IH.
  - rewrite decide_False by (intros [? _]; lia). apply IH.
Qed.

Lemma schedule_channels :
  Forall (λ s, channel s = "onchain_memo") NOTIFICATION_SCHEDULE.
Proof. unfold NOTIFICATION_SCHEDULE. repeat constructor. Qed.

Lemma notify_agent_dispatched now id a r :
  (sent_count (notify_agent now (id, a) r) < MAX_SENDS_PER_HOUR)%nat →
  dispatched (notify_agent now (id, a) r)
  = dispatched r
    ++ ((λ t, (id, t)) <$> due_templates (days_since now a)
                             (getSentNotifications (world r) id)).
Proof.
  intros Hsent. unfold ClaimNotifications.notify_agent in *.
  rewrite due_loop_dispatched by (done || apply schedule_channels).
  unfold due_templates. by rewrite <-list_fmap_compose.
Qed.

Lemma dispatched_for_own id l (ts : list string) :
  dispatched_for id (l ++ ((λ t, (id, t)) <$> ts))
  = dispatched_for id l ++ ((λ t, (id, t)) <$> ts).
Proof.
  unfold dispatched_for. rewrite filter_app. f_equal.
  induction ts as [|t ts IH]; [done|].
  cbn [fmap list_fmap]. rewrite filter_cons, decide_True by done. f_equal. apply IH.
Qed.

Lemma agents_loop_dispatched now agents r id a :
  NoDup agents.*1 → (id, a) ∈ agents →
  (sent_count (agents_loop now agents r) < MAX_SENDS_PER_HOUR)%nat →
  dispatched_for id (dispatched (agents_loop now agents r))
  = dispatched_for id (dispatched r)
    ++ ((λ t, (id, t)) <$> due_templates (days_since now a)
                             (getSentNotifications (world r) id)).
Proof.
  intros Hnodup Hin. revert r Hnodup Hin.
  induction agents as [|[id' a'] agents IH]; intros r Hnodup Hin Hsent.
  { by apply elem_of_nil in Hin. }
  apply NoDup_cons in Hnodup as [Hfresh Hnodup]. cbn [fmap list_fmap fst] in Hfresh.
  revert Hsent. cbn [ClaimNotifications.agents_loop].
  destruct (Nat.leb_spec MAX_SENDS_PER_HOUR (sent_count r)) as [Hge|Hlt]; [lia|].
  intros Hsent.
  apply elem_of_cons in Hin as [Heq|Hin].
  - simplify_eq.
    destruct (agents_loop_other sendClaimMemo short_date now agents
                (notify_agent now (id', a') r) id' Hfresh) as [-> _].
    rewrite notify_agent_dispatched.
    + apply dispatched_for_own.
    + eapply Nat.le_lt_trans; [|exact Hsent].
      apply (agents_loop_sent sendClaimMemo short_date).
  - assert (Hne : id' ≠ id).
    { intros ->. apply Hfresh, list_elem_of_fmap. by exists (id, a). }
    destruct (due_loop_other sendClaimMemo short_date now id' a' (days_since now a')
                (getSentNotifications (world r) id') NOTIFICATION_SCHEDULE r id Hne)
      as [Hd Hs].
    fold (notify_agent now (id', a') r) in Hd, Hs.
    rewrite <-Hd, <-Hs. by apply IH.
Qed.

(** X17: the notification cron catches up.  For a wallet agent that is
    UNCLAIMED, a run that ends below its ceiling of sends calls the
    delivery channel once for each template of the schedule whose day
    has come and that is not recorded as sent for the agent, in the
    order of the schedule, and for no other template: an agent for
    which several templates are overdue is sent all of them in the one
    run, and a template whose earlier sends are recorded as failed is
    sent again. *)
Theorem processNotifications_catches_up
    (redis_client : bool) (now : Z) (w : World) (id : ObjectId) (a : AgentDoc) :
  Agent (db w) !! id = Some a →
  isWalletAgent a = true → wad_status a = Some UNCLAIMED →
  let '(summary, dispatched, _) := processNotifications redis_client now w in
  (sent summary < MAX_SENDS_PER_HOUR)%nat →
  dispatched_for id dispatched
  = (λ t, (id, t)) <$> due_templates (days_since now a) (getSentNotifications w id).
Proof.
  intros Ha Hwallet Hstatus.
  unfold ClaimNotifications.processNotifications.
  assert (Hin : (id, a) ∈ unclaimed_agents w).
  { apply list_elem_of_filter. split; [done|]. by apply elem_of_map_to_list. }
  destruct (unclaimed_agents w) as [|x agents] eqn:Hagents.
  { by apply elem_of_nil in Hin. }
  cbn [sent]. intros Hsent.
  rewrite (agents_loop_dispatched now (x :: agents) _ id a); try done.
  rewrite <-Hagents. apply NoDup_filter_map_to_list.
Qed.

Lemma extends_refl r : extends r r [].
Proof. split; cbn; rewrite ?app_nil_r; (done || lia). Qed.

Lemma extends_trans r r1 r2 l1 l2 :
  extends r r1 l1 → extends r1 r2 l2 → extends r r2 (l1 ++ l2).
Proof.
  intros [W1 D1 S1 F1] [W2 D2 S2 F2]. split.
  - by rewrite W2, W1, foldl_app.
  - by rewrite D2, D1, fmap_app, app_assoc.
  - rewrite S2, S1, filter_app, length_app. lia.
  - rewrite F2, F1, filter_app, length_app. lia.
Qed.

Lemma extends_skip r : extends r (skip r) [].
Proof. split; cbn; rewrite ?app_nil_r; (done || lia). Qed.

Lemma send_one_extends now id a days schedule r :
  ∃ records, extends r (send_one now id a days schedule r) records
             ∧ (length records ≤ 1)%nat
             ∧ Forall (λ m, memo_agentId m = id) records.
Proof.
  unfold ClaimNotifications.send_one.
  destruct (String.eqb _ _);
    [|exists []; split; [apply extends_refl|split; [cbn; lia|done]]].
  destruct (sendClaimMemo _ _ _ _);
    (eexists [_]; split;
     [split; cbn -[filter]; rewrite ?filter_cons, ?filter_nil; cbn [memo_status];
      repeat case_decide; try done; cbn [length]; lia|];
     split; [cbn; lia|]; by apply Forall_singleton).
Qed.

(** The loops keep the account, and the count of sends below the
    ceiling. *)
Lemma due_loop_extends now id a days sentTemplates schedules r :
  (sent_count r ≤ MAX_SENDS_PER_HOUR)%nat →
  ∃ records, extends r (due_loop now id a days sentTemplates schedules r) records
             ∧ (sent_count (due_loop now id a days sentTemplates schedules r)
                ≤ MAX_SENDS_PER_HOUR)%nat
             ∧ Forall (λ m, memo_agentId m = id) records.
Proof.
  revert r. induction schedules as [|schedule schedules IH]; intros r Hle.
  { exists []. split; [apply extends_refl|by split]. }
  cbn [ClaimNotifications.due_loop].
  destruct (_ && _).
  - destruct (Nat.leb_spec MAX_SENDS_PER_HOUR (sent_count r)) as [Hge|Hlt].
    { exists []. split; [apply extends_refl|by split]. }
    destruct (send_one_extends now id a days schedule r) as (l1 & E1 & Hlen & F1).
    destruct (IH (send_one now id a days schedule r)) as (l2 & E2 & Hle2 & F2).
    { rewrite (extends_sent _ _ _ E1).
      pose proof (length_filter (λ m, memo_status m = Store.sent) l1). lia. }
    exists (l1 ++ l2). split; [by eapply extends_trans|]. split; [done|].
    by apply Forall_app.
  - destruct (has _ _); [|by apply IH].
    destruct (IH (skip r)) as (l2 & E2 & Hle2 & F2); [done|].
    exists l2. split; [|done]. apply (extends_trans _ _ _ [] l2 (extends_skip r) E2).
Qed.

Lemma agents_loop_extends now agents r :
  (sent_count r ≤ MAX_SENDS_PER_HOUR)%nat →
  ∃ records, extends r (agents_loop now agents r) records
             ∧ (sent_count (agents_loop now agents r) ≤ MAX_SENDS_PER_HOUR)%nat
             ∧ Forall (λ m, memo_agentId m ∈ agents.*1) records.
Proof.
  revert r. induction agents as [|[id a] agents IH]; intros r Hle.
  { exists []. split; [apply extends_refl|by split]. }
  cbn [ClaimNotifications.agents_loop].
  destruct (_ <=? _)%nat; [exists []; split; [apply extends_refl|by split]|].
  unfold ClaimNotifications.notify_agent.
  destruct (due_loop_extends now id a (days_since now a) (getSentNotifications (world r) id)
              NOTIFICATION_SCHEDULE r Hle) as (l1 & E1 & Hle1 & F1).
  destruct (IH _ Hle1) as (l2 & E2 & Hle2 & F2).
  exists (l1 ++ l2). split; [by eapply extends_trans|]. split; [done|].
  apply Forall_app. split.
  - eapply Forall_impl; [exact F1|]. intros m ->. by left.
  - eapply Forall_impl; [exact F2|]. intros m Hm. by right.
Qed.

Lemma foldl_record_db w records :
  wallet_agent_notifications (db (foldl record w records))
  = wallet_agent_notifications (db w) ++ (Memo <$> records)
  ∧ Agent (db (foldl record w records)) = Agent (db w)
  ∧ orphan_watchlist (db (foldl record w records)) = orphan_watchlist (db w)
  ∧ wallet_agent_claims (db (foldl record w records)) = wallet_agent_claims (db w)
  ∧ redis (foldl record w records) = redis w.
Proof.
  revert w. induction records as [|m records IH]; intros w; cbn [foldl].
  { by rewrite app_nil_r. }
  destruct (IH (record w m)) as (-> & -> & -> & -> & ->). cbn.
  by rewrite <-app_assoc.
Qed.

Lemma processNotifications_agents (redis_client : bool) (now : Z) (w : World) :
  Agent (db (processNotifications redis_client now w).2) = Agent (db w).
Proof.
  unfold ClaimNotifications.processNotifications.
  destruct (unclaimed_agents w) as [|x agents] eqn:Hagents; [done|].
  rewrite <-Hagents. cbn [snd].
  set (r0 := {| sent_count := 0; failed_count := 0; skipped_count := 0;
                dispatched := []; world := w |}).
  destruct (agents_loop_extends now (unclaimed_agents w) r0) as (records & [EW _ _ _] & _).
  { cbn. lia. }
  destruct (foldl_record_db w records) as (_ & HA & _).
  destruct redis_client; cbn [redis_set_ex with_redis snd db]; by rewrite EW.
Qed.

(** X18: the account of a run of the notification cron.  The run adds
    to [wallet_agent_notifications] one memo record for each call of
    the delivery channel, in the order of the calls, and nothing else;
    its summary counts as [sent] the records with status [sent] and as
    [failed] the others; it counts at most 500 sends, while the failed
    calls are not limited; every call is for a wallet agent that was
    UNCLAIMED when the run began; and the run changes no agent. *)
Theorem processNotifications_accounting (redis_client : bool) (now : Z) (w : World) :
  let '(summary, dispatched, w') := processNotifications redis_client now w in
  ∃ records,
    wallet_agent_notifications (db w')
    = wallet_agent_notifications (db w) ++ (Memo <$> records)
    ∧ memo_key <$> records = dispatched
    ∧ sent summary = length (filter (λ m, memo_status m = Store.sent) records)
    ∧ failed summary = length (filter (λ m, memo_status m = Store.failed) records)
    ∧ (sent summary ≤ MAX_SENDS_PER_HOUR)%nat
    ∧ Forall (λ m, agent_status w (memo_agentId m) = Some UNCLAIMED) records
    ∧ Agent (db w') = Agent (db w).
Proof.
  unfold ClaimNotifications.processNotifications.
  destruct (unclaimed_agents w) as [|x agents] eqn:Hagents.
  { exists []. cbn. rewrite app_nil_r. repeat split; (done || lia). }
  rewrite <-Hagents. clear x agents Hagents.
  set (r0 := {| sent_count := 0; failed_count := 0; skipped_count := 0;
                dispatched := []; world := w |}).
  destruct (agents_loop_extends now (unclaimed_agents w) r0) as (records & E & Hle & F).
  { cbn. lia. }
  destruct E as [EW ED ES EF]. cbn [sent failed] in *.
  destruct (foldl_record_db w records) as (HN & HA & _).
  exists records.
  assert (Hdb : db (if redis_client
                    then (redis_set_ex now LAST_RUN_KEY (RJson "summary") 7200
                            (world (agents_loop now (unclaimed_agents w) r0))).2
                    else world (agents_loop now (unclaimed_agents w) r0))
                = db (foldl record w records)).
  { destruct redis_client; cbn [redis_set_ex with_redis snd db]; by rewrite EW. }
  rewrite Hdb. repeat split; try done.
  eapply Forall_impl; [exact F|]. intros m Hm. cbn beta in Hm.
  apply list_elem_of_fmap in Hm as ([id a] & -> & Hin).
  apply list_elem_of_filter in Hin as [[_ Hst] Hin]. apply elem_of_map_to_list in Hin.
  unfold agent_status. cbn [fst] in *. by rewrite Hin.
Qed.

(** Records are only added: what is recorded as sent stays so. *)
Lemma getSentNotifications_grows w records id t :
  t ∈ getSentNotifications w id →
  t ∈ getSentNotifications (foldl record w records) id.
Proof.
  revert w. induction records as [|m records IH]; intros w Ht; [done|].
  cbn [foldl]. apply IH. unfold getSentNotifications, record. cbn.
  rewrite omap_app. apply elem_of_app. by left.
Qed.

Lemma send_one_confirmed now id a days schedule r signature :
  channel schedule = "onchain_memo" →
  sendClaimMemo (length (dispatched r)) (source_wallet a) id (claim_url (source_wallet a))
  = Confirmed signature →
  template schedule ∈ getSentNotifications (world (send_one now id a days schedule r)) id.
Proof.
  intros Hc Hsend. unfold ClaimNotifications.send_one.
  rewrite Hc, Hsend. cbn [String.eqb Ascii.eqb Bool.eqb world].
  unfold getSentNotifications, record. cbn. rewrite omap_app. apply elem_of_app. right.
  cbn. rewrite decide_True by done. by left.
Qed.

(** When every call is confirmed and the loop ends below the ceiling,
    each template that is due is recorded as sent afterwards. *)
Lemma due_loop_records now id a days sentTemplates schedules r :
  (∀ calls wallet id url, ∃ signature, sendClaimMemo calls wallet id url = Confirmed signature) →
  Forall (λ s, channel s = "onchain_memo") schedules →
  (sent_count r ≤ MAX_SENDS_PER_HOUR)%nat →
  (sent_count (due_loop now id a days sentTemplates schedules r) < MAX_SENDS_PER_HOUR)%nat →
  ∀ s, s ∈ schedules → daysAfterCreation s ≤ days →
       template s ∈ sentTemplates
       ∨ template s ∈ getSentNotifications
                        (world (due_loop now id a days sentTemplates schedules r)) id.
Proof.
  intros Hsend Hall. revert r.
  induction Hall as [|schedule schedules Hc Hall IH]; intros r Hle Hsent s Hin Hdue.
  { by apply elem_of_nil in Hin. }
  revert Hsent. cbn [ClaimNotifications.due_loop]. unfold has.
  destruct (Z.leb_spec (daysAfterCreation schedule) days) as [Hd|Hd];
    case_bool_decide as Hs; cbn [negb andb]; intros Hsent.
  - apply elem_of_cons in Hin as [->|Hin]; [by left|]. by apply (IH (skip r)).
  - destruct (Nat.leb_spec MAX_SENDS_PER_HOUR (sent_count r)) as [Hge|Hlt]; [lia|].
    set (r1 := send_one now id a days schedule r) in *.
    assert (Hle1 : (sent_count r1 ≤ MAX_SENDS_PER_HOUR)%nat).
    { pose proof (due_loop_sent sendClaimMemo short_date now id a days sentTemplates
                    schedules r1). lia. }
    apply elem_of_cons in Hin as [->|Hin]; [|by apply IH].
    right.
    destruct (due_loop_extends now id a days sentTemplates schedules r1 Hle1)
      as (records & [-> _ _ _] & _).
    apply getSentNotifications_grows.
    destruct (Hsend (length (dispatched r)) (source_wallet a) id
                (claim_url (source_wallet a))) as [signature Hconfirmed].
    by eapply send_one_confirmed.
  - apply elem_of_cons in Hin as [->|Hin]; [by left|]. by apply (IH (skip r)).
  - apply elem_of_cons in Hin as [->|Hin]; [lia|]. by apply IH.
Qed.

Lemma agents_loop_records now agents r :
  (∀ calls wallet id url, ∃ signature, sendClaimMemo calls wallet id url = Confirmed signature) →
  (sent_count r ≤ MAX_SENDS_PER_HOUR)%nat →
  (sent_count (agents_loop now agents r) < MAX_SENDS_PER_HOUR)%nat →
  ∀ id a s, (id, a) ∈ agents → s ∈ NOTIFICATION_SCHEDULE →
            daysAfterCreation s ≤ days_since now a →
            template s ∈ getSentNotifications (world (agents_loop now agents r)) id.
Proof.
  intros Hsend. revert r.
  induction agents as [|[id' a'] agents IH]; intros r Hle Hsent id a s Hin Hs Hdue.
  { by apply elem_of_nil in Hin. }
  revert Hsent. cbn [ClaimNotifications.agents_loop].
  destruct (Nat.leb_spec MAX_SENDS_PER_HOUR (sent_count r)) as [Hge|Hlt]; [lia|].
  intros Hsent. set (r1 := notify_agent now (id', a') r) in *.
  assert (Hle1 : (sent_count r1 ≤ MAX_SENDS_PER_HOUR)%nat).
  { pose proof (agents_loop_sent sendClaimMemo short_date now agents r1). lia. }
  apply elem_of_cons in Hin as [Heq|Hin]; [|by eapply IH].
  simplify_eq.
  destruct (agents_loop_extends now agents r1 Hle1) as (records & [-> _ _ _] & _).
  apply getSentNotifications_grows.
  assert (Hbelow : (sent_count r1 < MAX_SENDS_PER_HOUR)%nat).
  { pose proof (agents_loop_sent sendClaimMemo short_date now agents r1). lia. }
  unfold r1, ClaimNotifications.notify_agent in *.
  destruct (due_loop_records now id' a' (days_since now a')
              (getSentNotifications (world r) id') NOTIFICATION_SCHEDULE r Hsend
              schedule_channels Hle Hbelow s Hs Hdue) as [Hbefore|Hafter]; [|done].
  destruct (due_loop_extends now id' a' (days_since now a')
              (getSentNotifications (world r) id') NOTIFICATION_SCHEDULE r Hle)
    as (records' & [-> _ _ _] & _).
  by apply getSentNotifications_grows.
Qed.

(** A loop that finds every due template recorded as sent calls the
    channel for none and adds no record. *)
Lemma due_loop_idle now id a days sentTemplates schedules r :
  (∀ s, s ∈ schedules → daysAfterCreation s ≤ days → template s ∈ sentTemplates) →
  let r' := due_loop now id a days sentTemplates schedules r in
  world r' = world r ∧ dispatched r' = dispatched r
  ∧ sent_count r' = sent_count r ∧ failed_count r' = failed_count r.
Proof.
  cbn zeta. revert r. induction schedules as [|schedule schedules IH]; intros r Hall; [done|].
  cbn [ClaimNotifications.due_loop]. unfold has.
  assert (Hrest : ∀ s, s ∈ schedules → daysAfterCreation s ≤ days →
                       template s ∈ sentTemplates).
  { intros s Hin. apply Hall. by right. }
  destruct (Z.leb_spec (daysAfterCreation schedule) days) as [Hd|Hd];
    case_bool_decide as Hs; cbn [negb andb].
  - by destruct (IH (skip r) Hrest) as (-> & -> & -> & ->).
  - destruct Hs. apply Hall; [by left|done].
  - by destruct (IH (skip r) Hrest) as (-> & -> & -> & ->).
  - by apply IH.
Qed.

Lemma agents_loop_idle now agents r :
  (∀ id a s, (id, a) ∈ agents → s ∈ NOTIFICATION_SCHEDULE →
             daysAfterCreation s ≤ days_since now a →
             template s ∈ getSentNotifications (world r) id) →
  let r' := agents_loop now agents r in
  world r' = world r ∧ dispatched r' = dispatched r
  ∧ sent_count r' = sent_count r ∧ failed_count r' = failed_count r.
Proof.
  cbn zeta. revert r. induction agents as [|[id a] agents IH]; intros r Hall; [done|].
  cbn [ClaimNotifications.agents_loop]. destruct (_ <=? _)%nat; [done|].
  unfold ClaimNotifications.notify_agent.
  destruct (due_loop_idle now id a (days_since now a) (getSentNotifications (world r) id)
              NOTIFICATION_SCHEDULE r) as (E1 & E2 & E3 & E4).
  { intros s Hs Hdue. apply (Hall id a s); (done || by left). }
  set (r1 := due_loop now id a _ _ _ r) in *.
  destruct (IH r1) as (-> & -> & -> & ->); [|done].
  intros id' a' s Hin Hs Hdue. rewrite E1. apply (Hall id' a' s); (done || by right).
Qed.

End MemoCronFacts.

Section MemoCronTwice.
Import Store Commands ClaimNotifications Notions Behaviour.
Variable send1 send2 : nat → string → ObjectId → string → SendResult.
Variable short_date1 short_date2 : Z → string.

(** X19: the notification cron sends nothing twice.  After a run in
    which every call of the delivery channel was confirmed and that
    ended below its ceiling of sends, a second run, made before another
    template of the schedule falls due for any agent, calls the
    channel for no agent, counts no send and no failure, and leaves
    the database as it is. *)
Theorem processNotifications_twice
    (redis1 redis2 : bool) (now1 now2 : Z) (w : World) :
  (∀ calls wallet id url, ∃ signature, send1 calls wallet id url = Confirmed signature) →
  (∀ id a s, Agent (db w) !! id = Some a → s ∈ NOTIFICATION_SCHEDULE →
             daysAfterCreation s ≤ days_since now2 a →
             daysAfterCreation s ≤ days_since now1 a) →
  let '(summary1, _, w1) := processNotifications send1 short_date1 redis1 now1 w in
  (sent summary1 < MAX_SENDS_PER_HOUR)%nat →
  let '(summary2, dispatched2, w2) := processNotifications send2 short_date2 redis2 now2 w1 in
  dispatched2 = [] ∧ sent summary2 = 0%nat ∧ failed summary2 = 0%nat ∧ db w2 = db w1.
Proof.
  intros Hsend Hdays. unfold processNotifications at 1.
  destruct (unclaimed_agents w) as [|x agents] eqn:Hagents.
  { intros _. unfold processNotifications. by rewrite Hagents. }
  rewrite <-Hagents.
  set (r0 := {| sent_count := 0; failed_count := 0; skipped_count := 0;
                dispatched := []; world := w |}).
  set (r1 := agents_loop send1 short_date1 now1 (unclaimed_agents w) r0).
  set (w1 := if redis1 then _ else _). cbn [sent]. intros Hbelow.
  assert (Hdb : db w1 = db (world r1)) by (unfold w1; by destruct redis1).
  destruct (agents_loop_extends send1 short_date1 now1 (unclaimed_agents w) r0)
    as (records & [EW _ _ _] & _); [cbn; lia|].
  fold r1 in EW. cbn [world r0] in EW.
  destruct (foldl_record_db w records) as (_ & HA & _). rewrite <-EW in HA.
  assert (Hsame : unclaimed_agents w1 = unclaimed_agents w).
  { unfold unclaimed_agents. by rewrite Hdb, HA. }
  unfold processNotifications. rewrite Hsame, Hagents, <-Hagents.
  set (r0' := {| sent_count := 0; failed_count := 0; skipped_count := 0;
                 dispatched := []; world := w1 |}).
  destruct (agents_loop_idle send2 short_date2 now2 (unclaimed_agents w) r0')
    as (E1 & E2 & E3 & E4).
  { intros id a s Hin Hs Hdue. cbn [world r0'].
    unfold getSentNotifications. rewrite Hdb.
    apply (agents_loop_records send1 short_date1 now1 (unclaimed_agents w) r0 Hsend)
      with (a := a); try done; [cbn; lia|].
    apply list_elem_of_filter in Hin as [_ Hin]. apply elem_of_map_to_list in Hin.
    by eapply Hdays. }
  cbn [sent failed]. rewrite E2, E3, E4. repeat split; try done.
  destruct redis2; cbn [redis_set_ex with_redis snd db]; by rewrite E1.
Qed.

End MemoCronTwice.

Section MemoSendingFacts.
Import SolanaSignature Store ClaimNotifications MemoSending Behaviour.
Variable TREASURY_PRIVATE_KEY : option string.
Variable Keypair_fromSecretKey : list N → string + list N.
Variable bs58_error PublicKey_error : string.
Variable sendAndConfirmTransaction : nat → MemoTransaction → string + string.

Local Abbreviation loadTreasuryKeypair :=
  (loadTreasuryKeypair TREASURY_PRIVATE_KEY Keypair_fromSecretKey bs58_error).
Local Abbreviation sendClaimMemo :=
  (sendClaimMemo TREASURY_PRIVATE_KEY Keypair_fromSecretKey bs58_error PublicKey_error
     sendAndConfirmTransaction).

Lemma length_append (s t : string) :
  String.length (s +:+ t) = (String.length s + String.length t)%nat.
Proof.
  induction s as [|c s IH]; [done|].
  change (String c s +:+ t) with (String c (s +:+ t)). cbn [String.length]. by rewrite IH.
Qed.

Lemma length_substring (n : nat) (s : string) :
  (String.length (String.substring 0 n s) ≤ n)%nat.
Proof.
  revert s. induction n as [|n IH]; intros [|c s]; cbn; try lia.
  specialize (IH s). lia.
Qed.

Lemma claim_memo_length (claimUrl : string) :
  (String.length (claim_memo claimUrl) ≤ MAX_MEMO_LENGTH)%nat.
Proof.
  unfold claim_memo. cbn zeta.
  destruct (Nat.ltb_spec MAX_MEMO_LENGTH
              (String.length ("Your AI agent is live on KLIK! Claim it: " +:+ claimUrl)))
    as [Hlong|Hshort]; [|done].
  rewrite length_append.
  pose proof (length_substring (MAX_MEMO_LENGTH - 3)
                ("Your AI agent is live on KLIK! Claim it: " +:+ claimUrl)).
  unfold MAX_MEMO_LENGTH in *. cbn [String.length] in *. lia.
Qed.

(** X20: the memo that is sent.  The text of a memo never exceeds 200
    characters, whatever the claim URL.  For a wallet that
    [isValidSolanaAddress] accepts and the claim URL of that wallet,
    [sendClaimMemo] with a treasury key that loads does not throw: it
    submits one transaction, which moves 1000 lamports from the
    treasury to the key the wallet address encodes and carries the
    whole text with the whole URL (at most 116 characters, nothing cut
    off), and it reports what the submission gave. *)
Theorem sendClaimMemo_valid_wallet :
  (∀ claimUrl, (String.length (claim_memo claimUrl) ≤ 200)%nat)
  ∧ ∀ (calls : nat) (wallet : string) (agentId : ObjectId) (treasury : list N),
      loadTreasuryKeypair = inr treasury →
      isValidAddress (JsString wallet) = true →
      ∃ key,
        length key = 32%nat ∧ bs58_encode key = wallet
        ∧ let text := "Your AI agent is live on KLIK! Claim it: "
                        +:+ "https://klik.cool/claim?wallet=" +:+ wallet in
          let tx := {| fromPubkey := treasury; toPubkey := key; lamports := 1000;
                       memo_signer := treasury; memo_data := text |} in
          (String.length text ≤ 116)%nat
          ∧ sendClaimMemo calls wallet agentId (claim_url wallet)
            = match sendAndConfirmTransaction calls tx with
              | inr signature => Confirmed signature
              | inl err => Rejected err
              end.
Proof.
  split; [apply claim_memo_length|].
  intros calls wallet agentId treasury Htreasury Hvalid.
  unfold isValidAddress, isValidSolanaAddress in Hvalid.
  destruct (String.eqb wallet ""); [done|].
  destruct (address_regex wallet) eqn:Hregex; [|done]. cbn [negb] in Hvalid.
  destruct (PublicKey_of_string wallet) as [key|] eqn:Hkey; [|done].
  apply String.eqb_eq in Hvalid. unfold PublicKey_toBase58 in Hvalid.
  exists key. split.
  { unfold PublicKey_of_string in Hkey. destruct (bs58_decode wallet); [|done].
    cbn in Hkey. case_decide; by simplify_eq. }
  split; [done|]. cbn zeta.
  assert (Hlen : (String.length wallet ≤ 44)%nat).
  { unfold address_regex in Hregex. rewrite !andb_true_iff in Hregex.
    destruct Hregex as [[_ Hle] _]. by apply Nat.leb_le in Hle. }
  assert (Htext : (String.length ("Your AI agent is live on KLIK! Claim it: "
                                    +:+ "https://klik.cool/claim?wallet=" +:+ wallet)
                   ≤ 116)%nat).
  { rewrite !length_append. cbn [String.length]. lia. }
  split; [done|].
  unfold MemoSending.sendClaimMemo. rewrite Htreasury, Hkey.
  unfold claim_memo, claim_url. cbn zeta.
  destruct (Nat.ltb_spec MAX_MEMO_LENGTH
              (String.length ("Your AI agent is live on KLIK! Claim it: "
                                +:+ "https://klik.cool/claim?wallet=" +:+ wallet)))
    as [Hlong|_]; [unfold MAX_MEMO_LENGTH in Hlong; lia|].
  done.
Qed.

End MemoSendingFacts.

Section OrphanRoutesFacts.
Import SolanaSignature Store Commands Async ClaimRateLimit ClaimRoutes OrphanRoutes
  Notions Behaviour.
Variable status_DELETED : ObjectId → bool.
Variable nacl : list ascii → list N → list N → bool.

Local Abbreviation adopt := (adopt status_DELETED).

Ltac run_step := rewrite ?run_bind, ?run_await, ?run_ret; cbn [fst snd].

(** X21: what an adoption does, and to which agents.  The adoption
    route answers with the adoption only for a wallet agent that is
    ORPHANED and a user who has a free slot; the agent is then ADOPTED
    and owned by the user, no other agent is changed, and the audit log
    has one more entry, [ADOPTED].  Whenever it answers anything else
    it has changed nothing at all: no agent that is UNCLAIMED, CLAIMED
    or ADOPTED is ever taken over through it. *)
Theorem adopt_only_orphaned (env : Env) (user : UserDoc) (agentId : string) (w : World) :
  let '(reply, w') := run (adopt env user agentId) w in
  (∀ id at_, reply = AdoptedReply id at_ →
     ∃ a, parse_ObjectId (JsString agentId) = Some id ∧ at_ = now env
          ∧ Agent (db w) !! id = Some a
          ∧ isWalletAgent a = true ∧ wad_status a = Some ORPHANED
          ∧ Agent (db w') = <[id := set_adopted (now env) (user_id user) a]> (Agent (db w))
          ∧ status_of w' id = Some ADOPTED
          ∧ (Agent (db w') !! id ≫= userId) = Some (user_id user)
          ∧ ∃ entry, wallet_agent_claims (db w') = wallet_agent_claims (db w) ++ [entry]
                     ∧ log_action entry = "ADOPTED" ∧ log_agentId entry = Some id
                     ∧ log_userId entry = Some (user_id user))
  ∧ ((∀ id at_, reply ≠ AdoptedReply id at_) → w' = w).
Proof.
  unfold OrphanRoutes.adopt.
  destruct (db_handle env); cbn [negb]; [|by rewrite run_ret].
  destruct (parse_ObjectId (JsString agentId)) as [id|]; [|by rewrite run_ret].
  cbn zeta. run_step. change (count_agents ?P w).2 with w.
  destruct (_ <=? _)%N; [by rewrite run_ret|].
  run_step. unfold find_agent_and_update.
  destruct (Agent (db w) !! id) as [a|] eqn:Ha; cbn [fst snd]; [|by rewrite run_ret].
  destruct (adoptable a) eqn:Hadoptable; cbn [fst snd]; [|by rewrite run_ret].
  run_step.
  match goal with
  | |- context [run ?t ?w0] =>
      assert (Hpub : db (run t w0).2 = db w0) by (by destruct (redis_client env));
      destruct (run t w0) as [[] w2]
  end.
  cbn [fst snd] in *. split; [|intros Hno; by destruct (Hno id (now env))].
  intros id' at_ [= <- <-]. exists a.
  unfold adoptable in Hadoptable. rewrite andb_true_iff, bool_decide_eq_true in Hadoptable.
  destruct Hadoptable as [Hwa Hst].
  rewrite Hpub. unfold status_of. rewrite Hpub. cbn. rewrite lookup_insert_eq. cbn.
  repeat split; try done.
  - unfold wad_status in *. cbn. by destruct (walletAgentData a).
  - by eexists.
Qed.

Lemma count_agents_positive P id a w :
  Agent (db w) !! id = Some a → P id a = true → (1 ≤ (count_agents P w).1)%N.
Proof.
  intros Ha HP. unfold count_agents. cbn [fst].
  assert (Hin : (id, a) ∈ filter (λ p, P p.1 p.2 = true) (map_to_list (Agent (db w)))).
  { apply list_elem_of_filter. split; [done|]. by apply elem_of_map_to_list. }
  destruct (filter _ _); [by apply elem_of_nil in Hin|]. cbn [length]. lia.
Qed.

(** X22: the wallet that has claimed its agent cannot adopt.  After a
    claim was answered with success, a request of the user of that
    claim to adopt any agent is answered [AGENT_LIMIT_REACHED], with a
    limit of at most one agent and a count of at least one, and changes
    nothing, as long as the user is on the starter tier the claim gives
    (or on the free tier, or on none) and the claimed agent is not
    marked as deleted: the claimed agent fills the one slot. *)
Theorem claimant_cannot_adopt
    (env env' : Env) (wallet agentId signature nonce : JsValue) (w w' : World)
    (id user : ObjectId) (rank : option N) (u : UserDoc) (target : string) :
  run (verifyClaim nacl env wallet agentId signature nonce) w = (ClaimReply id user rank, w') →
  user_id u = user →
  user_subscriptionTier u ∈ [""; "free"; "starter"] →
  status_DELETED id = false →
  db_handle env' = true →
  is_Some (parse_ObjectId (JsString target)) →
  ∃ current limit tier,
    run (adopt env' u target) w' = (LimitReached current limit tier, w')
    ∧ (limit ≤ 1 ≤ current)%N.
Proof.
  intros Hrun Hu Htier Hdeleted Hdb [tid Htid].
  destruct (verifyClaim_claimed nacl _ _ _ _ _ _ _ _ _ _ Hrun) as (Hreach & a & Ha & Hc).
  pose proof (verifyClaim_world nacl env wallet agentId signature nonce w id a Hreach Ha Hc)
    as Hworld.
  cbn zeta in Hworld. rewrite Hrun in Hworld.
  destruct Hworld as (Hreply & Hagents & _). injection Hreply as Huser Hrank.
  unfold OrphanRoutes.adopt. rewrite Hdb, Htid. cbn [negb]. cbn zeta. run_step.
  change (count_agents ?P w').2 with w'.
  match goal with
  | |- context [count_agents ?P w'] =>
      assert (Hcount : (1 ≤ (count_agents P w').1)%N);
      [|set (current := (count_agents P w').1) in *]
  end.
  { destruct (claimed_count w + 1 <=? 5000)%N;
      (eapply count_agents_positive;
       [rewrite Hagents; apply lookup_insert_eq|]; cbn;
       rewrite Hdeleted, andb_true_r; apply bool_decide_eq_true; congruence). }
  match goal with
  | |- context [(?limit <=? current)%N] =>
      assert (Hlimit : (limit ≤ 1)%N);
      [|set (effectiveMax := limit) in *]
  end.
  { rewrite !elem_of_cons, elem_of_nil in Htier.
    destruct Htier as [->|[->|[->|[]]]]; cbn; destruct (String.eqb _ "wallet_claim"); lia. }
  destruct (N.leb_spec effectiveMax current) as [_|Hlt]; [|lia].
  run_step. by eexists _, _, _.
Qed.

Lemma find_watcher_Some user agent w wid x :
  find_watcher user agent w = Some (wid, x) →
  orphan_watchlist (db w) !! wid = Some x
  ∧ watcher_userId x = user ∧ watcher_agentId x = agent.
Proof.
  unfold find_watcher. intros Hfind.
  apply head_Some_elem_of, list_elem_of_filter in Hfind as [[? ?] Hin].
  by apply elem_of_map_to_list in Hin.
Qed.

Lemma find_watcher_None user agent w :
  find_watcher user agent w = None →
  ∀ wid x, orphan_watchlist (db w) !! wid = Some x →
           ¬ (watcher_userId x = user ∧ watcher_agentId x = agent).
Proof.
  unfold find_watcher. intros Hfind wid x Hx Hmatch. apply head_None in Hfind.
  assert (Hin : (wid, x) ∈ filter (λ x, watcher_userId x.2 = user ∧ watcher_agentId x.2 = agent)
                          (map_to_list (orphan_watchlist (db w)))).
  { apply list_elem_of_filter. split; [done|]. by apply elem_of_map_to_list. }
  rewrite Hfind in Hin. by apply elem_of_nil in Hin.
Qed.

(** After an insertion under a new key, the entry found for the user
    and the agent is the one inserted, when none was there before. *)
Lemma find_watcher_inserted user agent w w' k x :
  find_watcher user agent w = None →
  orphan_watchlist (db w) !! k = None →
  orphan_watchlist (db w') = <[k := x]> (orphan_watchlist (db w)) →
  watcher_userId x = user → watcher_agentId x = agent →
  find_watcher user agent w' = Some (k, x).
Proof.
  intros Hnone Hfresh Hw' Hu Ha. unfold find_watcher in *. rewrite Hw'.
  apply head_None in Hnone.
  assert (Hperm : filter (λ x, watcher_userId x.2 = user ∧ watcher_agentId x.2 = agent)
                    (map_to_list (<[k := x]> (orphan_watchlist (db w))))
                  ≡ₚ [(k, x)]).
  { rewrite map_to_list_insert by done. rewrite filter_cons, decide_True by done.
    by rewrite Hnone. }
  apply Permutation_singleton_r in Hperm. by rewrite Hperm.
Qed.

(** X23: the watchlist.  The watch route accepts only a wallet agent
    that is neither ORPHANED, CLAIMED nor ADOPTED (an agent with no
    claim status counts as UNCLAIMED); it then adds one entry, not yet
    notified, for the user and the agent, unless the user watches the
    agent already, in which case it changes nothing; asking again is
    answered [alreadyWatching] and changes nothing; and when the entry
    was added under a key that was free, the unwatch route removes
    just that entry, which gives the watchlist back as it was. *)
Theorem watch_then_unwatch
    (env env' : Env) (user : UserDoc) (agentId : string) (w : World) :
  let '(reply, w') := run (watch env user agentId) w in
  (∀ already, reply = WatchReply already →
     ∃ id a, parse_ObjectId (JsString agentId) = Some id
             ∧ Agent (db w) !! id = Some a ∧ isWalletAgent a = true
             ∧ (default UNCLAIMED (wad_status a) ∉ [ORPHANED; CLAIMED; ADOPTED])
             ∧ Agent (db w') = Agent (db w)
             ∧ (if already
                then w' = w ∧ is_Some (find_watcher (user_id user) id w)
                else find_watcher (user_id user) id w = None
                     ∧ orphan_watchlist (db w')
                       = <[next_id (db w) :=
                             {| watcher_userId := user_id user; watcher_agentId := id;
                                Store.notified := false; notifiedAt := None |}]>
                           (orphan_watchlist (db w)))
             ∧ (db_handle env' = true →
                run (watch env' user agentId) w' = (WatchReply true, w'))
             ∧ (already = false → db_handle env' = true →
                orphan_watchlist (db w) !! next_id (db w) = None →
                let '(reply', w'') := run (unwatch env' user agentId) w' in
                reply' = UnwatchReply
                ∧ orphan_watchlist (db w'') = orphan_watchlist (db w)))
  ∧ ((∀ already, reply ≠ WatchReply already) → w' = w).
Proof.
  unfold watch at 1.
  destruct (db_handle env); cbn [negb]; [|by rewrite run_ret].
  destruct (parse_ObjectId (JsString agentId)) as [id|] eqn:Hid; [|by rewrite run_ret].
  run_step. change (find_agent ?P w).2 with w.
  destruct (find_agent _ w).1 as [[i a]|] eqn:Hfind; [|by rewrite run_ret].
  unfold find_agent in Hfind. cbn [fst] in Hfind.
  apply head_Some_elem_of, list_elem_of_filter in Hfind as [Hfilter Hin].
  cbn [fst snd] in Hfilter. apply elem_of_map_to_list in Hin.
  apply andb_true_iff in Hfilter as [Hi Hwa]. apply bool_decide_eq_true in Hi as ->.
  cbn zeta.
  case_bool_decide as Horph; [by rewrite run_ret|].
  case_bool_decide as Hclaimed; cbn [orb]; [by rewrite run_ret|].
  case_bool_decide as Hadopted; [by rewrite run_ret|].
  run_step.
  assert (Hagain : ∀ w', Agent (db w') = Agent (db w) →
            is_Some (find_watcher (user_id user) id w') →
            db_handle env' = true →
            run (watch env' user agentId) w' = (WatchReply true, w')).
  { intros w' Hagents [[wid x] Hfound] Hdb. unfold watch. rewrite Hdb, Hid. cbn [negb].
    run_step. unfold find_agent. cbn [fst snd]. rewrite Hagents.
    assert (Hhead : head (filter (λ p : ObjectId * AgentDoc,
                                    bool_decide (p.1 = id) && isWalletAgent p.2 = true)
                            (map_to_list (Agent (db w)))) = Some (id, a)).
    { destruct (head _) as [[i' a']|] eqn:Hhead.
      - apply head_Some_elem_of, list_elem_of_filter in Hhead as [Hf Hin'].
        cbn [fst snd] in Hf. apply elem_of_map_to_list in Hin'.
        apply andb_true_iff in Hf as [Hi' _]. apply bool_decide_eq_true in Hi' as ->.
        by simplify_eq.
      - apply head_None in Hhead.
        assert ((id, a) ∈ filter (λ p : ObjectId * AgentDoc,
                                    bool_decide (p.1 = id) && isWalletAgent p.2 = true)
                            (map_to_list (Agent (db w)))) as Hin'.
        { apply list_elem_of_filter. split; [|by apply elem_of_map_to_list].
          cbn. by rewrite bool_decide_true, Hwa. }
        rewrite Hhead in Hin'. by apply elem_of_nil in Hin'. }
    rewrite Hhead. cbn zeta.
    rewrite !bool_decide_false by done. cbn [orb]. run_step.
    unfold upsert_watcher. by rewrite Hfound. }
  unfold upsert_watcher.
  destruct (find_watcher (user_id user) id w) as [[wid x]|] eqn:Hwatch; cbn [fst snd negb].
  - split; [|intros Hno; exfalso; by apply (Hno true)].
    intros already [= <-]. exists id, a.
    split; [done|]. split; [done|]. split; [done|]. split.
    { rewrite !not_elem_of_cons. repeat split; try done. apply not_elem_of_nil. }
    split; [done|]. split; [split; [done|by eexists]|]. split; [|done].
    intros Hdb. apply Hagain; [done| |done]. by eexists.
  - split; [|intros Hno; exfalso; by apply (Hno false)].
    intros already [= <-]. exists id, a.
    set (entry := {| watcher_userId := user_id user; watcher_agentId := id;
                     Store.notified := false; notifiedAt := None |}).
    set (w' := with_db _ w).
    split; [done|]. split; [done|]. split; [done|]. split.
    { rewrite !not_elem_of_cons. repeat split; try done. apply not_elem_of_nil. }
    split; [done|]. split; [done|]. split.
    + intros Hdb. apply Hagain; [done| |done].
      destruct (decide (orphan_watchlist (db w) !! next_id (db w) = None)) as [Hfresh|Hused].
      * exists (next_id (db w), entry).
        by apply (find_watcher_inserted _ _ w w' (next_id (db w)) entry).
      * unfold find_watcher. destruct (head _) as [p|] eqn:Hhead; [by eexists|].
        apply head_None in Hhead.
        assert ((next_id (db w), entry)
                ∈ filter (λ x, watcher_userId x.2 = user_id user ∧ watcher_agentId x.2 = id)
                    (map_to_list (orphan_watchlist (db w')))) as Hin'.
        { apply list_elem_of_filter. split; [done|]. apply elem_of_map_to_list.
          unfold w'. cbn. apply lookup_insert_eq. }
        rewrite Hhead in Hin'. by apply elem_of_nil in Hin'.
    + intros _ Hdb Hfresh. unfold unwatch. rewrite Hdb, Hid. cbn [negb]. run_step.
      unfold delete_watcher.
      rewrite (find_watcher_inserted _ _ w w' (next_id (db w)) entry) by done.
      cbn [fst snd]. run_step. split; [done|]. unfold w'. cbn.
      by apply delete_insert_id.
Qed.

End OrphanRoutesFacts.

Section LifecycleFacts.
Import SolanaSignature Store Commands Async ClaimRateLimit ClaimRoutes OrphanRoutes
  Notions Behaviour.
Variable nacl : list ascii → list N → list N → bool.

Lemma status_moves_refl s : status_moves s s.
Proof. by left. Qed.

Lemma status_moves_trans s1 s2 s3 :
  status_moves s1 s2 → status_moves s2 s3 → status_moves s1 s3.
Proof.
  unfold status_moves. rewrite !elem_of_cons, !elem_of_nil.
  intros [->|[[-> H1]|[-> ->]]] [->|[[H2 H3]|[H2 ->]]]; subst; try discriminate;
    try (destruct H1 as [H1|[H1|[H1|[]]]]; subst; try discriminate);
    try (destruct H3 as [H3|[H3|[H3|[]]]]; subst; try discriminate);
    auto 10.
Qed.

Lemma lifecycle_preorder deleting : PreOrder (lifecycle deleting).
Proof.
  split.
  - intros w id. destruct (Agent (db w) !! id); [apply status_moves_refl|done].
  - intros w1 w2 w3 H12 H23 id. specialize (H12 id). specialize (H23 id).
    destruct (Agent (db w1) !! id), (Agent (db w2) !! id), (Agent (db w3) !! id);
      try done. by eapply status_moves_trans.
Qed.
#[local] Existing Instance lifecycle_preorder.

Lemma lifecycle_same deleting w w' : Agent (db w') = Agent (db w) → lifecycle deleting w w'.
Proof. intros E id. rewrite E. destruct (Agent (db w) !! id); [by left|done]. Qed.

Lemma lifecycle_weaken w w' : lifecycle false w w' → lifecycle true w w'.
Proof. intros H id. specialize (H id). by repeat case_match. Qed.

(** The writes to an agent. *)
Lemma lifecycle_alter deleting f id w :
  (∀ a, wad_status (f a) = wad_status a) →
  lifecycle deleting w (update_agent id f w).2.
Proof.
  intros Hf i. unfold update_agent. cbn. rewrite lookup_alter.
  case_decide; [subst|]; destruct (Agent (db w) !! i); cbn; try done.
  - rewrite Hf. by left.
  - by left.
Qed.

Lemma lifecycle_update deleting id P f w :
  (∀ a, P a = true → status_moves (wad_status a) (wad_status (f a))) →
  lifecycle deleting w (find_agent_and_update id P f w).2.
Proof.
  intros Hf. unfold find_agent_and_update.
  destruct (Agent (db w) !! id) as [a|] eqn:Ha; [|by apply lifecycle_same].
  destruct (P a) eqn:HP; [|by apply lifecycle_same].
  intros i. cbn. destruct (decide (i = id)) as [->|Hne].
  - rewrite Ha, lookup_insert_eq. by apply Hf.
  - rewrite lookup_insert_ne by done. destruct (Agent (db w) !! i); [by left|done].
Qed.

Lemma lifecycle_delete id w : lifecycle true w (delete_agent id w).2.
Proof.
  intros i. unfold delete_agent. cbn. rewrite lookup_delete.
  case_decide; destruct (Agent (db w) !! i); try done. by left.
Qed.

Lemma claimable_by_moves wallet now signature nonce a :
  claimable_by wallet a = true →
  status_moves (wad_status a) (wad_status (set_claimed now wallet signature nonce a)).
Proof.
  unfold claimable_by. rewrite !andb_true_iff, !bool_decide_eq_true. intros [[_ Hst] _].
  right. left. split; [done|]. unfold wad_status in *. cbn.
  destruct (walletAgentData a); [|done]. cbn. by left.
Qed.

Lemma adoptable_moves now user a :
  adoptable a = true →
  status_moves (wad_status a) (wad_status (set_adopted now user a)).
Proof.
  unfold adoptable. rewrite andb_true_iff, bool_decide_eq_true. intros [_ Hst].
  right. right. split; [done|]. unfold wad_status in *. cbn.
  by destruct (walletAgentData a).
Qed.

Ltac walk :=
  cbn zeta;
  repeat match goal with
  | |- future _ _ (if ?b then _ else _) => destruct b
  | |- future _ _ (match ?x with _ => _ end) => destruct x
  | |- future _ _ (_ ≫= _) => eapply (future_bind _ (fun _ => True)); [|intros ? _]
  | |- future _ _ (await _) => apply future_await; intros ?; split; [|exact I]
  | |- future _ _ (mret _) => exact I
  | |- future _ _ (Ret _) => exact I
  end.

Ltac settle :=
  lazymatch goal with
  | |- lifecycle _ _ (update_agent _ _ _).2 =>
      apply lifecycle_alter; auto using set_owner_status, set_founding_status
  | |- lifecycle _ _ (find_agent_and_update _ (claimable_by _) _ _).2 =>
      apply lifecycle_update; apply claimable_by_moves
  | |- lifecycle _ _ (find_agent_and_update _ adoptable _ _).2 =>
      apply lifecycle_update; apply adoptable_moves
  | |- lifecycle _ _ (delete_agent _ _).2 => apply lifecycle_delete
  | |- lifecycle _ _ (insert_opt_out _ _).2 =>
      apply lifecycle_same; unfold insert_opt_out; by case_decide
  | |- lifecycle _ _ _ => apply lifecycle_same; try done
  end.

Lemma recordFailedClaimAttempt_lifecycle deleting env wallet :
  future (lifecycle deleting) (fun _ => True) (recordFailedClaimAttempt env wallet).
Proof.
  unfold recordFailedClaimAttempt. walk; settle.
  - by rewrite (proj1 (attempt_incr_frame env _ _)).
  - by rewrite (proj1 (attempt_expire_frame env _ _ _)).
Qed.

Lemma guarded_lifecycle deleting env wallet (handler : Task World Reply) w :
  future (lifecycle deleting) (fun _ => True) handler →
  lifecycle deleting w (run (guarded env wallet handler) w).2.
Proof.
  intros Hh. rewrite guarded_run.
  destruct (detectClaimAbuse_frame env wallet w) as (Hdb & _).
  assert (H1 : lifecycle deleting w (run (detectClaimAbuse env wallet) w).2)
    by (apply lifecycle_same; by rewrite Hdb).
  destruct (run (detectClaimAbuse env wallet) w).1; [done|].
  etrans; [exact H1|]. by apply (future_run (lifecycle deleting) (fun _ => True)).
Qed.

Lemma check_lifecycle env wallet :
  future (lifecycle false) (fun _ => True) (check env wallet).
Proof. unfold check. walk; settle. Qed.

Lemma issueClaimNonce_lifecycle env wallet agentId :
  future (lifecycle false) (fun _ => True) (issueClaimNonce env wallet agentId).
Proof. unfold issueClaimNonce. walk; settle. Qed.

Lemma verifyClaim_lifecycle env wallet agentId signature nonce :
  future (lifecycle false) (fun _ => True)
    (verifyClaim nacl env wallet agentId signature nonce).
Proof.
  unfold verifyClaim, claim_gate, claim_succeeded.
  repeat (walk; try apply recordFailedClaimAttempt_lifecycle); settle.
Qed.

Lemma optOutNonce_lifecycle env wallet :
  future (lifecycle false) (fun _ => True) (optOutNonce env wallet).
Proof. unfold optOutNonce. walk; settle. Qed.

Lemma optOut_lifecycle env wallet signature nonce :
  future (lifecycle true) (fun _ => True) (optOut nacl env wallet signature nonce).
Proof.
  unfold optOut, delete_everything. walk; settle.
Qed.

Lemma adopt_lifecycle status_DELETED env user agentId :
  future (lifecycle false) (fun _ => True) (adopt status_DELETED env user agentId).
Proof. unfold adopt. walk; settle. Qed.

Lemma watch_lifecycle env user agentId :
  future (lifecycle false) (fun _ => True) (watch env user agentId).
Proof.
  unfold watch. walk; settle. unfold upsert_watcher. by case_match.
Qed.

Lemma unwatch_lifecycle env user agentId :
  future (lifecycle false) (fun _ => True) (unwatch env user agentId).
Proof.
  unfold unwatch. walk; settle. unfold delete_watcher. by repeat case_match.
Qed.

Lemma processOrphanTransitions_lifecycle broken redis_ready now w :
  lifecycle false w (OrphanTransition.processOrphanTransitions broken redis_ready now w).2.
Proof.
  destruct (processOrphanTransitions_swept broken redis_ready now w) as (HA & _).
  intros id. destruct (HA id) as [->|(a & -> & Hexp & ->)].
  - destruct (Agent (db w) !! id); [by left|done].
  - right. left. apply expired_is_unclaimed in Hexp. split; [done|].
    unfold wad_status in *. cbn. destruct (walletAgentData a); [|done]. cbn.
    rewrite !elem_of_cons. auto.
Qed.

(** One operation of the code. *)
Lemma perform_lifecycle w op :
  of_the_code op →
  lifecycle true w (perform nacl w op)
  ∧ (¬ opt_out_sent op → lifecycle false w (perform nacl w op)).
Proof.
  assert (Hboth : lifecycle false w (perform nacl w op) →
                  lifecycle true w (perform nacl w op)
                  ∧ (¬ opt_out_sent op → lifecycle false w (perform nacl w op))).
  { intros H. split; [by apply lifecycle_weaken|done]. }
  destruct op as [[]| | |]; cbn [of_the_code]; intros Hcode; try done;
    cbn [perform happen] in *.
  - apply Hboth. by apply (future_run (lifecycle false) (fun _ => True)), check_lifecycle.
  - apply Hboth, guarded_lifecycle, issueClaimNonce_lifecycle.
  - apply Hboth, guarded_lifecycle, verifyClaim_lifecycle.
  - apply Hboth, guarded_lifecycle, optOutNonce_lifecycle.
  - split; [apply guarded_lifecycle, optOut_lifecycle|]. intros Hno. by destruct Hno.
  - apply Hboth, processOrphanTransitions_lifecycle.
  - apply Hboth, lifecycle_same, processNotifications_agents.
  - by apply Hboth, lifecycle_same.
  - apply Hboth. by apply (future_run (lifecycle false) (fun _ => True)), adopt_lifecycle.
  - apply Hboth. by apply (future_run (lifecycle false) (fun _ => True)), watch_lifecycle.
  - apply Hboth. by apply (future_run (lifecycle false) (fun _ => True)), unwatch_lifecycle.
Qed.

(** X25: the life of an agent.  Through any sequence of requests to
    the claim, opt-out, adoption and watchlist routes and of runs of
    the two crons, no agent appears, and the claim status of an agent
    changes only from UNCLAIMED to CLAIMED, from UNCLAIMED to ORPHANED
    and from ORPHANED to ADOPTED: an agent that is CLAIMED or ADOPTED
    keeps its status as long as it exists, and an agent with no claim
    status is never given one.  An agent disappears only through an
    opt-out request: without one, every agent is still there. *)
Theorem claim_status_lifecycle (ops : list Operation) (w : World) :
  Forall of_the_code ops →
  let w' := foldl (perform nacl) w ops in
  (∀ id a', Agent (db w') !! id = Some a' →
            ∃ a, Agent (db w) !! id = Some a
                 ∧ status_moves (wad_status a) (wad_status a'))
  ∧ (Forall (λ op, ¬ opt_out_sent op) ops →
     ∀ id a, Agent (db w) !! id = Some a → is_Some (Agent (db w') !! id)).
Proof.
  intros Hops. cbn zeta.
  assert (Hall : lifecycle true w (foldl (perform nacl) w ops)
                 ∧ (Forall (λ op, ¬ opt_out_sent op) ops →
                    lifecycle false w (foldl (perform nacl) w ops))).
  { revert w. induction Hops as [|op ops Hop Hops IH]; intros w; cbn [foldl].
    { split; [done|]. intros _. done. }
    destruct (perform_lifecycle w op Hop) as [H1 H1'].
    destruct (IH (perform nacl w op)) as [H2 H2'].
    split; [by etrans|].
    intros [Hno Hnone]%Forall_cons. etrans; [by apply H1'|by apply H2']. }
  destruct Hall as [Htrue Hfalse]. split.
  - intros id a' Ha'. specialize (Htrue id). rewrite Ha' in Htrue.
    destruct (Agent (db w) !! id) as [a|]; [by exists a|done].
  - intros Hnone id a Ha. specialize (Hfalse Hnone id). rewrite Ha in Hfalse.
    destruct (Agent (db _) !! id); [by eexists|done].
Qed.

End LifecycleFacts.

Section BatchFacts.
Import SolanaSignature Store ClaimNotifications MemoSending Behaviour.
Variable sendClaimMemo : nat → string → ObjectId → string → SendResult.
Variable insertOne_error : nat → option string.
Variable clock : nat → Z.

Local Abbreviation batch_task := (batch_task sendClaimMemo insertOne_error clock).
Local Abbreviation run_batch := (run_batch sendClaimMemo insertOne_error clock).
Local Abbreviation batches := (batches sendClaimMemo insertOne_error clock).
Local Abbreviation sendBatchMemos := (sendBatchMemos sendClaimMemo insertOne_error clock).

Lemma run_batch_app position l1 l2 st :
  run_batch position (l1 ++ l2) st
  = run_batch (position + length l1) l2 (run_batch position l1 st).
Proof.
  revert position st. induction l1 as [|a l1 IH]; intros position st; cbn.
  { by rewrite Nat.add_0_r. }
  rewrite IH. f_equal. lia.
Qed.

(** With a concurrency of one or more, the loop ends within as many
    rounds as agents are left, and gives what one pass over them
    gives. *)
Lemma batches_all fuel agents concurrency i st :
  (1 ≤ concurrency)%nat → (length agents - i ≤ fuel)%nat →
  batches fuel agents concurrency i st = Some (run_batch i (drop i agents) st).
Proof.
  intros Hc. revert i st. induction fuel as [|fuel IH]; intros i st Hfuel.
  - cbn [MemoSending.batches].
    destruct (Nat.ltb_spec i (length agents)) as [Hlt|Hge]; [lia|].
    by rewrite drop_ge by lia.
  - cbn [MemoSending.batches].
    destruct (Nat.ltb_spec i (length agents)) as [Hlt|Hge].
    2:{ by rewrite drop_ge by lia. }
    rewrite IH by lia.
    rewrite <-(take_drop concurrency (drop i agents)) at 2.
    rewrite run_batch_app, drop_drop. f_equal.
    destruct (decide (i + concurrency ≤ length agents)%nat) as [Hle|Hgt].
    + rewrite length_take, length_drop. f_equal. lia.
    + by rewrite !drop_ge by lia.
Qed.

Lemma batches_stuck fuel agents i st :
  (i < length agents)%nat → batches fuel agents 0 i st = None.
Proof.
  intros Hlt. revert st. induction fuel as [|fuel IH]; intros st; cbn [MemoSending.batches];
    destruct (Nat.ltb_spec i (length agents)) as [_|Hge]; try lia; [done|].
  rewrite Nat.add_0_r. apply IH.
Qed.

Lemma run_batch_counts position batch st :
  let st' := run_batch position batch st in
  total st'.1 = total st.1
  ∧ (succeeded st'.1 + MemoSending.failed st'.1
     = succeeded st.1 + MemoSending.failed st.1 + length batch)%nat
  ∧ length (results st'.1) = (length (results st.1) + length batch)%nat
  ∧ length st'.2 = (length st.2 + length batch)%nat.
Proof.
  cbn zeta. revert position st. induction batch as [|a batch IH]; intros position st; cbn.
  { repeat split; lia. }
  destruct (IH (S position) (count_result st (batch_task position a))) as (-> & -> & -> & ->).
  destruct st as [summary records]. unfold count_result.
  destruct (batch_task position a) as [[value|reason] record]; [destruct (success value)|];
    cbn; rewrite !length_app; cbn; repeat split; lia.
Qed.

Lemma run_batch_results position batch st :
  let st' := run_batch position batch st in
  results st'.1
  = results st.1 ++ imap (λ k a, reported (batch_task (position + k) a).1) batch
  ∧ st'.2 = st.2 ++ imap (λ k a, (batch_task (position + k) a).2) batch
  ∧ (succeeded st'.1 + length (stored_as_sent st.2)
     = succeeded st.1 + length (stored_as_sent st'.2))%nat.
Proof.
  cbn zeta. revert position st. induction batch as [|a batch IH]; intros position st.
  { cbn. rewrite !app_nil_r. repeat split; lia. }
  cbn [MemoSending.run_batch imap].
  destruct (IH (S position) (count_result st (batch_task position a))) as (-> & -> & Hs).
  rewrite Nat.add_0_r.
  assert (Hshift : ∀ {B} (f : nat → BatchAgent → B),
            imap (λ k a, f (S position + k)%nat a) batch
            = imap ((λ k a, f (position + k)%nat a) ∘ S) batch).
  { intros B f. apply imap_ext. intros k x _. cbn. f_equal. lia. }
  rewrite (Hshift _ (λ p a, reported (batch_task p a).1)).
  rewrite (Hshift _ (λ p a, (batch_task p a).2)).
  rewrite (Hshift _ (λ p a, (batch_task p a).2)) in Hs.
  destruct st as [summary records]. unfold count_result in *.
  assert (Hone : (succeeded (count_result (summary, records) (batch_task position a)).1
                  + length (stored_as_sent records)
                  = succeeded summary
                    + length (stored_as_sent (records ++ [(batch_task position a).2])))%nat).
  { unfold stored_as_sent, count_result, MemoSending.batch_task.
    rewrite omap_app, filter_app, length_app.
    destruct (sendClaimMemo _ _ _ _); destruct (insertOne_error position); cbn;
      rewrite ?filter_cons, ?filter_nil; cbn; repeat case_decide; try done; cbn; lia. }
  unfold count_result in Hone.
  destruct (batch_task position a) as [[value|reason] record]; [destruct (success value)|];
    cbn [fst snd results succeeded] in *;
    (split; [by rewrite <-app_assoc|]; split; [by rewrite <-app_assoc|]; lia).
Qed.

(** X26: a batch of memos.  With a concurrency of one or more,
    [sendBatchMemos] returns (within as many rounds as there are
    agents), and what it returns does not depend on the concurrency:
    the total is the number of agents, every agent is counted once, as
    succeeded or as failed, the results are those of the agents in the
    order of the list, one document is stored for each memo whose
    send did not throw and whose insert did not fail, and the memos
    counted as succeeded are exactly those stored with status [sent].
    With a concurrency of zero and at least one agent it never
    returns. *)
Theorem sendBatchMemos_returns (agents : list BatchAgent) :
  (∀ concurrency fuel,
     (1 ≤ concurrency)%nat → (length agents ≤ fuel)%nat →
     ∃ summary records,
       sendBatchMemos fuel agents concurrency = Some (summary, records)
       ∧ total summary = length agents
       ∧ (succeeded summary + MemoSending.failed summary = total summary)%nat
       ∧ results summary = imap (λ p a, reported (batch_task p a).1) agents
       ∧ records = imap (λ p a, (batch_task p a).2) agents
       ∧ succeeded summary = length (stored_as_sent records))
  ∧ (agents ≠ [] → ∀ fuel, sendBatchMemos fuel agents 0 = None).
Proof.
  split.
  - intros concurrency fuel Hc Hfuel. unfold MemoSending.sendBatchMemos.
    rewrite batches_all by lia. rewrite drop_0.
    set (st0 := ({| total := length agents; succeeded := 0; MemoSending.failed := 0;
                    results := [] |}, [])).
    destruct (run_batch_counts 0 agents st0) as (Ht & Hsf & _).
    destruct (run_batch_results 0 agents st0) as (Hr & Hd & Hs).
    destruct (run_batch 0 agents st0) as [summary records]. subst st0.
    unfold stored_as_sent in Hs at 1.
    cbn [fst snd total succeeded MemoSending.failed results app omap filter length] in *.
    change (list_omap _ _ id []) with (@nil BatchRecord) in Hs.
    rewrite filter_nil in Hs. cbn [length] in Hs.
    exists summary, records. repeat split; try done; lia.
  - intros Hne fuel. apply batches_stuck. destruct agents; [done|]. cbn. lia.
Qed.

End BatchFacts.

Section BehaviourExamples.
Import SolanaSignature Store Commands Async ClaimRateLimit ClaimRoutes OrphanRoutes
  MemoSending Notions Behaviour Sample BehaviourSample.

(** X4 at the sample data: the wallet with five failures is blocked on
    the first request of the address. *)
Lemma detectClaimAbuse_verdict_witness :
  ip_counter (env 1000) world_with_failures = Some 1
  ∧ failure_count (env 1000) wallet world_with_failures = Some 5
  ∧ (run (detectClaimAbuse (env 1000) wallet) world_with_failures).1
    = Some (Error 429 "ABUSE_WALLET_BLOCKED").
Proof.
  assert (Hip : ip_counter (env 1000) world_with_failures = Some 1)
    by (vm_compute; reflexivity).
  assert (Hfail : failure_count (env 1000) wallet world_with_failures = Some 5)
    by (vm_compute; reflexivity).
  split; [exact Hip|]. split; [exact Hfail|].
  rewrite (detectClaimAbuse_verdict (env 1000) wallet world_with_failures 1
             eq_refl eq_refl eq_refl Hip).
  rewrite Hfail. reflexivity.
Defined.

(** X5 at the sample data: the first request of the address starts its
    counter, to expire an hour later; a counter at 100 that has no
    expiry blocks the address. *)
Lemma detectClaimAbuse_window_witness :
  redis (run (detectClaimAbuse (env 1000) wallet) empty_world).2 !! ip_key (env 1000)
  = Some {| held := RCounter 1; expireAt := Some 3601000 |}
  ∧ (run (detectClaimAbuse (env 1000) wallet) world_with_busy_address).1
    = Some (Error 429 "ABUSE_IP_BLOCKED").
Proof.
  split.
  - destruct (detectClaimAbuse_window (env 1000) wallet empty_world eq_refl eq_refl)
      as (Hfresh & _).
    apply Hfresh. vm_compute. exact I.
  - destruct (detectClaimAbuse_window (env 1000) wallet world_with_busy_address
                eq_refl eq_refl) as (_ & _ & Hstuck).
    destruct (Hstuck 100) as [Hblocked _]; [vm_compute; reflexivity|discriminate|].
    exact Hblocked.
Defined.


(** X7 at the sample data: the wallet with five failures is turned away
    from the verify route. *)
Lemma wallet_locked_out_witness :
  (run (verifyClaim_route zero_signatures (env 1000) wallet agentId good_signature
          (JsString the_nonce)) world_with_failures).1
  = Error 429 "ABUSE_WALLET_BLOCKED".
Proof.
  generalize (wallet_locked_out (env 1000) wallet
                (verifyClaim zero_signatures (env 1000) wallet agentId good_signature
                   (JsString the_nonce))
                world_with_failures 1 5 eq_refl eq_refl eq_refl).
  unfold verifyClaim_route.
  destruct (run (guarded (env 1000) wallet _) world_with_failures) as [reply w'].
  intros Hlocked.
  destruct Hlocked as (Hreply & _);
    [vm_compute; reflexivity|discriminate|reflexivity|vm_compute; reflexivity|discriminate|].
  exact Hreply.
Defined.

(** X9 at the sample data: the wallet of the UNCLAIMED agent is
    eligible, with 30 days remaining. *)
Lemma check_eligibility_witness :
  (run (check (env 1000) wallet) (world_with UNCLAIMED)).1
  = CheckReply true None (Some agent_id) (Some 30)
  ∧ ¬ opted_out (world_with UNCLAIMED) (to_string wallet)
  ∧ ∃ id a deadline,
      (find_agent (agent_of_wallet (to_string wallet)) (world_with UNCLAIMED)).1
      = Some (id, a)
      ∧ wad_deadline a = Some deadline
      ∧ (30 - 1) * DAY_MS < deadline - 1000 ≤ 30 * DAY_MS.
Proof.
  assert (Hreply : (run (check (env 1000) wallet) (world_with UNCLAIMED)).1
                   = CheckReply true None (Some agent_id) (Some 30))
    by (vm_compute; reflexivity).
  split; [exact Hreply|].
  destruct (check_eligibility (env 1000) wallet (world_with UNCLAIMED) true None
              (Some agent_id) (Some 30) Hreply) as (Heligible & _ & _ & Hdays).
  split; [exact (proj1 (proj1 Heligible eq_refl))|].
  destruct (Hdays 30 eq_refl) as (id & a & deadline & Hfound & Hdeadline & _ & _ & Hbound & _).
  exists id, a, deadline. split; [exact Hfound|]. split; [exact Hdeadline|].
  apply Hbound. rewrite Hfound in Heligible.
  destruct (proj1 Heligible eq_refl) as (_ & id' & a' & Heq & _ & Hahead).
  injection Heq as <- <-. apply Hahead. exact Hdeadline.
Defined.

(** X10 at the sample data: the nonce given at instant 1000 claims the
    agent at instant 2000, and is expired at instant 301000. *)
Lemma claim_nonce_lifetime_witness :
  claimed_reply
    (run (verifyClaim zero_signatures (env 2000) wallet agentId good_signature
            (JsString the_nonce)) world_with_nonce).1
  ∧ (run (verifyClaim zero_signatures (env 301000) wallet agentId good_signature
            (JsString the_nonce)) world_with_nonce).1
    = Error 400 "NONCE_EXPIRED".
Proof.
  assert (Hissue : run (issueClaimNonce (env 1000) wallet agentId) (world_with UNCLAIMED)
                   = (NonceReply the_nonce
                        (generateClaimMessage (to_string agentId) (to_string wallet)
                           the_nonce "2026-02-06T12:00:00.000Z")
                        "2026-02-06T12:00:00.000Z" 300, world_with_nonce))
    by (vm_compute; reflexivity).
  split.
  - destruct (claim_nonce_lifetime zero_signatures (env 1000) (env 2000) wallet agentId
                good_signature (world_with UNCLAIMED) world_with_nonce the_nonce _ _ 300
                agent_id Hissue) as (_ & Hlive & _);
      [reflexivity|discriminate|reflexivity|vm_compute; reflexivity|reflexivity|reflexivity|].
    apply Hlive; [reflexivity|vm_compute; reflexivity].
  - destruct (claim_nonce_lifetime zero_signatures (env 1000) (env 301000) wallet agentId
                good_signature (world_with UNCLAIMED) world_with_nonce the_nonce _ _ 300
                agent_id Hissue) as (_ & _ & Hexpired);
      [reflexivity|discriminate|reflexivity|vm_compute; reflexivity|reflexivity|reflexivity|].
    apply Hexpired. discriminate.
Defined.

(** X11 at the sample data: the nonce given at instant 1000 is refused
    once another one was given at instant 1500. *)
Lemma claim_nonce_reissued_witness :
  (run (verifyClaim zero_signatures (env 2000) wallet agentId good_signature
          (JsString the_nonce)) reissued_world).1
  = Error 400 "NONCE_MISMATCH".
Proof.
  assert (Hfirst : run (issueClaimNonce (env 1000) wallet agentId) (world_with UNCLAIMED)
                   = (NonceReply the_nonce
                        (generateClaimMessage (to_string agentId) (to_string wallet)
                           the_nonce "2026-02-06T12:00:00.000Z")
                        "2026-02-06T12:00:00.000Z" 300, world_with_nonce))
    by (vm_compute; reflexivity).
  assert (Hsecond : run (issueClaimNonce second_env wallet agentId) world_with_nonce
                    = (NonceReply other_nonce (message other_record)
                         "2026-02-06T12:00:01.500Z" 300, reissued_world))
    by (vm_compute; reflexivity).
  generalize (claim_nonce_reissued zero_signatures (env 1000) second_env (env 2000)
                wallet agentId good_signature (world_with UNCLAIMED) world_with_nonce
                reissued_world _ _ _ _ _ _ _ _ Hfirst Hsecond).
  cbv zeta.
  destruct (run (verifyClaim zero_signatures (env 2000) wallet agentId good_signature
                   (JsString the_nonce)) reissued_world) as [reply w'].
  intros Hreissued.
  destruct Hreissued as (Hreply & _);
    [discriminate|discriminate|reflexivity|reflexivity|reflexivity|reflexivity|].
  exact Hreply.
Defined.

(** X12 at the sample data: the claim of the agent is the first of the
    database; it publishes its event and makes the count of claimed
    agents one. *)
Lemma verifyClaim_effects_witness :
  claimed_count world_with_nonce = 0%N
  ∧ claimed_count claimed_world = 1%N
  ∧ published claimed_world = [("AGENT_CLAIMED", agent_id)]
  ∧ User (db claimed_world) = [claimant].
Proof.
  assert (Hcount : claimed_count world_with_nonce = 0%N) by (vm_compute; reflexivity).
  generalize (verifyClaim_effects zero_signatures (env 2000) wallet agentId good_signature
                (JsString the_nonce) world_with_nonce agent_id (agent UNCLAIMED)
                sample_reaches_gate).
  cbv zeta. rewrite sample_claim_run, Hcount. intros Heffects.
  destruct Heffects as (_ & _ & Husers & _ & Hpublished & _ & Hclaimed);
    [vm_compute; reflexivity|vm_compute; reflexivity|].
  split; [reflexivity|]. split; [exact Hclaimed|]. split; [exact Hpublished|].
  exact Husers.
Defined.

(** X13 at the sample data: the opt-out deletes the agent and leaves
    its memo records where they are. *)
Lemma optOut_keeps_records_witness :
  let w' := (run (optOut zero_signatures (env 2000) wallet good_signature
                    (JsString the_nonce)) world_day_29_optout_nonce).2 in
  Agent (db w') !! agent_id = None
  ∧ sent_memo 0 "AGENT_CREATED" ∈ wallet_agent_notifications (db w').
Proof.
  cbv zeta.
  assert (Hrun :
    run (optOut zero_signatures (env 2000) wallet good_signature (JsString the_nonce))
      world_day_29_optout_nonce
    = (OptOutReply (to_string wallet) 2000,
       (run (optOut zero_signatures (env 2000) wallet good_signature (JsString the_nonce))
          world_day_29_optout_nonce).2))
    by (vm_compute; reflexivity).
  split; [vm_compute; reflexivity|].
  destruct (optOut_keeps_records zero_signatures (env 2000) wallet good_signature
              (JsString the_nonce) world_day_29_optout_nonce _ _ _ Hrun) as (Hmemos & _).
  apply Hmemos.
  assert (Hrecords : wallet_agent_notifications (db world_day_29_optout_nonce)
                     = wallet_agent_notifications (db world_day_29))
    by (vm_compute; reflexivity).
  rewrite Hrecords. left.
Defined.

(** X14 at the sample data: once the wallet has opted out, and an agent
    was created for it again, it is refused another opt-out nonce. *)
Lemma opt_out_only_once_witness :
  let later := foldl (happen zero_signatures) opted_out_world subject_created_again in
  run (optOutNonce (env 4000) wallet) later = (Error 409 "ALREADY_OPTED_OUT", later).
Proof.
  cbv zeta.
  assert (Hrun :
    run (optOut_route zero_signatures (env 2000) wallet good_signature
           (JsString the_nonce)) world_with_agent_optout_nonce
    = (OptOutReply (to_string wallet) 2000, opted_out_world))
    by (vm_compute; reflexivity).
  destruct (opt_out_only_once zero_signatures (env 2000) (env 4000) wallet good_signature
              (JsString the_nonce) good_signature (JsString the_nonce)
              world_with_agent_optout_nonce opted_out_world (to_string wallet) 2000
              subject_created_again Hrun) as (Hnonce & _).
  apply Hnonce. reflexivity.
Defined.

(** X17 at the sample data: an agent on its 29th day for which nothing
    is recorded is sent the seven templates in one run. *)
Lemma processNotifications_catches_up_witness :
  dispatched_for agent_id
    (ClaimNotifications.processNotifications always_confirmed Sample.short_date false
       day_29 (world_with UNCLAIMED)).1.2
  = [ (agent_id, "AGENT_CREATED"); (agent_id, "WEEK_1_UPDATE");
      (agent_id, "HALFWAY_WARNING"); (agent_id, "NINE_DAYS_LEFT");
      (agent_id, "FIVE_DAYS_LEFT"); (agent_id, "TWO_DAYS_LEFT");
      (agent_id, "FINAL_DAY") ].
Proof.
  generalize (processNotifications_catches_up always_confirmed Sample.short_date false
                day_29 (world_with UNCLAIMED) agent_id (agent UNCLAIMED)).
  assert (Hbelow :
    (ClaimNotifications.sent
       (ClaimNotifications.processNotifications always_confirmed Sample.short_date false
          day_29 (world_with UNCLAIMED)).1.1 < ClaimNotifications.MAX_SENDS_PER_HOUR)%nat)
    by (apply Nat.ltb_lt; vm_compute; reflexivity).
  destruct (ClaimNotifications.processNotifications always_confirmed Sample.short_date
              false day_29 (world_with UNCLAIMED)) as [[summary dispatched] w'].
  cbn [fst snd] in *. intros Hdue.
  rewrite Hdue; [|vm_compute; reflexivity|reflexivity|reflexivity|exact Hbelow].
  vm_compute. reflexivity.
Defined.

(** X19 at the sample data: a second run on day 29 sends nothing. *)
Lemma processNotifications_twice_witness :
  (ClaimNotifications.processNotifications always_confirmed Sample.short_date false day_29
     (ClaimNotifications.processNotifications always_confirmed Sample.short_date false
        day_29 world_day_29).2).1.2
  = [].
Proof.
  generalize (processNotifications_twice always_confirmed always_confirmed
                Sample.short_date Sample.short_date false false day_29 day_29 world_day_29).
  assert (Hbelow :
    (ClaimNotifications.sent
       (ClaimNotifications.processNotifications always_confirmed Sample.short_date false
          day_29 world_day_29).1.1 < ClaimNotifications.MAX_SENDS_PER_HOUR)%nat)
    by (apply Nat.ltb_lt; vm_compute; reflexivity).
  destruct (ClaimNotifications.processNotifications always_confirmed Sample.short_date
              false day_29 world_day_29) as [[summary1 dispatched1] w1].
  cbn [fst snd] in *.
  destruct (ClaimNotifications.processNotifications always_confirmed Sample.short_date
              false day_29 w1) as [[summary2 dispatched2] w2].
  cbn [fst snd]. intros Htwice.
  destruct Htwice as (Hnone & _);
    [intros calls address id url; exists "5XzSig"; reflexivity
    |intros id a s _ _ Hdue; exact Hdue
    |exact Hbelow|].
  exact Hnone.
Defined.

(** X22 at the sample data: the user of the claim asks to adopt, and is
    told that the limit is reached. *)
Lemma claimant_cannot_adopt_witness :
  ∃ current limit tier,
    run (adopt none_deleted (env 3000) claimant "6612f1a2b3c4d5e6f7890abc") claimed_world
    = (LimitReached current limit tier, claimed_world)
    ∧ (limit ≤ 1 ≤ current)%N.
Proof.
  apply (claimant_cannot_adopt none_deleted zero_signatures (env 2000) (env 3000) wallet
           agentId good_signature (JsString the_nonce) world_with_nonce claimed_world
           agent_id 1000%N (Some 1%N) claimant "6612f1a2b3c4d5e6f7890abc"
           sample_claim_run).
  - reflexivity.
  - right. right. left.
  - reflexivity.
  - reflexivity.
  - exists agent_id. vm_compute. reflexivity.
Defined.

(** X24 at the sample data: the sweep of day 31 orphans the agent and
    notifies its watcher. *)
Lemma processOrphanTransitions_notifies_watcher_witness :
  agent_status orphaned_world agent_id = Some ORPHANED
  ∧ orphan_watchlist (db orphaned_world) !! 7%N
    = Some (OrphanTransition.set_notified day_31 the_watcher)
  ∧ OrphanTransition.orphan_notice day_31 agent_id (agent UNCLAIMED) the_watcher
    ∈ wallet_agent_notifications (db orphaned_world).
Proof.
  destruct (processOrphanTransitions_notifies_watcher never_broken true day_31
              world_with_watcher agent_id (agent UNCLAIMED) 7%N the_watcher)
    as (_ & Horphaned & Hnotified & _);
    [vm_compute; reflexivity|vm_compute; reflexivity|vm_compute; reflexivity
    |reflexivity|discriminate|reflexivity|reflexivity|].
  split; [exact Horphaned|].
  apply Hnotified; reflexivity.
Defined.

(** X25 at the sample data: the agent is claimed, and neither the
    sweep nor a request for adoption changes that. *)
Lemma claim_status_lifecycle_witness :
  let w' := foldl (perform zero_signatures) (world_with UNCLAIMED) claimed_then_swept in
  agent_status w' agent_id = Some CLAIMED
  ∧ ∀ id a', Agent (db w') !! id = Some a' →
             ∃ a, Agent (db (world_with UNCLAIMED)) !! id = Some a
                  ∧ status_moves (wad_status a) (wad_status a').
Proof.
  cbv zeta. split; [vm_compute; reflexivity|].
  apply (proj1 (claim_status_lifecycle zero_signatures claimed_then_swept
                  (world_with UNCLAIMED)
                  ltac:(repeat constructor))).
Defined.

(** X20 at the sample data: the memo for the wallet of the sample is
    submitted whole, and confirmed. *)
Lemma sendClaimMemo_valid_wallet_witness :
  sendClaimMemo treasury_key keypair_of "" "Invalid public key input" always_lands
    0 (to_string wallet) agent_id (ClaimNotifications.claim_url (to_string wallet))
  = ClaimNotifications.Confirmed "5XzSig".
Proof.
  destruct (proj2 (sendClaimMemo_valid_wallet treasury_key keypair_of ""
                     "Invalid public key input" always_lands)
              0%nat (to_string wallet) agent_id
              (default [] (bs58_decode "GaTjJs756Urcsjs7ia8HYm3eiBNbBAHFAS7fLsSNVxus")))
    as (key & _ & _ & _ & Hsent);
    [vm_compute; reflexivity|vm_compute; reflexivity|].
  rewrite Hsent. reflexivity.
Defined.

(** X21 at the sample data: the agent orphaned on day 31 is adopted by
    the user on the pro tier. *)
Lemma adopt_only_orphaned_witness :
  (run (adopt none_deleted (env 3000) adopter "6612f1a2b3c4d5e6f7890abc") orphaned_world).1
  = AdoptedReply agent_id 3000
  ∧ status_of
      (run (adopt none_deleted (env 3000) adopter "6612f1a2b3c4d5e6f7890abc")
         orphaned_world).2 agent_id
    = Some ADOPTED.
Proof.
  assert (Hreply :
    (run (adopt none_deleted (env 3000) adopter "6612f1a2b3c4d5e6f7890abc")
       orphaned_world).1 = AdoptedReply agent_id 3000) by (vm_compute; reflexivity).
  split; [exact Hreply|].
  generalize (adopt_only_orphaned none_deleted (env 3000) adopter
                "6612f1a2b3c4d5e6f7890abc" orphaned_world).
  destruct (run (adopt none_deleted (env 3000) adopter "6612f1a2b3c4d5e6f7890abc")
              orphaned_world) as [reply w'].
  cbn [fst snd] in *. intros [Hadopted _].
  destruct (Hadopted agent_id 3000 Hreply) as (a & _ & _ & _ & _ & _ & _ & Hstatus & _).
  exact Hstatus.
Defined.

(** X23 at the sample data: the user watches the agent, and stops
    watching it. *)
Lemma watch_then_unwatch_witness :
  let watched := run (watch (env 1000) adopter "6612f1a2b3c4d5e6f7890abc")
                   (world_with UNCLAIMED) in
  watched.1 = WatchReply false
  ∧ orphan_watchlist
      (db (run (unwatch (env 2000) adopter "6612f1a2b3c4d5e6f7890abc") watched.2).2)
    = orphan_watchlist (db (world_with UNCLAIMED)).
Proof.
  cbv zeta.
  assert (Hreply :
    (run (watch (env 1000) adopter "6612f1a2b3c4d5e6f7890abc") (world_with UNCLAIMED)).1
    = WatchReply false) by (vm_compute; reflexivity).
  split; [exact Hreply|].
  generalize (watch_then_unwatch (env 1000) (env 2000) adopter
                "6612f1a2b3c4d5e6f7890abc" (world_with UNCLAIMED)).
  destruct (run (watch (env 1000) adopter "6612f1a2b3c4d5e6f7890abc")
              (world_with UNCLAIMED)) as [reply w'].
  cbn [fst snd] in *. intros [Hwatched _].
  destruct (Hwatched false Hreply) as (id & a & _ & _ & _ & _ & _ & _ & _ & Hunwatch).
  specialize (Hunwatch eq_refl eq_refl ltac:(vm_compute; reflexivity)).
  destruct (run (unwatch (env 2000) adopter "6612f1a2b3c4d5e6f7890abc") w')
    as [reply' w''].
  exact (proj2 Hunwatch).
Defined.

(** X26 at the sample data: of three memos sent two at a time, the
    first one succeeds, the second is rejected and the third is sent
    but not stored: one is counted as succeeded, two as failed, and two
    documents are stored. *)
Lemma sendBatchMemos_returns_witness :
  ∃ summary records,
    sendBatchMemos second_rejected third_insert_fails at_noon 3 batch_of_three 2
    = Some (summary, records)
    ∧ succeeded summary = 1%nat ∧ MemoSending.failed summary = 2%nat
    ∧ length (omap id records) = 2%nat.
Proof.
  destruct (proj1 (sendBatchMemos_returns second_rejected third_insert_fails at_noon
                     batch_of_three) 2%nat 3%nat)
    as (summary & records & Hrun & Htotal & Hcounted & _ & Hrecords & Hsucceeded);
    [repeat constructor|repeat constructor|].
  exists summary, records. split; [exact Hrun|].
  assert (Hstored : length (stored_as_sent records) = 1%nat
                    ∧ length (omap id records) = 2%nat).
  { rewrite Hrecords. vm_compute. split; reflexivity. }
  destruct Hstored as [Hone Htwo]. rewrite Hone in Hsucceeded.
  split; [exact Hsucceeded|]. split; [|exact Htwo].
  rewrite Htotal, Hsucceeded in Hcounted. cbn in Hcounted. lia.
Defined.

End BehaviourExamples.
